(** * Win32 path handling of libgit2 (src/win32/path_w32.c)

    A shallow embedding of the path canonicaliser, the UTF-8 bridge, the
    reparse-point reader and the directory loader, with the properties
    the design document states about them.

    Wide strings are lists of code units ([Z]); a [git_win32_path] is a
    buffer (a list of cells) holding a NUL-terminated string, and a C
    pointer into it is an index ([nat]). *)

From Stdlib Require Import ZArith Lia Bool String Ascii.
From stdpp Require Import base list.

Local Open Scope Z_scope.

(** ** Code units and buffers *)

(** A wide character ([wchar_t]) is a code unit. *)
Abbreviation wchar := Z.

Definition NUL   : wchar := 0.
Definition SLASH : wchar := 47.  (* '/'  *)
Definition BSLASH : wchar := 92. (* '\\' *)
Definition DOT   : wchar := 46.  (* '.'  *)
Definition COLON : wchar := 58.  (* ':'  *)
Definition QMARK : wchar := 63.  (* '?'  *)

(** A literal, for readable examples: one code unit per character. *)
Fixpoint wstr (s : string) : list wchar :=
  match s with
  | EmptyString => []
  | String a s' => Z.of_N (N_of_ascii a) :: wstr s'
  end.

(** A buffer holding the C string [s]: the characters, then the
    terminator. *)
Definition cstr (s : string) : list wchar := wstr s ++ [NUL].

(** The cell [buf[i]]; a cell outside the modelled storage reads as the
    terminator. *)
Definition rd (buf : list wchar) (i : nat) : wchar := default NUL (buf !! i).

(** [wcslen]. *)
Fixpoint wcslen (l : list wchar) : nat :=
  match l with
  | [] => O
  | c :: l' => if c =? NUL then O else S (wcslen l')
  end.

(** The string a buffer holds. *)
Definition str_of (buf : list wchar) : list wchar := take (wcslen buf) buf.

(** [wcsncmp(a, b, n)], on the suffixes the two pointers designate. *)
Fixpoint wcsncmp (a b : list wchar) (n : nat) : Z :=
  match n with
  | O => 0
  | S n' =>
    let ca := hd NUL a in
    let cb := hd NUL b in
    if ca =? cb then (if ca =? NUL then 0 else wcsncmp (tl a) (tl b) n')
    else ca - cb
  end.

(** [memmove(buf + dst, buf + src, len)]: the source range is read before
    anything is written. *)
Definition memmove (buf : list wchar) (dst src len : nat) : list wchar :=
  take dst buf ++ take len (drop src buf) ++ drop (dst + len) buf.

(** ** Prefix classification *)

(** Modelled from the spec: [git__isalpha] is declared outside this file;
    the drive-absolute pattern is "letter, colon, separator", the letter
    being an ASCII letter. *)
Definition git__isalpha (c : wchar) : bool :=
  ((65 <=? c) && (c <=? 90)) || ((97 <=? c) && (c <=? 122)).

Definition PATH__NT_NAMESPACE : list wchar := [BSLASH; BSLASH; QMARK; BSLASH].
Definition PATH__NT_NAMESPACE_LEN : nat := 4.
Definition PATH__ABSOLUTE_LEN : nat := 3.
Definition UNC_MARK : list wchar := [85; 78; 67; BSLASH]. (* L"UNC\\" *)

Definition path__is_dirsep (c : wchar) : bool := (c =? SLASH) || (c =? BSLASH).

Definition path__is_absolute (buf : list wchar) (p : nat) : bool :=
  git__isalpha (rd buf p) && (rd buf (p + 1) =? COLON) &&
  ((rd buf (p + 2) =? BSLASH) || (rd buf (p + 2) =? SLASH)).

Definition path__is_nt_namespace (buf : list wchar) (p : nat) : bool :=
  ((rd buf p =? BSLASH) && (rd buf (p + 1) =? BSLASH) &&
   (rd buf (p + 2) =? QMARK) && (rd buf (p + 3) =? BSLASH)) ||
  ((rd buf p =? SLASH) && (rd buf (p + 1) =? SLASH) &&
   (rd buf (p + 2) =? QMARK) && (rd buf (p + 3) =? SLASH)).

Definition path__is_unc (buf : list wchar) (p : nat) : bool :=
  ((rd buf p =? BSLASH) && (rd buf (p + 1) =? BSLASH)) ||
  ((rd buf p =? SLASH) && (rd buf (p + 1) =? SLASH)).

(** The [for (c = path; *c; c++)] scan of [path__skip_server], as the
    distance it travels over the cells [c] points at. *)
Fixpoint skip_server_off (l : list wchar) : nat :=
  match l with
  | [] => O
  | c :: l' =>
    if c =? NUL then O
    else if path__is_dirsep c then 1%nat
    else S (skip_server_off l')
  end.

Definition path__skip_server (buf : list wchar) (path : nat) : nat :=
  (path + skip_server_off (drop path buf))%nat.

Definition path__skip_prefix (buf : list wchar) (path : nat) : nat :=
  if path__is_nt_namespace buf path then
    let path := (path + PATH__NT_NAMESPACE_LEN)%nat in
    if wcsncmp (drop path buf) UNC_MARK 4 =? 0 then
      path__skip_server buf (path + 4)
    else if path__is_absolute buf path then
      (path + PATH__ABSOLUTE_LEN)%nat
    else path
  else if path__is_absolute buf path then
    (path + PATH__ABSOLUTE_LEN)%nat
  else if path__is_unc buf path then
    path__skip_server buf (path + 2)
  else path.

(** ** Canonicalisation *)

(** The four cursors of [git_win32_path_canonicalize] over the buffer. *)
Record canon_state := CanonState {
  cs_buf  : list wchar;
  cs_base : nat;
  cs_from : nat;
  cs_to   : nat;
}.

(** "Unposixify" the prefix: [for (from = path; from < to; from++)]. *)
Fixpoint unposix_prefix (n : nat) (buf : list wchar) (from : nat) : list wchar :=
  match n with
  | O => buf
  | S n' =>
    unposix_prefix n'
      (if rd buf from =? SLASH then <[from := BSLASH]> buf else buf) (S from)
  end.

(** The inner [for (next = from; *next; ++next)] scan: how far [next]
    travels before it stops at a separator or at the terminator. *)
Fixpoint seg_len (l : list wchar) : nat :=
  match l with
  | [] => O
  | c :: l' =>
    if c =? NUL then O
    else if c =? SLASH then O
    else if c =? BSLASH then O
    else S (seg_len l')
  end.

(** The loop that steps [from] over a run of backslashes. *)
Fixpoint skip_bslash (l : list wchar) : nat :=
  match l with
  | [] => O
  | c :: l' => if c =? BSLASH then S (skip_bslash l') else O
  end.

(** [while (to > base && P(to[-1])) to--;] *)
Fixpoint back_while (P : wchar -> bool) (buf : list wchar) (base to : nat) : nat :=
  match to with
  | O => O
  | S t =>
    if (base <? to)%nat && P (rd buf t) then back_while P buf base t else to
  end.

Definition is_bslash (c : wchar) : bool := c =? BSLASH.
Definition not_bslash (c : wchar) : bool := negb (c =? BSLASH).

(** One turn of the main loop (the one that runs while [from] points
    at a character). *)
Definition canon_step (st : canon_state) : canon_state :=
  let from := cs_from st in
  let to := cs_to st in
  let base := cs_base st in
  let next := (from + seg_len (drop from (cs_buf st)))%nat in
  let buf := if rd (cs_buf st) next =? SLASH
             then <[next := BSLASH]> (cs_buf st) else cs_buf st in
  let len := (next - from)%nat in
  let '(buf, base, to, len) :=
    if (len =? 1)%nat && (rd buf from =? DOT) then
      (buf, base, to, len)
    else if (len =? 2)%nat && (rd buf from =? DOT) && (rd buf (from + 1) =? DOT) then
      if (to =? base)%nat then
        let len := if rd buf next =? BSLASH then S len else len in
        (buf, to, to, len)
      else
        let to := back_while is_bslash buf base to in
        let to := back_while not_bslash buf base to in
        (buf, base, to, len)
    else
      let len := if (rd buf next =? BSLASH) && negb (rd buf from =? BSLASH)
                 then S len else len in
      let buf := if negb (to =? from)%nat then memmove buf to from len else buf in
      (buf, base, (to + len)%nat, len) in
  let from := (from + len)%nat in
  let from := (from + skip_bslash (drop from buf))%nat in
  CanonState buf base from to.

(** The main loop; [None] when the turns allowed run out
    before the terminator is reached. *)
Fixpoint canon_loop (fuel : nat) (st : canon_state) : option canon_state :=
  if rd (cs_buf st) (cs_from st) =? NUL then Some st
  else match fuel with
       | O => None
       | S fuel' => canon_loop fuel' (canon_step st)
       end.

(** [git_win32_path_canonicalize]: the rewritten buffer and the returned
    length. *)
Definition git_win32_path_canonicalize (path : list wchar) : option (list wchar * Z) :=
  let base := path__skip_prefix path 0 in
  let buf := unposix_prefix base path 0 in
  match canon_loop (length path) (CanonState buf base base base) with
  | None => None
  | Some st =>
    let to := back_while is_bslash (cs_buf st) (cs_base st) (cs_to st) in
    Some (<[to := NUL]> (cs_buf st), Z.of_nat to)
  end.

(** ** The host: converters, constants and system calls

    The UTF converters, the buffer capacities and the Win32 calls live
    outside this file; the functions below take them from an environment
    and make no assumption about them. *)

Inductive errno_t :=
  | ENOENT | EACCES | ENAMETOOLONG | EINVAL
  | ECONV. (* whatever a failed converter left in errno *)

(** A call that returns a negative value and sets [errno], or succeeds. *)
Inductive result (A : Type) :=
  | Ok (a : A)
  | Fail (e : errno_t).
Arguments Ok {A} a.
Arguments Fail {A} e.

(** The two views of the name part of a reparse data block. *)
Record reparse_names := ReparseNames {
  SubstituteNameOffset : Z;  (* in bytes *)
  SubstituteNameLength : Z;  (* in bytes *)
  PathBuffer : list wchar;
}.

Record GIT_REPARSE_DATA_BUFFER := ReparseData {
  ReparseTag : Z;
  SymbolicLinkReparseBuffer : reparse_names;
  MountPointReparseBuffer : reparse_names;
}.

Definition IO_REPARSE_TAG_SYMLINK : Z := 0xA000000C.
Definition IO_REPARSE_TAG_MOUNT_POINT : Z := 0xA0000003.

(** What [CreateFileW] followed by [DeviceIoControl] finds at a path. *)
Inductive reparse_query :=
  | INVALID_HANDLE_VALUE                      (* the open fails *)
  | IoctlFails                                (* opened, the query fails *)
  | IoctlGives (r : GIT_REPARSE_DATA_BUFFER). (* opened, block read *)

(** [WIN32_FIND_DATAW], the fields the loader reads. *)
Record WIN32_FIND_DATAW := FindData {
  dwFileAttributes : Z;
  ftCreationTime : Z;
  ftLastAccessTime : Z;
  ftLastWriteTime : Z;
  nFileSizeHigh : Z;
  nFileSizeLow : Z;
  cFileName : list wchar;  (* a NUL-terminated buffer *)
}.

(** What the successive [FindNextFileW] calls on one handle deliver:
    entries, then a failure whose [GetLastError] code is recorded. *)
Inductive find_stream :=
  | FindEnd (last_error : Z)
  | FindEntry (f : WIN32_FIND_DATAW) (rest : find_stream).

Record win32_env := Win32Env {
  (* The converters read a NUL-terminated source, so they are functions
     of the string it holds.
     git__utf8_to_16(dest, dest_size, src): the units stored (a
     terminator follows them), or failure *)
  git__utf8_to_16 : Z -> list Z -> option (list wchar);
  (* git__utf16_to_8(dest, dest_size, src) *)
  git__utf16_to_8 : Z -> list wchar -> option (list Z);
  (* git_win32__canonicalize_path(str, len): the cells at str afterwards
     and the new length *)
  git_win32__canonicalize_path : list wchar -> Z -> list wchar * Z;
  (* git_win32__findfirstfile_filter(pathw, path) *)
  git_win32__findfirstfile_filter : list Z -> option (list wchar);
  filetime_to_time_t : Z -> Z;
  GIT_WIN_PATH_UTF16 : Z;
  GIT_WIN_PATH_UTF8 : Z;
  (* GetCurrentDirectoryW(size, path): the returned count and the
     characters stored (a terminator follows them) *)
  GetCurrentDirectoryW : Z -> Z * list wchar;
  GetLastError : Z;
  reparse_at : list wchar -> reparse_query;
  FindFirstFileExW : list wchar -> option (WIN32_FIND_DATAW * find_stream);
  _getdrive : Z;
}.

Definition MAX_PATH : Z := 260.
Definition ERROR_ACCESS_DENIED : Z := 5.
Definition ERROR_NO_MORE_FILES : Z := 18.

(** [memcpy(buf + pos, data, |data|)], and what a converter does when it
    stores its output at [buf + pos]. *)
Definition store {A} (buf : list A) (pos : nat) (data : list A) : list A :=
  take pos buf ++ data ++ drop (pos + length data) buf.

(** [size_t] arithmetic (64-bit). *)
Definition size_t_of (z : Z) : Z := z mod 2 ^ 64.

(** [(int)z]: what a value becomes when it is passed for a 32-bit
    [int]. *)
Definition int_of (z : Z) : Z := (z + 2 ^ 31) mod 2 ^ 32 - 2 ^ 31.

(** [strlen] on byte strings; same shape as the wide one. *)
Definition strlen (l : list Z) : nat := wcslen l.

(** Modelled from the spec: [git__strncmp] is declared outside this
    file; it is the "case-sensitive" comparison of at most [sz]
    characters. *)
Definition git__strncmp (a b : list Z) (sz : Z) : Z := wcsncmp a b (Z.to_nat sz).

(** Modelled from the spec: [git__tolower] and [git__strncasecmp] are
    declared outside this file; the comparison is "case-insensitive",
    selected by a flag. *)
Definition git__tolower (c : Z) : Z :=
  if (65 <=? c) && (c <=? 90) then c + 32 else c.

Fixpoint strncasecmp_nat (a b : list Z) (n : nat) : Z :=
  match n with
  | O => 0
  | S n' =>
    let ca := git__tolower (hd 0 a) in
    let cb := git__tolower (hd 0 b) in
    if ca =? cb then (if ca =? 0 then 0 else strncasecmp_nat (tl a) (tl b) n')
    else ca - cb
  end.

Definition git__strncasecmp (a b : list Z) (sz : Z) : Z :=
  strncasecmp_nat a b (Z.to_nat sz).

(** Modelled from the spec: [git_path_mkposix] is declared outside this
    file; it normalises separators "to the portable form". *)
Definition git_path_mkposix (path : list Z) : list Z :=
  (fun c => if c =? BSLASH then SLASH else c) <$> path.

(** Modelled from the spec: [git_path_is_dot_or_dotdotW] is declared
    outside this file; the lister "skips ./..". *)
Definition git_path_is_dot_or_dotdotW (name : list wchar) : bool :=
  (rd name 0 =? DOT) &&
  ((rd name 1 =? NUL) || ((rd name 1 =? DOT) && (rd name 2 =? NUL))).

Section Bridge.
Variable E : win32_env.

(** ** Current directory *)

(** [path__cwd(path, size)]: the buffer afterwards and the length. *)
Definition path__cwd (path : list wchar) (size : Z) : result (list wchar * Z) :=
  let '(len, dir) := GetCurrentDirectoryW E size in
  if len =? 0 then
    Fail (if GetLastError E =? ERROR_ACCESS_DENIED then EACCES else ENOENT)
  else if len >? size then Fail ENAMETOOLONG
  else
    let path := store path 0 (dir ++ [NUL]) in
    if negb (wcsncmp path PATH__NT_NAMESPACE PATH__NT_NAMESPACE_LEN =? 0)
    then Ok (path, len)
    else
      let len := len - Z.of_nat PATH__NT_NAMESPACE_LEN in
      Ok (memmove path 0 PATH__NT_NAMESPACE_LEN (Z.to_nat len), len).

(** [git_win32_path__cwd(out, len)]; [len] is a [size_t], and
    [path__cwd] takes it as an [int]. *)
Definition git_win32_path__cwd (out : list wchar) (len : Z) : result (list wchar * Z) :=
  match path__cwd out (int_of len) with
  | Fail e => Fail e
  | Ok (out, cwd_len) =>
    if wcsncmp [BSLASH; BSLASH] out 2 =? 0 then
      if cwd_len >? MAX_PATH - 4 then Fail ENAMETOOLONG
      else
        let out := memmove out 2 0 (Z.to_nat cwd_len) in
        let out := <[0%nat := 85]> out in
        let out := <[1%nat := 78]> out in
        let out := <[2%nat := 67]> out in
        Ok (out, cwd_len + 2)
    else if cwd_len >? MAX_PATH - 2 then Fail ENAMETOOLONG
    else Ok (out, cwd_len)
  end.

(** ** Text to native and back *)

(** A converter call that stores at [out + dest]. *)
Definition utf8_to_16_at (out : list wchar) (dest : nat) (size : Z) (src : list Z)
  : result (list wchar) :=
  match git__utf8_to_16 E size (str_of src) with
  | None => Fail ECONV
  | Some w => Ok (store out dest (w ++ [NUL]))
  end.

(** [git_win32_path_from_utf8(out, src)]: the buffer and the length. *)
Definition git_win32_path_from_utf8 (out : list wchar) (src : list Z)
  : result (list wchar * Z) :=
  let out := store out 0 PATH__NT_NAMESPACE in
  let dest := PATH__NT_NAMESPACE_LEN in
  let converted : result (list wchar) :=
    if path__is_absolute src 0 then
      utf8_to_16_at out dest MAX_PATH src
    else if path__is_nt_namespace src 0 then
      utf8_to_16_at out dest MAX_PATH (drop PATH__NT_NAMESPACE_LEN src)
    else if path__is_unc src 0 then
      let out := store out dest UNC_MARK in
      let dest := (dest + 4)%nat in
      utf8_to_16_at out dest (MAX_PATH - 2) (drop 2 src)
    else if (rd src 0 =? BSLASH) || (rd src 0 =? SLASH) then
      match path__cwd (drop dest out) MAX_PATH with
      | Fail e => Fail e
      | Ok (cells, _) =>
        let out := take dest out ++ cells in
        if negb (path__is_absolute out dest) then Fail ENOENT
        else utf8_to_16_at out (dest + 2) (MAX_PATH - 2) src
      end
    else
      match git_win32_path__cwd (drop dest out) MAX_PATH with
      | Fail e => Fail e
      | Ok (cells, cwd_len) =>
        let out := take dest out ++ cells in
        let out := <[(dest + Z.to_nat cwd_len)%nat := BSLASH]> out in
        let cwd_len := cwd_len + 1 in
        utf8_to_16_at out (dest + Z.to_nat cwd_len) (MAX_PATH - cwd_len) src
      end in
  match converted with
  | Fail e => Fail e
  | Ok out =>
    match git_win32_path_canonicalize out with
    | Some r => Ok r
    | None => Fail ECONV (* the loop ran out of turns; shown impossible *)
    end
  end.

(** [git_win32_path_to_utf8(dest, src)]: the string left in [dest] and
    the returned length. *)
Definition git_win32_path_to_utf8 (src : list wchar) : result (list Z * Z) :=
  let '(src, lead) :=
    if path__is_nt_namespace src 0 then
      let src := drop 4 src in
      if wcsncmp src UNC_MARK 4 =? 0 then (drop 4 src, [BSLASH; BSLASH])
      else (src, [])
    else (src, []) in
  match git__utf16_to_8 E (GIT_WIN_PATH_UTF8 E) (str_of src) with
  | None => Fail ECONV
  | Some out => Ok (git_path_mkposix (lead ++ out), Z.of_nat (length out))
  end.

(** ** Reparse points *)

Definition VOLUME_MARK : list wchar := wstr "\??\Volume{".

Definition path_is_volume (target : list wchar) (target_len : Z) : bool :=
  negb (target_len =? 0) && (wcsncmp target VOLUME_MARK 11 =? 0).

(** What one call of [git_win32_path_readlink_w] leaves behind. *)
Record readlink_out := ReadlinkOut {
  rl_ret : Z;                     (* the returned value *)
  rl_errno : option errno_t;      (* errno, when the call sets it *)
  rl_dest : list wchar;           (* the destination buffer *)
}.

Definition sizeof_WCHAR : Z := 2.

(** The [switch] on the tag: the view of the block the target is read
    from, if the tag is one of the two the function knows. *)
Definition reparse_names_of (reparse_buf : GIT_REPARSE_DATA_BUFFER)
  : option reparse_names :=
  if ReparseTag reparse_buf =? IO_REPARSE_TAG_SYMLINK
  then Some (SymbolicLinkReparseBuffer reparse_buf)
  else if ReparseTag reparse_buf =? IO_REPARSE_TAG_MOUNT_POINT
  then Some (MountPointReparseBuffer reparse_buf)
  else None.

(** [target]: the cells the pointer into [PathBuffer] designates. *)
Definition target_of (nb : reparse_names) : list wchar :=
  drop (Z.to_nat (SubstituteNameOffset nb / sizeof_WCHAR)) (PathBuffer nb).

Definition target_len_of (nb : reparse_names) : Z :=
  SubstituteNameLength nb / sizeof_WCHAR.

Definition git_win32_path_readlink_w (dest : list wchar) (path : list wchar)
  : readlink_out :=
  let error := -1 in
  match reparse_at E path with
  | INVALID_HANDLE_VALUE => ReadlinkOut (-1) (Some ENOENT) dest
  | IoctlFails => ReadlinkOut error (Some EINVAL) dest
  | IoctlGives reparse_buf =>
    match reparse_names_of reparse_buf with
    | None => ReadlinkOut error (Some EINVAL) dest
    | Some nb =>
      let target := target_of nb in
      let target_len := target_len_of nb in
      if path_is_volume target target_len then
        ReadlinkOut (-1) (Some EINVAL) dest
      else if negb (target_len =? 0) then
        let '(target, target_len) :=
          git_win32__canonicalize_path E target target_len in
        if GIT_WIN_PATH_UTF16 E >? target_len then
          ReadlinkOut target_len None (store dest 0 (str_of target ++ [NUL]))
        else ReadlinkOut error None dest
      else ReadlinkOut error None dest
    end
  end.

(** ** Directory loading *)

(** Modelled from the spec: the flag that selects the case-insensitive
    comparison is declared outside this file; it is taken to be bit 0. *)
Definition GIT_PATH_DIR_IGNORE_CASE : Z := 1.
Definition PATH__MAX_UNC_LEN : Z := 32767.

Definition FILE_ATTRIBUTE_READONLY : Z := 0x1.
Definition FILE_ATTRIBUTE_DIRECTORY : Z := 0x10.
Definition FILE_ATTRIBUTE_REPARSE_POINT : Z := 0x400.

Definition S_IFMT : Z := 0xF000.
Definition S_IFDIR : Z := 0x4000.
Definition S_IFREG : Z := 0x8000.
Definition S_IFLNK : Z := 0xA000.
Definition S_IREAD : Z := 0x100.
Definition S_IWRITE : Z := 0x80.

Definition S_ISDIR (m : Z) : bool := Z.land m S_IFMT =? S_IFDIR.
Definition S_ISREG (m : Z) : bool := Z.land m S_IFMT =? S_IFREG.
Definition S_ISLNK (m : Z) : bool := Z.land m S_IFMT =? S_IFLNK.

Record git_stat := Stat {
  st_atime : Z; st_ctime : Z; st_mtime : Z;
  st_size : Z;
  st_dev : Z; st_rdev : Z;
  st_mode : Z;
  st_ino : Z; st_gid : Z; st_uid : Z; st_nlink : Z;
}.

Record git_path_with_stat := PathWithStat {
  st : git_stat;
  path_len : Z;
  path : list Z;   (* the cells of the flexible array *)
}.

(** The name an entry carries: the first [path_len] cells. *)
Definition ps_name (ps : git_path_with_stat) : list Z :=
  take (Z.to_nat (path_len ps)) (path ps).

Definition set_mode (s : git_stat) (m : Z) : git_stat :=
  Stat (st_atime s) (st_ctime s) (st_mtime s) (st_size s) (st_dev s)
       (st_rdev s) m (st_ino s) (st_gid s) (st_uid s) (st_nlink s).

Definition set_size (s : git_stat) (z : Z) : git_stat :=
  Stat (st_atime s) (st_ctime s) (st_mtime s) z (st_dev s)
       (st_rdev s) (st_mode s) (st_ino s) (st_gid s) (st_uid s) (st_nlink s).

(** The 64-bit signed [st_size]. *)
Definition wrap64s (z : Z) : Z := (z + 2 ^ 63) mod 2 ^ 64 - 2 ^ 63.

Inductive giterr :=
  | Could_not_parse_the_path
  | Could_not_open_directory
  | Could_not_manage_reparse_link
  | Could_not_get_attributes.

(** What the loader's locals hold between two entries. *)
Record dirload_state := DirloadState {
  ds_work_path : list Z;
  ds_target : list wchar;
  ds_contents : list git_path_with_stat;
}.

Record dirload_out := DirloadOut {
  dl_error : Z;
  dl_giterr : option giterr;
  dl_contents : list git_path_with_stat;
}.

Section Dirload.
Variables (flags : Z) (start_stat end_stat : option (list Z)).
Variable repo_path : list Z.   (* path + prefix_len, a C string *)

Definition strncomp : list Z -> list Z -> Z -> Z :=
  if negb (Z.land flags GIT_PATH_DIR_IGNORE_CASE =? 0)
  then git__strncasecmp else git__strncmp.

Definition start_len : Z :=
  match start_stat with Some s => Z.of_nat (strlen s) | None => 0 end.
Definition end_len : Z :=
  match end_stat with Some s => Z.of_nat (strlen s) | None => 0 end.
Definition repo_path_len : Z := Z.of_nat (strlen repo_path).

(** The two range tests on the candidate path in [work_path]. *)
Definition after_start (work_path : list Z) (path_len : Z) : bool :=
  let cmp_len := Z.min start_len path_len in
  negb (negb (cmp_len =? 0) &&
        (strncomp work_path (default [] start_stat) cmp_len <? 0)).

Definition before_end (work_path : list Z) (path_len : Z) : bool :=
  let cmp_len := Z.min end_len path_len in
  negb (negb (cmp_len =? 0) &&
        (strncomp work_path (default [] end_stat) cmp_len >? 0)).

(** Lines 369-372: the entry's name is converted behind [repo_path] in
    [work_path], the string is closed and its length taken. A failed
    conversion is taken to leave [work_path] as it was; the code carries
    on with the [-1] it returned, in [size_t] arithmetic. *)
Definition entry_work_path (f : WIN32_FIND_DATAW) (work_path : list Z)
  : list Z * Z :=
  let conv := git__utf16_to_8 E (PATH__MAX_UNC_LEN - repo_path_len)
                              (str_of (cFileName f)) in
  let work_path :=
    match conv with
    | Some name => store work_path (Z.to_nat repo_path_len) (name ++ [0])
    | None => work_path
    end in
  let path_len :=
    size_t_of (match conv with Some name => Z.of_nat (length name) | None => -1 end) in
  let work_path := <[Z.to_nat (size_t_of (path_len + repo_path_len)) := 0]> work_path in
  let path_len := size_t_of (path_len + repo_path_len) in
  (work_path, path_len).

(** Lines 378-386: the mode bits from the attribute flags. *)
Definition entry_mode (f : WIN32_FIND_DATAW) : Z :=
  let fMode := S_IREAD in
  let fMode :=
    if negb (Z.land (dwFileAttributes f) FILE_ATTRIBUTE_DIRECTORY =? 0)
    then Z.lor fMode S_IFDIR else Z.lor fMode S_IFREG in
  if Z.land (dwFileAttributes f) FILE_ATTRIBUTE_READONLY =? 0
  then Z.lor fMode S_IWRITE else fMode.

(** Lines 391-402: the metadata record from the find data. *)
Definition entry_stat (f : WIN32_FIND_DATAW) : git_stat :=
  Stat (filetime_to_time_t E (ftLastAccessTime f))
       (filetime_to_time_t E (ftCreationTime f))
       (filetime_to_time_t E (ftLastWriteTime f))
       (wrap64s (Z.lor (wrap64s (Z.shiftl (nFileSizeHigh f) 32))
                       (nFileSizeLow f)))
       (_getdrive E - 1) (_getdrive E - 1)
       (entry_mode f) 0 0 0 1.

(** Lines 404-416: a reparse-tagged entry is looked up; when the lookup
    succeeds the entry becomes a link whose size is the UTF-8 length of
    the target. Gives the record and the [target] buffer, or the error
    the function leaves with. *)
Definition entry_reparse (f : WIN32_FIND_DATAW) (target : list wchar)
    (ps_st : git_stat) : (git_stat * list wchar) + giterr :=
  if negb (Z.land (dwFileAttributes f) FILE_ATTRIBUTE_REPARSE_POINT =? 0) then
    let r := git_win32_path_readlink_w target (cFileName f) in
    if rl_ret r >=? 0 then
      let ps_st := set_mode ps_st
        (Z.lor (Z.land (st_mode ps_st) (Z.lnot S_IFMT)) S_IFLNK) in
      match git__utf16_to_8 E 0 (str_of (rl_dest r)) with
      | Some bytes => inl (set_size ps_st (Z.of_nat (length bytes)), rl_dest r)
      | None => inr Could_not_manage_reparse_link
      end
    else inl (ps_st, rl_dest r)
  else inl (ps_st, target).

(** Lines 418-424: a directory gets its trailing separator; an entry
    that is neither a directory, a regular file nor a link is dropped. *)
Definition entry_finish (ps_st : git_stat) (path_len : Z) (ps_path : list Z)
  : option git_path_with_stat :=
  if S_ISDIR (st_mode ps_st) then
    let ps_path := <[Z.to_nat path_len := SLASH]> ps_path in
    let path_len := path_len + 1 in
    let ps_path := <[Z.to_nat path_len := 0]> ps_path in
    Some (PathWithStat ps_st path_len ps_path)
  else if negb (S_ISREG (st_mode ps_st)) && negb (S_ISLNK (st_mode ps_st))
  then None
  else Some (PathWithStat ps_st path_len ps_path).

(** The body of the loop for the entry in [dir->f]: the new locals, and
    the error it leaves with, if any. *)
Definition dirload_entry (f : WIN32_FIND_DATAW) (s : dirload_state)
  : dirload_state * option giterr :=
  if negb (git_path_is_dot_or_dotdotW (cFileName f)) then
    let '(work_path, path_len) := entry_work_path f (ds_work_path s) in
    let s := DirloadState work_path (ds_target s) (ds_contents s) in
    if after_start work_path path_len then
      if before_end work_path path_len then
        (* calloc, then memcpy(ps->path, work_path, path_len + 1) *)
        let ps_path := take (Z.to_nat (path_len + 1)) work_path ++ [0] in
        match entry_reparse f (ds_target s) (entry_stat f) with
        | inr e => (s, Some e)
        | inl (ps_st, target) =>
          (DirloadState work_path target
             (match entry_finish ps_st path_len ps_path with
              | Some ps => ds_contents s ++ [ps]   (* git_vector_insert *)
              | None => ds_contents s
              end), None)
        end
      else (s, None)
    else (s, None)
  else (s, None).

(** The [while (dir)] loop: the entry in hand, then what [FindNextFileW]
    will deliver. *)
Fixpoint dirload_loop (f : WIN32_FIND_DATAW) (rest : find_stream)
    (s : dirload_state) : dirload_state * option giterr :=
  match dirload_entry f s with
  | (s, Some e) => (s, Some e)
  | (s, None) =>
    match rest with
    | FindEntry f' rest' => dirload_loop f' rest' s
    | FindEnd last_error =>
      if last_error =? ERROR_NO_MORE_FILES then (s, None)
      else (s, Some Could_not_get_attributes)
    end
  end.

End Dirload.

(** Modelled from the spec: [git_vector_sort] and the collection's
    comparison are declared outside this file; entries are "ordered by
    lexicographic path comparison, ties broken by input enumeration order
    (stable)". *)
Fixpoint path_cmp (a b : list Z) : Z :=
  match a, b with
  | [], [] => 0
  | [], cb :: _ => 0 - cb
  | ca :: _, [] => ca
  | ca :: a', cb :: b' =>
    if ca =? cb then (if ca =? 0 then 0 else path_cmp a' b') else ca - cb
  end.

Fixpoint vector_insert_sorted (x : git_path_with_stat)
    (l : list git_path_with_stat) : list git_path_with_stat :=
  match l with
  | [] => [x]
  | y :: l' =>
    if path_cmp (path x) (path y) <=? 0 then x :: y :: l'
    else y :: vector_insert_sorted x l'
  end.

(** Each entry goes in front of the later ones that do not sort before
    it, so entries with equal paths keep the order they were found in. *)
Definition git_vector_sort (l : list git_path_with_stat) : list git_path_with_stat :=
  foldr vector_insert_sorted [] l.

(** [git_win32_path_dirload_with_stat(path, prefix_len, flags, start_stat,
    end_stat, contents)]; [work_path] and [target] are the contents the
    two stack buffers start with. *)
Definition git_win32_path_dirload_with_stat
    (path : list Z) (prefix_len : nat) (flags : Z)
    (start_stat end_stat : option (list Z))
    (contents : list git_path_with_stat)
    (work_path : list Z) (target : list wchar) : dirload_out :=
  let repo_path := drop prefix_len path in
  match git_win32__findfirstfile_filter E path with
  | None => DirloadOut (-1) (Some Could_not_parse_the_path) contents
  | Some pathw =>
    match FindFirstFileExW E pathw with
    | None => DirloadOut (-1) (Some Could_not_open_directory) contents
    | Some (f, rest) =>
      if repo_path_len repo_path >? PATH__MAX_UNC_LEN then
        DirloadOut (-1) (Some Could_not_open_directory) contents
      else
        let work_path := store work_path 0 (str_of repo_path) in
        match dirload_loop flags start_stat end_stat repo_path f rest
                (DirloadState work_path target contents) with
        | (s, Some e) => DirloadOut (-1) (Some e) (ds_contents s)
        | (s, None) => DirloadOut 0 None (git_vector_sort (ds_contents s))
        end
    end
  end.

End Bridge.

(** The string left in the buffer by the canonicaliser. *)
Definition canonical_string (s : string) : option (list wchar) :=
  match git_win32_path_canonicalize (cstr s) with
  | Some (buf, _) => Some (str_of buf)
  | None => None
  end.

(** ** Vocabulary of the statements *)

(** The entries a stream delivers, and the code it ends with. *)
Fixpoint stream_entries (r : find_stream) : list WIN32_FIND_DATAW :=
  match r with
  | FindEnd _ => []
  | FindEntry f r' => f :: stream_entries r'
  end.

Fixpoint stream_end (r : find_stream) : Z :=
  match r with
  | FindEnd e => e
  | FindEntry _ r' => stream_end r'
  end.

(** A stream from a list of entries, ending in [last_error]. *)
Fixpoint stream_of (fs : list WIN32_FIND_DATAW) (last_error : Z) : find_stream :=
  match fs with
  | [] => FindEnd last_error
  | f :: fs' => FindEntry f (stream_of fs' last_error)
  end.

(** What the prefix loop does to one character. *)
Definition unposix (c : wchar) : wchar := if c =? SLASH then BSLASH else c.

(** A character that can stand inside a path segment. *)
Definition plain (c : wchar) : Prop := c ≠ NUL ∧ c ≠ SLASH ∧ c ≠ BSLASH.

(** A segment the canonicaliser keeps: not empty, not [.], not [..]. *)
Definition good (s : list wchar) : Prop :=
  s ≠ [] ∧ Forall plain s ∧ s ≠ [DOT] ∧ s ≠ [DOT; DOT].

(** Segments each followed by a backslash: the shape of what has been
    written while the loop runs. *)
Definition chunks (segs : list (list wchar)) : list wchar :=
  concat ((fun s => s ++ [BSLASH]) <$> segs).

(** A path below the root that needs no rewriting: kept segments, one
    separator (of either spelling) between two of them, none at either
    end. *)
Inductive clean : list wchar -> Prop :=
  | clean_nil : clean []
  | clean_one s : good s -> clean s
  | clean_cons s c r :
      good s -> path__is_dirsep c = true -> clean r -> r ≠ [] ->
      clean (s ++ c :: r).

(** Kept segments with one backslash between two of them: the shape of
    what the canonicaliser leaves below the root. *)
Fixpoint join (segs : list (list wchar)) : list wchar :=
  match segs with
  | [] => []
  | s :: ss =>
    match ss with
    | [] => s
    | _ => s ++ BSLASH :: join ss
    end
  end.

(** ** Vocabulary of the loop invariant *)

(** What the scan does to the separator it stops at. *)
Definition norm_head (rest : list wchar) : list wchar :=
  match rest with [] => [] | c :: r => BSLASH :: r end.

(** What follows a segment: the end of the string, or a separator. *)
Definition sep_headed (rest : list wchar) : Prop :=
  match rest with [] => True | c :: _ => path__is_dirsep c = true end.

(** The length the copying branch moves the segment by; [rest1] is what
    follows the segment in the string, [T] what follows the string. *)
Definition keep_len (s rest1 T : list wchar) : nat :=
  if (hd NUL (rest1 ++ NUL :: T) =? BSLASH) && negb (hd NUL (s ++ rest1 ++ NUL :: T) =? BSLASH)
  then S (length s) else length s.

(** What has been written below the root while [R] is still to read:
    kept segments, each closed by a backslash; the last one is open only
    when the string ended with it. *)
Definition chunked (O R : list wchar) : Prop :=
  exists segs last, Forall good segs /\ O = chunks segs ++ last /\
                    (last = [] \/ (good last /\ R = [])).

(** The loop invariant: the buffer is the normalised prefix [P], the
    output [O], a gap [G] of stale cells, the unread rest [R] of the
    string, the terminator and the cells [T] behind it. *)
Record canon_inv (P T : list wchar) (m : nat) (st : canon_state) (R : list wchar) : Prop := {
  inv_shape : exists O G,
    cs_buf st = ((P ++ O) ++ G) ++ R ++ NUL :: T /\
    cs_to st = length (P ++ O) /\
    cs_from st = length ((P ++ O) ++ G) /\
    chunked O R /\
    (length O + length G + length R = m)%nat;
  inv_base : cs_base st = length P;
  inv_nul : NUL ∉ R;
}.

(** A character that is neither the terminator nor a separator. *)
Definition nonsep (c : wchar) : Prop := c <> NUL /\ path__is_dirsep c = false.

(** The state the main loop of the canonicaliser starts in. *)
Definition canon_init (path : list wchar) : canon_state :=
  let base := path__skip_prefix path 0 in
  CanonState (unposix_prefix base path 0) base base base.

(** ** A host for the examples

    Converters that take ASCII text only, a drive-rooted current
    directory, and whatever directory stream and reparse data an example
    supplies. *)

Definition is_ascii (l : list Z) : bool :=
  forallb (fun c => (0 <? c) && (c <? 128)) l.

Definition ascii_utf8_to_16 (size : Z) (s : list Z) : option (list wchar) :=
  if is_ascii s && (Z.of_nat (length s) <? size) then Some s else None.

(** Called with size 0 the converter only measures. *)
Definition ascii_utf16_to_8 (size : Z) (s : list wchar) : option (list Z) :=
  if is_ascii s && ((size =? 0) || (Z.of_nat (length s) <? size))
  then Some s else None.

Definition example_host (dir : option (WIN32_FIND_DATAW * find_stream))
    (reparse : list wchar -> reparse_query) : win32_env :=
  Win32Env ascii_utf8_to_16 ascii_utf16_to_8
           (fun target len => (target, len))
           (fun _ => Some [NUL])
           (fun t => t)
           32768 778
           (fun _ => (3, wstr "C:\"))
           0 reparse (fun _ => dir) 3.


(** What [git_vector_insert] is given, as a list. *)
Definition option_list {A} (o : option A) : list A :=
  match o with Some a => [a] | None => [] end.



(** The invariant of [work_path]: the array's size, and [repo_path] in
    front. *)
Definition work_ok (repo_path : list Z) (w : list Z) : Prop :=
  Z.of_nat (length w) = PATH__MAX_UNC_LEN /\
  take (length (str_of repo_path)) w = str_of repo_path.

(** The stack buffer [work_path] an example starts with. *)
Definition example_work_path : list Z := replicate (Z.to_nat PATH__MAX_UNC_LEN) 0.

(** An entry of an example directory. *)
Definition example_entry (name : string) (attributes : Z) : WIN32_FIND_DATAW :=
  FindData attributes 0 0 0 0 0 (cstr name).

(** A directory whose one entry is reparse-tagged, on a host where no
    reparse point can be opened. *)
Definition broken_link_host : win32_env :=
  example_host (Some (example_entry "lnk" FILE_ATTRIBUTE_REPARSE_POINT,
                      FindEnd ERROR_NO_MORE_FILES))
               (fun _ => INVALID_HANDLE_VALUE).


(** ** Vocabulary of the range filter *)

(** Which comparison the flags select. *)
Definition ignore_case (flags : Z) : bool :=
  negb (Z.land flags GIT_PATH_DIR_IGNORE_CASE =? 0).

(** Both range tests on a candidate path [p], read from its own cells. *)
Definition in_range (flags : Z) (start_stat end_stat : option (list Z))
    (p : list Z) : bool :=
  after_start flags start_stat p (Z.of_nat (length p)) &&
  before_end flags end_stat p (Z.of_nat (length p)).

(** An entry without the reparse attribute. *)
Definition plain_attr (f : WIN32_FIND_DATAW) : Prop :=
  Z.land (dwFileAttributes f) FILE_ATTRIBUTE_REPARSE_POINT = 0.

Definition is_dir (f : WIN32_FIND_DATAW) : bool :=
  negb (Z.land (dwFileAttributes f) FILE_ATTRIBUTE_DIRECTORY =? 0).

(** The cells the loader leaves in an entry's [path] for the candidate
    path [p]. *)
Definition entry_cells (p : list Z) (dir : bool) : list Z :=
  if dir then p ++ [SLASH; 0] else p ++ [0; 0].

(** The record the loader makes for a plain entry whose candidate path
    is [p]. *)
Definition plain_entry (E : win32_env) (f : WIN32_FIND_DATAW) (p : list Z)
  : git_path_with_stat :=
  PathWithStat (entry_stat E f)
               (if is_dir f then Z.of_nat (length p) + 1 else Z.of_nat (length p))
               (entry_cells p (is_dir f)).

(** What the host delivers for a plain entry: a name other than [.] and
    [..] whose conversion behind [repo_path] gives [n], with room for
    it, and no reparse attribute. *)
Definition plain_ok (E : win32_env) (repo_path : list Z)
    (f : WIN32_FIND_DATAW) (n : list Z) : Prop :=
  git_path_is_dot_or_dotdotW (cFileName f) = false /\
  git__utf16_to_8 E (PATH__MAX_UNC_LEN - repo_path_len repo_path)
                  (str_of (cFileName f)) = Some n /\
  Z.of_nat (length (str_of repo_path) + length n) < PATH__MAX_UNC_LEN /\
  plain_attr f.

(** The records the loop inserts for plain entries, in the order they
    are found. *)
Definition kept (E : win32_env) (flags : Z) (start_stat end_stat : option (list Z))
    (repo_path : list Z) (fns : list (WIN32_FIND_DATAW * list Z))
  : list git_path_with_stat :=
  fns ≫= (fun fn =>
    let p := str_of repo_path ++ fn.2 in
    if in_range flags start_stat end_stat p then [plain_entry E fn.1 p] else []).

(** The same on the paths alone: a name and whether it is a directory. *)
Definition kept_cells (flags : Z) (start_stat end_stat : option (list Z))
    (repo_path : list Z) (nds : list (list Z * bool)) : list (list Z) :=
  nds ≫= (fun nd =>
    let p := str_of repo_path ++ nd.1 in
    if in_range flags start_stat end_stat p then [entry_cells p nd.2] else []).

(** The sort of the collection, on the paths alone. *)
Fixpoint cells_insert (x : list Z) (l : list (list Z)) : list (list Z) :=
  match l with
  | [] => [x]
  | y :: l' =>
    if path_cmp x y <=? 0 then x :: y :: l' else y :: cells_insert x l'
  end.

Definition cells_sort (l : list (list Z)) : list (list Z) :=
  foldr cells_insert [] l.

(** All lists of [n] booleans. *)
Fixpoint bool_lists (n : nat) : list (list bool) :=
  match n with
  | O => [[]]
  | S n' => bool_lists n' ≫= (fun bs => [true :: bs; false :: bs])
  end.

(** A path that names [nm]: [nm] itself, or [nm] with the separator a
    directory carries. *)
Definition names (nm x : list Z) : bool :=
  bool_decide (x = nm) || bool_decide (x = nm ++ [SLASH]).

Fixpoint all_name (nms xs : list (list Z)) : bool :=
  match nms, xs with
  | [], [] => true
  | nm :: nms', x :: xs' => names nm x && all_name nms' xs'
  | _, _ => false
  end.

Definition five_names : list (list Z) :=
  [wstr "a"; wstr "b"; wstr "c"; wstr "d"; wstr "e"].

(** The paths returned for the range [b, d], for one order and one choice
    of directories among five entries, must name b, c and d in turn. *)
Definition range_check (icase : bool) (nds : list (list Z * bool)) : bool :=
  all_name [wstr "b"; wstr "c"; wstr "d"]
    (str_of <$> cells_sort
       (kept_cells (if icase then GIT_PATH_DIR_IGNORE_CASE else 0)
                   (Some (wstr "b")) (Some (wstr "d")) [] nds)).

Definition range_cases : list (list (list Z * bool)) :=
  permutations five_names ≫= (fun ns => (fun bs => zip ns bs) <$> bool_lists 5).

(** A directory of five plain entries, found in no particular order; [d]
    is a directory. *)
Definition five_entries : list (WIN32_FIND_DATAW * list Z) :=
  [(example_entry "e" 0x20, wstr "e");
   (example_entry "b" 0x20, wstr "b");
   (example_entry "a" 0x20, wstr "a");
   (example_entry "d" FILE_ATTRIBUTE_DIRECTORY, wstr "d");
   (example_entry "c" 0x21, wstr "c")].

Definition five_host : win32_env :=
  example_host (Some (example_entry "e" 0x20,
                      stream_of (fst <$> tail five_entries) ERROR_NO_MORE_FILES))
               (fun _ => INVALID_HANDLE_VALUE).

(** A directory holding [b] and [dz]. *)
Definition prefix_entries : list (WIN32_FIND_DATAW * list Z) :=
  [(example_entry "dz" 0x20, wstr "dz");
   (example_entry "b" 0x20, wstr "b")].

Definition prefix_host : win32_env :=
  example_host (Some (example_entry "dz" 0x20,
                      stream_of (fst <$> tail prefix_entries) ERROR_NO_MORE_FILES))
               (fun _ => INVALID_HANDLE_VALUE).

(** A host on which every path is a mount point of a volume. *)
Definition volume_host : win32_env :=
  example_host None
    (fun _ => IoctlGives
       (ReparseData IO_REPARSE_TAG_MOUNT_POINT
          (ReparseNames 0 0 [])
          (ReparseNames 0 98
             (cstr "\??\Volume{01234567-89ab-cdef-0123-456789abcdef}\")))).

(** A host with no directory to list and no reparse point. *)
Definition plain_host : win32_env :=
  example_host None (fun _ => INVALID_HANDLE_VALUE).

(** * Shell patterns (src/fnmatch.c)

    Patterns and strings are C strings of [char]; a pointer into the
    pattern is the suffix it designates, a pointer into the string an
    index, since the matcher looks one cell behind it. *)

Definition EOS : Z := 0.
Definition STAR : Z := 42.      (* '*' *)
Definition LBRACKET : Z := 91.  (* '[' *)
Definition RBRACKET : Z := 93.  (* ']' *)
Definition BANG : Z := 33.      (* '!' *)
Definition CARET : Z := 94.     (* '^' *)
Definition DASH : Z := 45.      (* '-' *)

(** What fnmatch.h and ctype.h supply: the two result codes, the five
    flag masks and [tolower]. Nothing is assumed about them here. *)
Record fnmatch_env := FnmatchEnv {
  FNM_NOMATCH : Z;
  FNM_NORES : Z;
  FNM_NOESCAPE : Z;
  FNM_PATHNAME : Z;
  FNM_PERIOD : Z;
  FNM_LEADING_DIR : Z;
  FNM_CASEFOLD : Z;
  tolower : Z -> Z;
}.

(** [(unsigned char)c] and [(char)i], [char] being a signed byte. *)
Definition uchar (c : Z) : Z := c mod 256.
Definition to_char (i : Z) : Z := (i + 128) mod 256 - 128.

(** [flags & mask], as a condition. *)
Definition flag (flags mask : Z) : bool := negb (Z.land flags mask =? 0).

(** [strchr(s, c)], as the distance to the cell found. *)
Fixpoint strchr (s : list Z) (c : Z) : option nat :=
  match s with
  | [] => if c =? EOS then Some O else None
  | x :: s' =>
    if x =? c then Some O
    else if x =? EOS then None
    else S <$> strchr s' c
  end.

(** What [rangematch] returns; [newp] is set when the closing bracket
    was reached. *)
Inductive range_result :=
  | RANGE_ERROR
  | RANGE_NOMATCH
  | RANGE_MATCH (newp : list Z).

(** [while (c == '*') c = *++pattern;] from a pattern that points at a
    star. *)
Fixpoint skip_stars (pattern : list Z) : list Z :=
  match pattern with
  | [] => []
  | c :: pattern' => if c =? STAR then skip_stars pattern' else pattern
  end.

Section Fnmatch.
Variable H : fnmatch_env.

(** [(char)tolower((unsigned char)c)]. *)
Definition fold_char (c : Z) : Z := to_char (tolower H (uchar c)).

(** The [do ... while] loop of [rangematch], entered with the character
    [c] just read; [None] when the turns allowed run out. *)
Fixpoint range_loop (fuel : nat) (pattern : list Z) (c test flags : Z)
    (ok negate : bool) : option range_result :=
  match fuel with
  | O => None
  | S fuel' =>
    let '(c, pattern) :=
      if (c =? BSLASH) && negb (flag flags (FNM_NOESCAPE H))
      then (hd EOS pattern, tl pattern) else (c, pattern) in
    if c =? EOS then Some RANGE_ERROR
    else if (c =? SLASH) && flag flags (FNM_PATHNAME H) then Some RANGE_NOMATCH
    else
      let c := if flag flags (FNM_CASEFOLD H) then fold_char c else c in
      let c2 := hd EOS (tl pattern) in
      if (hd EOS pattern =? DASH) && negb (c2 =? EOS) && negb (c2 =? RBRACKET) then
        let pattern := tl (tl pattern) in
        let '(c2, pattern) :=
          if (c2 =? BSLASH) && negb (flag flags (FNM_NOESCAPE H))
          then (hd EOS pattern, tl pattern) else (c2, pattern) in
        if c2 =? EOS then Some RANGE_ERROR
        else
          let c2 := if flag flags (FNM_CASEFOLD H) then fold_char c2 else c2 in
          let ok := if (c <=? test) && (test <=? c2) then true else ok in
          let c := hd EOS pattern in
          let pattern := tl pattern in
          if c =? RBRACKET
          then Some (if eqb ok negate then RANGE_NOMATCH else RANGE_MATCH pattern)
          else range_loop fuel' pattern c test flags ok negate
      else
        let ok := if c =? test then true else ok in
        let c := hd EOS pattern in
        let pattern := tl pattern in
        if c =? RBRACKET
        then Some (if eqb ok negate then RANGE_NOMATCH else RANGE_MATCH pattern)
        else range_loop fuel' pattern c test flags ok negate
  end.

(** [rangematch(pattern, test, flags, &newp)]. *)
Definition rangematch (pattern : list Z) (test flags : Z) : option range_result :=
  let negate := (hd EOS pattern =? BANG) || (hd EOS pattern =? CARET) in
  let pattern := if negate then tl pattern else pattern in
  let test := if flag flags (FNM_CASEFOLD H) then fold_char test else test in
  range_loop (S (length pattern)) (tl pattern) (hd EOS pattern) test flags false negate.

(** The test the three wildcards make before they take a period. *)
Definition leading_period (string : list Z) (s stringstart : nat) (flags : Z) : bool :=
  (rd string s =? DOT) && flag flags (FNM_PERIOD H) &&
  ((s =? stringstart)%nat ||
   (flag flags (FNM_PATHNAME H) && (rd string (s - 1) =? SLASH))).

(** The label [normal]: an ordinary character of the pattern against
    the one in the string. *)
Definition normal_mismatch (c : Z) (string : list Z) (s : nat) (flags : Z) : bool :=
  negb (c =? rd string s) &&
  negb (flag flags (FNM_CASEFOLD H) &&
        (tolower H (uchar c) =? tolower H (uchar (rd string s)))).

(** The general case of a star: the rest of the pattern is tried at the
    string position and at each one behind it; [rec] is the recursive
    call, [k] bounds the cells left in the string. *)
Fixpoint star_loop (rec : list Z -> nat -> option Z) (pattern string : list Z)
    (flags : Z) (k s : nat) : option Z :=
  let test := rd string s in
  if test =? EOS then Some (FNM_NOMATCH H)
  else
    match k with
    | O => None
    | S k' =>
      match rec pattern s with
      | None => None
      | Some e =>
        if negb (e =? FNM_NOMATCH H) then Some e
        else if (test =? SLASH) && flag flags (FNM_PATHNAME H)
        then Some (FNM_NOMATCH H)
        else star_loop rec pattern string flags k' (S s)
      end
    end.

(** The [for (;;) switch (c = *pattern++)] loop of [p_fnmatchx]. *)
Fixpoint fnmatch_loop (rec : list Z -> nat -> option Z) (fuel : nat)
    (pattern string : list Z) (s stringstart : nat) (flags : Z) : option Z :=
  match fuel with
  | O => None
  | S fuel' =>
    let c := hd EOS pattern in
    let pattern := tl pattern in
    let normal (c : Z) (pattern : list Z) :=
      if normal_mismatch c string s flags then Some (FNM_NOMATCH H)
      else fnmatch_loop rec fuel' pattern string (S s) stringstart flags in
    if c =? EOS then
      if flag flags (FNM_LEADING_DIR H) && (rd string s =? SLASH) then Some 0
      else Some (if rd string s =? EOS then 0 else FNM_NOMATCH H)
    else if c =? QMARK then
      if rd string s =? EOS then Some (FNM_NOMATCH H)
      else if (rd string s =? SLASH) && flag flags (FNM_PATHNAME H)
      then Some (FNM_NOMATCH H)
      else if leading_period string s stringstart flags then Some (FNM_NOMATCH H)
      else fnmatch_loop rec fuel' pattern string (S s) stringstart flags
    else if c =? STAR then
      let c := hd EOS pattern in
      let '(c, pattern, flags) :=
        if c =? STAR then
          let flags := Z.land flags (Z.lnot (FNM_PATHNAME H)) in
          let pattern := skip_stars pattern in
          let c := hd EOS pattern in
          if c =? SLASH then (hd EOS (tl pattern), tl pattern, flags)
          else (c, pattern, flags)
        else (c, pattern, flags) in
      if leading_period string s stringstart flags then Some (FNM_NOMATCH H)
      else if c =? EOS then
        if flag flags (FNM_PATHNAME H) then
          Some (if flag flags (FNM_LEADING_DIR H) ||
                   bool_decide (strchr (drop s string) SLASH = None)
                then 0 else FNM_NOMATCH H)
        else Some 0
      else if (c =? SLASH) && flag flags (FNM_PATHNAME H) then
        match strchr (drop s string) SLASH with
        | None => Some (FNM_NOMATCH H)
        | Some k => fnmatch_loop rec fuel' pattern string (s + k) stringstart flags
        end
      else star_loop rec pattern string flags (length string - s) s
    else if c =? LBRACKET then
      if rd string s =? EOS then Some (FNM_NOMATCH H)
      else if (rd string s =? SLASH) && flag flags (FNM_PATHNAME H)
      then Some (FNM_NOMATCH H)
      else if leading_period string s stringstart flags then Some (FNM_NOMATCH H)
      else
        match rangematch pattern (rd string s) flags with
        | None => None
        | Some RANGE_ERROR => normal c pattern
        | Some (RANGE_MATCH newp) =>
          fnmatch_loop rec fuel' newp string (S s) stringstart flags
        | Some RANGE_NOMATCH => Some (FNM_NOMATCH H)
        end
    else if c =? BSLASH then
      let '(c, pattern) :=
        if negb (flag flags (FNM_NOESCAPE H)) then
          if hd EOS pattern =? EOS then (BSLASH, pattern)
          else (hd EOS pattern, tl pattern)
        else (c, pattern) in
      normal c pattern
    else normal c pattern
  end.

(** [p_fnmatchx(pattern, string + s, flags, recurs)]; [None] only if a
    loop ran out of the turns allowed. *)
Fixpoint p_fnmatchx (recurs : nat) (pattern string : list Z) (s : nat) (flags : Z)
  : option Z :=
  match recurs with
  | O => Some (FNM_NORES H)
  | S recurs' =>
    let recurs_flags := Z.land flags (Z.lnot (FNM_PERIOD H)) in
    fnmatch_loop (fun p s' => p_fnmatchx recurs' p string s' recurs_flags)
                 (S (length pattern)) pattern string s s flags
  end.

(** [p_fnmatch(pattern, string, flags)]. *)
Definition p_fnmatch (pattern string : list Z) (flags : Z) : option Z :=
  p_fnmatchx 64 pattern string 0 flags.

End Fnmatch.

(** ** A host for the examples of the matcher

    The usual values of the codes and masks, and [tolower] of the C
    locale. *)

Definition c_tolower (c : Z) : Z :=
  if (65 <=? c) && (c <=? 90) then c + 32 else c.

Definition example_fnm : fnmatch_env := FnmatchEnv 1 3 0x01 0x02 0x04 0x08 0x10 c_tolower.

(** ** Vocabulary of the statements about the matcher *)

(** One of the three values the matcher returns. *)
Definition fnm_code (H : fnmatch_env) (r : Z) : Prop :=
  r = 0 \/ r = FNM_NOMATCH H \/ r = FNM_NORES H.

(** A character of a pattern that stands for itself. *)
Definition literal (c : Z) : Prop :=
  c <> EOS /\ c <> QMARK /\ c <> STAR /\ c <> LBRACKET /\ c <> BSLASH.

(** How many stars a pattern holds. *)
Definition stars (pattern : list Z) : nat :=
  length (filter (fun c => c = STAR) pattern).

(** A character that stands for itself inside a bracket expression,
    behind the first one. *)
Definition in_set (c : Z) : Prop :=
  c <> EOS /\ c <> BSLASH /\ c <> RBRACKET /\ c <> DASH.

(** Each character behind a backslash. *)
Definition escaped (cs : list Z) : list Z := cs ≫= (fun c => [BSLASH; c]).

(** Two characters that [tolower] maps to the same value. *)
Definition same_fold (H : fnmatch_env) (c t : Z) : Prop :=
  tolower H (uchar c) = tolower H (uchar t).

(** Two strings of one length whose characters [tolower] maps to the
    same values, position by position. *)
Fixpoint fold_equal (H : fnmatch_env) (lit str : list Z) : bool :=
  match lit, str with
  | [], [] => true
  | c :: lit', t :: str' =>
    (tolower H (uchar c) =? tolower H (uchar t)) && fold_equal H lit' str'
  | _, _ => false
  end.

(** * What canonicalisation computes (src/win32/path_w32.c) *)

(** What lies between the separators of a path. *)
Fixpoint segments (l : list wchar) : list (list wchar) :=
  match l with
  | [] => [[]]
  | c :: l' =>
    if path__is_dirsep c then [] :: segments l'
    else match segments l' with
         | s :: ss => (c :: s) :: ss
         | [] => [[c]]
         end
  end.

(** What one segment does to the segments kept so far: an empty one
    and [.] nothing, [..] takes the last one away if there is one, any
    other is added. *)
Definition resolve_step (kept : list (list wchar)) (s : list wchar)
  : list (list wchar) :=
  if bool_decide (s = []) || bool_decide (s = [DOT]) then kept
  else if bool_decide (s = [DOT; DOT]) then removelast kept
  else kept ++ [s].

Definition resolve (kept : list (list wchar)) (l : list wchar) : list (list wchar) :=
  foldl resolve_step kept (segments l).

(** The canonical form of the string a buffer holds: the prefix with its
    separators respelled, then the segments that remain, one backslash
    between two of them. *)
Definition canonical_form (path : list wchar) : list wchar :=
  let b := path__skip_prefix path 0 in
  (unposix <$> take b (str_of path)) ++ join (resolve [] (drop b (str_of path))).

(** The loop invariant with what the loop computes: the segments
    written are [segs] (and [last], written without a separator, when
    the string ended with it), and what is still to read leads from them
    to [F]. *)
Record canon_sem (P T : list wchar) (st : canon_state) (R : list wchar)
    (F : list (list wchar)) : Prop := {
  sem_shape : exists segs last G,
    cs_buf st = ((P ++ chunks segs ++ last) ++ G) ++ R ++ NUL :: T /\
    cs_to st = length (P ++ chunks segs ++ last) /\
    cs_from st = length ((P ++ chunks segs ++ last) ++ G) /\
    Forall good segs /\
    ((last = [] /\ resolve segs R = F) \/
     (good last /\ R = [] /\ F = segs ++ [last]));
  sem_base : cs_base st = length P;
  sem_nul : NUL ∉ R;
}.

(** * Short names (git_win32_path_8dot3_name) *)

(** [while (len && shortpath[len-1] == '\\') shortpath[--len] = 0;] *)
Fixpoint strip_bslash (shortpath : list wchar) (len : nat) : list wchar * nat :=
  match len with
  | O => (shortpath, O)
  | S l =>
    if rd shortpath l =? BSLASH then strip_bslash (<[l := NUL]> shortpath) l
    else (shortpath, len)
  end.

(** The [for] loop that walks [start] back to the separator in front of
    the last name, counting in [namelen]. *)
Fixpoint name_start (shortpath : list wchar) (start namelen : nat) : nat * nat :=
  match start with
  | O => (O, namelen)
  | S s =>
    if negb (rd shortpath s =? SLASH) && negb (rd shortpath s =? BSLASH)
    then name_start shortpath s (S namelen)
    else (start, namelen)
  end.

Section ShortName.
Variable E : win32_env.
(** [GetShortPathNameW(longpath, shortpath, size)]: the count returned
    (one that fits the [int] it is kept in) and the cells of
    [shortpath] afterwards. *)
Variable GetShortPathNameW : list wchar -> list wchar -> Z -> nat * list wchar.
(** Whether [git__malloc(size)] gives memory. *)
Variable git__malloc : Z -> bool.

(** [git_win32_path_8dot3_name(path)]; [longpath] and [shortpath] are
    what the two stack buffers hold at first, [None] is NULL. *)
Definition git_win32_path_8dot3_name (longpath shortpath : list wchar) (path : list Z)
  : option (list Z) :=
  match git_win32_path_from_utf8 E longpath path with
  | Fail _ => None
  | Ok (longpath, _) =>
    let '(len, shortpath) :=
      GetShortPathNameW longpath shortpath (GIT_WIN_PATH_UTF16 E) in
    let '(shortpath, len) := strip_bslash shortpath len in
    if (len =? 0)%nat || (Z.of_nat len >=? GIT_WIN_PATH_UTF16 E) then None
    else
      let '(start, namelen) := name_start shortpath (len - 1) 1 in
      if (12 <? namelen)%nat || negb (git__malloc (Z.of_nat namelen + 1)) then None
      else git__utf16_to_8 E (Z.of_nat namelen + 1) (str_of (drop start shortpath))
  end.

End ShortName.

(** Where the last name of the short path in [buf] begins: no separator
    from [start] up to the last character but one, and a separator in
    front of [start] unless the name begins the path. *)
Definition last_name (buf : list wchar) (len start : nat) : Prop :=
  (start < len)%nat /\
  (forall i, (start <= i)%nat -> (S i < len)%nat -> path__is_dirsep (rd buf i) = false) /\
  (start = O \/ path__is_dirsep (rd buf (start - 1)) = true).

(** * Listings entry by entry (git_win32_path_dirload_with_stat) *)

(** A value a [char] can hold. *)
Definition is_char (c : Z) : Prop := -128 <= c <= 127.

(** A stream that delivers the entries [fs] and then goes on as
    [rest]. *)
Definition stream_app (fs : list WIN32_FIND_DATAW) (rest : find_stream) : find_stream :=
  foldr FindEntry rest fs.

(** What the loop does with a stream whose first entry has not been
    taken in hand yet: the entry and the ones behind it, or the end of
    the enumeration. *)
Definition dirload_rest (E : win32_env) (flags : Z)
    (start_stat end_stat : option (list Z)) (repo_path : list Z)
    (rest : find_stream) (s : dirload_state) : dirload_state * option giterr :=
  match rest with
  | FindEntry f rest' => dirload_loop E flags start_stat end_stat repo_path f rest' s
  | FindEnd last_error =>
    if last_error =? ERROR_NO_MORE_FILES then (s, None)
    else (s, Some Could_not_get_attributes)
  end.

(** What the host delivers for an entry with a name: a name other than
    [.] and [..] whose conversion behind [repo_path] gives [n], with
    room for it. *)
Definition named (E : win32_env) (repo_path : list Z)
    (f : WIN32_FIND_DATAW) (n : list Z) : Prop :=
  git_path_is_dot_or_dotdotW (cFileName f) = false /\
  git__utf16_to_8 E (PATH__MAX_UNC_LEN - repo_path_len repo_path)
                  (str_of (cFileName f)) = Some n /\
  Z.of_nat (length (str_of repo_path) + length n) < PATH__MAX_UNC_LEN.

(** An entry the loader cannot resolve as a link: it has no reparse
    attribute, or [git_win32_path_readlink_w] fails on it, whatever the
    destination buffer holds. *)
Definition unresolved (E : win32_env) (f : WIN32_FIND_DATAW) : Prop :=
  plain_attr f \/
  forall dest, rl_ret (git_win32_path_readlink_w E dest (cFileName f)) < 0.

(** The target string of an entry that resolves as a link. *)
Definition link_target (E : win32_env) (f : WIN32_FIND_DATAW) : option (list wchar) :=
  if negb (Z.land (dwFileAttributes f) FILE_ATTRIBUTE_REPARSE_POINT =? 0) then
    let r := git_win32_path_readlink_w E [] (cFileName f) in
    if rl_ret r >=? 0 then Some (str_of (rl_dest r)) else None
  else None.

(** The record the loader makes for a link whose candidate path is [p]
    and whose target measures [bytes]. *)
Definition link_entry (E : win32_env) (f : WIN32_FIND_DATAW) (p bytes : list Z)
  : git_path_with_stat :=
  PathWithStat
    (set_size (set_mode (entry_stat E f)
                 (Z.lor (Z.land (entry_mode f) (Z.lnot S_IFMT)) S_IFLNK))
              (Z.of_nat (length bytes)))
    (Z.of_nat (length p)) (entry_cells p false).

(** The record for an entry in range whose candidate path is [p], or
    the error the loader leaves with. *)
Definition entry_record (E : win32_env) (f : WIN32_FIND_DATAW) (p : list Z)
  : git_path_with_stat + giterr :=
  match link_target E f with
  | Some t =>
    match git__utf16_to_8 E 0 t with
    | Some bytes => inl (link_entry E f p bytes)
    | None => inr Could_not_manage_reparse_link
    end
  | None => inl (plain_entry E f p)
  end.

(** The records the loop inserts for entries with names, in the order
    they are found, up to the first one it leaves with an error at. *)
Fixpoint collect (E : win32_env) (flags : Z) (start_stat end_stat : option (list Z))
    (repo_path : list Z) (fns : list (WIN32_FIND_DATAW * list Z))
  : list git_path_with_stat * option giterr :=
  match fns with
  | [] => ([], None)
  | fn :: fns' =>
    let p := str_of repo_path ++ fn.2 in
    if in_range flags start_stat end_stat p then
      match entry_record E fn.1 p with
      | inr e => ([], Some e)
      | inl ps =>
        let '(l, e) := collect E flags start_stat end_stat repo_path fns' in
        (ps :: l, e)
      end
    else collect E flags start_stat end_stat repo_path fns'
  end.

(** * Hosts and inputs of the examples *)

(** A host whose current directory cannot be read, for lack of access. *)
Definition no_cwd_host : win32_env :=
  Win32Env ascii_utf8_to_16 ascii_utf16_to_8
           (fun target len => (target, len))
           (fun _ => Some [NUL])
           (fun t => t)
           32768 778
           (fun _ => (0, []))
           ERROR_ACCESS_DENIED (fun _ => INVALID_HANDLE_VALUE) (fun _ => None) 3.

(** A host whose current directory lies on a share. *)
Definition share_cwd_host : win32_env :=
  Win32Env ascii_utf8_to_16 ascii_utf16_to_8
           (fun target len => (target, len))
           (fun _ => Some [NUL])
           (fun t => t)
           32768 778
           (fun _ => (11, wstr "\\srv\share"))
           0 (fun _ => INVALID_HANDLE_VALUE) (fun _ => None) 3.

(** A directory whose one entry, [lnk], has the directory and the
    reparse attribute, on a host where every reparse point is a
    symbolic link to [C:\t]; the host's canonicaliser leaves a target
    as it is. *)
Definition link_host : win32_env :=
  Win32Env ascii_utf8_to_16 ascii_utf16_to_8
           (fun target len => (target, Z.max 0 len))
           (fun _ => Some [NUL])
           (fun t => t)
           32768 778
           (fun _ => (3, wstr "C:\"))
           0
           (fun _ => IoctlGives
              (ReparseData IO_REPARSE_TAG_SYMLINK
                 (ReparseNames 0 8 (cstr "C:\t"))
                 (ReparseNames 0 0 [])))
           (fun _ => Some (example_entry "lnk" 0x410, FindEnd ERROR_NO_MORE_FILES))
           3.

(** A directory whose enumeration breaks off behind its second entry
    with the code of a denied access. *)
Definition broken_stream_entries : list (WIN32_FIND_DATAW * list Z) :=
  [(example_entry "b" 0x20, wstr "b");
   (example_entry "a" 0x20, wstr "a")].

Definition broken_stream_host : win32_env :=
  example_host (Some (example_entry "b" 0x20,
                      stream_of (fst <$> tail broken_stream_entries)
                                ERROR_ACCESS_DENIED))
               (fun _ => INVALID_HANDLE_VALUE).

(** A directory whose one entry has a name the host's converter
    refuses. *)
Definition odd_name_entry : WIN32_FIND_DATAW :=
  FindData 0x20 0 0 0 0 0 [0xD800; NUL].


(** A host's [GetShortPathNameW] that knows one short path, and a
    [git__malloc] that always gives memory. *)
Definition example_short_path (longpath shortpath : list wchar) (size : Z)
  : nat * list wchar :=
  (15%nat, store shortpath 0 (cstr "\\?\C:\PROGRA~1")).

Definition example_malloc (size : Z) : bool := true.

(** A directory whose first entry is reparse-tagged and cannot be
    opened, and whose second entry is a plain file. *)
Definition unresolved_entries : list (WIN32_FIND_DATAW * list Z) :=
  [(example_entry "lnk" FILE_ATTRIBUTE_REPARSE_POINT, wstr "lnk");
   (example_entry "z" 0x20, wstr "z")].

Definition unresolved_host : win32_env :=
  example_host (Some (example_entry "lnk" FILE_ATTRIBUTE_REPARSE_POINT,
                      stream_of (fst <$> tail unresolved_entries) ERROR_NO_MORE_FILES))
               (fun _ => INVALID_HANDLE_VALUE).

(** A directory whose one entry is a symbolic link to a target the
    host's converter refuses. *)
Definition odd_target_host : win32_env :=
  example_host (Some (example_entry "lnk" FILE_ATTRIBUTE_REPARSE_POINT,
                      FindEnd ERROR_NO_MORE_FILES))
               (fun _ => IoctlGives
                  (ReparseData IO_REPARSE_TAG_SYMLINK
                     (ReparseNames 0 2 [0xD800; NUL])
                     (ReparseNames 0 0 []))).

(** A directory with a plain file, a link to a directory and another
    plain file, on a host where every reparse point is a symbolic link
    to [C:\t]. *)
Definition mixed_entries : list (WIN32_FIND_DATAW * list Z) :=
  [(example_entry "a" 0x20, wstr "a");
   (example_entry "lnk" 0x410, wstr "lnk");
   (example_entry "z" 0x20, wstr "z")].

Definition mixed_host : win32_env :=
  Win32Env ascii_utf8_to_16 ascii_utf16_to_8
           (fun target len => (target, Z.max 0 len))
           (fun _ => Some [NUL])
           (fun t => t)
           32768 778
           (fun _ => (3, wstr "C:\"))
           0
           (fun _ => IoctlGives
              (ReparseData IO_REPARSE_TAG_SYMLINK
                 (ReparseNames 0 8 (cstr "C:\t"))
                 (ReparseNames 0 0 [])))
           (fun _ => Some (example_entry "a" 0x20,
                           stream_of (fst <$> tail mixed_entries) ERROR_NO_MORE_FILES))
           3.

(** A directory with a plain file and then a file whose name the
    host's converter refuses. *)
Definition odd_second_host : win32_env :=
  example_host (Some (example_entry "a" 0x20,
                      FindEntry odd_name_entry (FindEnd ERROR_NO_MORE_FILES)))
               (fun _ => INVALID_HANDLE_VALUE).

Lemma rd_app_l (l1 l2 : list wchar) i : (i < length l1)%nat -> rd (l1 ++ l2) i = rd l1 i.
Proof. intros H. unfold rd. by rewrite lookup_app_l. Qed.

Lemma rd_app_r (l1 l2 : list wchar) i : (length l1 <= i)%nat -> rd (l1 ++ l2) i = rd l2 (i - length l1).
Proof. intros H. unfold rd. by rewrite lookup_app_r. Qed.

Lemma rd_app_len (l1 l2 : list wchar) : rd (l1 ++ l2) (length l1) = hd NUL l2.
Proof. rewrite rd_app_r by lia. rewrite Nat.sub_diag. by destruct l2. Qed.

Lemma rd_drop (l : list wchar) n i : rd (drop n l) i = rd l (n + i).
Proof. unfold rd. by rewrite lookup_drop. Qed.

Lemma plain_not_sep c : plain c -> (c =? NUL) = false /\ (c =? SLASH) = false /\ (c =? BSLASH) = false.
Proof. unfold plain. intros (?&?&?). repeat split; apply Z.eqb_neq; done. Qed.

Lemma seg_len_app s r :
  Forall plain s -> ~ plain (hd NUL r) -> seg_len (s ++ r) = length s.
Proof.
  intros Hs Hr. induction Hs as [|c s Hc Hs IH]; simpl.
  - destruct r as [|c r]; simpl; [done|]. simpl in Hr.
    destruct (c =? NUL) eqn:E1; [done|].
    destruct (c =? SLASH) eqn:E2; [done|].
    destruct (c =? BSLASH) eqn:E3; [done|].
    exfalso. apply Hr. unfold plain. rewrite !Z.eqb_neq in *. done.
  - destruct (plain_not_sep _ Hc) as (->&->&->). by rewrite IH.
Qed.

Lemma dirsep_not_plain c : path__is_dirsep c = true -> ~ plain c.
Proof.
  unfold path__is_dirsep, plain. intros H (?&?&?).
  apply orb_true_iff in H as [H|H]; apply Z.eqb_eq in H; done.
Qed.

Lemma sep_headed_not_plain rest T : sep_headed rest -> ~ plain (hd NUL (rest ++ NUL :: T)).
Proof.
  destruct rest as [|c r]; simpl.
  - intros _ (?&?&?). done.
  - apply dirsep_not_plain.
Qed.

Lemma scan_spec X s rest T :
  Forall plain s -> sep_headed rest ->
  let buf := X ++ s ++ rest ++ NUL :: T in
  let next := (length X + length s)%nat in
  seg_len (drop (length X) buf) = length s /\
  (if rd buf next =? SLASH then <[next := BSLASH]> buf else buf)
    = X ++ s ++ norm_head rest ++ NUL :: T.
Proof.
  intros Hs Hr buf next. subst buf next. split.
  - rewrite drop_app_length. apply seg_len_app; [done|].
    by apply sep_headed_not_plain.
  - rewrite !app_assoc. rewrite <- (app_assoc _ rest).
    replace (length X + length s)%nat with (length (X ++ s)) by (rewrite length_app; lia).
    rewrite rd_app_len.
    destruct rest as [|c r]; simpl; [by rewrite app_nil_r|].
    destruct (c =? SLASH) eqn:Ec.
    + replace (length (X ++ s)) with (length (X ++ s) + 0)%nat at 1 by lia.
      rewrite insert_app_r. simpl. by rewrite <- !app_assoc.
    + simpl in Hr. unfold path__is_dirsep in Hr. rewrite Ec in Hr. simpl in Hr.
      apply Z.eqb_eq in Hr. subst c. by rewrite <- !app_assoc.
Qed.

Lemma skip_bslash_app_nul r T : NUL ∉ r -> skip_bslash (r ++ NUL :: T) = skip_bslash r.
Proof.
  induction r as [|c r IH]; simpl; [done|]. intros H.
  apply not_elem_of_cons in H as [? ?]. destruct (c =? BSLASH); [|done]. by rewrite IH.
Qed.

Lemma is_dot_iff s r : ~ plain (hd NUL r) ->
  ((length s =? 1)%nat && (hd NUL (s ++ r) =? DOT)) = true <-> s = [DOT].
Proof.
  intros Hr. destruct s as [|a [|b s']]; simpl.
  - split; [|done]. intros H; done.
  - rewrite Z.eqb_eq. split; [by intros ->|]. by intros [= ->].
  - split; [done|]. intros [=].
Qed.

Lemma is_dotdot_iff s r :
  ((length s =? 2)%nat && (hd NUL (s ++ r) =? DOT) && (hd NUL (tl (s ++ r)) =? DOT)) = true
  <-> s = [DOT; DOT].
Proof.
  destruct s as [|a [|b [|c s']]]; simpl.
  - split; [done|]. intros [=].
  - split; [done|]. intros [=].
  - rewrite andb_true_iff, !Z.eqb_eq. split; [by intros [-> ->]|]. by intros [= -> ->].
  - split; [done|]. intros [=].
Qed.

Lemma advance_skip (b : list wchar) next tail :
  drop next b = tail ->
  (S next + skip_bslash (drop (S next) b) =
   if (hd NUL tail =? BSLASH)%Z then next + skip_bslash tail else S next + skip_bslash (tl tail))%nat.
Proof.
  intros <-. replace (S next) with (next + 1)%nat by lia.
  rewrite <- (drop_drop _ 1 next).
  destruct (drop next b) as [|c r]; simpl; [done|].
  rewrite drop_0. destruct (c =? BSLASH); lia.
Qed.

Lemma back_while_stop Pd (b : list wchar) base to :
  (to <= base)%nat \/ (exists t, to = S t /\ Pd (rd b t) = false) ->
  back_while Pd b base to = to.
Proof.
  destruct to as [|t]; simpl; [done|]. intros [H|(t'&[= <-]&H)].
  - replace (base <? S t)%nat with false by (symmetry; apply Nat.ltb_ge; lia). done.
  - rewrite H. by rewrite andb_false_r.
Qed.

Lemma back_while_run Pd (A B C : list wchar) base :
  Forall (fun c => Pd c = true) B -> (base <= length A)%nat ->
  back_while Pd (A ++ B ++ C) base (length A + length B)
  = back_while Pd (A ++ B ++ C) base (length A).
Proof.
  intros HB Hb. revert C. induction B as [|x B IH] using rev_ind; intros C.
  - simpl. by rewrite Nat.add_0_r.
  - apply Forall_app in HB as [HB Hx]. rewrite Forall_singleton in Hx.
    rewrite length_app. simpl. replace (length A + (length B + 1))%nat with (S (length A + length B)) by lia.
    simpl. replace (base <? S (length A + length B))%nat with true by (symmetry; apply Nat.ltb_lt; lia).
    replace (rd (A ++ (B ++ [x]) ++ C) (length A + length B)) with x.
    + rewrite Hx. simpl. rewrite <- (app_assoc B). by apply IH.
    + replace (A ++ (B ++ [x]) ++ C) with ((A ++ B) ++ x :: C)
        by (rewrite <- !app_assoc; done).
      replace (length A + length B)%nat with (length (A ++ B)) by (rewrite length_app; lia).
      by rewrite rd_app_len.
Qed.

Lemma rd_last (A C : list wchar) x : rd ((A ++ [x]) ++ C) (length A) = x.
Proof. rewrite <- app_assoc. by rewrite rd_app_len. Qed.

Section Step.
Variables (Y G s rest T : list wchar) (base : nat).
Hypothesis Hs : Forall plain s.
Hypothesis Hr : sep_headed rest.

Let from := length (Y ++ G).
Let next := (from + length s)%nat.
Let buf := (Y ++ G) ++ s ++ rest ++ NUL :: T.
Let buf1 := (Y ++ G) ++ s ++ norm_head rest ++ NUL :: T.
Let tail1 := norm_head rest ++ NUL :: T.

Lemma rd_buf1_from : rd buf1 from = hd NUL (s ++ tail1).
Proof. unfold buf1, from. by rewrite rd_app_len. Qed.

Lemma rd_buf1_from1 : rd buf1 (from + 1) = hd NUL (tl (s ++ tail1)).
Proof.
  unfold buf1, from. rewrite rd_app_r by lia.
  replace (length (Y ++ G) + 1 - length (Y ++ G))%nat with 1%nat by lia.
  fold tail1. destruct (s ++ tail1) as [|a [|b l]]; done.
Qed.

Lemma rd_buf1_next : rd buf1 next = hd NUL tail1.
Proof.
  unfold buf1, next, from. rewrite app_assoc.
  replace (length (Y ++ G) + length s)%nat with (length ((Y ++ G) ++ s)) by (rewrite !length_app; lia).
  by rewrite rd_app_len.
Qed.

Lemma drop_buf1_next : drop next buf1 = tail1.
Proof.
  unfold buf1, next, from. rewrite app_assoc.
  replace (length (Y ++ G) + length s)%nat with (length ((Y ++ G) ++ s)) by (rewrite !length_app; lia).
  by rewrite drop_app_length.
Qed.

Lemma tail1_not_plain : ~ plain (hd NUL tail1).
Proof.
  unfold tail1. destruct rest; simpl; intros (?&?&?); done.
Qed.

Lemma step_scan :
  seg_len (drop from buf) = length s /\
  (if rd buf next =? SLASH then <[next := BSLASH]> buf else buf) = buf1.
Proof. apply (scan_spec (Y ++ G) s rest T Hs Hr). Qed.

(** [.]: nothing is written, the read cursor moves on. *)
Lemma step_dot : s = [DOT] ->
  canon_step (CanonState buf base from (length Y)) =
  CanonState buf1 base (next + skip_bslash tail1) (length Y).
Proof.
  intros Es. destruct step_scan as [F1 F2].
  unfold canon_step. cbn [cs_buf cs_base cs_from cs_to].
  rewrite F1. fold next. rewrite F2.
  replace (next - from)%nat with (length s) by (unfold next; lia).
  rewrite rd_buf1_from.
  rewrite (proj2 (is_dot_iff s tail1 tail1_not_plain) Es).
  replace (from + length s)%nat with next by done.
  by rewrite drop_buf1_next.
Qed.

(** [..] with nothing written yet: the segment is dropped. *)
Lemma step_dotdot_root : s = [DOT; DOT] -> base = length Y ->
  canon_step (CanonState buf base from (length Y)) =
  CanonState buf1 base (next + skip_bslash tail1) (length Y).
Proof.
  intros Es Eb. destruct step_scan as [F1 F2].
  unfold canon_step. cbn [cs_buf cs_base cs_from cs_to].
  rewrite F1. fold next. rewrite F2.
  replace (next - from)%nat with (length s) by (unfold next; lia).
  rewrite rd_buf1_from, rd_buf1_from1, rd_buf1_next.
  assert (Hd : ((length s =? 1)%nat && (hd NUL (s ++ tail1) =? DOT)) = false).
  { apply not_true_iff_false. rewrite is_dot_iff by apply tail1_not_plain. by subst s. }
  rewrite Hd, (proj2 (is_dotdot_iff s tail1) Es).
  subst base. rewrite Nat.eqb_refl.
  f_equal.
  destruct (hd NUL tail1 =? BSLASH) eqn:Eh.
  - replace (from + S (length s))%nat with (S next) by (unfold next; lia).
    by rewrite (advance_skip buf1 next tail1 drop_buf1_next), Eh.
  - replace (from + length s)%nat with next by done. by rewrite drop_buf1_next.
Qed.

(** [..] below written segments: the write cursor backs up over the last
    one. *)
Lemma step_dotdot_back Y' g : s = [DOT; DOT] ->
  Y = Y' ++ g ++ [BSLASH] -> Forall plain g -> g <> [] ->
  (base <= length Y')%nat ->
  (base = length Y' \/ exists Y'', Y' = Y'' ++ [BSLASH]) ->
  canon_step (CanonState buf base from (length Y)) =
  CanonState buf1 base (next + skip_bslash tail1) (length Y').
Proof.
  intros Es EY Hg Hg0 Hb HY'. destruct step_scan as [F1 F2].
  unfold canon_step. cbn [cs_buf cs_base cs_from cs_to].
  rewrite F1. fold next. rewrite F2.
  replace (next - from)%nat with (length s) by (unfold next; lia).
  rewrite rd_buf1_from, rd_buf1_from1.
  assert (Hd : ((length s =? 1)%nat && (hd NUL (s ++ tail1) =? DOT)) = false).
  { apply not_true_iff_false. rewrite is_dot_iff by apply tail1_not_plain. by subst s. }
  rewrite Hd, (proj2 (is_dotdot_iff s tail1) Es).
  assert (Hlen : length Y = (length Y' + length g + 1)%nat).
  { rewrite EY, !length_app. simpl. lia. }
  replace (length Y =? base)%nat with false by (symmetry; apply Nat.eqb_neq; lia).
  replace (from + length s)%nat with next by done. rewrite drop_buf1_next.
  f_equal.
  destruct (exists_last Hg0) as (g'&x&Eg).
  assert (Hx : plain x).
  { rewrite Eg in Hg. apply Forall_app in Hg as [_ Hx]. by rewrite Forall_singleton in Hx. }
  assert (E1 : back_while is_bslash buf1 base (length Y) = (length Y' + length g)%nat).
  { unfold buf1. rewrite EY.
    replace (((Y' ++ g ++ [BSLASH]) ++ G) ++ s ++ norm_head rest ++ NUL :: T)
      with ((Y' ++ g) ++ [BSLASH] ++ (G ++ s ++ norm_head rest ++ NUL :: T))
      by (rewrite <- !app_assoc; done).
    replace (length (Y' ++ g ++ [BSLASH])) with (length (Y' ++ g) + length [BSLASH])%nat
      by (rewrite !length_app; simpl; lia).
    rewrite back_while_run; [|by repeat constructor|rewrite length_app; lia].
    rewrite back_while_stop; [by rewrite length_app|].
    right. exists (length (Y' ++ g')). split.
    { rewrite Eg, !length_app. simpl. lia. }
    rewrite Eg, (app_assoc Y' g' [x]), rd_last.
    unfold is_bslash. by apply plain_not_sep. }
  rewrite E1.
  unfold buf1. rewrite EY.
  replace (((Y' ++ g ++ [BSLASH]) ++ G) ++ s ++ norm_head rest ++ NUL :: T)
    with (Y' ++ g ++ ([BSLASH] ++ G ++ s ++ norm_head rest ++ NUL :: T))
    by (rewrite <- !app_assoc; done).
  rewrite back_while_run; [| |done].
  - apply back_while_stop. destruct HY' as [->|(Y''&->)]; [by left|right].
    exists (length Y''). split; [rewrite length_app; simpl; lia|].
    rewrite rd_last. done.
  - eapply Forall_impl; [exact Hg|]. intros c Hc. unfold not_bslash.
    by rewrite (proj2 (proj2 (plain_not_sep _ Hc))).
Qed.

Lemma keep_len_le : (keep_len s (norm_head rest) T <= length (s ++ tail1))%nat.
Proof.
  unfold keep_len. fold tail1. rewrite length_app.
  destruct tail1 as [|c r]; simpl.
  - change (NUL =? BSLASH) with false. simpl. lia.
  - destruct ((c =? BSLASH) && _); lia.
Qed.

Let kl := keep_len s (norm_head rest) T.

(** Any other segment is moved down to the write cursor. *)
Lemma step_keep : s <> [DOT] -> s <> [DOT; DOT] ->
  canon_step (CanonState buf base from (length Y)) =
  CanonState (Y ++ take kl (s ++ tail1) ++ drop kl (G ++ s ++ tail1))
             base (next + skip_bslash tail1) (length Y + kl).
Proof.
  intros Es1 Es2. destruct step_scan as [F1 F2].
  unfold canon_step. cbn [cs_buf cs_base cs_from cs_to].
  rewrite F1. fold next. rewrite F2.
  replace (next - from)%nat with (length s) by (unfold next; lia).
  rewrite rd_buf1_from, rd_buf1_from1, rd_buf1_next.
  assert (Hd : ((length s =? 1)%nat && (hd NUL (s ++ tail1) =? DOT)) = false).
  { apply not_true_iff_false. by rewrite is_dot_iff by apply tail1_not_plain. }
  assert (Hdd : ((length s =? 2)%nat && (hd NUL (s ++ tail1) =? DOT)
                 && (hd NUL (tl (s ++ tail1)) =? DOT)) = false).
  { apply not_true_iff_false. by rewrite is_dotdot_iff. }
  rewrite Hd, Hdd.
  change (if (hd NUL tail1 =? BSLASH) && negb (hd NUL (s ++ tail1) =? BSLASH)
          then S (length s) else length s) with kl.
  pose proof keep_len_le as Hle. fold kl in Hle.
  assert (Eb : (if negb (length Y =? from)%nat
                then memmove buf1 (length Y) from kl else buf1)
               = Y ++ take kl (s ++ tail1) ++ drop kl (G ++ s ++ tail1)).
  { destruct (length Y =? from)%nat eqn:Ef; simpl.
    - apply Nat.eqb_eq in Ef. unfold from in Ef. rewrite length_app in Ef.
      assert (G = []) as -> by (apply nil_length_inv; lia).
      unfold buf1. rewrite app_nil_r. simpl. by rewrite take_drop.
    - unfold memmove, buf1, from. rewrite <- !app_assoc.
      rewrite take_app_length.
      rewrite (app_assoc Y G), drop_app_length. fold tail1.
      rewrite <- (app_assoc Y G), drop_app_add. done. }
  rewrite Eb. f_equal.
  assert (Ed : drop (from + kl) (Y ++ take kl (s ++ tail1) ++ drop kl (G ++ s ++ tail1))
               = drop kl (s ++ tail1)).
  { unfold from. rewrite length_app.
    rewrite app_assoc.
    replace (length Y + length G + kl)%nat
      with (length (Y ++ take kl (s ++ tail1)) + length G)%nat
      by (rewrite length_app, length_take; lia).
    rewrite drop_app_add. rewrite drop_drop.
    replace (kl + length G)%nat with (length G + kl)%nat by lia.
    by rewrite drop_app_add. }
  rewrite Ed. clear Hle Eb Ed. unfold kl, keep_len. fold tail1. unfold next.
  destruct tail1 as [|c r]; simpl.
  - change (NUL =? BSLASH) with false. simpl. rewrite drop_app_length. simpl. lia.
  - destruct (c =? BSLASH) eqn:Ec; simpl.
    + destruct (hd NUL (s ++ c :: r) =? BSLASH) eqn:Eh; simpl.
      * rewrite drop_app_length. simpl. rewrite Ec. lia.
      * replace (S (length s)) with (length s + 1)%nat by lia.
        rewrite drop_app_add. simpl. rewrite drop_0. lia.
    + rewrite drop_app_length. simpl. rewrite Ec. lia.
Qed.

End Step.

Lemma chunks_snoc segs s : chunks (segs ++ [s]) = chunks segs ++ s ++ [BSLASH].
Proof. unfold chunks. rewrite fmap_app, concat_app. simpl. by rewrite app_nil_r. Qed.

Lemma seg_split R : NUL ∉ R ->
  exists s rest, R = s ++ rest /\ Forall plain s /\ sep_headed rest.
Proof.
  induction R as [|c R IH]; intros HR.
  - exists [], []. done.
  - apply not_elem_of_cons in HR as [Hc HR].
    destruct (path__is_dirsep c) eqn:Ec.
    + exists [], (c :: R). done.
    + destruct (IH HR) as (s&rest&->&Hs&Hrest).
      exists (c :: s), rest. split; [done|]. split; [|done].
      constructor; [|done]. unfold plain. unfold path__is_dirsep in Ec.
      apply orb_false_iff in Ec as [E1 E2]. apply Z.eqb_neq in E1, E2. done.
Qed.

Lemma skip_bslash_le r : (skip_bslash r <= length r)%nat.
Proof. induction r as [|c r IH]; simpl; [done|]. destruct (c =? BSLASH); lia. Qed.

Lemma norm_head_length r : length (norm_head r) = length r.
Proof. by destruct r. Qed.

Lemma norm_head_nul r : sep_headed r -> NUL ∉ r -> NUL ∉ norm_head r.
Proof.
  destruct r as [|c r]; simpl; [done|]. intros _ H.
  apply not_elem_of_cons in H as [_ H]. apply not_elem_of_cons. done.
Qed.

Lemma not_elem_of_drop (x : wchar) n l : x ∉ l -> x ∉ drop n l.
Proof. intros H Hx. apply H. by apply (subseteq_drop n l). Qed.

Lemma good_plain_hd s r : good s -> (hd NUL (s ++ r) =? BSLASH) = false.
Proof.
  intros (Hn&Hp&_). destruct s as [|c s]; [done|]. simpl.
  apply Forall_cons in Hp as [Hc _]. by apply plain_not_sep.
Qed.

Lemma good_or s : Forall plain s -> s <> [DOT] -> s <> [DOT; DOT] -> s = [] \/ good s.
Proof. intros. destruct s; [by left|right]. done. Qed.

Ltac len_tac :=
  repeat (rewrite ?length_app, ?length_take, ?length_drop in * );
  cbn [length app] in *; lia.

Lemma canon_inv_step P T m st R :
  canon_inv P T m st R -> R <> [] ->
  exists R', canon_inv P T m (canon_step st) R' /\ (length R' < length R)%nat.
Proof.
  intros [ (O&G&Hbuf&Hto&Hfrom&Hch&Hm) Hbase Hnul ] HR.
  destruct st as [buf base from to]. simpl in *. subst to from buf.
  destruct (seg_split R Hnul) as (s&rest&->&Hs&Hrest).
  destruct Hch as (segs&last&Hsegs&->&Hlast).
  assert (last = []) as -> by (destruct Hlast as [|[_ ?]]; done).
  rewrite app_nil_r in *.
  set (rest1 := norm_head rest).
  assert (Hn1 : NUL ∉ rest1).
  { apply norm_head_nul; [done|]. intros H. apply Hnul. apply elem_of_app. by right. }
  set (k := skip_bslash rest1).
  assert (Hk : (k <= length rest1)%nat) by apply skip_bslash_le.
  assert (Hk' : skip_bslash (rest1 ++ NUL :: T) = k) by (by apply skip_bslash_app_nul).
  assert (Hl1 : length rest1 = length rest) by apply norm_head_length.
  assert (HnR' : NUL ∉ drop k rest1) by (by apply not_elem_of_drop).
  rewrite <- (app_assoc s rest).
  destruct (decide (s = [DOT])) as [Es|Es1]; [|destruct (decide (s = [DOT; DOT])) as [Es|Es2]].
  - (* . *)
    rewrite (step_dot _ _ _ _ _ _ Hs Hrest Es). fold rest1. rewrite Hk'.
    exists (drop k rest1). split; [|rewrite length_app, length_drop; subst s; cbn [length app]; lia].
    split; cbn [cs_buf cs_base cs_from cs_to]; [|done|done].
    exists (chunks segs), (G ++ s ++ take k rest1). repeat split.
    + rewrite <- !app_assoc. do 4 f_equal. by rewrite <- (take_drop k rest1) at 1; rewrite <- app_assoc.
    + rewrite !length_app, length_take. lia.
    + exists segs, []. rewrite app_nil_r. auto.
    + rewrite !length_app, length_take, length_drop in *. lia.
  - (* .. *)
    destruct (decide (segs = [])) as [->|Hne].
    + simpl in *. rewrite app_nil_r in *.
      rewrite (step_dotdot_root _ _ _ _ _ _ Hs Hrest Es Hbase). fold rest1. rewrite Hk'.
      exists (drop k rest1). split; [|rewrite length_app, length_drop; subst s; cbn [length app]; lia].
      split; cbn [cs_buf cs_base cs_from cs_to]; [|done|done].
      exists [], (G ++ s ++ take k rest1). rewrite !app_nil_r. repeat split.
      * rewrite <- !app_assoc. do 3 f_equal. by rewrite <- (take_drop k rest1) at 1; rewrite <- app_assoc.
      * rewrite !length_app, length_take. lia.
      * exists [], []. auto.
      * rewrite !length_app, length_take, length_drop in *. cbn [length app] in *; lia.
    + destruct (exists_last Hne) as (segs'&g&->).
      apply Forall_app in Hsegs as [Hsegs' Hg]. rewrite Forall_singleton in Hg.
      destruct Hg as (Hg0&Hgp&_).
      rewrite chunks_snoc in *.
      rewrite (step_dotdot_back _ _ _ _ _ _ Hs Hrest (P ++ chunks segs') g Es);
        [|by rewrite <- !app_assoc|done|done|rewrite length_app; lia|].
      2:{ destruct (decide (segs' = [])) as [->|Hne'].
          - left. simpl. by rewrite app_nil_r.
          - right. destruct (exists_last Hne') as (segs''&g2&->).
            rewrite chunks_snoc. exists (P ++ chunks segs'' ++ g2).
            by rewrite <- !app_assoc. }
      fold rest1. rewrite Hk'.
      exists (drop k rest1). split; [|rewrite length_app, length_drop; subst s; cbn [length app]; lia].
      split; cbn [cs_buf cs_base cs_from cs_to]; [|done|done].
      exists (chunks segs'), ((g ++ [BSLASH]) ++ G ++ s ++ take k rest1). repeat split.
      * rewrite <- !app_assoc. do 6 f_equal. by rewrite <- (take_drop k rest1) at 1; rewrite <- app_assoc.
      * rewrite !length_app, length_take. cbn [length app] in *; lia.
      * exists segs', []. rewrite app_nil_r. auto.
      * rewrite !length_app, length_take, length_drop in *. cbn [length app] in *; lia.
  - (* kept *)
    rewrite (step_keep _ _ _ _ _ _ Hs Hrest Es1 Es2). fold rest1. rewrite Hk'.
    exists (drop k rest1).
    destruct (good_or s Hs Es1 Es2) as [->|Hgood].
    + (* an empty segment: only separators are skipped *)
      destruct rest as [|c r]; [done|].
      assert (k >= 1)%nat by (unfold k; simpl; change (92 =? BSLASH) with true; lia).
      split; [|rewrite length_drop; cbn [length app] in *; lia].
      assert (Ekl : keep_len [] rest1 T = 0%nat) by done.
      rewrite Ekl, take_0, drop_0, !app_nil_l.
      split; cbn [cs_buf cs_base cs_from cs_to]; [|done|done].
      exists (chunks segs), (G ++ take k rest1). repeat split.
      * rewrite <- !app_assoc. do 3 f_equal.
        by rewrite <- (take_drop k rest1) at 1; rewrite <- app_assoc.
      * rewrite !length_app. lia.
      * rewrite !length_app, length_take. cbn [length app] in *; lia.
      * exists segs, []. rewrite app_nil_r. auto.
      * rewrite !length_app, length_take, length_drop in *. cbn [length app] in *; lia.
    + assert (Hs0 : (length s > 0)%nat) by (destruct Hgood as (?&_); destruct s; simpl; [done|lia]).
      split; [|rewrite length_app, length_drop; lia].
      destruct rest as [|c r].
      * (* the last segment: no separator follows *)
        assert (Ekl : keep_len s rest1 T = length s).
        { unfold keep_len, rest1. simpl. done. }
        rewrite Ekl. simpl in *. unfold k in *. simpl in *.
        split; cbn [cs_buf cs_base cs_from cs_to]; [|done|done].
        exists (chunks segs ++ s), (drop (length s) (G ++ s)). repeat split.
        -- rewrite take_app_length.
           rewrite (app_assoc G s), drop_app_le by (rewrite length_app; lia).
           by rewrite <- !app_assoc.
        -- rewrite !length_app. lia.
        -- rewrite !length_app, length_drop, length_app. lia.
        -- exists segs, s. auto.
        -- rewrite !length_app, length_drop, length_app in *. cbn [length app] in *; lia.
      * assert (Ekl : keep_len s rest1 T = S (length s)).
        { unfold keep_len, rest1. simpl. change (92 =? BSLASH) with true.
          by rewrite (good_plain_hd s _ Hgood). }
        rewrite Ekl.
        assert (k >= 1)%nat by (unfold k; simpl; change (92 =? BSLASH) with true; lia).
        split; cbn [cs_buf cs_base cs_from cs_to]; [|done|done].
        exists (chunks (segs ++ [s])), (drop (S (length s)) (G ++ s ++ take k rest1)).
        assert (Htk : take (S (length s)) (s ++ rest1 ++ NUL :: T) = s ++ [BSLASH]).
        { replace (S (length s)) with (length s + 1)%nat by lia.
          rewrite take_app_add. done. }
        repeat split.
        -- rewrite Htk, chunks_snoc.
           assert (Hd : drop (S (length s)) (G ++ s ++ rest1 ++ NUL :: T)
                        = drop (S (length s)) (G ++ s ++ take k rest1) ++ drop k rest1 ++ NUL :: T).
           { rewrite <- (take_drop k rest1) at 1.
             rewrite <- (app_assoc (take k rest1)), (app_assoc s), (app_assoc G).
             rewrite drop_app_le by (rewrite !length_app, length_take; lia).
             by rewrite <- ?app_assoc. }
           rewrite Hd. by rewrite <- !app_assoc.
        -- rewrite chunks_snoc, !length_app. cbn [length app] in *; lia.
        -- rewrite chunks_snoc, !length_app, length_drop, !length_app, length_take. cbn [length app] in *; lia.
        -- exists (segs ++ [s]), []. rewrite app_nil_r. split; [|auto].
           apply Forall_app. split; [done|]. by apply Forall_singleton.
        -- rewrite chunks_snoc, !length_app, length_drop, !length_app, length_take, length_drop in *.
           cbn [length app] in *; lia.
Qed.

Lemma canon_inv_loop P T m fuel : forall st R,
  canon_inv P T m st R -> (length R <= fuel)%nat ->
  exists st', canon_loop fuel st = Some st' /\ canon_inv P T m st' [].
Proof.
  induction fuel as [|fuel IH]; intros st R Hinv Hlen.
  - assert (R = []) as -> by (apply nil_length_inv; lia).
    exists st. split; [|done]. simpl.
    destruct Hinv as [(O&G&Hbuf&_&Hfrom&_) _ _].
    rewrite Hbuf, Hfrom, rd_app_len. done.
  - destruct (decide (R = [])) as [->|HR].
    + exists st. split; [|done]. simpl.
      destruct Hinv as [(O&G&Hbuf&_&Hfrom&_) _ _].
      rewrite Hbuf, Hfrom, rd_app_len. done.
    + destruct (canon_inv_step _ _ _ _ _ Hinv HR) as (R'&Hinv'&Hlt).
      destruct (IH _ R' Hinv') as (st'&Hl&Hi); [lia|].
      exists st'. split; [|done]. simpl.
      pose proof Hinv as [(O&G&Hbuf&_&Hfrom&_) _ Hnul].
      rewrite Hbuf, Hfrom, rd_app_len.
      destruct R as [|c R]; [done|]. simpl.
      apply not_elem_of_cons in Hnul as [Hc _].
      replace (c =? NUL) with false by (symmetry; apply Z.eqb_neq; done).
      done.
Qed.

Lemma unposix_prefix_app (A : list wchar) : forall X B,
  unposix_prefix (length A) (X ++ A ++ B) (length X) = X ++ (unposix <$> A) ++ B.
Proof.
  induction A as [|a A IH]; intros X B; [done|].
  cbn [length unposix_prefix]. rewrite rd_app_len. cbn [hd app].
  assert (E : (if a =? SLASH then <[length X := BSLASH]> (X ++ a :: A ++ B) else X ++ a :: A ++ B)
              = (X ++ [unposix a]) ++ A ++ B).
  { unfold unposix. destruct (a =? SLASH).
    - replace (length X) with (length X + 0)%nat at 1 by lia.
      rewrite insert_app_r. simpl. by rewrite <- app_assoc.
    - by rewrite <- app_assoc. }
  rewrite E. replace (S (length X)) with (length (X ++ [unposix a]))
    by (rewrite length_app; simpl; lia).
  rewrite IH. rewrite <- app_assoc. done.
Qed.

Ltac b2p H :=
  repeat (rewrite ?andb_true_iff, ?orb_true_iff, ?Z.eqb_eq in H).

Lemma skip_server_off_app_nul S T : skip_server_off (S ++ NUL :: T) = skip_server_off S.
Proof.
  induction S as [|c S IH]; simpl; [done|].
  destruct (c =? NUL); [done|]. destruct (path__is_dirsep c); [done|]. by rewrite IH.
Qed.

Lemma skip_server_off_le S : (skip_server_off S <= length S)%nat.
Proof.
  induction S as [|c S IH]; simpl; [done|].
  destruct (c =? NUL); [lia|]. destruct (path__is_dirsep c); lia.
Qed.

Lemma nt_inv S T : path__is_nt_namespace (S ++ NUL :: T) 0 = true ->
  exists c S', S = c :: c :: QMARK :: c :: S' /\ (c = BSLASH \/ c = SLASH).
Proof.
  intros H. unfold path__is_nt_namespace, rd in H.
  destruct S as [|c0 [|c1 [|c2 [|c3 S']]]]; simpl in H; b2p H;
    try (by intuition discriminate).
  destruct H as [(((->&->)&->)&->)|(((->&->)&->)&->)]; eauto.
Qed.

Lemma abs_inv S T : path__is_absolute (S ++ NUL :: T) 0 = true ->
  exists a c S', S = a :: COLON :: c :: S' /\ git__isalpha a = true /\
                 path__is_dirsep c = true.
Proof.
  intros H. unfold path__is_absolute, rd in H.
  destruct S as [|c0 [|c1 [|c2 S']]]; simpl in H; b2p H;
    try (by intuition discriminate).
  destruct H as ((Ha&->)&Hc). exists c0, c2, S'. split; [done|]. split; [done|].
  unfold path__is_dirsep. b2p Hc. rewrite orb_true_iff, !Z.eqb_eq. tauto.
Qed.

Lemma unc_inv S T : path__is_unc (S ++ NUL :: T) 0 = true ->
  exists c S', S = c :: c :: S' /\ (c = BSLASH \/ c = SLASH).
Proof.
  intros H. unfold path__is_unc, rd in H.
  destruct S as [|c0 [|c1 S']]; simpl in H; b2p H;
    try (by intuition discriminate).
  destruct H as [(->&->)|(->&->)]; eauto.
Qed.

Lemma uncmark_inv S T : (wcsncmp (S ++ NUL :: T) UNC_MARK 4 =? 0) = true ->
  exists S', S = 85 :: 78 :: 67 :: BSLASH :: S'.
Proof.
  intros H. apply Z.eqb_eq in H.
  destruct S as [|c0 S]; simpl in H; [done|].
  destruct (c0 =? 85) eqn:E0; [|apply Z.eqb_neq in E0; lia]. apply Z.eqb_eq in E0 as ->.
  destruct S as [|c1 S]; simpl in H; [done|].
  destruct (c1 =? 78) eqn:E1; [|apply Z.eqb_neq in E1; lia]. apply Z.eqb_eq in E1 as ->.
  destruct S as [|c2 S]; simpl in H; [done|].
  destruct (c2 =? 67) eqn:E2; [|apply Z.eqb_neq in E2; lia]. apply Z.eqb_eq in E2 as ->.
  destruct S as [|c3 S]; simpl in H; [done|].
  destruct (c3 =? BSLASH) eqn:E3; [|apply Z.eqb_neq in E3; lia]. apply Z.eqb_eq in E3 as ->.
  eauto.
Qed.

Lemma skip_prefix_le S T :
  (path__skip_prefix (S ++ NUL :: T) 0 <= length S)%nat.
Proof.
  unfold path__skip_prefix, PATH__NT_NAMESPACE_LEN, PATH__ABSOLUTE_LEN.
  destruct (path__is_nt_namespace _ 0) eqn:Ent.
  - apply nt_inv in Ent as (c&S'&->&_).
    change (drop (0 + 4) ((c :: c :: QMARK :: c :: S') ++ NUL :: T))
      with (S' ++ NUL :: T).
    destruct (wcsncmp _ UNC_MARK 4 =? 0) eqn:Eu.
    + apply uncmark_inv in Eu as (S''&->).
      unfold path__skip_server.
      change (drop _ _) with (S'' ++ NUL :: T).
      rewrite skip_server_off_app_nul. pose proof (skip_server_off_le S''). simpl. lia.
    + change (path__is_absolute _ _) with (path__is_absolute (S' ++ NUL :: T) 0).
      destruct (path__is_absolute _ 0) eqn:Ea; [|simpl; lia].
      apply abs_inv in Ea as (a&d&S''&->&_). simpl. lia.
  - destruct (path__is_absolute _ 0) eqn:Ea.
    + apply abs_inv in Ea as (a&d&S''&->&_). simpl. lia.
    + destruct (path__is_unc _ 0) eqn:Eu; [|lia].
      apply unc_inv in Eu as (c&S'&->&_).
      unfold path__skip_server. change (drop _ _) with (S' ++ NUL :: T).
      rewrite skip_server_off_app_nul. pose proof (skip_server_off_le S'). simpl. lia.
Qed.

Lemma join_cons s ss : ss <> [] -> join (s :: ss) = s ++ BSLASH :: join ss.
Proof. by destruct ss. Qed.

Lemma join_snoc segs g : join (segs ++ [g]) = chunks segs ++ g.
Proof.
  induction segs as [|s segs IH]; [done|].
  change ((s :: segs) ++ [g]) with (s :: (segs ++ [g])).
  rewrite join_cons by (by destruct segs). rewrite IH.
  change (chunks (s :: segs)) with ((s ++ [BSLASH]) ++ chunks segs).
  by rewrite <- !app_assoc.
Qed.

Lemma insert_head_app (G T : list wchar) :
  <[0%nat := NUL]> (G ++ NUL :: T) = NUL :: tail (G ++ NUL :: T).
Proof. by destruct G. Qed.

Lemma good_last g : good g -> exists g' x, g = g' ++ [x] /\ plain x.
Proof.
  intros (Hn&Hp&_). destruct (exists_last Hn) as (g'&x&->).
  exists g', x. split; [done|]. apply Forall_app in Hp as [_ Hx].
  by rewrite Forall_singleton in Hx.
Qed.

Lemma rd_at (l A : list wchar) x C : l = A ++ x :: C -> rd l (length A) = x.
Proof. intros ->. by rewrite rd_app_len. Qed.

Lemma canon_shape S T : NUL ∉ S ->
  let b := path__skip_prefix (S ++ NUL :: T) 0 in
  exists segs tl,
    Forall good segs /\
    git_win32_path_canonicalize (S ++ NUL :: T)
    = Some ((unposix <$> take b S) ++ join segs ++ NUL :: tl,
            Z.of_nat (b + length (join segs))) /\
    (b + length (join segs) + length tl = length S + length T)%nat /\
    (b + length (join segs) <= length S)%nat.
Proof.
  intros HS b. pose proof (skip_prefix_le S T) as Hb. fold b in Hb.
  unfold git_win32_path_canonicalize. fold b.
  set (P := unposix <$> take b S).
  assert (HP : length P = b) by (unfold P; rewrite length_fmap, length_take; lia).
  assert (E0 : unposix_prefix b (S ++ NUL :: T) 0 = P ++ drop b S ++ NUL :: T).
  { rewrite <- (take_drop b S) at 1. rewrite <- app_assoc.
    replace b with (length (take b S)) at 1 by (rewrite length_take; lia).
    apply (unposix_prefix_app (take b S) [] (drop b S ++ NUL :: T)). }
  rewrite E0.
  assert (Hinv : canon_inv P T (length S - b)
                   (CanonState (P ++ drop b S ++ NUL :: T) b b b) (drop b S)).
  { split; cbn [cs_buf cs_base cs_from cs_to]; [|done|by apply not_elem_of_drop].
    exists [], []. rewrite !app_nil_r. repeat split; [done|done|..].
    - exists [], []. auto.
    - rewrite length_drop. simpl. lia. }
  destruct (canon_inv_loop P T _ (length (S ++ NUL :: T)) _ _ Hinv) as (st'&->&Hinv').
  { rewrite length_drop, length_app. lia. }
  destruct Hinv' as [(O&G&Hbuf&Hto&Hfrom&(segs&last&Hsegs&->&Hlast)&Hm) Hbase _].
  rewrite Hbuf, Hto, Hbase. clear Hbuf Hto Hbase Hfrom.
  cbn [app] in *. rewrite Nat.add_0_r in Hm.
  destruct Hlast as [->|[Hgl _]].
  - rewrite app_nil_r in *.
    destruct (decide (segs = [])) as [->|Hne].
    + exists [], (tail (G ++ NUL :: T)). split; [done|].
      cbn [chunks fmap list_fmap concat join app length] in *. rewrite !app_nil_r.
      rewrite back_while_stop by (left; lia).
      rewrite <- app_assoc.
      replace (length P) with (length P + 0)%nat at 1 by lia.
      rewrite insert_app_r, insert_head_app.
      split; [by rewrite Nat.add_0_r, HP|].
      split; [|lia].
      destruct G; cbn [tail app length] in *; [lia|]. rewrite length_app. cbn [length]. lia.
    + destruct (exists_last Hne) as (segs'&g&->).
      apply Forall_app in Hsegs as [Hsegs' Hg]. rewrite Forall_singleton in Hg.
      exists (segs' ++ [g]), (G ++ NUL :: T).
      split; [apply Forall_app; split; [done|by apply Forall_singleton]|].
      rewrite join_snoc, chunks_snoc in *.
      destruct (good_last g Hg) as (g'&x&Eg&Hx).
      replace (((P ++ chunks segs' ++ g ++ [BSLASH]) ++ G) ++ NUL :: T)
        with ((P ++ chunks segs' ++ g) ++ [BSLASH] ++ (G ++ NUL :: T))
        by (rewrite <- !app_assoc; done).
      replace (length (P ++ chunks segs' ++ g ++ [BSLASH]))
        with (length (P ++ chunks segs' ++ g) + length [BSLASH])%nat
        by (rewrite !length_app; cbn [length]; lia).
      rewrite back_while_run; [|by repeat constructor|rewrite length_app; lia].
      rewrite back_while_stop.
      2:{ right. exists (length (P ++ chunks segs' ++ g')). split.
          - rewrite Eg, !length_app. cbn [length]. lia.
          - rewrite (rd_at _ _ x ([BSLASH] ++ G ++ NUL :: T)).
            + unfold is_bslash. by apply plain_not_sep.
            + rewrite Eg. by rewrite <- !app_assoc. }
      replace (length (P ++ chunks segs' ++ g)) with (length (P ++ chunks segs' ++ g) + 0)%nat at 1 by lia.
      rewrite insert_app_r. cbn [app insert list_insert].
      rewrite <- !app_assoc.
      rewrite !length_app in *. cbn [length] in *.
      split; [by rewrite HP|]. split; lia.
  - exists (segs ++ [last]), (tail (G ++ NUL :: T)).
    split; [apply Forall_app; split; [done|by apply Forall_singleton]|].
    rewrite join_snoc.
    destruct (good_last last Hgl) as (l'&x&El&Hx).
    rewrite back_while_stop.
    2:{ right. exists (length (P ++ chunks segs ++ l')). split.
        - rewrite El, !length_app. cbn [length]. lia.
        - rewrite (rd_at _ _ x (G ++ NUL :: T)).
          + unfold is_bslash. by apply plain_not_sep.
          + rewrite El. by rewrite <- !app_assoc. }
    rewrite <- app_assoc.
    replace (length (P ++ chunks segs ++ last)) with (length (P ++ chunks segs ++ last) + 0)%nat at 1 by lia.
    rewrite insert_app_r, insert_head_app. rewrite <- !app_assoc.
    rewrite !length_app in *.
    split; [by rewrite HP|].
    split; [|lia].
    destruct G; cbn [tail app length] in *; [lia|]. rewrite length_app. cbn [length]. lia.
Qed.

Lemma unposix_plain s : Forall plain s -> unposix <$> s = s.
Proof.
  induction 1 as [|c s Hc Hs IH]; [done|]. cbn [fmap list_fmap]. 
  change (list_fmap _ _ unposix s) with (unposix <$> s). rewrite IH.
  unfold unposix. by rewrite (proj1 (proj2 (plain_not_sep _ Hc))).
Qed.

Lemma unposix_sep c : path__is_dirsep c = true -> unposix c = BSLASH.
Proof.
  unfold path__is_dirsep, unposix. destruct (c =? SLASH); [done|].
  simpl. by intros ->%Z.eqb_eq.
Qed.

Lemma clean_hd_plain R : clean R -> R <> [] -> plain (hd NUL R).
Proof.
  intros H HR. destruct H as [|s (Hn&Hp&_)|s c r (Hn&Hp&_) _ _ _]; [done|..];
    destruct s as [|x s]; try done; by apply Forall_cons in Hp as [? _].
Qed.

Lemma clean_last_plain R : clean R -> R <> [] -> exists R' x, R = R' ++ [x] /\ plain x.
Proof.
  induction 1 as [|s Hs|s c r Hs Hc Hr IH Hne]; intros HR; [done|by apply good_last|].
  destruct (IH Hne) as (R'&x&->&Hx). exists (s ++ c :: R'), x. split; [|done].
  by rewrite <- app_assoc.
Qed.

Lemma canon_loop_done fuel st :
  rd (cs_buf st) (cs_from st) = NUL -> canon_loop fuel st = Some st.
Proof. intros H. destruct fuel; simpl; by rewrite H. Qed.

Lemma canon_loop_more fuel st :
  rd (cs_buf st) (cs_from st) <> NUL ->
  canon_loop (S fuel) st = canon_loop fuel (canon_step st).
Proof. intros H. simpl. apply Z.eqb_neq in H. by rewrite H. Qed.

Lemma good_not_dot s : good s -> s <> [DOT] /\ s <> [DOT; DOT].
Proof. by intros (_&_&?&?). Qed.

Lemma clean_loop T base R : clean R -> forall fuel Y,
  (length R <= fuel)%nat ->
  canon_loop fuel (CanonState (Y ++ R ++ NUL :: T) base (length Y) (length Y))
  = Some (CanonState (Y ++ (unposix <$> R) ++ NUL :: T) base
                     (length (Y ++ R)) (length (Y ++ R))).
Proof.
  induction 1 as [|s Hs|s c r Hs Hc Hr IH Hne]; intros fuel Y Hfuel.
  - rewrite canon_loop_done; [by rewrite app_nil_r|].
    cbn [cs_buf cs_from]. by rewrite rd_app_len.
  - pose proof Hs as (Hn&Hp&Hd1&Hd2).
    destruct fuel as [|fuel]; [destruct s; cbn [length] in *; [done|lia]|].
    rewrite canon_loop_more.
    2:{ cbn [cs_buf cs_from]. rewrite rd_app_len. destruct s as [|x s]; [done|].
        apply Forall_cons in Hp as [(?&_) _]. done. }
    replace (Y ++ s ++ NUL :: T) with ((Y ++ []) ++ s ++ [] ++ NUL :: T)
      by (by rewrite app_nil_r).
    replace (length Y) with (length (Y ++ [])) at 1 by (by rewrite app_nil_r).
    rewrite (step_keep Y [] s [] T base Hp I Hd1 Hd2).
    assert (Ekl : keep_len s (norm_head []) T = length s) by done.
    rewrite Ekl. cbn [norm_head app]. rewrite take_app_length, drop_app_length.
    cbn [skip_bslash]. change (NUL =? BSLASH) with false. cbv iota.
    rewrite app_nil_r, Nat.add_0_r, <- length_app.
    rewrite canon_loop_done; [by rewrite unposix_plain|].
    cbn [cs_buf cs_from]. rewrite app_assoc. by rewrite rd_app_len.
  - pose proof Hs as (Hn&Hp&Hd1&Hd2).
    destruct fuel as [|fuel]; [rewrite length_app in Hfuel; cbn [length] in Hfuel; lia|].
    rewrite canon_loop_more.
    2:{ cbn [cs_buf cs_from]. rewrite rd_app_len. destruct s as [|x s]; [done|].
        apply Forall_cons in Hp as [(?&_) _]. done. }
    replace (Y ++ (s ++ c :: r) ++ NUL :: T) with ((Y ++ []) ++ s ++ (c :: r) ++ NUL :: T)
      by (by rewrite app_nil_r, <- !app_assoc).
    replace (length Y) with (length (Y ++ [])) at 1 by (by rewrite app_nil_r).
    rewrite (step_keep Y [] s (c :: r) T base Hp Hc Hd1 Hd2).
    assert (Ekl : keep_len s (norm_head (c :: r)) T = S (length s)).
    { unfold keep_len. cbn [norm_head app hd]. change (BSLASH =? BSLASH) with true.
      by rewrite (good_plain_hd s _ Hs). }
    rewrite Ekl. cbn [norm_head app].
    assert (Hsk : skip_bslash (BSLASH :: r ++ NUL :: T) = 1%nat).
    { cbn [skip_bslash]. change (BSLASH =? BSLASH) with true. cbv iota.
      pose proof (clean_hd_plain r Hr Hne) as Hh.
      destruct r as [|x r]; [done|]. cbn [app skip_bslash hd] in *.
      by rewrite (proj2 (proj2 (plain_not_sep _ Hh))). }
    rewrite Hsk.
    replace (S (length s)) with (length s + 1)%nat by lia.
    rewrite take_app_add, drop_app_add. cbn [take drop]. rewrite take_0, drop_0.
    replace (Y ++ (s ++ [BSLASH]) ++ r ++ NUL :: T)
      with ((Y ++ s ++ [BSLASH]) ++ r ++ NUL :: T) by (by rewrite <- !app_assoc).
    replace (length (Y ++ []) + length s + 1)%nat with (length (Y ++ s ++ [BSLASH]))
      by (rewrite !length_app; cbn [length]; lia).
    replace (length Y + (length s + 1))%nat with (length (Y ++ s ++ [BSLASH]))
      by (rewrite !length_app; cbn [length]; lia).
    rewrite IH by (rewrite length_app in Hfuel; cbn [length] in Hfuel; lia).
    rewrite fmap_app, fmap_cons, (unposix_plain s Hp), (unposix_sep c Hc).
    f_equal. rewrite <- !app_assoc. cbn [app].
    f_equal; rewrite !length_app; cbn [length]; rewrite ?length_app; lia.
Qed.

(** On a path that needs no rewriting the canonicaliser only respells
    the separators. *)
Lemma canon_clean Q T :
  clean (drop (path__skip_prefix (Q ++ NUL :: T) 0) Q) ->
  git_win32_path_canonicalize (Q ++ NUL :: T)
  = Some ((unposix <$> Q) ++ NUL :: T, Z.of_nat (length Q)).
Proof.
  set (b := path__skip_prefix (Q ++ NUL :: T) 0). intros Hc.
  pose proof (skip_prefix_le Q T) as Hb. fold b in Hb.
  unfold git_win32_path_canonicalize. fold b.
  set (P := unposix <$> take b Q).
  assert (HP : length P = b) by (unfold P; rewrite length_fmap, length_take; lia).
  assert (E0 : unposix_prefix b (Q ++ NUL :: T) 0 = P ++ drop b Q ++ NUL :: T).
  { rewrite <- (take_drop b Q) at 1. rewrite <- app_assoc.
    replace b with (length (take b Q)) at 1 by (rewrite length_take; lia).
    apply (unposix_prefix_app (take b Q) [] (drop b Q ++ NUL :: T)). }
  rewrite E0.
  replace (CanonState (P ++ drop b Q ++ NUL :: T) b b b)
    with (CanonState (P ++ drop b Q ++ NUL :: T) b (length P) (length P))
    by (by rewrite HP).
  rewrite (clean_loop T b (drop b Q) Hc) by (rewrite length_drop, length_app; lia).
  cbn [cs_buf cs_base cs_to].
  assert (EQ : P ++ (unposix <$> drop b Q) = unposix <$> Q).
  { unfold P. by rewrite <- fmap_app, take_drop. }
  assert (EL : length (P ++ drop b Q) = length (unposix <$> Q)).
  { rewrite <- EQ, !length_app, length_fmap. done. }
  rewrite app_assoc, EQ, EL.
  rewrite back_while_stop.
  - rewrite list_insert_id; [by rewrite length_fmap|].
    by rewrite list_lookup_middle.
  - destruct (decide (drop b Q = [])) as [E|E].
    + left. rewrite <- EL, length_app, E. cbn [length]. lia.
    + right. destruct (clean_last_plain _ Hc E) as (R'&x&ER&Hx).
      exists (length (P ++ (unposix <$> R'))). split.
      * rewrite <- EQ, ER, fmap_app, !length_app. cbn [length fmap list_fmap]. lia.
      * rewrite (rd_at _ _ x (NUL :: T)); [unfold is_bslash; by apply plain_not_sep|].
        rewrite <- EQ, ER, fmap_app. cbn [fmap list_fmap].
        replace (unposix x) with x by (unfold unposix; by rewrite (proj1 (proj2 (plain_not_sep _ Hx)))).
        by rewrite <- !app_assoc.
Qed.

Lemma bslash_not_plain : ~ plain BSLASH.
Proof. by intros (_&_&?). Qed.

Lemma app_first_nonplain (l1 l2 r1 r2 : list wchar) x1 x2 :
  Forall plain l1 -> Forall plain l2 -> ~ plain x1 -> ~ plain x2 ->
  l1 ++ x1 :: r1 = l2 ++ x2 :: r2 -> l1 = l2 /\ x1 = x2 /\ r1 = r2.
Proof.
  intros H1. revert l2. induction H1 as [|c l1 Hc H1 IH]; intros l2 H2 Hx1 Hx2 E.
  - destruct H2 as [|c2 l2 Hc2 H2]; simpl in E.
    + by injection E as -> ->.
    + injection E as -> _. done.
  - destruct H2 as [|c2 l2 Hc2 H2]; simpl in E.
    + injection E as -> _. done.
    + injection E as -> E. destruct (IH l2 H2 Hx1 Hx2 E) as (->&->&->). done.
Qed.

Lemma join_clean segs : Forall good segs -> clean (join segs).
Proof.
  induction 1 as [|s segs Hs Hsegs IH]; [constructor|].
  destruct segs as [|s' segs]; [by constructor|].
  rewrite join_cons by done. apply clean_cons; [done|done|done|].
  apply Forall_cons in Hsegs as [(Hn&_) _].
  cbn [join]. destruct segs; [done|]. by destruct s'.
Qed.

Lemma join_split segs s d C' :
  Forall good segs -> Forall plain s -> path__is_dirsep d = true ->
  join segs = s ++ d :: C' ->
  exists segs', segs = s :: segs' /\ segs' <> [] /\ C' = join segs' /\ d = BSLASH.
Proof.
  intros Hsegs Hs Hd E. destruct Hsegs as [|g segs Hg Hsegs]; [by destruct s|].
  pose proof Hg as (_&Hgp&_).
  destruct segs as [|g' segs].
  - cbn [join] in E. exfalso. rewrite E in Hgp.
    apply Forall_app in Hgp as [_ Hgp]. apply Forall_cons in Hgp as [Hp _].
    by apply (dirsep_not_plain d).
  - rewrite join_cons in E by done.
    apply app_first_nonplain in E as (->&<-&<-);
      [|done|done|apply bslash_not_plain|by apply dirsep_not_plain].
    exists (g' :: segs). done.
Qed.

Lemma join_hd_plain segs : Forall good segs -> segs <> [] -> plain (hd NUL (join segs)).
Proof.
  intros H Hne. apply clean_hd_plain; [by apply join_clean|].
  destruct H as [|s segs (Hn&_) _]; [done|]. cbn [join].
  destruct segs; [done|]. by destruct s.
Qed.

Lemma unposix_idem (l : list wchar) : unposix <$> (unposix <$> l) = unposix <$> l.
Proof.
  rewrite <- list_fmap_compose. apply list_fmap_ext. intros _ c _.
  unfold compose, unposix. destruct (c =? SLASH) eqn:E; [done|]. by rewrite E.
Qed.

Lemma unposix_join segs : Forall good segs -> unposix <$> join segs = join segs.
Proof.
  induction 1 as [|s segs (_&Hs&_) Hsegs IH]; [done|].
  destruct segs as [|s' segs]; [by apply unposix_plain|].
  rewrite join_cons by done. rewrite fmap_app, fmap_cons, IH, unposix_plain by done. done.
Qed.


Lemma skip_server_stop (l : list wchar) : NUL ∉ l ->
  (skip_server_off l = length l /\ Forall nonsep l) \/
  (exists s d l', l = s ++ d :: l' /\ skip_server_off l = (length s + 1)%nat /\
                  path__is_dirsep d = true /\ Forall nonsep s).
Proof.
  induction l as [|c l IH]; intros HS; [by left|].
  apply not_elem_of_cons in HS as [Hc HS]. cbn [skip_server_off].
  replace (c =? NUL) with false by (symmetry; by apply Z.eqb_neq).
  destruct (path__is_dirsep c) eqn:Ec.
  - right. exists [], c, l. done.
  - destruct (IH HS) as [[E HF]|(s&d&l'&->&E&Hd&HF)].
    + left. cbn [length]. split; [lia|]. by constructor.
    + right. exists (c :: s), d, l'. cbn [length]. rewrite E.
      split; [done|]. split; [lia|]. split; [done|]. by constructor.
Qed.

Lemma skip_server_nonsep s X : Forall nonsep s ->
  skip_server_off (s ++ X) = (length s + skip_server_off X)%nat.
Proof.
  induction 1 as [|c s (Hc&Hd) Hs IH]; [done|]. cbn [app skip_server_off length].
  replace (c =? NUL) with false by (symmetry; by apply Z.eqb_neq).
  rewrite Hd, IH. lia.
Qed.

Lemma unposix_nonsep s : Forall nonsep s -> unposix <$> s = s.
Proof.
  induction 1 as [|c s (Hc&Hd) Hs IH]; [done|]. rewrite fmap_cons, IH.
  unfold unposix. unfold path__is_dirsep in Hd. apply orb_false_iff in Hd as [-> _]. done.
Qed.

Lemma skip_server_unposix S X tl : NUL ∉ S ->
  (skip_server_off S = length S -> X = []) ->
  skip_server_off ((unposix <$> take (skip_server_off S) S) ++ X ++ NUL :: tl)
  = skip_server_off S.
Proof.
  intros HS HX. destruct (skip_server_stop S HS) as [[E HF]|(s&d&S'&->&E&Hd&HF)].
  - rewrite (HX E), E, firstn_all, unposix_nonsep by done.
    rewrite skip_server_nonsep by done. cbn. lia.
  - rewrite E.
    rewrite take_app_add, fmap_app, unposix_nonsep by done. cbn [take fmap list_fmap].
    rewrite take_0, (unposix_sep d Hd). rewrite <- app_assoc.
    rewrite skip_server_nonsep by done. cbn. lia.
Qed.

Lemma skip_prefix_nt W :
  path__skip_prefix (BSLASH :: BSLASH :: QMARK :: BSLASH :: W) 0 =
  if wcsncmp W UNC_MARK 4 =? 0 then (8 + skip_server_off (drop 4 W))%nat
  else if path__is_absolute W 0 then 7%nat else 4%nat.
Proof. reflexivity. Qed.

Lemma plain_nonsep s : Forall plain s -> Forall nonsep s.
Proof.
  intros H. eapply Forall_impl; [exact H|]. intros c (H0&H1&H2). split; [done|].
  unfold path__is_dirsep. apply orb_false_iff. split; by apply Z.eqb_neq.
Qed.

Lemma alpha_plain a : git__isalpha a = true -> plain a.
Proof.
  unfold git__isalpha, plain, NUL, SLASH, BSLASH. intros H.
  apply orb_true_iff in H as [H|H]; apply andb_true_iff in H as [H1 H2];
    apply Z.leb_le in H1, H2; lia.
Qed.

Lemma join_nonempty segs : Forall good segs -> segs <> [] -> join segs <> [].
Proof.
  intros H Hne. destruct H as [|s segs (Hn&_) _]; [done|]. cbn [join].
  destruct segs; [done|]. by destruct s.
Qed.

Lemma clean_after_abs segs a d C' :
  Forall good segs -> git__isalpha a = true -> path__is_dirsep d = true ->
  join segs = a :: COLON :: d :: C' -> clean C'.
Proof.
  intros Hsegs Ha Hd E.
  assert (Hp : Forall plain [a; COLON]).
  { apply Forall_cons; split; [by apply alpha_plain|]. by apply Forall_singleton. }
  destruct (join_split segs [a; COLON] d C' Hsegs Hp Hd E) as (segs'&->&_&->&_).
  apply join_clean. by apply Forall_cons in Hsegs as [_ ?].
Qed.

Lemma clean_after_nt segs tl : Forall good segs ->
  clean (drop (path__skip_prefix (BSLASH :: BSLASH :: QMARK :: BSLASH :: join segs ++ NUL :: tl) 0)
              (BSLASH :: BSLASH :: QMARK :: BSLASH :: join segs)).
Proof.
  intros Hsegs. rewrite skip_prefix_nt.
  destruct (wcsncmp _ UNC_MARK 4 =? 0) eqn:Eu.
  - apply uncmark_inv in Eu as (C'&E).
    assert (Hp : Forall plain [85; 78; 67]) by (by repeat constructor).
    destruct (join_split segs [85; 78; 67] BSLASH C' Hsegs Hp eq_refl E) as (segs'&->&Hne&->&_).
    apply Forall_cons in Hsegs as [_ Hsegs'].
    rewrite E. change (drop 4 ((85 :: 78 :: 67 :: BSLASH :: join segs') ++ NUL :: tl))
      with (join segs' ++ NUL :: tl).
    rewrite skip_server_off_app_nul.
    change (drop (8 + ?n) (BSLASH :: BSLASH :: QMARK :: BSLASH :: 85 :: 78 :: 67 :: BSLASH :: ?l))
      with (drop n l).
    destruct Hsegs' as [|g segs'' Hg Hsegs'']; [done|].
    pose proof Hg as (_&Hgp&_). apply plain_nonsep in Hgp.
    destruct segs'' as [|g' segs''].
    + cbn [join]. rewrite <- (app_nil_r g) at 1. rewrite skip_server_nonsep by done.
      cbn [skip_server_off]. rewrite Nat.add_0_r, drop_all. constructor.
    + rewrite join_cons by done. rewrite skip_server_nonsep by done.
      cbn [skip_server_off]. change (BSLASH =? NUL) with false.
      change (path__is_dirsep BSLASH) with true. cbv iota.
      rewrite drop_app_add. cbn [drop]. rewrite drop_0. by apply join_clean.
  - destruct (path__is_absolute _ 0) eqn:Ea.
    + apply abs_inv in Ea as (a&d&C'&E&Ha&Hd). rewrite E. cbn [drop]. rewrite drop_0.
      by apply (clean_after_abs segs a d C').
    + cbn [drop]. rewrite drop_0. by apply join_clean.
Qed.

Lemma clean_after_rel segs tl : Forall good segs ->
  clean (drop (path__skip_prefix (join segs ++ NUL :: tl) 0) (join segs)).
Proof.
  intros Hsegs. unfold path__skip_prefix.
  destruct (decide (segs = [])) as [->|Hne]; [cbn [join]; rewrite drop_nil; constructor|].
  pose proof (join_hd_plain segs Hsegs Hne) as Hh.
  destruct (path__is_nt_namespace _ 0) eqn:Ent.
  { apply nt_inv in Ent as (c&S'&E&Hc). rewrite E in Hh. cbn [hd] in Hh.
    destruct Hh as (_&?&?). destruct Hc; done. }
  destruct (path__is_absolute _ 0) eqn:Ea.
  { apply abs_inv in Ea as (a&d&C'&E&Ha&Hd). rewrite E. cbn [drop Nat.add PATH__ABSOLUTE_LEN].
    rewrite drop_0. by apply (clean_after_abs segs a d C'). }
  destruct (path__is_unc _ 0) eqn:Eu.
  { apply unc_inv in Eu as (c&S'&E&Hc). rewrite E in Hh. cbn [hd] in Hh.
    destruct Hh as (_&?&?). destruct Hc; done. }
  rewrite drop_0. by apply join_clean.
Qed.

Lemma sep_cases c : c = BSLASH \/ c = SLASH -> unposix c = BSLASH.
Proof. by intros [->| ->]. Qed.

Lemma drop_unposix_take k (l X : list wchar) : (k <= length l)%nat ->
  drop k ((unposix <$> take k l) ++ X) = X.
Proof. intros H. apply drop_app_length'. rewrite length_fmap, length_take. lia. Qed.

Lemma length_zero_nil (l : list wchar) : (length l <= 0)%nat -> l = [].
Proof. intros H. apply nil_length_inv. lia. Qed.

Lemma wcsncmp_abs_unc a W : (wcsncmp (a :: COLON :: W) UNC_MARK 4 =? 0) = false.
Proof.
  cbn [wcsncmp hd tail UNC_MARK]. destruct (a =? 85) eqn:E.
  - apply Z.eqb_eq in E as ->. reflexivity.
  - apply Z.eqb_neq. apply Z.eqb_neq in E. lia.
Qed.

Lemma abs_intro a W : git__isalpha a = true ->
  path__is_absolute (a :: COLON :: BSLASH :: W) 0 = true.
Proof. intros Ha. unfold path__is_absolute, rd. cbn. by rewrite Ha. Qed.

Lemma nt_false_hd a W : a <> BSLASH -> a <> SLASH ->
  path__is_nt_namespace (a :: W) 0 = false.
Proof.
  intros H1 H2. unfold path__is_nt_namespace, rd. cbn.
  apply Z.eqb_neq in H1, H2. by rewrite H1, H2.
Qed.

Lemma skip_prefix_abs a W : git__isalpha a = true ->
  path__skip_prefix (a :: COLON :: BSLASH :: W) 0 = 3%nat.
Proof.
  intros Ha. unfold path__skip_prefix.
  destruct (alpha_plain a Ha) as (_&H1&H2).
  by rewrite nt_false_hd, abs_intro.
Qed.

Lemma skip_prefix_unc W :
  path__is_nt_namespace (BSLASH :: BSLASH :: W) 0 = false ->
  path__skip_prefix (BSLASH :: BSLASH :: W) 0 = (2 + skip_server_off W)%nat.
Proof. intros H. unfold path__skip_prefix. rewrite H. reflexivity. Qed.

Lemma nt_unc_inv W : path__is_nt_namespace (BSLASH :: BSLASH :: W) 0 = true ->
  exists W', W = QMARK :: BSLASH :: W'.
Proof.
  intros H. unfold path__is_nt_namespace, rd in H.
  destruct W as [|x [|y W']]; cbn in H; b2p H; try (by intuition discriminate).
  destruct H as [(->&->)|[=]]. eauto.
Qed.

Lemma reclassify S T segs tl : NUL ∉ S -> Forall good segs ->
  (path__skip_prefix (S ++ NUL :: T) 0 + length (join segs) <= length S)%nat ->
  clean (drop (path__skip_prefix
                 (((unposix <$> take (path__skip_prefix (S ++ NUL :: T) 0) S) ++ join segs)
                  ++ NUL :: tl) 0)
              ((unposix <$> take (path__skip_prefix (S ++ NUL :: T) 0) S) ++ join segs)).
Proof.
  intros HS Hsegs.
  set (b := path__skip_prefix (S ++ NUL :: T) 0).
  assert (Hb : b = path__skip_prefix (S ++ NUL :: T) 0) by done. clearbody b.
  unfold path__skip_prefix, PATH__NT_NAMESPACE_LEN, PATH__ABSOLUTE_LEN in Hb.
  revert Hb.
  destruct (path__is_nt_namespace (S ++ NUL :: T) 0) eqn:Ent.
  - apply nt_inv in Ent as (c&S'&->&Hc).
    change (drop (0 + 4) ((c :: c :: QMARK :: c :: S') ++ NUL :: T)) with (S' ++ NUL :: T).
    change (path__is_absolute ((c :: c :: QMARK :: c :: S') ++ NUL :: T) (0 + 4))
      with (path__is_absolute (S' ++ NUL :: T) 0).
    apply not_elem_of_cons in HS as [_ HS]. apply not_elem_of_cons in HS as [_ HS].
    apply not_elem_of_cons in HS as [_ HS]. apply not_elem_of_cons in HS as [_ HS].
    destruct (wcsncmp (S' ++ NUL :: T) UNC_MARK 4 =? 0) eqn:Eu.
    + apply uncmark_inv in Eu as (S''&->).
      unfold path__skip_server.
      change (drop (0 + 4 + 4) ((c :: c :: QMARK :: c :: 85 :: 78 :: 67 :: BSLASH :: S'') ++ NUL :: T))
        with (S'' ++ NUL :: T).
      rewrite skip_server_off_app_nul.
      apply not_elem_of_cons in HS as [_ HS]. apply not_elem_of_cons in HS as [_ HS].
      apply not_elem_of_cons in HS as [_ HS]. apply not_elem_of_cons in HS as [_ HS].
      set (k := skip_server_off S''). intros -> Hlen.
      pose proof (skip_server_off_le S'') as Hk. fold k in Hk.
      change (take (0 + 4 + 4 + k) (c :: c :: QMARK :: c :: 85 :: 78 :: 67 :: BSLASH :: S''))
        with (c :: c :: QMARK :: c :: 85 :: 78 :: 67 :: BSLASH :: take k S'').
      rewrite !fmap_cons, (sep_cases c Hc).
      change (unposix QMARK) with QMARK. change (unposix 85) with 85.
      change (unposix 78) with 78. change (unposix 67) with 67.
      change (unposix BSLASH) with BSLASH.
      cbn [app]. rewrite skip_prefix_nt.
      change (wcsncmp (85 :: 78 :: 67 :: BSLASH :: ?W) UNC_MARK 4 =? 0) with true. cbv iota.
      change (drop 4 (85 :: 78 :: 67 :: BSLASH :: ?W)) with W.
      assert (Ek : skip_server_off ((unposix <$> take k S'') ++ join segs ++ NUL :: tl) = k).
      { apply skip_server_unposix; [done|]. fold k. intros E.
        apply length_zero_nil. cbn [length] in Hlen. lia. }
      rewrite <- app_assoc, Ek.
      change (drop (8 + k) (BSLASH :: BSLASH :: QMARK :: BSLASH :: 85 :: 78 :: 67 :: BSLASH :: ?l))
        with (drop k l).
      rewrite drop_unposix_take by done. by apply join_clean.
    + destruct (path__is_absolute (S' ++ NUL :: T) 0) eqn:Ea.
      * apply abs_inv in Ea as (a&d&S''&->&Ha&Hd). intros -> _.
        change (take (0 + 4 + 3) (c :: c :: QMARK :: c :: a :: COLON :: d :: S''))
          with [c; c; QMARK; c; a; COLON; d].
        rewrite !fmap_cons, (sep_cases c Hc), (unposix_sep d Hd).
        change (unposix QMARK) with QMARK. change (unposix COLON) with COLON.
        replace (unposix a) with a
          by (unfold unposix; by rewrite (proj1 (proj2 (plain_not_sep _ (alpha_plain a Ha))))).
        cbn [app fmap list_fmap]. rewrite skip_prefix_nt.
        rewrite wcsncmp_abs_unc, abs_intro by done.
        cbn [drop]. rewrite drop_0. by apply join_clean.
      * intros -> _.
        change (take (0 + 4) (c :: c :: QMARK :: c :: S')) with [c; c; QMARK; c].
        rewrite !fmap_cons, (sep_cases c Hc). change (unposix QMARK) with QMARK.
        cbn [fmap list_fmap app]. by apply clean_after_nt.
  - destruct (path__is_absolute (S ++ NUL :: T) 0) eqn:Ea.
    + apply abs_inv in Ea as (a&d&S''&->&Ha&Hd). intros -> _.
      change (take (0 + 3) (a :: COLON :: d :: S'')) with [a; COLON; d].
      rewrite !fmap_cons, (unposix_sep d Hd).
      change (unposix COLON) with COLON.
      replace (unposix a) with a
        by (unfold unposix; by rewrite (proj1 (proj2 (plain_not_sep _ (alpha_plain a Ha))))).
      cbn [app fmap list_fmap]. rewrite skip_prefix_abs by done.
      cbn [drop]. rewrite drop_0. by apply join_clean.
    + destruct (path__is_unc (S ++ NUL :: T) 0) eqn:Eu.
      * apply unc_inv in Eu as (c&S'&->&Hc).
        apply not_elem_of_cons in HS as [_ HS]. apply not_elem_of_cons in HS as [_ HS].
        unfold path__skip_server.
        change (drop (0 + 2) ((c :: c :: S') ++ NUL :: T)) with (S' ++ NUL :: T).
        rewrite skip_server_off_app_nul.
        set (k := skip_server_off S'). intros -> Hlen.
        pose proof (skip_server_off_le S') as Hk. fold k in Hk.
        change (take (0 + 2 + k) (c :: c :: S')) with (c :: c :: take k S').
        rewrite !fmap_cons, (sep_cases c Hc). cbn [app].
        destruct (path__is_nt_namespace
                    (BSLASH :: BSLASH :: ((unposix <$> take k S') ++ join segs) ++ NUL :: tl) 0) eqn:Ent2.
        -- apply nt_unc_inv in Ent2 as (W'&EW).
           assert (Etk : unposix <$> take k S' = [QMARK; BSLASH]).
           { destruct (skip_server_stop S' HS) as [[E HF]|(s&d&S''&ES&E&Hd&HF)]; fold k in E.
             - assert (join segs = []) as Ej
                 by (apply length_zero_nil; cbn [length] in Hlen; lia).
               rewrite Ej, app_nil_r, E, firstn_all, unposix_nonsep in EW by done.
               exfalso. destruct HF as [|x l Hx HF]; [done|].
               destruct HF as [|y l Hy HF]; [done|].
               cbn in EW. injection EW as _ -> _. by destruct Hy.
             - rewrite E, ES, take_app_add, fmap_app, unposix_nonsep in EW by done.
               rewrite E, ES, take_app_add, fmap_app, unposix_nonsep by done.
               cbn [take fmap list_fmap] in *. rewrite take_0 in *.
               rewrite (unposix_sep d Hd) in *.
               destruct HF as [|x l Hx HF]; [done|].
               destruct HF as [|y l Hy HF].
               + cbn in EW. by injection EW as ->.
               + exfalso. cbn in EW. injection EW as _ -> _. by destruct Hy. }
           rewrite Etk. cbn [app]. by apply clean_after_nt.
        -- rewrite skip_prefix_unc by done.
           assert (Ek : skip_server_off (((unposix <$> take k S') ++ join segs) ++ NUL :: tl) = k).
           { rewrite <- app_assoc. apply skip_server_unposix; [done|]. fold k. intros E.
             apply length_zero_nil. cbn [length] in Hlen. lia. }
           rewrite Ek.
           change (drop (2 + k) (BSLASH :: BSLASH :: ?l)) with (drop k l).
           rewrite drop_unposix_take by done. by apply join_clean.
      * intros -> _. rewrite take_0. cbn [fmap list_fmap app]. by apply clean_after_rel.
Qed.

Lemma nul_split (path : list wchar) : NUL ∈ path ->
  exists S T, path = S ++ NUL :: T /\ NUL ∉ S.
Proof. intros H. by apply list_elem_of_split_l in H. Qed.

Lemma wcslen_app_nul S T : NUL ∉ S -> wcslen (S ++ NUL :: T) = length S.
Proof.
  induction S as [|c S IH]; intros H; [done|].
  apply not_elem_of_cons in H as [Hc H]. cbn [app wcslen length].
  replace (c =? NUL) with false by (symmetry; by apply Z.eqb_neq). by rewrite IH.
Qed.

Lemma unposix_not_nul (l : list wchar) : NUL ∉ l -> NUL ∉ unposix <$> l.
Proof.
  intros H Hin. apply list_elem_of_fmap in Hin as (c&Hc&Hin).
  unfold unposix in Hc. destruct (c =? SLASH); [done|]. by subst c.
Qed.

Lemma join_not_nul segs : Forall good segs -> NUL ∉ join segs.
Proof.
  induction 1 as [|s segs (_&Hs&_) Hsegs IH]; [apply not_elem_of_nil|].
  assert (Hs0 : NUL ∉ s).
  { intros Hin. rewrite Forall_forall in Hs. by destruct (Hs _ Hin). }
  destruct segs as [|s' segs]; [done|]. rewrite join_cons by done.
  intros Hin. apply elem_of_app in Hin as [Hin|Hin]; [done|].
  apply elem_of_cons in Hin as [Hin|Hin]; done.
Qed.

Lemma back_while_ge Pd (b : list wchar) base to :
  (base <= to)%nat -> (base <= back_while Pd b base to)%nat.
Proof.
  induction to as [|t IH]; intros H; cbn [back_while]; [done|].
  destruct (base <? S t)%nat eqn:E; cbn [andb]; [|done].
  apply Nat.ltb_lt in E. destruct (Pd (rd b t)); [apply IH; lia|done].
Qed.

Lemma back_while_le Pd (b : list wchar) base to :
  (back_while Pd b base to <= to)%nat.
Proof.
  induction to as [|t IH]; cbn [back_while]; [done|].
  destruct ((base <? S t)%nat && Pd (rd b t)); lia.
Qed.

Lemma canon_step_base st : (cs_base st <= cs_to st)%nat ->
  cs_base (canon_step st) = cs_base st /\
  (cs_base st <= cs_to (canon_step st))%nat.
Proof.
  intros H. unfold canon_step.
  repeat match goal with
         | |- context [if ?c then _ else _] =>
           lazymatch c with
           | context [if _ then _ else _] => fail
           | _ => destruct c eqn:?
           end
         end; cbn [cs_base cs_to];
  try (split; [done|lia]);
  try (split; [by apply Nat.eqb_eq|lia]);
  try (split; [done|]; apply back_while_ge; by apply back_while_ge).
Qed.

Lemma canon_iter_base path k :
  let st := Nat.iter k canon_step (canon_init path) in
  cs_base st = path__skip_prefix path 0 /\
  (path__skip_prefix path 0 <= cs_to st)%nat.
Proof.
  cbv zeta. induction k as [|k [IH1 IH2]]; [done|]. rewrite Nat.iter_succ.
  destruct (canon_step_base (Nat.iter k canon_step (canon_init path))) as [E1 E2]; [lia|].
  rewrite E1, IH1. split; [done|]. by rewrite <- IH1.
Qed.

Lemma rd_insert_ne (b : list wchar) i j x : i <> j -> rd (<[i := x]> b) j = rd b j.
Proof. intros H. unfold rd. by rewrite list_lookup_insert_ne. Qed.

Lemma dotdot_absorbed st :
  cs_to st = cs_base st -> (cs_to st <= cs_from st)%nat ->
  seg_len (drop (cs_from st) (cs_buf st)) = 2%nat ->
  rd (cs_buf st) (cs_from st) = DOT -> rd (cs_buf st) (cs_from st + 1) = DOT ->
  cs_to (canon_step st) = cs_to st /\
  cs_base (canon_step st) = cs_base st /\
  take (cs_to st) (cs_buf (canon_step st)) = take (cs_to st) (cs_buf st) /\
  (cs_from st + 2 <= cs_from (canon_step st))%nat.
Proof.
  destruct st as [buf base from to]. cbn [cs_buf cs_base cs_from cs_to].
  intros -> Hle Hseg H0 H1. unfold canon_step. cbn [cs_buf cs_base cs_from cs_to].
  rewrite Hseg. replace (from + 2 - from)%nat with 2%nat by lia.
  set (buf1 := if rd buf (from + 2) =? SLASH then _ else _).
  assert (E0 : rd buf1 from = DOT).
  { subst buf1. destruct (rd buf (from + 2) =? SLASH); [|done].
    rewrite rd_insert_ne by lia. done. }
  assert (E1 : rd buf1 (from + 1) = DOT).
  { subst buf1. destruct (rd buf (from + 2) =? SLASH); [|done].
    rewrite rd_insert_ne by lia. done. }
  assert (Et : take base buf1 = take base buf).
  { subst buf1. destruct (rd buf (from + 2) =? SLASH); [|done].
    apply take_insert_ge. lia. }
  rewrite E0, E1. change (DOT =? DOT) with true. cbn [Nat.eqb andb].
  rewrite Nat.eqb_refl. cbn [cs_buf cs_base cs_from cs_to].
  repeat split; [done|]. destruct (rd buf1 (from + 2) =? BSLASH); lia.
Qed.

(** C1. Root-boundary safety of [git_win32_path_canonicalize]. For every
    NUL-terminated buffer, with [b] the root boundary [path__skip_prefix]
    computes: (1) after any number of turns of the main loop the base is
    still [b] and the write cursor is not before it; (2) the call
    returns, the returned length is at least [b], and the cells below
    [b] are those of the input with [/] respelled as a backslash, so
    nothing of the root is consumed; (3) a [..] segment met while the
    write cursor is at the base is absorbed: write cursor, base and the
    cells below the cursor are unchanged and the read cursor moves past
    the segment. *)
Theorem canonicalize_root_boundary (path : list wchar) :
  NUL ∈ path ->
  let b := path__skip_prefix path 0 in
  (forall k, let st := Nat.iter k canon_step (canon_init path) in
             cs_base st = b /\ (b <= cs_to st)%nat) /\
  (exists buf n,
      git_win32_path_canonicalize path = Some (buf, n) /\
      Z.of_nat b <= n /\
      take b buf = unposix <$> take b path) /\
  (forall st,
      cs_to st = cs_base st -> (cs_to st <= cs_from st)%nat ->
      seg_len (drop (cs_from st) (cs_buf st)) = 2%nat ->
      rd (cs_buf st) (cs_from st) = DOT ->
      rd (cs_buf st) (cs_from st + 1) = DOT ->
      cs_to (canon_step st) = cs_to st /\
      cs_base (canon_step st) = cs_base st /\
      take (cs_to st) (cs_buf (canon_step st)) = take (cs_to st) (cs_buf st) /\
      (cs_from st + 2 <= cs_from (canon_step st))%nat).
Proof.
  intros Hnul b. split; [apply canon_iter_base|]. split; [|apply dotdot_absorbed].
  destruct (nul_split path Hnul) as (S&T&->&HS).
  destruct (canon_shape S T HS) as (segs&tl&Hsegs&E&_&_). fold b in E.
  pose proof (skip_prefix_le S T) as Hb. fold b in Hb.
  eexists _, _. split; [exact E|]. split; [lia|].
  rewrite take_app_length' by (rewrite length_fmap, length_take; lia).
  by rewrite take_app_le by lia.
Qed.

Lemma canonicalize_root_boundary_witness :
  NUL ∈ cstr "C:/../x" /\
  (exists buf n,
      git_win32_path_canonicalize (cstr "C:/../x") = Some (buf, n) /\
      Z.of_nat (path__skip_prefix (cstr "C:/../x") 0) <= n /\
      take (path__skip_prefix (cstr "C:/../x") 0) buf
      = unposix <$> take (path__skip_prefix (cstr "C:/../x") 0) (cstr "C:/../x")).
Proof.
  assert (H : NUL ∈ cstr "C:/../x") by (apply elem_of_app; right; apply list_elem_of_here).
  split; [exact H|]. exact (proj1 (proj2 (canonicalize_root_boundary _ H))).
Defined.

(** C9. [git_win32_path_canonicalize] never lengthens its buffer: for
    every NUL-terminated buffer the call returns, the returned length is
    at most the length of the input string, it is the length of the
    string left in the buffer, and the buffer keeps its size. *)
Theorem canonicalize_never_lengthens (path : list wchar) :
  NUL ∈ path ->
  exists buf n,
    git_win32_path_canonicalize path = Some (buf, n) /\
    n <= Z.of_nat (wcslen path) /\
    Z.of_nat (wcslen buf) = n /\
    length buf = length path.
Proof.
  intros Hnul. destruct (nul_split path Hnul) as (S&T&->&HS).
  destruct (canon_shape S T HS) as (segs&tl&Hsegs&E&Hlen&Hle).
  pose proof (skip_prefix_le S T) as Hb.
  set (b := path__skip_prefix (S ++ NUL :: T) 0) in *.
  eexists _, _. split; [exact E|].
  assert (HP : length (unposix <$> take b S) = b) by (rewrite length_fmap, length_take; lia).
  rewrite wcslen_app_nul by done. split; [lia|]. split.
  - rewrite app_assoc, wcslen_app_nul; [rewrite length_app; lia|].
    intros Hin. apply elem_of_app in Hin as [Hin|Hin].
    + apply unposix_not_nul in Hin; [done|]. intros H. apply HS.
      by apply (subseteq_take b S).
    + by apply join_not_nul in Hin.
  - rewrite !length_app. cbn [length]. rewrite HP. lia.
Qed.

Lemma canonicalize_never_lengthens_witness :
  NUL ∈ cstr "a/./b/../c" /\
  exists buf n,
    git_win32_path_canonicalize (cstr "a/./b/../c") = Some (buf, n) /\
    n <= Z.of_nat (wcslen (cstr "a/./b/../c")) /\
    Z.of_nat (wcslen buf) = n /\
    length buf = length (cstr "a/./b/../c").
Proof.
  assert (H : NUL ∈ cstr "a/./b/../c") by (apply elem_of_app; right; apply list_elem_of_here).
  split; [exact H|]. exact (canonicalize_never_lengthens _ H).
Defined.

(** C6. Canonicalisation is idempotent: for every NUL-terminated
    buffer the call returns a buffer and a length, and applied to that
    buffer it returns the very same buffer (every cell, also those behind
    the terminator) and the same length. *)
Theorem canonicalize_idempotent (path : list wchar) :
  NUL ∈ path ->
  exists buf n,
    git_win32_path_canonicalize path = Some (buf, n) /\
    git_win32_path_canonicalize buf = Some (buf, n).
Proof.
  intros Hnul. destruct (nul_split path Hnul) as (S&T&->&HS).
  destruct (canon_shape S T HS) as (segs&tl&Hsegs&E&Hlen&Hle).
  pose proof (skip_prefix_le S T) as Hb.
  pose proof (reclassify S T segs tl HS Hsegs Hle) as Hc.
  set (b := path__skip_prefix (S ++ NUL :: T) 0) in *.
  eexists _, _. split; [exact E|].
  rewrite app_assoc. rewrite (canon_clean _ _ Hc).
  rewrite fmap_app, unposix_idem, unposix_join by done.
  rewrite length_app, length_fmap, length_take.
  do 3 f_equal. lia.
Qed.

Lemma canonicalize_idempotent_witness :
  NUL ∈ cstr "//?/UNC/srv/./x/../y//" /\
  exists buf n,
    git_win32_path_canonicalize (cstr "//?/UNC/srv/./x/../y//") = Some (buf, n) /\
    git_win32_path_canonicalize buf = Some (buf, n).
Proof.
  assert (H : NUL ∈ cstr "//?/UNC/srv/./x/../y//") by (apply elem_of_app; right; apply list_elem_of_here).
  split; [exact H|]. exact (canonicalize_idempotent _ H).
Defined.

Example canon_ex1 : canonical_string "a/./b/../c" = Some (wstr "a\c").
Proof. vm_compute. reflexivity. Qed.

Example canon_ex2 : canonical_string "/a/../../b" = Some (wstr "b").
Proof. vm_compute. reflexivity. Qed.

Example canon_ex3 : canonical_string "//?/C:/foo/../.." = Some (wstr "\\?\C:\").
Proof. vm_compute. reflexivity. Qed.

(** C2, as the code has it. [a/./b/../c] becomes [a\c]; [/a/../../b]
    becomes [b]: a single leading separator is no root (the boundary is
    0) and is dropped with the excess [..]; under a drive root,
    [C:/a/../../b] becomes [C:\b]. *)
Theorem canonicalize_collapse_examples :
  canonical_string "a/./b/../c" = Some (wstr "a\c") /\
  canonical_string "/a/../../b" = Some (wstr "b") /\
  canonical_string "C:/a/../../b" = Some (wstr "C:\b").
Proof. vm_compute. done. Qed.

Lemma canonicalize_collapse_counterexample :
  ~ (canonical_string "a/./b/../c" = Some (wstr "a\c") /\
     (canonical_string "/a/../../b" = Some (wstr "\b") \/
      canonical_string "/a/../../b" = Some (wstr "/b"))).
Proof. vm_compute. intros [_ [H|H]]; discriminate H. Qed.

Lemma volume_mark_cmp X : wcsncmp (VOLUME_MARK ++ X) VOLUME_MARK 11 = 0.
Proof. reflexivity. Qed.

Lemma path_is_volume_prefix target target_len :
  VOLUME_MARK `prefix_of` take (Z.to_nat target_len) target ->
  path_is_volume target target_len = true.
Proof.
  intros [k Hk]. unfold path_is_volume.
  assert (Hlen : (11 <= Z.to_nat target_len)%nat).
  { assert (H : length (take (Z.to_nat target_len) target) = length (VOLUME_MARK ++ k))
      by (by rewrite Hk).
    rewrite length_take, length_app in H. change (length VOLUME_MARK) with 11%nat in H. lia. }
  replace (target_len =? 0) with false by (symmetry; apply Z.eqb_neq; lia).
  rewrite <- (take_drop (Z.to_nat target_len) target), Hk, <- app_assoc.
  by rewrite volume_mark_cmp.
Qed.

(** C4. Volume mounts are rejected: when the reparse block read for
    [path] carries one of the two known tags and the target it
    designates (its first [target_len] units) begins with the volume
    literal, [git_win32_path_readlink_w] returns a negative value with
    [errno] set to [EINVAL] and leaves the destination buffer as it
    was. *)
Theorem readlink_rejects_volume (E : win32_env) (dest path : list wchar)
    (reparse_buf : GIT_REPARSE_DATA_BUFFER) (nb : reparse_names) :
  reparse_at E path = IoctlGives reparse_buf ->
  reparse_names_of reparse_buf = Some nb ->
  VOLUME_MARK `prefix_of` take (Z.to_nat (target_len_of nb)) (target_of nb) ->
  rl_ret (git_win32_path_readlink_w E dest path) < 0 /\
  rl_errno (git_win32_path_readlink_w E dest path) = Some EINVAL /\
  rl_dest (git_win32_path_readlink_w E dest path) = dest.
Proof.
  intros Hq Hn Hv. unfold git_win32_path_readlink_w.
  rewrite Hq, Hn, (path_is_volume_prefix _ _ Hv). cbn. done.
Qed.

Lemma wcslen_le (l : list wchar) : (wcslen l <= length l)%nat.
Proof. induction l as [|c l IH]; cbn; [done|]. destruct (c =? NUL); cbn; lia. Qed.

Lemma length_str_of (l : list wchar) : length (str_of l) = wcslen l.
Proof. unfold str_of. rewrite length_take. pose proof (wcslen_le l). lia. Qed.

Lemma str_of_not_nul (l : list wchar) : NUL ∉ str_of l.
Proof.
  unfold str_of. induction l as [|c l IH]; cbn; [apply not_elem_of_nil|].
  destruct (c =? NUL) eqn:E; cbn; [apply not_elem_of_nil|].
  apply not_elem_of_cons. split; [|done]. apply Z.eqb_neq in E. done.
Qed.

Section EntryLemmas.
Variable E : win32_env.
Variables (flags : Z) (start_stat end_stat : option (list Z)) (repo : list Z).

Local Abbreviation r := (str_of repo).

Lemma repo_path_len_eq : repo_path_len repo = Z.of_nat (length r).
Proof. unfold repo_path_len, strlen. by rewrite length_str_of. Qed.

Lemma entry_work_path_ok f w n :
  git__utf16_to_8 E (PATH__MAX_UNC_LEN - repo_path_len repo) (str_of (cFileName f)) = Some n ->
  (length r + length n < length w)%nat ->
  Z.of_nat (length w) < 2 ^ 64 ->
  take (length r) w = r ->
  entry_work_path E repo f w
  = ((r ++ n) ++ 0 :: drop (length (r ++ n) + 1) w, Z.of_nat (length (r ++ n))).
Proof.
  intros Hc Hfit Hsz Hw. unfold entry_work_path. rewrite Hc, repo_path_len_eq.
  clear Hc. unfold size_t_of. rewrite Nat2Z.id.
  rewrite (Z.mod_small (Z.of_nat (length n))) by lia.
  rewrite (Z.mod_small (Z.of_nat (length n) + Z.of_nat (length r))) by lia.
  assert (Es : store w (length r) (n ++ [0])
               = (r ++ n) ++ 0 :: drop (length (r ++ n) + 1) w).
  { unfold store. rewrite Hw, !length_app. cbn [length].
    rewrite <- !app_assoc. cbn [app]. do 4 f_equal. lia. }
  rewrite Es. f_equal; [|rewrite length_app; lia].
  apply list_insert_id.
  replace (Z.to_nat (Z.of_nat (length n) + Z.of_nat (length r))) with (length (r ++ n) + 0)%nat
    by (rewrite length_app; lia).
  by rewrite lookup_app_r, Nat.add_comm, Nat.add_sub by lia.
Qed.

Lemma dirload_entry_ok f s n :
  git_path_is_dot_or_dotdotW (cFileName f) = false ->
  git__utf16_to_8 E (PATH__MAX_UNC_LEN - repo_path_len repo) (str_of (cFileName f)) = Some n ->
  (length r + length n < length (ds_work_path s))%nat ->
  Z.of_nat (length (ds_work_path s)) < 2 ^ 64 ->
  take (length r) (ds_work_path s) = r ->
  let p := r ++ n in
  let w' := p ++ 0 :: drop (length p + 1) (ds_work_path s) in
  let s' := DirloadState w' (ds_target s) (ds_contents s) in
  dirload_entry E flags start_stat end_stat repo f s =
  if after_start flags start_stat w' (Z.of_nat (length p)) &&
     before_end flags end_stat w' (Z.of_nat (length p)) then
    match entry_reparse E f (ds_target s) (entry_stat E f) with
    | inr e => (s', Some e)
    | inl (ps_st, target) =>
      (DirloadState w' target
         (ds_contents s ++
          option_list (entry_finish ps_st (Z.of_nat (length p)) (p ++ [0; 0]))), None)
    end
  else (s', None).
Proof.
  intros Hdot Hc Hfit Hsz Hw p w' s'. unfold dirload_entry.
  rewrite Hdot. cbn [negb]. rewrite (entry_work_path_ok f _ n Hc Hfit Hsz Hw).
  fold p. fold w'. cbn [ds_target ds_contents]. fold s'.
  destruct (after_start _ _ _ _); cbn [andb]; [|done].
  destruct (before_end _ _ _ _); [|done].
  assert (Ep : take (Z.to_nat (Z.of_nat (length p) + 1)) w' ++ [0] = p ++ [0; 0]).
  { unfold w'. replace (Z.to_nat (Z.of_nat (length p) + 1)) with (length p + 1)%nat by lia.
    rewrite take_app_add. cbn [take]. rewrite take_0. by rewrite <- app_assoc. }
  rewrite Ep. destruct (entry_reparse _ _ _ _) as [[ps_st target]|e]; [|done].
  destruct (entry_finish _ _ _); cbn [option_list]; [done|by rewrite app_nil_r].
Qed.

End EntryLemmas.



Lemma sort_insert_Forall (P : git_path_with_stat -> Prop) x l :
  P x -> Forall P l -> Forall P (vector_insert_sorted x l).
Proof.
  intros Hx. induction 1 as [|y l Hy Hl IH]; cbn [vector_insert_sorted].
  - by constructor.
  - destruct (path_cmp (path x) (path y) <=? 0); repeat constructor; done.
Qed.

Lemma sort_Forall (P : git_path_with_stat -> Prop) l :
  Forall P l -> Forall P (git_vector_sort l).
Proof.
  unfold git_vector_sort. induction 1 as [|x l Hx Hl IH]; cbn [foldr]; [done|].
  by apply sort_insert_Forall.
Qed.

Section Suffix.
Variable E : win32_env.
Variables (flags : Z) (start_stat end_stat : option (list Z)) (repo : list Z).



End Suffix.


Lemma entry_mode_cases f :
  entry_mode f = 0x4180 \/ entry_mode f = 0x4100 \/
  entry_mode f = 0x8180 \/ entry_mode f = 0x8100.
Proof.
  unfold entry_mode.
  destruct (Z.land (dwFileAttributes f) FILE_ATTRIBUTE_DIRECTORY =? 0);
    destruct (Z.land (dwFileAttributes f) FILE_ATTRIBUTE_READONLY =? 0); cbn; tauto.
Qed.

Lemma entry_mode_not_link f : S_ISLNK (entry_mode f) = false.
Proof. destruct (entry_mode_cases f) as [-> | [-> | [-> | ->]]]; reflexivity. Qed.

Lemma entry_mode_dir f :
  S_ISDIR (entry_mode f)
  = negb (Z.land (dwFileAttributes f) FILE_ATTRIBUTE_DIRECTORY =? 0).
Proof.
  unfold entry_mode.
  destruct (Z.land (dwFileAttributes f) FILE_ATTRIBUTE_DIRECTORY =? 0);
    destruct (Z.land (dwFileAttributes f) FILE_ATTRIBUTE_READONLY =? 0); reflexivity.
Qed.

Lemma entry_mode_reg f : S_ISREG (entry_mode f) = negb (S_ISDIR (entry_mode f)).
Proof. destruct (entry_mode_cases f) as [-> | [-> | [-> | ->]]]; reflexivity. Qed.

Lemma entry_finish_plain E f len cells :
  exists ps, entry_finish (entry_stat E f) len cells = Some ps /\ st ps = entry_stat E f.
Proof.
  unfold entry_finish. change (st_mode (entry_stat E f)) with (entry_mode f).
  rewrite entry_mode_reg. destruct (S_ISDIR (entry_mode f)); cbn; eauto.
Qed.

(** One loop turn for an entry on which [git_win32_path_readlink_w]
    fails: the turn leaves with no error; if the entry is not [.] or
    [..] and passes both range tests, exactly one record is inserted,
    with the metadata taken from the find data alone. *)
Lemma readlink_failure_turn (E : win32_env) (flags : Z)
    (start_stat end_stat : option (list Z)) (repo_path : list Z)
    (f : WIN32_FIND_DATAW) (s : dirload_state) :
  rl_ret (git_win32_path_readlink_w E (ds_target s) (cFileName f)) < 0 ->
  let r := dirload_entry E flags start_stat end_stat repo_path f s in
  let wl := entry_work_path E repo_path f (ds_work_path s) in
  r.2 = None /\
  if negb (git_path_is_dot_or_dotdotW (cFileName f)) &&
     after_start flags start_stat wl.1 wl.2 && before_end flags end_stat wl.1 wl.2
  then exists ps, ds_contents r.1 = ds_contents s ++ [ps] /\ st ps = entry_stat E f
  else ds_contents r.1 = ds_contents s.
Proof.
  intros Hfail r wl. subst r wl. unfold dirload_entry.
  destruct (git_path_is_dot_or_dotdotW (cFileName f)); cbn [negb andb]; [done|].
  destruct (entry_work_path E repo_path f (ds_work_path s)) as [w len]. cbn [fst snd].
  destruct (after_start flags start_stat w len); cbn [andb]; [|done].
  destruct (before_end flags end_stat w len); [|done].
  cbn [ds_target ds_contents].
  assert (Er : exists target, entry_reparse E f (ds_target s) (entry_stat E f)
                              = inl (entry_stat E f, target)).
  { unfold entry_reparse.
    destruct (negb (Z.land (dwFileAttributes f) FILE_ATTRIBUTE_REPARSE_POINT =? 0)); [|eauto].
    replace (rl_ret _ >=? 0) with false by (symmetry; rewrite Z.geb_leb; apply Z.leb_gt; lia).
    eauto. }
  destruct Er as [target ->].
  destruct (entry_finish_plain E f len (take (Z.to_nat (len + 1)) w ++ [0])) as (ps&->&Hst).
  cbn [fst snd ds_contents]. eauto.
Qed.

Lemma readlink_failure_counterexample :
  let out := git_win32_path_dirload_with_stat broken_link_host [NUL] 0 0 None None []
               example_work_path [] in
  rl_ret (git_win32_path_readlink_w broken_link_host []
            (cFileName (example_entry "lnk" FILE_ATTRIBUTE_REPARSE_POINT))) < 0 /\
  dl_error out = 0 /\
  ps_name <$> dl_contents out = [wstr "lnk"] /\
  (fun ps => S_ISREG (st_mode (st ps))) <$> dl_contents out = [true].
Proof. vm_compute. repeat split; reflexivity. Qed.

(** Only the cells compared matter. *)
Lemma wcsncmp_take_l n : forall (a X b : list Z),
  (n <= length a)%nat -> wcsncmp (a ++ X) b n = wcsncmp a b n.
Proof.
  induction n as [|n IH]; intros a X b Hn; [done|].
  destruct a as [|c a]; cbn [length] in Hn; [lia|].
  cbn [wcsncmp app hd tail]. destruct (c =? hd NUL b); [|done].
  destruct (c =? NUL); [done|]. apply IH. lia.
Qed.

Lemma strncasecmp_take_l n : forall (a X b : list Z),
  (n <= length a)%nat -> strncasecmp_nat (a ++ X) b n = strncasecmp_nat a b n.
Proof.
  induction n as [|n IH]; intros a X b Hn; [done|].
  destruct a as [|c a]; cbn [length] in Hn; [lia|].
  cbn [strncasecmp_nat app hd tail].
  destruct (git__tolower c =? git__tolower (hd 0 b)); [|done].
  destruct (git__tolower c =? 0); [done|]. apply IH. lia.
Qed.

Lemma strncomp_take_l flags (a X b : list Z) n :
  0 <= n <= Z.of_nat (length a) ->
  strncomp flags (a ++ X) b n = strncomp flags a b n.
Proof.
  intros Hn. unfold strncomp, git__strncasecmp, git__strncmp.
  destruct (negb _); [apply strncasecmp_take_l|apply wcsncmp_take_l]; lia.
Qed.

(** Equal cells compare equal. *)
Lemma wcsncmp_same n : forall (a X Y : list Z),
  (n <= length a)%nat -> wcsncmp (a ++ X) (a ++ Y) n = 0.
Proof.
  induction n as [|n IH]; intros a X Y Hn; [done|].
  destruct a as [|c a]; cbn [length] in Hn; [lia|].
  cbn [wcsncmp app hd tail]. rewrite Z.eqb_refl.
  destruct (c =? NUL); [done|]. apply IH. lia.
Qed.

Lemma strncasecmp_same n : forall (a X Y : list Z),
  (n <= length a)%nat -> strncasecmp_nat (a ++ X) (a ++ Y) n = 0.
Proof.
  induction n as [|n IH]; intros a X Y Hn; [done|].
  destruct a as [|c a]; cbn [length] in Hn; [lia|].
  cbn [strncasecmp_nat app hd tail]. rewrite Z.eqb_refl.
  destruct (git__tolower c =? 0); [done|]. apply IH. lia.
Qed.

Lemma strncomp_same flags (a X Y : list Z) n :
  0 <= n <= Z.of_nat (length a) ->
  strncomp flags (a ++ X) (a ++ Y) n = 0.
Proof.
  intros Hn. unfold strncomp, git__strncasecmp, git__strncmp.
  destruct (negb _); [apply strncasecmp_same|apply wcsncmp_same]; lia.
Qed.

Lemma after_start_take_l flags start_stat (p X : list Z) :
  after_start flags start_stat (p ++ X) (Z.of_nat (length p))
  = after_start flags start_stat p (Z.of_nat (length p)).
Proof.
  unfold after_start. rewrite strncomp_take_l; [done|].
  unfold start_len. destruct start_stat; lia.
Qed.

Lemma before_end_take_l flags end_stat (p X : list Z) :
  before_end flags end_stat (p ++ X) (Z.of_nat (length p))
  = before_end flags end_stat p (Z.of_nat (length p)).
Proof.
  unfold before_end. rewrite strncomp_take_l; [done|].
  unfold end_len. destruct end_stat; lia.
Qed.

Lemma strlen_app_ge (p k : list Z) : NUL ∉ p -> (length p <= strlen (p ++ k))%nat.
Proof.
  unfold strlen. induction p as [|c p IH]; intros H; cbn [app wcslen length]; [lia|].
  apply not_elem_of_cons in H as [Hc H].
  replace (c =? NUL) with false by (symmetry; by apply Z.eqb_neq).
  specialize (IH H). lia.
Qed.

Lemma strlen_le (l : list Z) : (strlen l <= length l)%nat.
Proof. apply wcslen_le. Qed.

(** A path that is a prefix of [start] passes the lower test. *)
Lemma after_start_prefix flags (p k X : list Z) :
  NUL ∉ p ->
  after_start flags (Some (p ++ k)) (p ++ X) (Z.of_nat (length p)) = true.
Proof.
  intros Hp. unfold after_start, start_len. cbn [default].
  pose proof (strlen_app_ge p k Hp).
  rewrite Z.min_r by lia. unfold id. rewrite strncomp_same by lia.
  by rewrite andb_false_r.
Qed.

(** A path that [end] is a prefix of passes the upper test. *)
Lemma before_end_prefix flags (e k X : list Z) :
  before_end flags (Some e) ((e ++ k) ++ X) (Z.of_nat (length (e ++ k))) = true.
Proof.
  unfold before_end, end_len. cbn [default].
  pose proof (strlen_le e). rewrite length_app.
  rewrite Z.min_l by lia. rewrite <- app_assoc. unfold id.
  pose proof (strncomp_same flags e (k ++ X) [] (Z.of_nat (strlen e))) as H0.
  rewrite app_nil_r in H0. rewrite H0 by lia.
  by rewrite andb_false_r.
Qed.

Lemma entry_finish_plain_entry E f (p : list Z) :
  entry_finish (entry_stat E f) (Z.of_nat (length p)) (p ++ [0; 0])
  = Some (plain_entry E f p).
Proof.
  unfold entry_finish, plain_entry, entry_cells.
  change (st_mode (entry_stat E f)) with (entry_mode f).
  rewrite entry_mode_reg, entry_mode_dir. fold (is_dir f).
  destruct (is_dir f); cbn [negb andb]; [|done].
  do 2 f_equal.
  replace (Z.to_nat (Z.of_nat (length p) + 1)) with (length p + 1)%nat by lia.
  rewrite Nat2Z.id.
  rewrite !insert_app_r_alt by lia. rewrite Nat.sub_diag.
  replace (length p + 1 - length p)%nat with 1%nat by lia. done.
Qed.

Section Plain.
Variable E : win32_env.
Variables (flags : Z) (start_stat end_stat : option (list Z)) (repo : list Z).

Lemma dirload_entry_plain f s n :
  plain_ok E repo f n -> work_ok repo (ds_work_path s) ->
  let p := str_of repo ++ n in
  dirload_entry E flags start_stat end_stat repo f s =
  (DirloadState (p ++ 0 :: drop (length p + 1) (ds_work_path s)) (ds_target s)
     (ds_contents s ++ kept E flags start_stat end_stat repo [(f, n)]), None).
Proof.
  intros (Hdot&Hc&Hfit&Hplain) [Hsz Hw] p.
  unfold PATH__MAX_UNC_LEN in *.
  rewrite (dirload_entry_ok E flags start_stat end_stat repo f s n Hdot Hc) by (done || lia).
  fold p. rewrite after_start_take_l, before_end_take_l.
  unfold kept. cbn [mbind list_bind fst snd app]. rewrite app_nil_r. fold p.
  unfold in_range. destruct (after_start _ _ _ _ && before_end _ _ _ _);
    [|by rewrite app_nil_r].
  unfold entry_reparse. unfold plain_attr in Hplain. rewrite Hplain. cbn [Z.eqb negb].
  by rewrite entry_finish_plain_entry.
Qed.

Lemma work_ok_step (p : list Z) n w :
  p = str_of repo ++ n -> work_ok repo w ->
  Z.of_nat (length p) < PATH__MAX_UNC_LEN ->
  work_ok repo (p ++ 0 :: drop (length p + 1) w).
Proof.
  intros -> [Hsz Hw] Hfit. split.
  - rewrite length_app. cbn [length]. rewrite length_drop. lia.
  - rewrite <- app_assoc. by rewrite take_app_length.
Qed.

Lemma dirload_loop_plain fns : forall f n s,
  Forall (fun fn => plain_ok E repo fn.1 fn.2) ((f, n) :: fns) ->
  work_ok repo (ds_work_path s) ->
  exists s',
    dirload_loop E flags start_stat end_stat repo f
      (stream_of (fst <$> fns) ERROR_NO_MORE_FILES) s = (s', None) /\
    ds_contents s' = ds_contents s ++ kept E flags start_stat end_stat repo ((f, n) :: fns).
Proof.
  induction fns as [|[f' n'] fns IH]; intros f n s Hall Hw;
    apply Forall_cons in Hall as [Hf Hall]; cbn [fst snd] in Hf;
    cbn [dirload_loop fmap list_fmap stream_of fst];
    rewrite (dirload_entry_plain f s n Hf Hw).
  - change (ERROR_NO_MORE_FILES =? ERROR_NO_MORE_FILES) with true. cbv iota. eauto.
  - destruct (IH f' n' (DirloadState ((str_of repo ++ n) ++ 0 :: drop (length (str_of repo ++ n) + 1) (ds_work_path s))
                          (ds_target s)
                          (ds_contents s ++ kept E flags start_stat end_stat repo [(f, n)])) Hall)
      as (s'&Hl&Hc).
    { apply (work_ok_step _ n); [done|done|]. destruct Hf as (_&_&Hfit&_).
      by rewrite length_app. }
    exists s'. split; [exact Hl|]. rewrite Hc. cbn [ds_contents].
    rewrite <- app_assoc. f_equal. unfold kept. cbn [mbind list_bind].
    by rewrite app_nil_r.
Qed.

End Plain.

(** Listing a directory of plain entries: every entry in range is
    returned, sorted. *)
Lemma dirload_plain_spec (E : win32_env) (path : list Z) (prefix_len : nat)
    (flags : Z) (start_stat end_stat : option (list Z))
    (contents : list git_path_with_stat) (work_path : list Z) (target : list wchar)
    pathw f n fns :
  Z.of_nat (length work_path) = PATH__MAX_UNC_LEN ->
  git_win32__findfirstfile_filter E path = Some pathw ->
  FindFirstFileExW E pathw = Some (f, stream_of (fst <$> fns) ERROR_NO_MORE_FILES) ->
  Forall (fun fn => plain_ok E (drop prefix_len path) fn.1 fn.2) ((f, n) :: fns) ->
  git_win32_path_dirload_with_stat E path prefix_len flags start_stat end_stat
    contents work_path target
  = DirloadOut 0 None
      (git_vector_sort
         (contents ++ kept E flags start_stat end_stat (drop prefix_len path) ((f, n) :: fns))).
Proof.
  intros Hsz Hf Hd Hall. unfold git_win32_path_dirload_with_stat. rewrite Hf, Hd.
  assert (Hlen : (repo_path_len (drop prefix_len path) >? PATH__MAX_UNC_LEN) = false).
  { apply Forall_cons in Hall as [(_&_&Hfit&_) _]. cbn [fst snd] in Hfit.
    rewrite repo_path_len_eq, Z.gtb_ltb. apply Z.ltb_ge. rewrite Nat2Z.inj_add in Hfit. lia. }
  rewrite Hlen.
  assert (Hw : work_ok (drop prefix_len path)
                 (store work_path 0 (str_of (drop prefix_len path)))).
  { rewrite repo_path_len_eq, Z.gtb_ltb in Hlen. apply Z.ltb_ge in Hlen.
    unfold store, work_ok. rewrite take_0. cbn [app Nat.add].
    split; [|by rewrite take_app_length].
    rewrite length_app, length_drop. lia. }
  destruct (dirload_loop_plain E flags start_stat end_stat _ fns f n
              (DirloadState _ target contents) Hall Hw) as (s'&->&->).
  done.
Qed.

Lemma path_insert_sorted x l :
  path <$> vector_insert_sorted x l = cells_insert (path x) (path <$> l).
Proof.
  induction l as [|y l IH]; [done|]. cbn [vector_insert_sorted fmap list_fmap cells_insert].
  destruct (path_cmp (path x) (path y) <=? 0); [done|].
  cbn [fmap list_fmap]. f_equal. exact IH.
Qed.

Lemma path_vector_sort l : path <$> git_vector_sort l = cells_sort (path <$> l).
Proof.
  unfold git_vector_sort, cells_sort. induction l as [|x l IH]; [done|].
  cbn [foldr fmap list_fmap]. rewrite path_insert_sorted. f_equal. exact IH.
Qed.

Lemma str_of_app_nul (X T : list Z) : NUL ∉ X -> str_of (X ++ NUL :: T) = X.
Proof. intros H. unfold str_of. by rewrite wcslen_app_nul, take_app_length. Qed.

Lemma plain_entry_name E f (p : list Z) : NUL ∉ p ->
  ps_name (plain_entry E f p) = str_of (path (plain_entry E f p)).
Proof.
  intros Hp. unfold ps_name, plain_entry, entry_cells. cbn [path path_len].
  destruct (is_dir f).
  - replace (p ++ [SLASH; 0]) with ((p ++ [SLASH]) ++ NUL :: []) by (by rewrite <- app_assoc).
    rewrite str_of_app_nul.
    + replace (Z.to_nat (Z.of_nat (length p) + 1)) with (length (p ++ [SLASH]))
        by (rewrite length_app; cbn [length]; lia).
      by rewrite take_app_length.
    + intros Hin. apply elem_of_app in Hin as [Hin|Hin]; [done|].
      by apply list_elem_of_singleton in Hin.
  - change (p ++ [0; 0]) with (p ++ NUL :: [0]).
    rewrite str_of_app_nul by done. rewrite Nat2Z.id. by rewrite take_app_length.
Qed.

Lemma kept_names E flags start_stat end_stat repo fns :
  Forall (fun fn => NUL ∉ str_of repo ++ fn.2) fns ->
  Forall (fun ps => ps_name ps = str_of (path ps))
         (kept E flags start_stat end_stat repo fns).
Proof.
  induction 1 as [|fn fns Hfn Hfns IH]; [constructor|].
  unfold kept. rewrite bind_cons. apply Forall_app. split; [|exact IH].
  destruct (in_range _ _ _ _); [|constructor].
  apply Forall_singleton. by apply plain_entry_name.
Qed.

Lemma kept_paths E flags start_stat end_stat repo fns :
  path <$> kept E flags start_stat end_stat repo fns
  = kept_cells flags start_stat end_stat repo ((fun fn => (fn.2, is_dir fn.1)) <$> fns).
Proof.
  induction fns as [|fn fns IH]; [done|].
  unfold kept, kept_cells. rewrite fmap_cons, !bind_cons, fmap_app. f_equal; [|exact IH].
  cbn [fst snd]. by destruct (in_range _ _ _ _).
Qed.

Lemma strncomp_icase flags :
  strncomp flags = strncomp (if ignore_case flags then GIT_PATH_DIR_IGNORE_CASE else 0).
Proof. unfold strncomp, ignore_case. by destruct (Z.land flags _ =? 0). Qed.

Lemma kept_cells_icase flags start_stat end_stat repo nds :
  kept_cells flags start_stat end_stat repo nds
  = kept_cells (if ignore_case flags then GIT_PATH_DIR_IGNORE_CASE else 0)
               start_stat end_stat repo nds.
Proof.
  unfold kept_cells, in_range, after_start, before_end.
  by rewrite (strncomp_icase flags).
Qed.

Lemma sorted_names l :
  Forall (fun ps => ps_name ps = str_of (path ps)) l ->
  ps_name <$> git_vector_sort l = str_of <$> cells_sort (path <$> l).
Proof.
  intros H. rewrite <- path_vector_sort, <- list_fmap_compose.
  apply sort_Forall in H. induction H as [|ps l' Hps H IH]; [done|].
  cbn [fmap list_fmap]. f_equal; [exact Hps|exact IH].
Qed.

Lemma bool_lists_complete n : forall bs, length bs = n -> bs ∈ bool_lists n.
Proof.
  induction n as [|n IH]; intros bs Hn.
  - destruct bs; [apply list_elem_of_here|done].
  - destruct bs as [|b bs]; [done|]. cbn [bool_lists].
    apply list_elem_of_bind. exists bs. split; [|apply IH; cbn in Hn; lia].
    destruct b; [apply list_elem_of_here|apply list_elem_of_further, list_elem_of_here].
Qed.

Lemma range_cases_complete (nds : list (list Z * bool)) :
  nds.*1 ≡ₚ five_names -> nds ∈ range_cases.
Proof.
  intros Hp. unfold range_cases. apply list_elem_of_bind. exists (nds.*1). split.
  - apply list_elem_of_fmap. exists (nds.*2). split; [by rewrite zip_fst_snd|].
    apply bool_lists_complete. apply Permutation_length in Hp.
    rewrite !length_fmap in *. exact Hp.
  - apply permutations_Permutation. by symmetry.
Qed.

Lemma range_cases_checked icase : forallb (range_check icase) range_cases = true.
Proof. destruct icase; vm_compute; reflexivity. Qed.

Lemma range_check_all icase nds :
  nds.*1 ≡ₚ five_names -> range_check icase nds = true.
Proof.
  intros Hp. pose proof (range_cases_checked icase) as H.
  rewrite forallb_forall in H. apply H. apply list_elem_of_In.
  by apply range_cases_complete.
Qed.

Lemma all_name_Forall2 nms xs :
  all_name nms xs = true ->
  Forall2 (fun nm x => x = nm \/ x = nm ++ [SLASH]) nms xs.
Proof.
  revert xs. induction nms as [|nm nms IH]; intros [|x xs] H; cbn in H;
    try discriminate H; [constructor|].
  apply andb_true_iff in H as [H1 H2]. constructor; [|by apply IH].
  unfold names in H1. apply orb_true_iff in H1 as [H1|H1];
    apply bool_decide_eq_true in H1; auto.
Qed.

Lemma five_names_not_nul n : n ∈ five_names -> NUL ∉ n.
Proof.
  unfold five_names. intros H.
  repeat (apply elem_of_cons in H as [->|H];
          [apply (bool_decide_unpack _); vm_compute; exact I|]).
  by apply elem_of_nil in H.
Qed.

Lemma snd_pairs (fns : list (WIN32_FIND_DATAW * list Z)) :
  ((fun fn => (fn.2, is_dir fn.1)) <$> fns).*1 = fns.*2.
Proof. rewrite <- list_fmap_compose. by apply list_fmap_ext. Qed.

Lemma kept_cells_repo flags start_stat end_stat repo repo' nds :
  str_of repo = str_of repo' ->
  kept_cells flags start_stat end_stat repo nds
  = kept_cells flags start_stat end_stat repo' nds.
Proof. intros H. unfold kept_cells. by rewrite H. Qed.

(** C5. Range filter. A directory listed from its own root whose five
    plain entries (files or directories) convert to the names a, b, c,
    d, e, delivered in any order: with start [b] and end [d] the call
    succeeds and returns exactly three entries, in this order: the ones
    named b, c and d (a directory carrying its trailing separator). *)
Theorem dirload_range_b_d (E : win32_env) (path : list Z) (prefix_len : nat)
    (flags : Z) (work_path : list Z) (target : list wchar)
    (pathw : list wchar) (f : WIN32_FIND_DATAW) (n : list Z)
    (fns : list (WIN32_FIND_DATAW * list Z)) :
  Z.of_nat (length work_path) = PATH__MAX_UNC_LEN ->
  str_of (drop prefix_len path) = [] ->
  git_win32__findfirstfile_filter E path = Some pathw ->
  FindFirstFileExW E pathw = Some (f, stream_of (fns.*1) ERROR_NO_MORE_FILES) ->
  Forall (fun fn => plain_ok E (drop prefix_len path) fn.1 fn.2) ((f, n) :: fns) ->
  n :: fns.*2 ≡ₚ five_names ->
  let out := git_win32_path_dirload_with_stat E path prefix_len flags
               (Some (wstr "b")) (Some (wstr "d")) [] work_path target in
  dl_error out = 0 /\
  Forall2 (fun nm ps => ps_name ps = nm \/ ps_name ps = nm ++ [SLASH])
          [wstr "b"; wstr "c"; wstr "d"] (dl_contents out).
Proof.
  intros Hsz Hrepo Hf Hd Hall Hperm out. subst out.
  rewrite (dirload_plain_spec E path prefix_len flags _ _ [] work_path target
             pathw f n fns Hsz Hf Hd Hall).
  cbn [dl_error dl_contents app]. split; [done|].
  apply (Forall2_fmap_r ps_name (fun nm x => x = nm \/ x = nm ++ [SLASH])).
  rewrite sorted_names.
  - rewrite kept_paths, kept_cells_icase, (kept_cells_repo _ _ _ _ []) by done.
    apply all_name_Forall2.
    apply (range_check_all (ignore_case flags)). by rewrite snd_pairs.
  - apply kept_names. rewrite Hrepo. cbn [app].
    apply Forall_forall. intros fn Hin. apply five_names_not_nul.
    rewrite <- Hperm. change (n :: fns.*2) with (((f, n) :: fns).*2).
    apply list_elem_of_fmap. by exists fn.
Qed.

Lemma path_cmp_before (p k : list Z) c :
  NUL ∉ p -> 0 < c -> path_cmp p (p ++ c :: k) < 0.
Proof.
  induction p as [|x p IH]; intros Hp Hc; cbn [path_cmp app]; [lia|].
  apply not_elem_of_cons in Hp as [Hx Hp]. rewrite Z.eqb_refl.
  replace (x =? 0) with false by (symmetry; apply Z.eqb_neq; done). by apply IH.
Qed.

Lemma path_cmp_after (e k : list Z) c :
  NUL ∉ e -> 0 < c -> path_cmp (e ++ c :: k) e > 0.
Proof.
  induction e as [|x e IH]; intros He Hc; cbn [path_cmp app]; [lia|].
  apply not_elem_of_cons in He as [Hx He]. rewrite Z.eqb_refl.
  replace (x =? 0) with false by (symmetry; apply Z.eqb_neq; done). by apply IH.
Qed.

(** C10. The range bounds are compared over min(bound length, path
    length) characters only. For a plain entry with candidate path [p]:
    (1) if [start] is [p] followed by at least one more character, the
    entry is inserted (given it passes the upper test) although [p]
    sorts before [start]; (2) if [p] is [end] followed by at least one
    more character, the entry is inserted (given it passes the lower
    test) although [p] sorts after [end]; (3) listing a directory that
    holds [b] and [dz] with start [bb] and end [d] returns both. *)
Theorem range_bounds_compare_prefix (E : win32_env) (flags : Z) (repo_path : list Z)
    (f : WIN32_FIND_DATAW) (s : dirload_state) (n : list Z) (c : Z) (k : list Z) :
  plain_ok E repo_path f n -> work_ok repo_path (ds_work_path s) ->
  NUL ∉ str_of repo_path ++ n -> 0 < c ->
  let p := str_of repo_path ++ n in
  (forall end_stat,
      before_end flags end_stat p (Z.of_nat (length p)) = true ->
      ds_contents (dirload_entry E flags (Some (p ++ c :: k)) end_stat repo_path f s).1
      = ds_contents s ++ [plain_entry E f p] /\
      path_cmp p (p ++ c :: k) < 0) /\
  (forall start_stat e,
      p = e ++ c :: k ->
      after_start flags start_stat p (Z.of_nat (length p)) = true ->
      ds_contents (dirload_entry E flags start_stat (Some e) repo_path f s).1
      = ds_contents s ++ [plain_entry E f p] /\
      path_cmp p e > 0) /\
  (let out := git_win32_path_dirload_with_stat prefix_host [NUL] 0 0
                (Some (wstr "bb")) (Some (wstr "d")) [] example_work_path [] in
   dl_error out = 0 /\
   ps_name <$> dl_contents out = [wstr "b"; wstr "dz"] /\
   path_cmp (wstr "b") (wstr "bb") < 0 /\
   path_cmp (wstr "dz") (wstr "d") > 0).
Proof.
  intros Hok Hw Hnul Hc p. split; [|split].
  - intros end_stat He. split; [|by apply path_cmp_before].
    rewrite (dirload_entry_plain E flags _ end_stat repo_path f s n Hok Hw).
    cbn [fst ds_contents]. f_equal. unfold kept. rewrite bind_cons. cbn [fst snd].
    fold p. unfold in_range. rewrite He.
    rewrite <- (app_nil_r p) at 2. by rewrite (after_start_prefix flags p (c :: k) []).
  - intros start_stat e Hp Hs. split.
    + rewrite (dirload_entry_plain E flags start_stat _ repo_path f s n Hok Hw).
      cbn [fst ds_contents]. f_equal. unfold kept. rewrite bind_cons. cbn [fst snd].
      fold p. unfold in_range. rewrite Hs.
      pose proof (before_end_prefix flags e (c :: k) []) as H.
      rewrite app_nil_r, <- Hp in H. by rewrite H.
    + rewrite Hp. apply path_cmp_after; [|done].
      intros Hin. apply Hnul. fold p. rewrite Hp. apply elem_of_app. by left.
  - vm_compute. repeat split; reflexivity.
Qed.

Lemma readlink_rejects_volume_witness :
  rl_ret (git_win32_path_readlink_w volume_host [1; 2; 3] (cstr "mnt")) < 0 /\
  rl_errno (git_win32_path_readlink_w volume_host [1; 2; 3] (cstr "mnt")) = Some EINVAL /\
  rl_dest (git_win32_path_readlink_w volume_host [1; 2; 3] (cstr "mnt")) = [1; 2; 3].
Proof.
  apply (readlink_rejects_volume volume_host [1; 2; 3] (cstr "mnt")
           (ReparseData IO_REPARSE_TAG_MOUNT_POINT
              (ReparseNames 0 0 [])
              (ReparseNames 0 98
                 (cstr "\??\Volume{01234567-89ab-cdef-0123-456789abcdef}\")))
           (ReparseNames 0 98
              (cstr "\??\Volume{01234567-89ab-cdef-0123-456789abcdef}\"))).
  - reflexivity.
  - reflexivity.
  - exists (wstr "01234567-89ab-cdef-0123-456789abcdef}\"). vm_compute. reflexivity.
Defined.

Lemma five_entries_plain_ok :
  Forall (fun fn => plain_ok five_host (drop 0 [NUL]) fn.1 fn.2) five_entries.
Proof.
  unfold five_entries.
  repeat (apply Forall_cons; split;
          [repeat split; vm_compute; reflexivity|]).
  apply Forall_nil. exact I.
Defined.

Lemma five_entries_perm : wstr "e" :: (tail five_entries).*2 ≡ₚ five_names.
Proof.
  apply permutations_Permutation. apply (bool_decide_unpack _). vm_compute. exact I.
Defined.

Lemma dirload_range_b_d_witness :
  let out := git_win32_path_dirload_with_stat five_host [NUL] 0 0
               (Some (wstr "b")) (Some (wstr "d")) [] example_work_path [] in
  dl_error out = 0 /\
  Forall2 (fun nm ps => ps_name ps = nm \/ ps_name ps = nm ++ [SLASH])
          [wstr "b"; wstr "c"; wstr "d"] (dl_contents out).
Proof.
  apply (dirload_range_b_d five_host [NUL] 0 0 example_work_path [] [NUL]
           (example_entry "e" 0x20) (wstr "e") (tail five_entries)).
  - vm_compute. reflexivity.
  - reflexivity.
  - reflexivity.
  - reflexivity.
  - exact five_entries_plain_ok.
  - exact five_entries_perm.
Defined.

Example dirload_range_order :
  ps_name <$> dl_contents
    (git_win32_path_dirload_with_stat five_host [NUL] 0 0
       (Some (wstr "b")) (Some (wstr "d")) [] example_work_path [])
  = [wstr "b"; wstr "c"; wstr "d/"].
Proof. vm_compute. reflexivity. Qed.

Lemma range_bounds_compare_prefix_witness :
  ds_contents (dirload_entry prefix_host 0 (Some (wstr "bb")) None [NUL]
                 (example_entry "b" 0x20)
                 (DirloadState example_work_path [] [])).1
  = [plain_entry prefix_host (example_entry "b" 0x20) (wstr "b")] /\
  path_cmp (wstr "b") (wstr "bb") < 0.
Proof.
  refine (proj1 (range_bounds_compare_prefix prefix_host 0 [NUL]
                   (example_entry "b" 0x20) (DirloadState example_work_path [] [])
                   (wstr "b") 98 [] _ _ _ _) None _).
  - repeat split; vm_compute; reflexivity.
  - split; vm_compute; reflexivity.
  - apply (bool_decide_unpack _). vm_compute. exact I.
  - reflexivity.
  - vm_compute. reflexivity.
Defined.


Lemma store_nt (out : list wchar) : store out 0 PATH__NT_NAMESPACE = PATH__NT_NAMESPACE ++ drop 4 out.
Proof. unfold store. by rewrite take_0. Qed.

Lemma store_after (A X data : list wchar) :
  store (A ++ X) (length A) data = A ++ data ++ drop (length data) X.
Proof. unfold store. by rewrite take_app_length, drop_app_add. Qed.

Lemma to_utf8_nt E (W : list wchar) :
  git_win32_path_to_utf8 E (BSLASH :: BSLASH :: QMARK :: BSLASH :: W)
  = if wcsncmp W UNC_MARK 4 =? 0
    then match git__utf16_to_8 E (GIT_WIN_PATH_UTF8 E) (str_of (drop 4 W)) with
         | None => Fail ECONV
         | Some out => Ok (git_path_mkposix ([BSLASH; BSLASH] ++ out), Z.of_nat (length out))
         end
    else match git__utf16_to_8 E (GIT_WIN_PATH_UTF8 E) (str_of W) with
         | None => Fail ECONV
         | Some out => Ok (git_path_mkposix ([] ++ out), Z.of_nat (length out))
         end.
Proof.
  unfold git_win32_path_to_utf8.
  change (path__is_nt_namespace (BSLASH :: BSLASH :: QMARK :: BSLASH :: W) 0) with true.
  cbv iota. change (drop 4 (BSLASH :: BSLASH :: QMARK :: BSLASH :: W)) with W.
  by destruct (wcsncmp W UNC_MARK 4 =? 0).
Qed.

Lemma from_utf8_absolute E out (t : list Z) w :
  path__is_absolute t 0 = true ->
  git__utf8_to_16 E MAX_PATH (str_of t) = Some w ->
  git_win32_path_from_utf8 E out t
  = match git_win32_path_canonicalize
            ((PATH__NT_NAMESPACE ++ w) ++ NUL :: drop (length (w ++ [NUL])) (drop 4 out)) with
    | Some r => Ok r
    | None => Fail ECONV
    end.
Proof.
  intros Ha Hc. unfold git_win32_path_from_utf8. rewrite Ha.
  unfold utf8_to_16_at. rewrite Hc, store_nt.
  change PATH__NT_NAMESPACE_LEN with (length PATH__NT_NAMESPACE).
  rewrite store_after. by rewrite <- !app_assoc.
Qed.

Lemma from_utf8_unc E out (t : list Z) w :
  path__is_absolute t 0 = false -> path__is_nt_namespace t 0 = false ->
  path__is_unc t 0 = true ->
  git__utf8_to_16 E (MAX_PATH - 2) (str_of (drop 2 t)) = Some w ->
  git_win32_path_from_utf8 E out t
  = match git_win32_path_canonicalize
            ((PATH__NT_NAMESPACE ++ UNC_MARK ++ w) ++ NUL ::
             drop (length (w ++ [NUL])) (drop 4 (drop 4 out))) with
    | Some r => Ok r
    | None => Fail ECONV
    end.
Proof.
  intros Ha Hn Hu Hc. unfold git_win32_path_from_utf8. rewrite Ha, Hn, Hu.
  unfold utf8_to_16_at. rewrite Hc, store_nt.
  change PATH__NT_NAMESPACE_LEN with (length PATH__NT_NAMESPACE).
  rewrite store_after.
  replace (length PATH__NT_NAMESPACE + 4)%nat with (length (PATH__NT_NAMESPACE ++ UNC_MARK)) by done.
  rewrite (app_assoc PATH__NT_NAMESPACE UNC_MARK), store_after.
  by rewrite <- !app_assoc.
Qed.

Lemma mkposix_app (a b : list Z) :
  git_path_mkposix (a ++ b) = git_path_mkposix a ++ git_path_mkposix b.
Proof. unfold git_path_mkposix. by rewrite fmap_app. Qed.

Lemma abs_intro_sep a d W : git__isalpha a = true -> path__is_dirsep d = true ->
  path__is_absolute (a :: COLON :: d :: W) 0 = true.
Proof.
  intros Ha Hd. unfold path__is_absolute, rd. cbn. rewrite Ha.
  unfold path__is_dirsep in Hd. cbn. apply orb_true_iff in Hd.
  apply orb_true_iff. tauto.
Qed.

(** C7, as the code has it. Round trip for drive-absolute and UNC text.
    Let [t] be a text path that is drive-absolute, or UNC and not
    namespace-prefixed; let its conversion (of [t], or of [t] behind the
    two leading separators) succeed with the units [w], where [w] below
    its root is [clean] (no [.] or [..] segment, no doubled and no
    trailing separator); let the converters take [w], respelled with
    backslashes, back to a text [u] equal to the converted text up to
    separator style. Then [git_win32_path_from_utf8] succeeds and
    [git_win32_path_to_utf8] on its result returns [t] with its
    separators in portable form. *)
Theorem utf8_round_trip (E : win32_env) (out : list wchar) (t : list Z)
    (w : list wchar) (u : list Z) :
  NUL ∉ w ->
  git__utf16_to_8 E (GIT_WIN_PATH_UTF8 E) (unposix <$> w) = Some u ->
  (path__is_absolute t 0 = true /\
   git__utf8_to_16 E MAX_PATH (str_of t) = Some w /\
   path__is_absolute (w ++ [NUL]) 0 = true /\
   clean (drop 3 w) /\
   git_path_mkposix u = git_path_mkposix (str_of t))
  \/
  (path__is_absolute t 0 = false /\ path__is_nt_namespace t 0 = false /\
   path__is_unc t 0 = true /\
   git__utf8_to_16 E (MAX_PATH - 2) (str_of (drop 2 t)) = Some w /\
   clean (drop (skip_server_off w) w) /\
   git_path_mkposix u = git_path_mkposix (str_of (drop 2 t))) ->
  exists buf len m,
    git_win32_path_from_utf8 E out t = Ok (buf, len) /\
    git_win32_path_to_utf8 E buf = Ok (git_path_mkposix (str_of t), m).
Proof.
  intros Hnul Hu [(Ha&Hc&Hwa&Hcl&Hrt)|(Ha&Hn&Hunc&Hc&Hcl&Hrt)].
  - rewrite (from_utf8_absolute E out t w Ha Hc).
    apply abs_inv in Hwa as (a&d&w'&->&Halpha&Hd).
    set (T := drop _ (drop 4 out)).
    rewrite canon_clean.
    + eexists _, _, _. split; [reflexivity|].
      rewrite fmap_app. change (unposix <$> PATH__NT_NAMESPACE) with PATH__NT_NAMESPACE.
      unfold PATH__NT_NAMESPACE. cbn [app]. rewrite to_utf8_nt.
      rewrite !fmap_cons, (unposix_sep d Hd).
      replace (unposix a) with a
        by (unfold unposix; by rewrite (proj1 (proj2 (plain_not_sep _ (alpha_plain a Halpha))))).
      change (unposix COLON) with COLON. cbn [app].
      rewrite wcsncmp_abs_unc.
      rewrite !fmap_cons, (unposix_sep d Hd) in Hu.
      replace (unposix a) with a in Hu
        by (unfold unposix; by rewrite (proj1 (proj2 (plain_not_sep _ (alpha_plain a Halpha))))).
      change (unposix COLON) with COLON in Hu.
      change (a :: COLON :: BSLASH :: (unposix <$> w') ++ NUL :: T)
        with ((a :: COLON :: BSLASH :: (unposix <$> w')) ++ NUL :: T).
      rewrite str_of_app_nul.
      * rewrite Hu. cbn [app]. by rewrite Hrt.
      * intros Hin. apply (unposix_not_nul (a :: COLON :: d :: w') Hnul).
        rewrite !fmap_cons, (unposix_sep d Hd).
        replace (unposix a) with a
          by (unfold unposix; by rewrite (proj1 (proj2 (plain_not_sep _ (alpha_plain a Halpha))))).
        exact Hin.
    + unfold PATH__NT_NAMESPACE. cbn [app]. rewrite skip_prefix_nt.
      rewrite wcsncmp_abs_unc.
      rewrite abs_intro_sep by done. exact Hcl.
  - rewrite (from_utf8_unc E out t w Ha Hn Hunc Hc).
    set (T := drop _ (drop 4 (drop 4 out))).
    rewrite canon_clean.
    + eexists _, _, _. split; [reflexivity|].
      rewrite !fmap_app. change (unposix <$> PATH__NT_NAMESPACE) with PATH__NT_NAMESPACE.
      change (unposix <$> UNC_MARK) with UNC_MARK.
      unfold PATH__NT_NAMESPACE, UNC_MARK. cbn [app]. rewrite to_utf8_nt.
      change (wcsncmp (85 :: 78 :: 67 :: BSLASH :: ?W) [85; 78; 67; BSLASH] 4 =? 0) with true.
      cbv iota. change (drop 4 (85 :: 78 :: 67 :: BSLASH :: ?W)) with W.
      rewrite str_of_app_nul by (by apply unposix_not_nul).
      rewrite Hu, mkposix_app, Hrt.
      f_equal.
      unfold path__is_unc, rd in Hunc.
      destruct t as [|c0 [|c1 t']]; cbn in Hunc; b2p Hunc; try (by intuition discriminate).
      destruct Hunc as [[-> ->]|[-> ->]]; reflexivity.
    + unfold PATH__NT_NAMESPACE, UNC_MARK. cbn [app]. rewrite skip_prefix_nt.
      change (wcsncmp (85 :: 78 :: 67 :: BSLASH :: ?W) [85; 78; 67; BSLASH] 4 =? 0) with true.
      cbv iota. change (drop 4 (85 :: 78 :: 67 :: BSLASH :: ?W)) with W.
      rewrite skip_server_off_app_nul.
      change (drop (8 + ?k) (BSLASH :: BSLASH :: QMARK :: BSLASH :: 85 :: 78 :: 67 :: BSLASH :: ?l))
        with (drop k l).
      exact Hcl.
Qed.

Ltac solve_good :=
  split; [discriminate|];
  split; [repeat (apply Forall_cons; split; [repeat split; discriminate|]);
          apply Forall_nil; exact I|];
  split; discriminate.

Lemma clean_foo_bar : clean (wstr "foo/bar").
Proof.
  change (clean (wstr "foo" ++ SLASH :: wstr "bar")).
  apply clean_cons; [solve_good|reflexivity| |discriminate].
  apply clean_one. solve_good.
Defined.

Lemma utf8_round_trip_witness :
  exists buf len m,
    git_win32_path_from_utf8 plain_host [] (cstr "C:/foo/bar") = Ok (buf, len) /\
    git_win32_path_to_utf8 plain_host buf
    = Ok (git_path_mkposix (str_of (cstr "C:/foo/bar")), m).
Proof.
  apply (utf8_round_trip plain_host [] (cstr "C:/foo/bar")
           (wstr "C:/foo/bar") (wstr "C:\foo\bar")).
  - apply (bool_decide_unpack _). vm_compute. exact I.
  - vm_compute. reflexivity.
  - left. split; [reflexivity|]. split; [vm_compute; reflexivity|].
    split; [reflexivity|]. split; [exact clean_foo_bar|]. vm_compute. reflexivity.
Defined.

Lemma utf8_round_trip_counterexample :
  clean (wstr "foo/bar") /\
  exists buf len m,
    git_win32_path_from_utf8 plain_host [] (cstr "foo/bar") = Ok (buf, len) /\
    git_win32_path_to_utf8 plain_host buf = Ok (wstr "C:/foo/bar", m) /\
    wstr "C:/foo/bar" <> git_path_mkposix (str_of (cstr "foo/bar")).
Proof.
  split; [exact clean_foo_bar|].
  eexists _, _, _. split; [vm_compute; reflexivity|].
  split; [vm_compute; reflexivity|]. vm_compute. discriminate.
Qed.

Example utf8_namespace_not_restored :
  exists buf len m,
    git_win32_path_from_utf8 plain_host [] (cstr "\\?\C:\foo") = Ok (buf, len) /\
    git_win32_path_to_utf8 plain_host buf = Ok (wstr "C:/foo", m).
Proof.
  eexists _, _, _. split; vm_compute; reflexivity.
Qed.

Example utf8_unc_round_trip :
  exists buf len m,
    git_win32_path_from_utf8 plain_host [] (cstr "//server/share/x") = Ok (buf, len) /\
    str_of buf = wstr "\\?\UNC\server\share\x" /\
    git_win32_path_to_utf8 plain_host buf = Ok (wstr "//server/share/x", m).
Proof.
  eexists _, _, _. split; [vm_compute; reflexivity|]. split; vm_compute; reflexivity.
Qed.

(** * Listings entry by entry *)

Lemma stream_of_app fs e : stream_of fs e = stream_app fs (FindEnd e).
Proof. unfold stream_app. induction fs as [|f fs IH]; cbn; [done|]. by rewrite IH. Qed.

Lemma stream_entries_app fs rest :
  stream_entries (stream_app fs rest) = fs ++ stream_entries rest.
Proof. unfold stream_app. induction fs as [|f fs IH]; cbn; [done|]. by rewrite IH. Qed.

Lemma elem_of_insert_sorted x y l : x ∈ vector_insert_sorted y l <-> x = y \/ x ∈ l.
Proof.
  induction l as [|z l IH]; cbn [vector_insert_sorted].
  - rewrite list_elem_of_singleton, elem_of_nil. tauto.
  - destruct (path_cmp (path y) (path z) <=? 0).
    + by rewrite elem_of_cons.
    + rewrite !elem_of_cons, IH. tauto.
Qed.

Lemma elem_of_vector_sort x l : x ∈ git_vector_sort l <-> x ∈ l.
Proof.
  unfold git_vector_sort. induction l as [|y l IH]; cbn [foldr]; [done|].
  by rewrite elem_of_insert_sorted, elem_of_cons, IH.
Qed.

Section Resolve.
Variable E : win32_env.

(** What a link lookup returns does not depend on what the destination
    holds, nor does the string it leaves there. *)
Lemma readlink_ret_dest (dest dest' p : list wchar) :
  rl_ret (git_win32_path_readlink_w E dest p)
  = rl_ret (git_win32_path_readlink_w E dest' p).
Proof.
  unfold git_win32_path_readlink_w.
  destruct (reparse_at E p) as [| |rb]; [done|done|].
  destruct (reparse_names_of rb) as [nb|]; [|done].
  destruct (path_is_volume _ _); [done|].
  destruct (negb _); [|done].
  destruct (git_win32__canonicalize_path E _ _) as [tg len].
  by destruct (GIT_WIN_PATH_UTF16 E >? len).
Qed.

Lemma readlink_str_dest (dest p : list wchar) :
  0 <= rl_ret (git_win32_path_readlink_w E dest p) ->
  str_of (rl_dest (git_win32_path_readlink_w E dest p))
  = str_of (rl_dest (git_win32_path_readlink_w E [] p)).
Proof.
  unfold git_win32_path_readlink_w.
  destruct (reparse_at E p) as [| |rb]; cbn [rl_ret rl_dest]; [lia|lia|].
  destruct (reparse_names_of rb) as [nb|]; cbn [rl_ret rl_dest]; [|lia].
  destruct (path_is_volume _ _); cbn [rl_ret rl_dest]; [lia|].
  destruct (negb _); cbn [rl_ret rl_dest]; [|lia].
  destruct (git_win32__canonicalize_path E _ _) as [tg len].
  destruct (GIT_WIN_PATH_UTF16 E >? len); cbn [rl_ret rl_dest]; [|lia].
  intros _. unfold store. rewrite !take_0. cbn [app].
  rewrite <- !app_assoc. cbn [app].
  by rewrite !str_of_app_nul by apply str_of_not_nul.
Qed.

Lemma link_target_unresolved f : unresolved E f -> link_target E f = None.
Proof.
  intros [Hp|Hf]; unfold link_target.
  - unfold plain_attr in Hp. by rewrite Hp.
  - destruct (negb _); [|done].
    replace (rl_ret _ >=? 0) with false; [done|].
    symmetry. rewrite Z.geb_leb. apply Z.leb_gt. apply Hf.
Qed.

Lemma entry_record_unresolved f p :
  unresolved E f -> entry_record E f p = inl (plain_entry E f p).
Proof. intros Hu. unfold entry_record. by rewrite link_target_unresolved. Qed.

Lemma link_target_resolved f dest :
  Z.land (dwFileAttributes f) FILE_ATTRIBUTE_REPARSE_POINT <> 0 ->
  0 <= rl_ret (git_win32_path_readlink_w E dest (cFileName f)) ->
  link_target E f = Some (str_of (rl_dest (git_win32_path_readlink_w E dest (cFileName f)))).
Proof.
  intros Ha Hr. unfold link_target.
  replace (Z.land _ _ =? 0) with false by (symmetry; by apply Z.eqb_neq).
  cbn [negb]. rewrite (readlink_ret_dest [] dest).
  replace (rl_ret _ >=? 0) with true by (symmetry; apply Z.geb_le; lia).
  by rewrite (readlink_str_dest dest).
Qed.

Lemma link_mode f :
  let m := Z.lor (Z.land (entry_mode f) (Z.lnot S_IFMT)) S_IFLNK in
  S_ISLNK m = true /\ S_ISDIR m = false /\ S_ISREG m = false.
Proof. destruct (entry_mode_cases f) as [-> | [-> | [-> | ->]]]; by vm_compute. Qed.

Lemma entry_finish_link f (p bytes : list Z) :
  entry_finish
    (set_size (set_mode (entry_stat E f)
                 (Z.lor (Z.land (entry_mode f) (Z.lnot S_IFMT)) S_IFLNK))
              (Z.of_nat (length bytes)))
    (Z.of_nat (length p)) (p ++ [0; 0])
  = Some (link_entry E f p bytes).
Proof.
  destruct (link_mode f) as (Hl & Hdir & Hreg).
  unfold entry_finish. cbn [st_mode set_size set_mode].
  by rewrite Hdir, Hreg, Hl.
Qed.

(** The link handling of an entry, by the record it ends in. *)
Lemma entry_reparse_record f dest (p : list Z) :
  match entry_record E f p with
  | inr e => entry_reparse E f dest (entry_stat E f) = inr e
  | inl ps =>
    exists ps_st dest',
      entry_reparse E f dest (entry_stat E f) = inl (ps_st, dest') /\
      entry_finish ps_st (Z.of_nat (length p)) (p ++ [0; 0]) = Some ps
  end.
Proof.
  unfold entry_record, link_target, entry_reparse.
  destruct (negb (Z.land (dwFileAttributes f) FILE_ATTRIBUTE_REPARSE_POINT =? 0));
    [|eexists _, _; split; [reflexivity|apply entry_finish_plain_entry]].
  rewrite (readlink_ret_dest dest []).
  destruct (rl_ret (git_win32_path_readlink_w E [] (cFileName f)) >=? 0) eqn:Hr;
    [|eexists _, _; split; [reflexivity|apply entry_finish_plain_entry]].
  rewrite (readlink_str_dest dest)
    by (rewrite (readlink_ret_dest dest []); apply Z.geb_le in Hr; lia).
  destruct (git__utf16_to_8 E 0 _) as [bytes|]; [|done].
  eexists _, _. split; [reflexivity|]. apply entry_finish_link.
Qed.

End Resolve.

Section Named.
Variable E : win32_env.
Variables (flags : Z) (start_stat end_stat : option (list Z)) (repo : list Z).

Lemma dirload_loop_rest f rest s :
  dirload_loop E flags start_stat end_stat repo f rest s
  = match dirload_entry E flags start_stat end_stat repo f s with
    | (s1, Some e) => (s1, Some e)
    | (s1, None) => dirload_rest E flags start_stat end_stat repo rest s1
    end.
Proof. by destruct rest. Qed.

(** One loop turn for an entry with a name. *)
Lemma dirload_entry_named f s n :
  named E repo f n -> work_ok repo (ds_work_path s) ->
  exists s',
    work_ok repo (ds_work_path s') /\
    ds_contents s'
    = ds_contents s ++ (collect E flags start_stat end_stat repo [(f, n)]).1 /\
    dirload_entry E flags start_stat end_stat repo f s
    = (s', (collect E flags start_stat end_stat repo [(f, n)]).2).
Proof.
  intros (Hdot&Hc&Hfit) Hwok. pose proof Hwok as [Hsz Hw].
  set (p := str_of repo ++ n).
  assert (Hwok' : work_ok repo (p ++ 0 :: drop (length p + 1) (ds_work_path s))).
  { apply (work_ok_step repo _ n); [done|done|]. unfold p. by rewrite length_app. }
  unfold PATH__MAX_UNC_LEN in *.
  rewrite (dirload_entry_ok E flags start_stat end_stat repo f s n Hdot Hc) by (done || lia).
  fold p. rewrite after_start_take_l, before_end_take_l.
  cbn [collect fst snd]. fold p. unfold in_range.
  destruct (after_start _ _ _ _ && before_end _ _ _ _).
  - pose proof (entry_reparse_record E f (ds_target s) p) as Hrec.
    destruct (entry_record E f p) as [ps|e].
    + destruct Hrec as (ps_st & dest' & -> & ->). cbn [option_list fst snd].
      eexists. split; [|split; [|reflexivity]]; [exact Hwok'|done].
    + rewrite Hrec. cbn [fst snd].
      eexists. split; [|split; [|reflexivity]]; [exact Hwok'|].
      cbn [ds_contents]. by rewrite app_nil_r.
  - cbn [fst snd]. eexists. split; [|split; [|reflexivity]]; [exact Hwok'|].
    cbn [ds_contents]. by rewrite app_nil_r.
Qed.

(** The loop over entries with names, whatever follows them. *)
Lemma dirload_rest_named fns : forall s rest,
  Forall (fun fn => named E repo fn.1 fn.2) fns ->
  work_ok repo (ds_work_path s) ->
  exists s',
    work_ok repo (ds_work_path s') /\
    ds_contents s' = ds_contents s ++ (collect E flags start_stat end_stat repo fns).1 /\
    dirload_rest E flags start_stat end_stat repo (stream_app (fst <$> fns) rest) s
    = match (collect E flags start_stat end_stat repo fns).2 with
      | Some e => (s', Some e)
      | None => dirload_rest E flags start_stat end_stat repo rest s'
      end.
Proof.
  induction fns as [|[f n] fns IH]; intros s rest Hall Hw.
  - exists s. cbn. by rewrite app_nil_r.
  - apply Forall_cons in Hall as [Hf Hall]. cbn [fst snd] in Hf.
    cbn [fmap list_fmap stream_app foldr dirload_rest fst].
    change (foldr FindEntry rest (list_fmap _ _ fst fns))
      with (stream_app (fst <$> fns) rest).
    rewrite dirload_loop_rest.
    destruct (dirload_entry_named f s n Hf Hw) as (s1 & Hw1 & Hc1 & ->).
    destruct (IH s1 rest Hall Hw1) as (s2 & Hw2 & Hc2 & He2).
    cbn [collect fst snd] in *.
    destruct (in_range flags start_stat end_stat (str_of repo ++ n)).
    + destruct (entry_record E f (str_of repo ++ n)) as [ps|e].
      * destruct (collect E flags start_stat end_stat repo fns) as [l e'].
        cbn [fst snd] in *. exists s2. split; [done|]. split; [|done].
        rewrite Hc2, Hc1. by rewrite <- app_assoc.
      * cbn [fst snd] in *. exists s1. done.
    + cbn [fst snd] in *. exists s2. split; [done|]. split; [|done].
      rewrite Hc2, Hc1. by rewrite app_nil_r.
Qed.

Lemma collect_unresolved fns :
  Forall (fun fn => unresolved E fn.1) fns ->
  collect E flags start_stat end_stat repo fns
  = (kept E flags start_stat end_stat repo fns, None).
Proof.
  induction 1 as [|[f n] fns Hu _ IH]; [done|].
  cbn [collect fst snd] in *. unfold kept in *. cbn [mbind list_bind fst snd].
  rewrite (entry_record_unresolved E f _ Hu), IH.
  by destruct (in_range _ _ _ _).
Qed.

Lemma collect_elem fns : forall l,
  collect E flags start_stat end_stat repo fns = (l, None) ->
  forall f n, (f, n) ∈ fns ->
  in_range flags start_stat end_stat (str_of repo ++ n) = true ->
  exists ps, entry_record E f (str_of repo ++ n) = inl ps /\ ps ∈ l.
Proof.
  induction fns as [|[f' n'] fns IH]; intros l Hc f n Hin Hr.
  - by apply elem_of_nil in Hin.
  - cbn [collect fst snd] in Hc.
    apply elem_of_cons in Hin as [[= -> ->]|Hin].
    + rewrite Hr in Hc. destruct (entry_record E f' _) as [ps|e]; [|done].
      destruct (collect E flags start_stat end_stat repo fns) as [l' e'].
      injection Hc as <- ->. exists ps. split; [done|]. apply elem_of_cons. by left.
    + destruct (in_range flags start_stat end_stat (str_of repo ++ n')).
      * destruct (entry_record E f' _) as [ps'|e]; [|done].
        destruct (collect E flags start_stat end_stat repo fns) as [l' e'].
        injection Hc as <- ->.
        destruct (IH l' eq_refl f n Hin Hr) as (ps & Hps & Hl).
        exists ps. split; [done|]. apply elem_of_cons. by right.
      * by apply (IH l Hc).
Qed.

(** The collection only grows. *)
Lemma entry_grows f s :
  ds_contents s `prefix_of`
  ds_contents (dirload_entry E flags start_stat end_stat repo f s).1.
Proof.
  unfold dirload_entry. destruct (negb _); [|done].
  destruct (entry_work_path E repo f (ds_work_path s)) as [w len].
  destruct (after_start _ _ _ _); [|done].
  destruct (before_end _ _ _ _); [|done].
  cbn [ds_target ds_contents].
  destruct (entry_reparse E f (ds_target s) (entry_stat E f)) as [[ps_st tg]|e]; [|done].
  cbn [fst ds_contents]. destruct (entry_finish _ _ _); [|done].
  by apply prefix_app_r.
Qed.

Lemma rest_grows rest : forall s,
  ds_contents s `prefix_of`
  ds_contents (dirload_rest E flags start_stat end_stat repo rest s).1.
Proof.
  induction rest as [e|f rest IH]; intros s; cbn [dirload_rest].
  - by destruct (e =? ERROR_NO_MORE_FILES).
  - rewrite dirload_loop_rest. pose proof (entry_grows f s) as Hg.
    destruct (dirload_entry E flags start_stat end_stat repo f s) as [s1 [e|]];
      cbn [fst] in *; [done|].
    etransitivity; [exact Hg|apply IH].
Qed.

(** Where the loop leaves with an error of its own. *)
Lemma entry_abort f s s' e :
  dirload_entry E flags start_stat end_stat repo f s = (s', Some e) ->
  e = Could_not_manage_reparse_link /\
  Z.land (dwFileAttributes f) FILE_ATTRIBUTE_REPARSE_POINT <> 0 /\
  0 <= rl_ret (git_win32_path_readlink_w E (ds_target s) (cFileName f)) /\
  git__utf16_to_8 E 0
    (str_of (rl_dest (git_win32_path_readlink_w E (ds_target s) (cFileName f)))) = None.
Proof.
  unfold dirload_entry. destruct (negb (git_path_is_dot_or_dotdotW _)); [|done].
  destruct (entry_work_path E repo f (ds_work_path s)) as [w len].
  destruct (after_start _ _ _ _); [|done].
  destruct (before_end _ _ _ _); [|done].
  cbn [ds_target ds_contents]. unfold entry_reparse.
  destruct (Z.land (dwFileAttributes f) FILE_ATTRIBUTE_REPARSE_POINT =? 0) eqn:Ha;
    cbn [negb]; [done|].
  destruct (rl_ret _ >=? 0) eqn:Hr; [|done].
  destruct (git__utf16_to_8 E 0 _) eqn:Hc; [done|].
  intros [= <- <-]. apply Z.eqb_neq in Ha. apply Z.geb_le in Hr. done.
Qed.

Lemma rest_abort rest : forall s,
  (dirload_rest E flags start_stat end_stat repo rest s).2
  = Some Could_not_manage_reparse_link ->
  exists g dest,
    g ∈ stream_entries rest /\
    Z.land (dwFileAttributes g) FILE_ATTRIBUTE_REPARSE_POINT <> 0 /\
    0 <= rl_ret (git_win32_path_readlink_w E dest (cFileName g)) /\
    git__utf16_to_8 E 0
      (str_of (rl_dest (git_win32_path_readlink_w E dest (cFileName g)))) = None.
Proof.
  induction rest as [e|f rest IH]; intros s; cbn [dirload_rest stream_entries].
  - by destruct (e =? ERROR_NO_MORE_FILES).
  - rewrite dirload_loop_rest.
    destruct (dirload_entry E flags start_stat end_stat repo f s) as [s1 [e|]] eqn:He.
    + intros _. destruct (entry_abort f s s1 e He) as (_ & Ha & Hr & Hc).
      exists f, (ds_target s). split; [apply elem_of_cons; by left|done].
    + intros Hs. destruct (IH s1 Hs) as (g & dest & Hin & Hrest).
      exists g, dest. split; [apply elem_of_cons; by right|done].
Qed.

End Named.

(** The call, once the directory is open: the loop on the stream, from
    a work buffer that holds the repo path. *)
Lemma dirload_open (E : win32_env) (path : list Z) (prefix_len : nat)
    (flags : Z) (start_stat end_stat : option (list Z))
    (contents : list git_path_with_stat) (work_path : list Z) (target : list wchar)
    pathw f rest :
  Z.of_nat (length work_path) = PATH__MAX_UNC_LEN ->
  git_win32__findfirstfile_filter E path = Some pathw ->
  FindFirstFileExW E pathw = Some (f, rest) ->
  Z.of_nat (length (str_of (drop prefix_len path))) <= PATH__MAX_UNC_LEN ->
  let s0 := DirloadState (store work_path 0 (str_of (drop prefix_len path)))
                         target contents in
  work_ok (drop prefix_len path) (ds_work_path s0) /\
  git_win32_path_dirload_with_stat E path prefix_len flags start_stat end_stat
    contents work_path target
  = match dirload_rest E flags start_stat end_stat (drop prefix_len path)
            (FindEntry f rest) s0 with
    | (s, Some e) => DirloadOut (-1) (Some e) (ds_contents s)
    | (s, None) => DirloadOut 0 None (git_vector_sort (ds_contents s))
    end.
Proof.
  intros Hsz Hf Hd Hfit s0. split.
  - unfold s0, store, work_ok. cbn [ds_work_path]. rewrite take_0. cbn [app Nat.add].
    split; [|by rewrite take_app_length].
    rewrite length_app, length_drop. lia.
  - unfold git_win32_path_dirload_with_stat. rewrite Hf, Hd.
    replace (repo_path_len (drop prefix_len path) >? PATH__MAX_UNC_LEN) with false; [done|].
    symmetry. rewrite repo_path_len_eq, Z.gtb_ltb. apply Z.ltb_ge. lia.
Qed.

(** * Listings with reparse points that do not resolve *)

(** C3, as the code has it. A reparse-tagged entry on which
    [git_win32_path_readlink_w] fails neither fails the listing nor is
    skipped, and the listing goes on. For a directory whose entries have
    names:
    - if none of its entries resolves as a link (each has no reparse
      attribute or fails to resolve), the call returns 0 and the
      collection holds, sorted, what it held before and one record for
      every entry in range, with the metadata taken from the find data
      alone ([plain_entry]: the type bits come from the attribute
      flags);
    - whatever the other entries do, when the call returns 0 every
      entry in range that does not resolve has that record in the
      collection.
    For every directory, the listing is given up for a reparse point
    only when the lookup succeeds and the UTF-8 length of the target
    cannot be had: whenever the call leaves with the error of the link
    handling, some entry of the directory has the reparse attribute, a
    lookup that succeeds, and a target whose conversion fails. *)
Theorem readlink_failure_keeps_entry (E : win32_env) (path : list Z) (prefix_len : nat)
    (flags : Z) (start_stat end_stat : option (list Z))
    (contents : list git_path_with_stat) (work_path : list Z) (target : list wchar) :
  let out := git_win32_path_dirload_with_stat E path prefix_len flags start_stat
               end_stat contents work_path target in
  let repo := drop prefix_len path in
  (forall pathw f0 n0 fns,
     Z.of_nat (length work_path) = PATH__MAX_UNC_LEN ->
     git_win32__findfirstfile_filter E path = Some pathw ->
     FindFirstFileExW E pathw = Some (f0, stream_of (fst <$> fns) ERROR_NO_MORE_FILES) ->
     Forall (fun fn => named E repo fn.1 fn.2) ((f0, n0) :: fns) ->
     (Forall (fun fn => unresolved E fn.1) ((f0, n0) :: fns) ->
      out = DirloadOut 0 None
              (git_vector_sort
                 (contents ++ kept E flags start_stat end_stat repo ((f0, n0) :: fns)))) /\
     (forall f n,
        (f, n) ∈ (f0, n0) :: fns -> unresolved E f ->
        in_range flags start_stat end_stat (str_of repo ++ n) = true ->
        dl_error out = 0 ->
        plain_entry E f (str_of repo ++ n) ∈ dl_contents out)) /\
  (dl_giterr out = Some Could_not_manage_reparse_link ->
   exists pathw f rest g dest,
     git_win32__findfirstfile_filter E path = Some pathw /\
     FindFirstFileExW E pathw = Some (f, rest) /\
     g ∈ f :: stream_entries rest /\
     Z.land (dwFileAttributes g) FILE_ATTRIBUTE_REPARSE_POINT <> 0 /\
     0 <= rl_ret (git_win32_path_readlink_w E dest (cFileName g)) /\
     git__utf16_to_8 E 0
       (str_of (rl_dest (git_win32_path_readlink_w E dest (cFileName g)))) = None).
Proof.
  intros out repo. subst out. split.
  - intros pathw f0 n0 fns Hsz Hf Hd Hall.
    assert (Hfit : Z.of_nat (length (str_of repo)) <= PATH__MAX_UNC_LEN).
    { apply Forall_cons in Hall as [(_&_&Hfit) _]. cbn [fst snd] in Hfit. lia. }
    destruct (dirload_open E path prefix_len flags start_stat end_stat contents
                work_path target pathw f0 _ Hsz Hf Hd Hfit) as [Hw ->].
    fold repo in Hw |- *. rewrite stream_of_app.
    change (FindEntry f0 (stream_app (fst <$> fns) (FindEnd ERROR_NO_MORE_FILES)))
      with (stream_app (fst <$> (f0, n0) :: fns) (FindEnd ERROR_NO_MORE_FILES)).
    destruct (dirload_rest_named E flags start_stat end_stat repo
                ((f0, n0) :: fns) _ (FindEnd ERROR_NO_MORE_FILES) Hall Hw)
      as (s' & _ & Hc & ->).
    cbn [dirload_rest].
    change (ERROR_NO_MORE_FILES =? ERROR_NO_MORE_FILES) with true. cbv iota.
    split.
    + intros Hu.
      rewrite (collect_unresolved E flags start_stat end_stat repo _ Hu) in Hc |- *.
      cbn [fst snd] in *. by rewrite Hc.
    + intros f n Hin Hu Hrange Herr.
      destruct (collect E flags start_stat end_stat repo ((f0, n0) :: fns))
        as [l [e|]] eqn:Hcol; cbn [fst snd] in *; [done|].
      destruct (collect_elem E flags start_stat end_stat repo _ l Hcol f n Hin Hrange)
        as (ps & Hps & Hl).
      rewrite (entry_record_unresolved E f _ Hu) in Hps. injection Hps as <-.
      cbn [dl_contents]. apply elem_of_vector_sort. rewrite Hc.
      apply elem_of_app. by right.
  - unfold git_win32_path_dirload_with_stat.
    destruct (git_win32__findfirstfile_filter E path) as [pathw|]; [|done].
    destruct (FindFirstFileExW E pathw) as [[f rest]|] eqn:Hd; [|done].
    destruct (repo_path_len _ >? PATH__MAX_UNC_LEN); [done|].
    change (dirload_loop E flags start_stat end_stat (drop prefix_len path) f rest)
      with (dirload_rest E flags start_stat end_stat (drop prefix_len path)
              (FindEntry f rest)).
    intros Herr.
    destruct (rest_abort E flags start_stat end_stat (drop prefix_len path)
                (FindEntry f rest)
                (DirloadState (store work_path 0 (str_of (drop prefix_len path)))
                              target contents)) as (g & dest & Hin & Hrest).
    { destruct (dirload_rest _ _ _ _ _ _ _) as [s [e|]]; cbn in *; [congruence|done]. }
    exists pathw, f, rest, g, dest. done.
Qed.

Lemma readlink_failure_keeps_entry_witness :
  (git_win32_path_dirload_with_stat unresolved_host [NUL] 0 0 None None []
     example_work_path []
   = DirloadOut 0 None
       (git_vector_sort
          ([] ++ kept unresolved_host 0 None None (drop 0 [NUL])
                   ((example_entry "lnk" FILE_ATTRIBUTE_REPARSE_POINT, wstr "lnk")
                    :: tail unresolved_entries)))) /\
  exists pathw f rest g dest,
    git_win32__findfirstfile_filter odd_target_host [NUL] = Some pathw /\
    FindFirstFileExW odd_target_host pathw = Some (f, rest) /\
    g ∈ f :: stream_entries rest /\
    Z.land (dwFileAttributes g) FILE_ATTRIBUTE_REPARSE_POINT <> 0 /\
    0 <= rl_ret (git_win32_path_readlink_w odd_target_host dest (cFileName g)) /\
    git__utf16_to_8 odd_target_host 0
      (str_of (rl_dest (git_win32_path_readlink_w odd_target_host dest (cFileName g))))
    = None.
Proof.
  split.
  - apply (proj1 (readlink_failure_keeps_entry unresolved_host [NUL] 0 0 None None []
                    example_work_path []) [NUL]
             (example_entry "lnk" FILE_ATTRIBUTE_REPARSE_POINT) (wstr "lnk")
             (tail unresolved_entries));
      [vm_compute; reflexivity | reflexivity | reflexivity | |].
    + repeat (constructor;
              [split; [reflexivity | split; [reflexivity | vm_compute; reflexivity]] |]).
      constructor.
    + repeat (constructor;
              [first [ left; reflexivity
                     | right; intros dest; vm_compute; reflexivity ] |]).
      constructor.
  - apply (proj2 (readlink_failure_keeps_entry odd_target_host [NUL] 0 0 None None []
                    example_work_path [])).
    vm_compute. reflexivity.
Defined.

Example unresolved_listing :
  let out := git_win32_path_dirload_with_stat unresolved_host [NUL] 0 0 None None []
               example_work_path [] in
  dl_error out = 0 /\
  ps_name <$> dl_contents out = [wstr "lnk"; wstr "z"] /\
  (fun ps => S_ISREG (st_mode (st ps))) <$> dl_contents out = [true; true].
Proof. vm_compute. repeat split; reflexivity. Qed.

(** * Directory suffixing and names that do not convert *)


(** * The matcher: termination and result codes *)

Lemma length_tl {A} (l : list A) : length (tl l) = (length l - 1)%nat.
Proof. destruct l; simpl; lia. Qed.

Lemma tl_suffix {A} (l : list A) : tl l `suffix_of` l.
Proof. destruct l as [|a l]; [done|by exists [a]]. Qed.

Lemma skip_stars_suffix (p : list Z) : skip_stars p `suffix_of` p.
Proof.
  induction p as [|c p IH]; simpl; [done|].
  destruct (c =? STAR); [|done].
  by apply suffix_cons_r.
Qed.

Lemma hd_tl_cons (l : list Z) : hd EOS l <> EOS -> l = hd EOS l :: tl l.
Proof. by destruct l. Qed.

Lemma stars_suffix (p q : list Z) : p `suffix_of` q -> (stars p <= stars q)%nat.
Proof.
  intros [k ->]. unfold stars. rewrite filter_app, length_app. lia.
Qed.

Section FnmatchFacts.
Variable H : fnmatch_env.

(** The bracket loop ends within the turns it is given, and a match
    leaves [newp] inside the pattern. *)
Lemma range_loop_total test flags negate : forall fuel pattern c ok,
  (length pattern + 2 <= fuel)%nat \/ (c = EOS /\ (1 <= fuel)%nat) ->
  exists r, range_loop H fuel pattern c test flags ok negate = Some r /\
    forall newp, r = RANGE_MATCH newp -> newp `suffix_of` pattern.
Proof.
  induction fuel as [|fuel IH]; intros pattern c ok Hfuel; [lia|].
  cbn [range_loop].
  destruct Hfuel as [Hfuel|[-> Hfuel]].
  2:{ replace ((EOS =? BSLASH) && negb (flag flags (FNM_NOESCAPE H))) with false by done.
      replace (EOS =? EOS) with true by done. by eexists. }
  assert (Hend : forall q ok', q `suffix_of` pattern ->
     exists r,
       (if hd EOS q =? RBRACKET
        then Some (if eqb ok' negate then RANGE_NOMATCH else RANGE_MATCH (tl q))
        else range_loop H fuel (tl q) (hd EOS q) test flags ok' negate) = Some r /\
       forall newp, r = RANGE_MATCH newp -> newp `suffix_of` pattern).
  { intros q ok' Hq.
    assert (Htl : tl q `suffix_of` pattern) by (etrans; [apply tl_suffix|done]).
    destruct (hd EOS q =? RBRACKET) eqn:Eh.
    - eexists; split; [done|]. intros newp Hr.
      destruct (eqb ok' negate); [done|]. by injection Hr as <-.
    - destruct (IH (tl q) (hd EOS q) ok') as (r & Er & Hr).
      { apply suffix_length in Hq. destruct q as [|x q]; simpl in *; [right|left]; lia. }
      exists r. split; [done|]. intros newp Hn. etrans; [by apply Hr|done]. }
  set (esc := (c =? BSLASH) && negb (flag flags (FNM_NOESCAPE H))).
  assert (Hp1 : exists c1 p1, (if esc then (hd EOS pattern, tl pattern) else (c, pattern)) = (c1, p1)
                 /\ p1 `suffix_of` pattern).
  { destruct esc; eexists _, _; (split; [done|]); [apply tl_suffix|done]. }
  destruct Hp1 as (c1 & p1 & -> & Hp1).
  destruct (c1 =? EOS); [by eexists|].
  destruct ((c1 =? SLASH) && flag flags (FNM_PATHNAME H)); [by eexists|].
  destruct ((hd EOS p1 =? DASH) && negb (hd EOS (tl p1) =? EOS)
            && negb (hd EOS (tl p1) =? RBRACKET)).
  - set (c2 := hd EOS (tl p1)).
    set (esc2 := (c2 =? BSLASH) && negb (flag flags (FNM_NOESCAPE H))).
    assert (Hp2 : exists c2' p2,
              (if esc2 then (hd EOS (tl (tl p1)), tl (tl (tl p1))) else (c2, tl (tl p1))) = (c2', p2)
              /\ p2 `suffix_of` pattern).
    { assert (tl (tl p1) `suffix_of` pattern).
      { etrans; [apply tl_suffix|]. etrans; [apply tl_suffix|done]. }
      destruct esc2; eexists _, _; (split; [done|]); [|done].
      etrans; [apply tl_suffix|done]. }
    destruct Hp2 as (c2' & p2 & -> & Hp2).
    destruct (c2' =? EOS); [by eexists|].
    by apply Hend.
  - by apply Hend.
Qed.

Lemma rangematch_total pattern test flags :
  exists r, rangematch H pattern test flags = Some r /\
    forall newp, r = RANGE_MATCH newp -> newp `suffix_of` pattern.
Proof.
  unfold rangematch.
  set (negate := (hd EOS pattern =? BANG) || (hd EOS pattern =? CARET)).
  set (p := if negate then tl pattern else pattern).
  assert (Hp : p `suffix_of` pattern).
  { unfold p. destruct negate; [apply tl_suffix|done]. }
  destruct (range_loop_total
              (if flag flags (FNM_CASEFOLD H) then fold_char H test else test)
              flags negate (S (length p)) (tl p) (hd EOS p) false) as (r & Er & Hr).
  { destruct p; simpl; [right|left]; [done|lia]. }
  exists r. split; [done|]. intros newp Hn.
  etrans; [by apply Hr|]. etrans; [apply tl_suffix|done].
Qed.

(** The scan behind a star ends when the string does. *)
Lemma star_loop_total (rec : list Z -> nat -> option Z) (P : Z -> Prop)
    pattern string flags :
  P (FNM_NOMATCH H) ->
  (forall s, exists r, rec pattern s = Some r /\ P r) ->
  forall k s, (length string <= s + k)%nat ->
  exists r, star_loop H rec pattern string flags k s = Some r /\ P r.
Proof.
  intros HP Hrec. induction k as [|k IH]; intros s Hk.
  - simpl. assert (rd string s = NUL) as ->.
    { unfold rd. rewrite lookup_ge_None_2; [done|lia]. }
    by eexists.
  - cbn [star_loop]. destruct (rd string s =? EOS); [by eexists|].
    destruct (Hrec s) as (e & -> & He).
    destruct (negb (e =? FNM_NOMATCH H)); [by eexists|].
    destruct ((rd string s =? SLASH) && flag flags (FNM_PATHNAME H)); [by eexists|].
    apply IH. lia.
Qed.

(** The main loop ends within the turns it is given, with a value the
    recursive call gave or one of its own. *)
Lemma fnmatch_loop_total (rec : list Z -> nat -> option Z) (P : Z -> Prop) q string :
  P 0 -> P (FNM_NOMATCH H) ->
  (forall p s, (stars p < stars q)%nat -> exists r, rec p s = Some r /\ P r) ->
  forall fuel pattern s stringstart flags,
  pattern `suffix_of` q ->
  (length pattern < fuel)%nat ->
  exists r, fnmatch_loop H rec fuel pattern string s stringstart flags = Some r /\ P r.
Proof.
  intros HP0 HP1 Hrec.
  induction fuel as [|fuel IH]; intros pattern s stringstart flags Hq Hlen; [lia|].
  cbn [fnmatch_loop].
  assert (Htl : tl pattern `suffix_of` q) by (etrans; [apply tl_suffix|done]).
  destruct (hd EOS pattern =? EOS) eqn:E0.
  { destruct (flag flags (FNM_LEADING_DIR H) && (rd string s =? SLASH)); [by eexists|].
    destruct (rd string s =? EOS); by eexists. }
  assert (Hne : pattern <> []) by (intros ->; done).
  assert (Hl1 : (length (tl pattern) < fuel)%nat).
  { rewrite length_tl. destruct pattern; [done|]. simpl in *. lia. }
  assert (Hnormal : forall c p, p `suffix_of` tl pattern ->
    exists r, (if normal_mismatch H c string s flags then Some (FNM_NOMATCH H)
               else fnmatch_loop H rec fuel p string (S s) stringstart flags) = Some r /\ P r).
  { intros c p Hp. destruct (normal_mismatch H c string s flags); [by eexists|].
    apply IH; [by etrans|]. apply suffix_length in Hp. lia. }
  destruct (hd EOS pattern =? QMARK).
  { destruct (rd string s =? EOS); [by eexists|].
    destruct ((rd string s =? SLASH) && flag flags (FNM_PATHNAME H)); [by eexists|].
    destruct (leading_period H string s stringstart flags); [by eexists|].
    by apply IH. }
  destruct (hd EOS pattern =? STAR) eqn:Estar.
  { apply Z.eqb_eq in Estar. set (t := if hd EOS (tl pattern) =? STAR then _ else _).
    assert (Ht : exists c p f, t = (c, p, f) /\ p `suffix_of` tl pattern).
    { unfold t. destruct (hd EOS (tl pattern) =? STAR).
      - destruct (hd EOS (skip_stars (tl pattern)) =? SLASH); eexists _, _, _; (split; [done|]).
        + etrans; [apply tl_suffix|apply skip_stars_suffix].
        + apply skip_stars_suffix.
      - by eexists _, _, _. }
    destruct Ht as (c & p & f & -> & Hp).
    destruct (leading_period H string s stringstart f); [by eexists|].
    destruct (c =? EOS).
    { destruct (flag f (FNM_PATHNAME H)); [|by eexists].
      destruct (flag f (FNM_LEADING_DIR H) || _); by eexists. }
    destruct ((c =? SLASH) && flag f (FNM_PATHNAME H)).
    { destruct (strchr (drop s string) SLASH); [|by eexists].
      apply IH; [by etrans|]. apply suffix_length in Hp. lia. }
    apply star_loop_total; [done| |lia].
    intros s'. apply Hrec.
    apply stars_suffix in Hp. apply stars_suffix in Hq.
    rewrite (hd_tl_cons pattern) in Hq by (by apply Z.eqb_neq).
    rewrite Estar in Hq. unfold stars in *. rewrite filter_cons_True in Hq by done.
    simpl in Hq. lia. }
  destruct (hd EOS pattern =? LBRACKET).
  { destruct (rd string s =? EOS); [by eexists|].
    destruct ((rd string s =? SLASH) && flag flags (FNM_PATHNAME H)); [by eexists|].
    destruct (leading_period H string s stringstart flags); [by eexists|].
    destruct (rangematch_total (tl pattern) (rd string s) flags) as (r & -> & Hr).
    destruct r as [| |newp].
    - by apply Hnormal.
    - by eexists.
    - specialize (Hr newp eq_refl).
      apply IH; [by etrans|]. apply suffix_length in Hr. lia. }
  destruct (hd EOS pattern =? BSLASH).
  { destruct (negb (flag flags (FNM_NOESCAPE H))).
    - destruct (hd EOS (tl pattern) =? EOS); apply Hnormal; [done|apply tl_suffix].
    - by apply Hnormal. }
  by apply Hnormal.
Qed.

(** One level of the recursion. *)
Lemma p_fnmatchx_S recurs pattern string s flags :
  p_fnmatchx H (S recurs) pattern string s flags
  = fnmatch_loop H
      (fun p s' => p_fnmatchx H recurs p string s' (Z.land flags (Z.lnot (FNM_PERIOD H))))
      (S (length pattern)) pattern string s s flags.
Proof. done. Qed.

(** [p_fnmatchx] always returns, and returns one of its three codes. *)
Lemma p_fnmatchx_total recurs : forall pattern string s flags,
  exists r, p_fnmatchx H recurs pattern string s flags = Some r /\ fnm_code H r.
Proof.
  induction recurs as [|recurs IH]; intros pattern string s flags.
  - simpl. eexists; split; [done|]. right; by right.
  - rewrite p_fnmatchx_S.
    apply (fnmatch_loop_total _ (fnm_code H) pattern); [by left|right; by left| |done|lia].
    intros p s' _. apply IH.
Qed.

(** With fewer stars in the pattern than levels allowed, the levels
    never run out. *)
Lemma p_fnmatchx_depth recurs : forall pattern string s flags,
  (stars pattern < recurs)%nat ->
  exists r, p_fnmatchx H recurs pattern string s flags = Some r /\
            (r = 0 \/ r = FNM_NOMATCH H).
Proof.
  induction recurs as [|recurs IH]; intros pattern string s flags Hs; [lia|].
  rewrite p_fnmatchx_S.
  apply (fnmatch_loop_total _ (fun r => r = 0 \/ r = FNM_NOMATCH H) pattern);
    [by left|by right| |done|lia].
  intros p s' Hp. apply IH. lia.
Qed.

End FnmatchFacts.

(** X1. The matcher always returns: whatever the pattern, the string and
    the flags, [p_fnmatch] gives a result, and the result is 0,
    [FNM_NOMATCH] or [FNM_NORES]. *)
Theorem fnmatch_returns_code (H : fnmatch_env) (pattern string : list Z) (flags : Z) :
  exists r, p_fnmatch H pattern string flags = Some r /\ fnm_code H r.
Proof. apply p_fnmatchx_total. Qed.

(** X2. A pattern with at most 63 stars never exhausts the 64 levels of
    recursion: the result is 0 or [FNM_NOMATCH], never [FNM_NORES]. *)
Theorem fnmatch_depth_bound (H : fnmatch_env) (pattern string : list Z) (flags : Z) :
  (stars pattern <= 63)%nat ->
  exists r, p_fnmatch H pattern string flags = Some r /\
            (r = 0 \/ r = FNM_NOMATCH H).
Proof. intros Hs. apply p_fnmatchx_depth. lia. Qed.

(** * The matcher: literal text, question marks and trailing stars *)

Lemma rd_nil i : rd [] i = NUL.
Proof. unfold rd. by rewrite lookup_nil. Qed.

Lemma drop_rd (string : list Z) s :
  rd string s <> NUL -> drop s string = rd string s :: drop (S s) string.
Proof.
  unfold rd. destruct (string !! s) eqn:E; simpl; [|done].
  intros _. by apply drop_S.
Qed.

Lemma prefix_cons_rd (c : Z) l string s : c <> NUL ->
  (c :: l) `prefix_of` drop s string <->
  rd string s = c /\ l `prefix_of` drop (S s) string.
Proof.
  intros Hc. split.
  - intros [k Hk].
    assert (E : string !! s = Some c).
    { rewrite <- (Nat.add_0_r s), <- lookup_drop, Hk. done. }
    split; [unfold rd; by rewrite E|].
    rewrite (drop_S _ _ _ E) in Hk. injection Hk as Hk. by exists k.
  - intros [Hr [k Hk]]. rewrite drop_rd by (by rewrite Hr).
    rewrite Hr, Hk. by exists k.
Qed.

Lemma flag_false flags mask : flag flags mask = false <-> Z.land flags mask = 0.
Proof.
  unfold flag. rewrite negb_false_iff. apply Z.eqb_eq.
Qed.

Section Literal.
Variable H : fnmatch_env.
Variable rec : list Z -> nat -> option Z.
Variables (string : list Z) (stringstart : nat) (flags : Z).
Hypothesis Hcase : flag flags (FNM_CASEFOLD H) = false.

Lemma normal_mismatch_plain c s :
  normal_mismatch H c string s flags = negb (c =? rd string s).
Proof. unfold normal_mismatch. rewrite Hcase. simpl. by rewrite andb_true_r. Qed.

(** One ordinary character of the pattern. *)
Lemma loop_literal c rest fuel s : literal c ->
  fnmatch_loop H rec (S fuel) (c :: rest) string s stringstart flags
  = if c =? rd string s
    then fnmatch_loop H rec fuel rest string (S s) stringstart flags
    else Some (FNM_NOMATCH H).
Proof.
  intros (H0 & H1 & H2 & H3 & H4).
  cbn [fnmatch_loop hd tl].
  apply Z.eqb_neq in H0, H1, H2, H3, H4.
  rewrite H0, H1, H2, H3, H4, normal_mismatch_plain.
  by destruct (c =? rd string s).
Qed.

(** A run of ordinary characters is compared with the string cell by
    cell. *)
Lemma loop_literal_run lit : forall rest fuel s,
  Forall literal lit -> (length lit <= fuel)%nat ->
  fnmatch_loop H rec fuel (lit ++ rest) string s stringstart flags
  = if bool_decide (lit `prefix_of` drop s string)
    then fnmatch_loop H rec (fuel - length lit) rest string (s + length lit)
                      stringstart flags
    else Some (FNM_NOMATCH H).
Proof.
  induction lit as [|c lit IH]; intros rest fuel s Hlit Hfuel.
  - cbn [app length]. rewrite bool_decide_eq_true_2 by apply prefix_nil.
    by rewrite Nat.sub_0_r, Nat.add_0_r.
  - apply Forall_cons in Hlit as [Hc Hlit]. simpl in Hfuel.
    destruct fuel as [|fuel]; [lia|].
    simpl app. rewrite loop_literal by done.
    assert (Hc0 : c <> NUL) by apply Hc.
    destruct (c =? rd string s) eqn:E.
    + apply Z.eqb_eq in E. rewrite IH by (done || lia).
      replace (S fuel - length (c :: lit))%nat with (fuel - length lit)%nat by (simpl; lia).
      replace (s + length (c :: lit))%nat with (S s + length lit)%nat by (simpl; lia).
      destruct (bool_decide (lit `prefix_of` drop (S s) string)) eqn:Eb.
      * apply bool_decide_eq_true in Eb. rewrite bool_decide_eq_true_2; [done|].
        by apply prefix_cons_rd.
      * apply bool_decide_eq_false in Eb. rewrite bool_decide_eq_false_2; [done|].
        intros Hp. apply prefix_cons_rd in Hp as [_ Hp]; done.
    + apply Z.eqb_neq in E. rewrite bool_decide_eq_false_2; [done|].
      intros Hp. apply prefix_cons_rd in Hp as [Hp _]; done.
Qed.

(** The end of the pattern. *)
Lemma loop_end T fuel s :
  fnmatch_loop H rec (S fuel) (EOS :: T) string s stringstart flags
  = if flag flags (FNM_LEADING_DIR H) && (rd string s =? SLASH) then Some 0
    else Some (if rd string s =? EOS then 0 else FNM_NOMATCH H).
Proof. done. Qed.

End Literal.

(** The cells of a C string. *)
Lemma rd_str_end (str T : list Z) : rd (str ++ EOS :: T) (length str) = EOS.
Proof. rewrite rd_app_len. done. Qed.

Lemma prefix_whole (lit str T : list Z) :
  EOS ∉ lit -> EOS ∉ str ->
  (lit `prefix_of` str ++ EOS :: T /\ rd (str ++ EOS :: T) (length lit) = EOS)
  <-> str = lit.
Proof.
  intros Hl Hs. split.
  - intros [[k Hk] Hr].
    assert (Hlen : length lit = length str).
    { destruct (Nat.lt_trichotomy (length lit) (length str)) as [Hlt|[Heq|Hgt]]; [|done|].
      - exfalso. rewrite rd_app_l in Hr by done.
        apply Hs. unfold rd in Hr.
        destruct (str !! length lit) eqn:E; [|apply lookup_ge_None in E; lia].
        simpl in Hr. subst. by apply list_elem_of_lookup_2 in E.
      - exfalso. apply Hl.
        assert (E : (lit ++ k) !! length str = Some EOS).
        { rewrite <- Hk. by rewrite list_lookup_middle. }
        rewrite lookup_app_l in E by done.
        by apply list_elem_of_lookup_2 in E. }
    apply (f_equal (take (length str))) in Hk.
    rewrite take_app_length in Hk. rewrite <- Hlen, take_app_length in Hk. done.
  - intros ->. split; [by eexists|apply rd_str_end].
Qed.


(** Ordinary text that ends the pattern, tried at position [s] of the
    string. *)
Lemma loop_literal_whole (H : fnmatch_env) rec fuel (lit str T T' : list Z)
    (s stringstart : nat) (flags : Z) :
  Forall literal lit -> EOS ∉ str -> (s <= length str)%nat ->
  (length lit < fuel)%nat ->
  flag flags (FNM_CASEFOLD H) = false ->
  flag flags (FNM_LEADING_DIR H) = false ->
  fnmatch_loop H rec fuel (lit ++ EOS :: T) (str ++ EOS :: T') s stringstart flags
  = Some (if bool_decide (drop s str = lit) then 0 else FNM_NOMATCH H).
Proof.
  intros Hlit Hstr Hs Hfuel Hcase Hdir.
  rewrite loop_literal_run by (done || lia).
  assert (Hl0 : EOS ∉ lit).
  { intros Hin. rewrite Forall_forall in Hlit. by destruct (Hlit _ Hin). }
  destruct (fuel - length lit)%nat as [|fuel'] eqn:Ef; [lia|].
  rewrite loop_end, Hdir. cbn [andb].
  rewrite drop_app_le by done.
  assert (Hd : EOS ∉ drop s str).
  { intros Hin. apply Hstr. by apply (subseteq_drop s). }
  assert (Hrd : rd (str ++ EOS :: T') (s + length lit) = rd (drop s str ++ EOS :: T') (length lit)).
  { rewrite <- rd_drop. by rewrite drop_app_le. }
  rewrite Hrd.
  destruct (bool_decide (lit `prefix_of` drop s str ++ EOS :: T')) eqn:Ep.
  - apply bool_decide_eq_true in Ep.
    destruct (rd (drop s str ++ EOS :: T') (length lit) =? EOS) eqn:Er.
    + apply Z.eqb_eq in Er. rewrite bool_decide_eq_true_2; [done|].
      by apply (prefix_whole lit _ T').
    + apply Z.eqb_neq in Er. rewrite bool_decide_eq_false_2; [done|].
      intros E. rewrite E in Er. by rewrite rd_str_end in Er.
  - apply bool_decide_eq_false in Ep. rewrite bool_decide_eq_false_2; [done|].
    intros E. apply Ep. rewrite E. by eexists.
Qed.

(** The same as a call of its own. *)
Lemma literal_at (H : fnmatch_env) recurs (lit str T T' : list Z) (s : nat) (flags : Z) :
  Forall literal lit -> EOS ∉ str -> (s <= length str)%nat ->
  flag flags (FNM_CASEFOLD H) = false ->
  flag flags (FNM_LEADING_DIR H) = false ->
  p_fnmatchx H (S recurs) (lit ++ EOS :: T) (str ++ EOS :: T') s flags
  = Some (if bool_decide (drop s str = lit) then 0 else FNM_NOMATCH H).
Proof.
  intros Hlit Hstr Hs Hcase Hdir.
  rewrite p_fnmatchx_S.
  apply loop_literal_whole; try done. rewrite length_app. simpl. lia.
Qed.

(** X3. Ordinary text matches itself and nothing else: for a pattern
    without [?], [*], [[] and backslash, compared with case and without
    FNM_LEADING_DIR, the result is 0 when the string equals the pattern
    and [FNM_NOMATCH] otherwise. *)
Theorem fnmatch_literal (H : fnmatch_env) (lit str T T' : list Z) (flags : Z) :
  Forall literal lit -> EOS ∉ str ->
  flag flags (FNM_CASEFOLD H) = false ->
  flag flags (FNM_LEADING_DIR H) = false ->
  p_fnmatch H (lit ++ EOS :: T) (str ++ EOS :: T') flags
  = Some (if bool_decide (str = lit) then 0 else FNM_NOMATCH H).
Proof.
  intros Hlit Hstr Hcase Hdir. unfold p_fnmatch.
  rewrite literal_at by (done || lia). by rewrite drop_0.
Qed.

Lemma prefix_str (lit str T : list Z) : EOS ∉ lit ->
  lit `prefix_of` str ++ EOS :: T <-> lit `prefix_of` str.
Proof.
  intros Hl. split.
  - intros [k Hk].
    destruct (decide (length lit <= length str)%nat) as [Hle|Hgt].
    + exists (take (length str - length lit) k).
      apply (f_equal (take (length str))) in Hk.
      rewrite take_app_length, take_app, take_ge in Hk by lia. done.
    + exfalso. apply Hl.
      assert (E : (lit ++ k) !! length str = Some EOS).
      { rewrite <- Hk. by rewrite list_lookup_middle. }
      rewrite lookup_app_l in E by lia.
      by apply list_elem_of_lookup_2 in E.
  - intros Hp. by apply prefix_app_r.
Qed.

Lemma rd_str_in (str T : list Z) s : EOS ∉ str -> (s < length str)%nat ->
  rd (str ++ EOS :: T) s <> EOS.
Proof.
  intros Hs Hlt. rewrite rd_app_l by done. unfold rd.
  destruct (str !! s) eqn:E; [|apply lookup_ge_None in E; lia].
  simpl. intros ->. by apply list_elem_of_lookup_2 in E.
Qed.

Lemma rd_str_eos (str T : list Z) s : EOS ∉ str -> (s <= length str)%nat ->
  rd (str ++ EOS :: T) s = EOS <-> s = length str.
Proof.
  intros Hs Hle. split.
  - intros Hr. destruct (decide (s = length str)); [done|].
    exfalso. by apply (rd_str_in str T s); [|lia|].
  - intros ->. apply rd_str_end.
Qed.

(** ** Flags after a mask is cleared *)

Lemma flag_clear_same flags mask : flag (Z.land flags (Z.lnot mask)) mask = false.
Proof.
  apply flag_false. rewrite <- Z.land_assoc, (Z.land_comm (Z.lnot mask)).
  by rewrite Z.land_lnot_diag, Z.land_0_r.
Qed.

Lemma flag_clear_off flags mask mask' :
  flag flags mask' = false -> flag (Z.land flags (Z.lnot mask)) mask' = false.
Proof.
  rewrite !flag_false. intros Hf.
  by rewrite <- Z.land_assoc, (Z.land_comm (Z.lnot mask)), Z.land_assoc, Hf.
Qed.

Lemma flag_clear_other flags mask mask' :
  Z.land mask mask' = 0 -> flag (Z.land flags (Z.lnot mask)) mask' = flag flags mask'.
Proof.
  intros Hm. unfold flag. f_equal. f_equal.
  rewrite <- Z.land_assoc. f_equal.
  apply Z.bits_inj'. intros n Hn.
  rewrite Z.land_spec, Z.lnot_spec by done.
  assert (Hb : Z.testbit (Z.land mask mask') n = false) by (rewrite Hm; apply Z.bits_0).
  rewrite Z.land_spec in Hb.
  destruct (Z.testbit mask n), (Z.testbit mask' n); done.
Qed.

Section Wildcards.
Variable H : fnmatch_env.
Variable rec : list Z -> nat -> option Z.
Variables (str T' : list Z) (stringstart : nat) (flags : Z).
Hypothesis Hstr : EOS ∉ str.
Local Abbreviation string := (str ++ EOS :: T').

Lemma leading_period_off s f :
  flag f (FNM_PERIOD H) = false -> leading_period H string s stringstart f = false.
Proof. intros Hp. unfold leading_period. rewrite Hp. by rewrite andb_false_r. Qed.

(** A run of question marks takes as many characters, whatever they
    are. *)
Lemma loop_qmark_run n : forall rest fuel s,
  flag flags (FNM_PATHNAME H) = false -> flag flags (FNM_PERIOD H) = false ->
  (n <= fuel)%nat -> (s <= length str)%nat ->
  fnmatch_loop H rec fuel (replicate n QMARK ++ rest) string s stringstart flags
  = if bool_decide (s + n <= length str)%nat
    then fnmatch_loop H rec (fuel - n) rest string (s + n) stringstart flags
    else Some (FNM_NOMATCH H).
Proof.
  induction n as [|n IH]; intros rest fuel s Hpath Hper Hfuel Hs.
  - cbn [replicate app]. rewrite bool_decide_eq_true_2 by lia.
    by rewrite Nat.sub_0_r, Nat.add_0_r.
  - destruct fuel as [|fuel]; [lia|].
    cbn [replicate app fnmatch_loop hd tl].
    replace (QMARK =? EOS) with false by done.
    replace (QMARK =? QMARK) with true by done.
    rewrite Hpath, andb_false_r, leading_period_off by done.
    destruct (rd string s =? EOS) eqn:E.
    + apply Z.eqb_eq in E. apply rd_str_eos in E; [|done|done].
      rewrite bool_decide_eq_false_2; [done|lia].
    + apply Z.eqb_neq in E.
      assert (s <> length str) by (intros ->; by rewrite rd_str_end in E).
      rewrite IH by (done || lia).
      replace (S fuel - S n)%nat with (fuel - n)%nat by lia.
      replace (s + S n)%nat with (S s + n)%nat by lia.
      destruct (bool_decide (S s + n <= length str)%nat); done.
Qed.

End Wildcards.

(** X4. [?] stands for exactly one character: without FNM_PATHNAME,
    FNM_PERIOD and FNM_LEADING_DIR a pattern of [n] question marks
    matches the strings of length [n] and no other. *)
Theorem fnmatch_question_marks (H : fnmatch_env) (n : nat) (str T T' : list Z) (flags : Z) :
  EOS ∉ str ->
  flag flags (FNM_PATHNAME H) = false ->
  flag flags (FNM_PERIOD H) = false ->
  flag flags (FNM_LEADING_DIR H) = false ->
  p_fnmatch H (replicate n QMARK ++ EOS :: T) (str ++ EOS :: T') flags
  = Some (if bool_decide (length str = n) then 0 else FNM_NOMATCH H).
Proof.
  intros Hstr Hpath Hper Hdir.
  unfold p_fnmatch. rewrite p_fnmatchx_S.
  rewrite loop_qmark_run by (done || rewrite ?length_app, ?length_replicate; simpl; lia).
  rewrite length_app, length_replicate. cbn [length Nat.add].
  replace (S (n + S (length T)) - n)%nat with (S (S (length T))) by lia.
  rewrite loop_end, Hdir. cbn [andb].
  destruct (bool_decide (n <= length str)%nat) eqn:E.
  - apply bool_decide_eq_true in E.
    destruct (rd (str ++ EOS :: T') n =? EOS) eqn:Er.
    + apply Z.eqb_eq in Er. apply rd_str_eos in Er; [|done|done].
      by rewrite bool_decide_eq_true_2.
    + apply Z.eqb_neq in Er. rewrite bool_decide_eq_false_2; [done|].
      intros <-. by rewrite rd_str_end in Er.
  - apply bool_decide_eq_false in E. rewrite bool_decide_eq_false_2; [done|lia].
Qed.

(** * The matcher: stars *)

Lemma strchr_none (l T : list Z) (c : Z) : c <> EOS -> EOS ∉ l ->
  strchr (l ++ EOS :: T) c = None <-> c ∉ l.
Proof.
  intros Hc. induction l as [|x l IH]; intros Hl.
  - cbn [app strchr].
    replace (EOS =? c) with false by (symmetry; apply Z.eqb_neq; congruence).
    split; [intros _; apply not_elem_of_nil|intros _; reflexivity].
  - apply not_elem_of_cons in Hl as [Hx Hl]. cbn [app strchr].
    destruct (x =? c) eqn:E.
    + apply Z.eqb_eq in E. subst. split; [done|]. intros Hn. exfalso. apply Hn. left.
    + apply Z.eqb_neq in E.
      replace (x =? EOS) with false by (symmetry; apply Z.eqb_neq; done).
      rewrite not_elem_of_cons. specialize (IH Hl).
      destruct (strchr (l ++ EOS :: T) c); simpl.
      * split; [done|]. intros [_ Hn]. by apply IH in Hn.
      * split; [|done]. intros _. split; [congruence|by apply IH].
Qed.

Section Stars.
Variable H : fnmatch_env.
Variable rec : list Z -> nat -> option Z.
Variables (str T' : list Z) (stringstart : nat) (flags : Z).
Hypothesis Hstr : EOS ∉ str.
Local Abbreviation string := (str ++ EOS :: T').

(** A star that ends the pattern. *)
Lemma loop_star_end T fuel s : (s <= length str)%nat ->
  flag flags (FNM_PERIOD H) = false ->
  fnmatch_loop H rec (S fuel) (STAR :: EOS :: T) string s stringstart flags
  = Some (if flag flags (FNM_PATHNAME H) &&
             negb (flag flags (FNM_LEADING_DIR H)) &&
             bool_decide (SLASH ∈ drop s str)
          then FNM_NOMATCH H else 0).
Proof.
  intros Hs Hper. cbn [fnmatch_loop hd tl].
  replace (STAR =? EOS) with false by done.
  replace (STAR =? QMARK) with false by done.
  replace (STAR =? STAR) with true by done.
  replace (EOS =? STAR) with false by done.
  rewrite leading_period_off by done.
  replace (EOS =? EOS) with true by done.
  destruct (flag flags (FNM_PATHNAME H)); [|done].
  destruct (flag flags (FNM_LEADING_DIR H)); [done|]. cbn [orb andb negb].
  rewrite drop_app_le by done.
  assert (Hd : EOS ∉ drop s str).
  { intros Hin. apply Hstr. by apply (subseteq_drop s). }
  destruct (bool_decide (SLASH ∈ drop s str)) eqn:E.
  - apply bool_decide_eq_true in E. rewrite bool_decide_eq_false_2; [done|].
    rewrite strchr_none by done. by intros Hn.
  - apply bool_decide_eq_false in E. rewrite bool_decide_eq_true_2; [done|].
    by apply strchr_none.
Qed.

(** Two stars that end the pattern. *)
Lemma loop_starstar_end T fuel s :
  flag flags (FNM_PERIOD H) = false ->
  fnmatch_loop H rec (S fuel) (STAR :: STAR :: EOS :: T) string s stringstart flags
  = Some 0.
Proof.
  intros Hper. cbn [fnmatch_loop hd tl].
  replace (STAR =? EOS) with false by done.
  replace (STAR =? QMARK) with false by done.
  replace (STAR =? STAR) with true by done.
  cbn [skip_stars].
  replace (STAR =? STAR) with true by done.
  replace (EOS =? STAR) with false by done. cbn [hd tl].
  replace (EOS =? SLASH) with false by done.
  rewrite leading_period_off by (by apply flag_clear_off).
  replace (EOS =? EOS) with true by done.
  by rewrite flag_clear_same.
Qed.

End Stars.

(** X5. A star at the end of ordinary text makes a prefix test: without
    FNM_PATHNAME and FNM_PERIOD, compared with case, the pattern
    matches exactly the strings that begin with the text. *)
Theorem fnmatch_trailing_star (H : fnmatch_env) (lit str T T' : list Z) (flags : Z) :
  Forall literal lit -> EOS ∉ str ->
  flag flags (FNM_CASEFOLD H) = false ->
  flag flags (FNM_PERIOD H) = false ->
  flag flags (FNM_PATHNAME H) = false ->
  p_fnmatch H (lit ++ STAR :: EOS :: T) (str ++ EOS :: T') flags
  = Some (if bool_decide (lit `prefix_of` str) then 0 else FNM_NOMATCH H).
Proof.
  intros Hlit Hstr Hcase Hper Hpath.
  assert (Hl0 : EOS ∉ lit).
  { intros Hin. rewrite Forall_forall in Hlit. by destruct (Hlit _ Hin). }
  unfold p_fnmatch. rewrite p_fnmatchx_S.
  rewrite loop_literal_run by (done || rewrite length_app; simpl; lia).
  rewrite drop_0, length_app. cbn [length Nat.add].
  replace (S (length lit + S (S (length T))) - length lit)%nat
    with (S (S (S (length T)))) by lia.
  destruct (bool_decide (lit `prefix_of` str ++ EOS :: T')) eqn:Ep.
  - apply bool_decide_eq_true in Ep. apply prefix_str in Ep; [|done].
    rewrite bool_decide_eq_true_2 by done.
    rewrite loop_star_end by (done || by apply prefix_length).
    by rewrite Hpath.
  - apply bool_decide_eq_false in Ep. rewrite bool_decide_eq_false_2; [done|].
    intros Hp. apply Ep. by apply prefix_str.
Qed.

(** X6. With FNM_PATHNAME a star does not cross a slash: compared
    with case (FNM_CASEFOLD off), with FNM_PERIOD and FNM_LEADING_DIR
    off, ordinary text followed by a star matches exactly the strings
    that begin with the text and hold no slash behind it. *)
Theorem fnmatch_star_stops_at_slash (H : fnmatch_env) (lit str T T' : list Z) (flags : Z) :
  Forall literal lit -> EOS ∉ str ->
  flag flags (FNM_CASEFOLD H) = false ->
  flag flags (FNM_PERIOD H) = false ->
  flag flags (FNM_PATHNAME H) = true ->
  flag flags (FNM_LEADING_DIR H) = false ->
  p_fnmatch H (lit ++ STAR :: EOS :: T) (str ++ EOS :: T') flags
  = Some (if bool_decide (lit `prefix_of` str /\ SLASH ∉ drop (length lit) str)
          then 0 else FNM_NOMATCH H).
Proof.
  intros Hlit Hstr Hcase Hper Hpath Hdir.
  assert (Hl0 : EOS ∉ lit).
  { intros Hin. rewrite Forall_forall in Hlit. by destruct (Hlit _ Hin). }
  unfold p_fnmatch. rewrite p_fnmatchx_S.
  rewrite loop_literal_run by (done || rewrite length_app; simpl; lia).
  rewrite drop_0, length_app. cbn [length Nat.add].
  replace (S (length lit + S (S (length T))) - length lit)%nat
    with (S (S (S (length T)))) by lia.
  destruct (bool_decide (lit `prefix_of` str ++ EOS :: T')) eqn:Ep.
  - apply bool_decide_eq_true in Ep. apply prefix_str in Ep; [|done].
    rewrite loop_star_end by (done || by apply prefix_length).
    rewrite Hpath, Hdir. cbn [andb negb].
    destruct (bool_decide (SLASH ∈ drop (length lit) str)) eqn:Es.
    + apply bool_decide_eq_true in Es. rewrite bool_decide_eq_false_2; [done|].
      by intros [_ Hn].
    + apply bool_decide_eq_false in Es. by rewrite bool_decide_eq_true_2.
  - apply bool_decide_eq_false in Ep. rewrite bool_decide_eq_false_2; [done|].
    intros [Hp _]. apply Ep. by apply prefix_str.
Qed.

(** X7. Two stars cross slashes: compared with case (FNM_CASEFOLD
    off) and with FNM_PERIOD off, ordinary text followed by [**]
    matches exactly the strings that begin with the text, whether
    FNM_PATHNAME is set or not. *)
Theorem fnmatch_double_star (H : fnmatch_env) (lit str T T' : list Z) (flags : Z) :
  Forall literal lit -> EOS ∉ str ->
  flag flags (FNM_CASEFOLD H) = false ->
  flag flags (FNM_PERIOD H) = false ->
  p_fnmatch H (lit ++ STAR :: STAR :: EOS :: T) (str ++ EOS :: T') flags
  = Some (if bool_decide (lit `prefix_of` str) then 0 else FNM_NOMATCH H).
Proof.
  intros Hlit Hstr Hcase Hper.
  assert (Hl0 : EOS ∉ lit).
  { intros Hin. rewrite Forall_forall in Hlit. by destruct (Hlit _ Hin). }
  unfold p_fnmatch. rewrite p_fnmatchx_S.
  rewrite loop_literal_run by (done || rewrite length_app; simpl; lia).
  rewrite drop_0, length_app. cbn [length Nat.add].
  replace (S (length lit + S (S (S (length T)))) - length lit)%nat
    with (S (S (S (S (length T))))) by lia.
  destruct (bool_decide (lit `prefix_of` str ++ EOS :: T')) eqn:Ep.
  - apply bool_decide_eq_true in Ep. apply prefix_str in Ep; [|done].
    rewrite bool_decide_eq_true_2 by done.
    by rewrite loop_starstar_end.
  - apply bool_decide_eq_false in Ep. rewrite bool_decide_eq_false_2; [done|].
    intros Hp. apply Ep. by apply prefix_str.
Qed.

(** The scan behind a star when the rest of the pattern is ordinary
    text: the text is tried at each position of the string in turn. *)
Lemma star_loop_literal (H : fnmatch_env) (rec : list Z -> nat -> option Z)
    (pattern lit str T' : list Z) (flags : Z) :
  EOS ∉ str -> lit <> [] -> FNM_NOMATCH H <> 0 ->
  flag flags (FNM_PATHNAME H) = false ->
  (forall s, (s <= length str)%nat ->
     rec pattern s = Some (if bool_decide (drop s str = lit) then 0 else FNM_NOMATCH H)) ->
  forall k s, (s <= length str)%nat -> (length str <= s + k)%nat ->
  star_loop H rec pattern (str ++ EOS :: T') flags k s
  = Some (if bool_decide (lit `suffix_of` drop s str) then 0 else FNM_NOMATCH H).
Proof.
  intros Hstr Hlit Hnm Hpath Hrec.
  induction k as [|k IH]; intros s Hs Hk.
  - assert (s = length str) as -> by lia.
    cbn [star_loop]. rewrite rd_str_end. replace (EOS =? EOS) with true by done.
    rewrite drop_all, bool_decide_eq_false_2; [done|].
    intros Hsuf. apply suffix_nil_inv in Hsuf. done.
  - cbn [star_loop].
    destruct (rd (str ++ EOS :: T') s =? EOS) eqn:E.
    + apply Z.eqb_eq in E. apply rd_str_eos in E; [|done|done]. subst s.
      rewrite drop_all, bool_decide_eq_false_2; [done|].
      intros Hsuf. apply suffix_nil_inv in Hsuf. done.
    + apply Z.eqb_neq in E.
      assert (Hlt : (s < length str)%nat).
      { destruct (decide (s = length str)) as [->|]; [by rewrite rd_str_end in E|lia]. }
      rewrite Hrec by done.
      destruct (str !! s) as [x|] eqn:Ex; [|apply lookup_ge_None in Ex; lia].
      rewrite (drop_S _ _ _ Ex).
      destruct (bool_decide (x :: drop (S s) str = lit)) eqn:Eb.
      * apply bool_decide_eq_true in Eb.
        replace (0 =? FNM_NOMATCH H) with false by (symmetry; apply Z.eqb_neq; congruence).
        cbn [negb]. rewrite bool_decide_eq_true_2; [done|]. by rewrite Eb.
      * apply bool_decide_eq_false in Eb.
        rewrite Z.eqb_refl. cbn [negb]. rewrite Hpath, andb_false_r.
        rewrite IH by lia.
        destruct (bool_decide (lit `suffix_of` drop (S s) str)) eqn:Es.
        -- apply bool_decide_eq_true in Es. rewrite bool_decide_eq_true_2; [done|].
           by apply suffix_cons_r.
        -- apply bool_decide_eq_false in Es. rewrite bool_decide_eq_false_2; [done|].
           intros Hsuf. destruct lit as [|c lit]; [done|].
           apply suffix_cons_inv in Hsuf as [Heq|Hsuf]; [by symmetry in Heq|done].
Qed.

(** X8. A star in front of ordinary text makes a suffix test: without
    FNM_PATHNAME, FNM_PERIOD and FNM_LEADING_DIR, compared with case,
    the pattern matches exactly the strings that end with the text. *)
Theorem fnmatch_leading_star (H : fnmatch_env) (lit str T T' : list Z) (flags : Z) :
  Forall literal lit -> lit <> [] -> EOS ∉ str ->
  FNM_NOMATCH H <> 0 ->
  flag flags (FNM_CASEFOLD H) = false ->
  flag flags (FNM_PERIOD H) = false ->
  flag flags (FNM_PATHNAME H) = false ->
  flag flags (FNM_LEADING_DIR H) = false ->
  p_fnmatch H (STAR :: lit ++ EOS :: T) (str ++ EOS :: T') flags
  = Some (if bool_decide (lit `suffix_of` str) then 0 else FNM_NOMATCH H).
Proof.
  intros Hlit Hne Hstr Hnm Hcase Hper Hpath Hdir.
  destruct lit as [|c lit]; [done|].
  assert (Hc : literal c) by (by apply Forall_cons in Hlit as [? _]).
  destruct Hc as (Hc0 & Hc1 & Hc2 & Hc3 & Hc4).
  unfold p_fnmatch. rewrite p_fnmatchx_S. cbn [fnmatch_loop hd tl app].
  replace (STAR =? EOS) with false by done.
  replace (STAR =? QMARK) with false by done.
  replace (STAR =? STAR) with true by done.
  replace (c =? STAR) with false by (symmetry; by apply Z.eqb_neq).
  rewrite (leading_period_off H str T' 0 0 flags) by done.
  replace (c =? EOS) with false by (symmetry; by apply Z.eqb_neq).
  rewrite Hpath, andb_false_r.
  assert (Hrec : forall s, (s <= length str)%nat ->
            p_fnmatchx H 63 ((c :: lit) ++ EOS :: T) (str ++ EOS :: T') s
                       (Z.land flags (Z.lnot (FNM_PERIOD H)))
            = Some (if bool_decide (drop s str = c :: lit) then 0 else FNM_NOMATCH H)).
  { intros s Hs. apply literal_at; [done..| |]; by apply flag_clear_off. }
  rewrite (star_loop_literal H _ _ (c :: lit) str T' flags Hstr Hne Hnm Hpath Hrec)
    by (rewrite ?length_app; simpl; lia).
  by rewrite drop_0.
Qed.

(** * The matcher: bracket expressions and escapes *)

Section Brackets.
Variable H : fnmatch_env.
Variables (test flags : Z) (negate : bool) (rest : list Z).
Hypothesis Hcase : flag flags (FNM_CASEFOLD H) = false.
Hypothesis Hpath : flag flags (FNM_PATHNAME H) = false.

(** A list of single characters closed by a bracket: the loop looks for
    [test] among them. *)
Lemma range_loop_set xs : forall c ok fuel,
  c <> EOS -> c <> BSLASH -> Forall in_set xs ->
  (length xs < fuel)%nat ->
  range_loop H fuel (xs ++ RBRACKET :: rest) c test flags ok negate
  = Some (if eqb (ok || bool_decide (test ∈ c :: xs)) negate
          then RANGE_NOMATCH else RANGE_MATCH rest).
Proof.
  induction xs as [|x xs IH]; intros c ok fuel Hc0 Hc1 Hxs Hfuel.
  - destruct fuel as [|fuel]; [simpl in Hfuel; lia|].
    cbn [range_loop app hd tl].
    replace (c =? BSLASH) with false by (symmetry; by apply Z.eqb_neq).
    cbn [andb hd tl app].
    replace (c =? EOS) with false by (symmetry; by apply Z.eqb_neq).
    rewrite Hpath, Hcase, andb_false_r.
    replace (RBRACKET =? DASH) with false by done. cbn [andb].
    replace (RBRACKET =? RBRACKET) with true by done.
    do 2 f_equal. f_equal.
    destruct (c =? test) eqn:E.
    + apply Z.eqb_eq in E. subst. rewrite bool_decide_eq_true_2 by left.
      by rewrite orb_true_r.
    + apply Z.eqb_neq in E. rewrite bool_decide_eq_false_2; [by rewrite orb_false_r|].
      intros Hin. apply list_elem_of_singleton in Hin. congruence.
  - apply Forall_cons in Hxs as [(Hx0 & Hx1 & Hx2 & Hx3) Hxs].
    destruct fuel as [|fuel]; [simpl in Hfuel; lia|].
    cbn [range_loop app hd tl].
    replace (c =? BSLASH) with false by (symmetry; by apply Z.eqb_neq).
    cbn [andb hd tl app].
    replace (c =? EOS) with false by (symmetry; by apply Z.eqb_neq).
    rewrite Hpath, Hcase, andb_false_r.
    replace (x =? DASH) with false by (symmetry; by apply Z.eqb_neq). cbn [andb].
    replace (x =? RBRACKET) with false by (symmetry; by apply Z.eqb_neq).
    rewrite IH by (done || simpl in Hfuel; lia).
    do 2 f_equal. f_equal.
    destruct (c =? test) eqn:E.
    + apply Z.eqb_eq in E. subst. rewrite (bool_decide_eq_true_2 (test ∈ test :: x :: xs)) by left.
      by rewrite orb_true_r.
    + apply Z.eqb_neq in E.
      destruct (bool_decide (test ∈ x :: xs)) eqn:Eb.
      * apply bool_decide_eq_true in Eb. rewrite bool_decide_eq_true_2 by (by right). done.
      * apply bool_decide_eq_false in Eb. rewrite bool_decide_eq_false_2; [done|].
        intros Hin. apply elem_of_cons in Hin as [?|?]; [congruence|done].
Qed.

End Brackets.

Section BracketMatch.
Variable H : fnmatch_env.
Variables (str T T' : list Z) (flags : Z).
Hypothesis Hstr : EOS ∉ str.
Hypothesis Hcase : flag flags (FNM_CASEFOLD H) = false.
Hypothesis Hpath : flag flags (FNM_PATHNAME H) = false.
Hypothesis Hper : flag flags (FNM_PERIOD H) = false.
Hypothesis Hdir : flag flags (FNM_LEADING_DIR H) = false.

(** A bracket expression that ends the pattern, for a [rangematch]
    that says whether the character is taken. *)
Lemma loop_bracket_end rec body (taken : Z -> bool) fuel :
  (forall t, rangematch H body t flags
             = Some (if taken t then RANGE_MATCH (EOS :: T) else RANGE_NOMATCH)) ->
  fnmatch_loop H rec (S (S fuel)) (LBRACKET :: body) (str ++ EOS :: T') 0 0 flags
  = Some (match str with
          | [t] => if taken t then 0 else FNM_NOMATCH H
          | _ => FNM_NOMATCH H
          end).
Proof.
  intros Hrange. cbn [fnmatch_loop hd tl].
  replace (LBRACKET =? EOS) with false by done.
  replace (LBRACKET =? QMARK) with false by done.
  replace (LBRACKET =? STAR) with false by done.
  replace (LBRACKET =? LBRACKET) with true by done.
  rewrite Hpath, andb_false_r, leading_period_off by done.
  destruct str as [|t str'].
  - cbn [app]. by replace (rd (EOS :: T') 0 =? EOS) with true by done.
  - apply not_elem_of_cons in Hstr as [Ht Hstr'].
    replace (rd ((t :: str') ++ EOS :: T') 0) with t by done.
    replace (t =? EOS) with false by (symmetry; apply Z.eqb_neq; congruence).
    rewrite Hrange. destruct (taken t); [|by destruct str'].
    rewrite Hdir. cbn [andb].
    replace (EOS =? EOS) with true by done.
    destruct str' as [|u str'']; [done|].
    apply not_elem_of_cons in Hstr' as [Hu _].
    replace (rd ((t :: u :: str'') ++ EOS :: T') 1) with u by done.
    by replace (u =? EOS) with false by (symmetry; apply Z.eqb_neq; congruence).
Qed.

End BracketMatch.

(** X9. A bracket expression takes one character out of its list.
    With FNM_CASEFOLD, FNM_PATHNAME, FNM_PERIOD and FNM_LEADING_DIR
    off, [[x...]] matches exactly the one-character strings whose
    character is listed, when [x] is not [!], [^], a backslash or the
    terminator and the rest of the list holds no backslash, right
    bracket, dash or terminator; a right bracket that comes first in
    the list is a member like any other. *)
Theorem fnmatch_bracket_set (H : fnmatch_env) (x : Z) (xs str T T' : list Z) (flags : Z) :
  x <> EOS -> x <> BSLASH -> x <> BANG -> x <> CARET ->
  Forall in_set xs -> EOS ∉ str ->
  flag flags (FNM_CASEFOLD H) = false ->
  flag flags (FNM_PATHNAME H) = false ->
  flag flags (FNM_PERIOD H) = false ->
  flag flags (FNM_LEADING_DIR H) = false ->
  p_fnmatch H (LBRACKET :: x :: xs ++ RBRACKET :: EOS :: T) (str ++ EOS :: T') flags
  = Some (match str with
          | [t] => if bool_decide (t ∈ x :: xs) then 0 else FNM_NOMATCH H
          | _ => FNM_NOMATCH H
          end).
Proof.
  intros Hx0 Hx1 Hx2 Hx3 Hxs Hstr Hcase Hpath Hper Hdir.
  unfold p_fnmatch. rewrite p_fnmatchx_S. cbn [length].
  apply (loop_bracket_end H str T T' flags Hstr Hpath Hper Hdir _ _
           (fun t => bool_decide (t ∈ x :: xs))).
  intros t. unfold rangematch. cbn [hd tl].
  replace (x =? BANG) with false by (symmetry; by apply Z.eqb_neq).
  replace (x =? CARET) with false by (symmetry; by apply Z.eqb_neq).
  cbn [orb hd tl]. rewrite Hcase.
  rewrite range_loop_set by (done || simpl; rewrite length_app; simpl; lia).
  cbn [orb]. by destruct (bool_decide (t ∈ x :: xs)).
Qed.

(** X10. A list that begins with [!] or [^] is negated. With
    FNM_CASEFOLD, FNM_PATHNAME, FNM_PERIOD and FNM_LEADING_DIR off,
    [[!x...]] and [[^x...]] match exactly the one-character strings
    whose character is not listed, when [x] is not a backslash or the
    terminator and the rest of the list holds no backslash, right
    bracket, dash or terminator. *)
Theorem fnmatch_bracket_negated (H : fnmatch_env) (n x : Z) (xs str T T' : list Z) (flags : Z) :
  n = BANG \/ n = CARET ->
  x <> EOS -> x <> BSLASH ->
  Forall in_set xs -> EOS ∉ str ->
  flag flags (FNM_CASEFOLD H) = false ->
  flag flags (FNM_PATHNAME H) = false ->
  flag flags (FNM_PERIOD H) = false ->
  flag flags (FNM_LEADING_DIR H) = false ->
  p_fnmatch H (LBRACKET :: n :: x :: xs ++ RBRACKET :: EOS :: T) (str ++ EOS :: T') flags
  = Some (match str with
          | [t] => if bool_decide (t ∈ x :: xs) then FNM_NOMATCH H else 0
          | _ => FNM_NOMATCH H
          end).
Proof.
  intros Hn Hx0 Hx1 Hxs Hstr Hcase Hpath Hper Hdir.
  unfold p_fnmatch. rewrite p_fnmatchx_S. cbn [length].
  rewrite (loop_bracket_end H str T T' flags Hstr Hpath Hper Hdir _ _
           (fun t => negb (bool_decide (t ∈ x :: xs)))).
  - destruct str as [|t [|u str]]; try done. by destruct (bool_decide (t ∈ x :: xs)).
  - intros t. unfold rangematch. cbn [hd tl].
    replace ((n =? BANG) || (n =? CARET)) with true by (by destruct Hn as [-> | ->]).
    cbn [hd tl]. rewrite Hcase.
    rewrite range_loop_set by (done || simpl; rewrite length_app; simpl; lia).
    cbn [orb]. by destruct (bool_decide (t ∈ x :: xs)).
Qed.

(** X11. A range in a bracket expression is a test on character
    codes. With FNM_CASEFOLD, FNM_PATHNAME, FNM_PERIOD and
    FNM_LEADING_DIR off, for characters that are values of a signed
    [char], [[lo-hi]] matches exactly the one-character strings whose
    character lies between the two ends, both included, when [lo] is
    not [!], [^], a backslash or the terminator and [hi] is not a
    backslash, a right bracket or the terminator. *)
Theorem fnmatch_bracket_range (H : fnmatch_env) (lo hi : Z) (str T T' : list Z) (flags : Z) :
  is_char lo -> is_char hi -> Forall is_char str ->
  lo <> EOS -> lo <> BSLASH -> lo <> BANG -> lo <> CARET ->
  hi <> EOS -> hi <> BSLASH -> hi <> RBRACKET ->
  EOS ∉ str ->
  flag flags (FNM_CASEFOLD H) = false ->
  flag flags (FNM_PATHNAME H) = false ->
  flag flags (FNM_PERIOD H) = false ->
  flag flags (FNM_LEADING_DIR H) = false ->
  p_fnmatch H (LBRACKET :: lo :: DASH :: hi :: RBRACKET :: EOS :: T) (str ++ EOS :: T') flags
  = Some (match str with
          | [t] => if (lo <=? t) && (t <=? hi) then 0 else FNM_NOMATCH H
          | _ => FNM_NOMATCH H
          end).
Proof.
  intros _ _ _ Hl0 Hl1 Hl2 Hl3 Hh0 Hh1 Hh2 Hstr Hcase Hpath Hper Hdir.
  unfold p_fnmatch. rewrite p_fnmatchx_S. cbn [length].
  apply (loop_bracket_end H str T T' flags Hstr Hpath Hper Hdir _ _
           (fun t => (lo <=? t) && (t <=? hi))).
  intros t. unfold rangematch. cbn [hd tl].
  replace (lo =? BANG) with false by (symmetry; by apply Z.eqb_neq).
  replace (lo =? CARET) with false by (symmetry; by apply Z.eqb_neq).
  cbn [orb length range_loop hd tl]. rewrite Hcase.
  replace (lo =? BSLASH) with false by (symmetry; by apply Z.eqb_neq).
  cbn [andb hd tl].
  replace (lo =? EOS) with false by (symmetry; by apply Z.eqb_neq).
  rewrite Hpath, andb_false_r.
  replace (DASH =? DASH) with true by done.
  replace (hi =? EOS) with false by (symmetry; by apply Z.eqb_neq).
  replace (hi =? RBRACKET) with false by (symmetry; by apply Z.eqb_neq).
  replace (hi =? BSLASH) with false by (symmetry; by apply Z.eqb_neq).
  cbn [andb negb hd tl].
  replace (hi =? EOS) with false by (symmetry; by apply Z.eqb_neq).
  replace (RBRACKET =? RBRACKET) with true by done.
  by destruct ((lo <=? t) && (t <=? hi)).
Qed.

(** * The matcher: escapes, broken brackets, periods, case *)

Section Escapes.
Variable H : fnmatch_env.
Variable rec : list Z -> nat -> option Z.
Variables (string : list Z) (stringstart : nat) (flags : Z).
Hypothesis Hcase : flag flags (FNM_CASEFOLD H) = false.
Hypothesis Hesc : flag flags (FNM_NOESCAPE H) = false.

(** A run of escaped characters is compared with the string cell by
    cell, whatever the characters are. *)
Lemma loop_escaped_run cs : forall rest fuel s,
  EOS ∉ cs -> (length cs <= fuel)%nat ->
  fnmatch_loop H rec fuel (escaped cs ++ rest) string s stringstart flags
  = if bool_decide (cs `prefix_of` drop s string)
    then fnmatch_loop H rec (fuel - length cs) rest string (s + length cs)
                      stringstart flags
    else Some (FNM_NOMATCH H).
Proof.
  induction cs as [|c cs IH]; intros rest fuel s Hcs Hfuel.
  - cbn [escaped mbind list_bind app length].
    rewrite bool_decide_eq_true_2 by apply prefix_nil.
    by rewrite Nat.sub_0_r, Nat.add_0_r.
  - apply not_elem_of_cons in Hcs as [Hc Hcs]. simpl in Hfuel.
    assert (Hc' : c <> NUL) by (intros ->; by apply Hc).
    destruct fuel as [|fuel]; [lia|].
    change (escaped (c :: cs) ++ rest) with (BSLASH :: c :: escaped cs ++ rest).
    cbn [fnmatch_loop hd tl].
    replace (BSLASH =? EOS) with false by done.
    replace (BSLASH =? QMARK) with false by done.
    replace (BSLASH =? STAR) with false by done.
    replace (BSLASH =? LBRACKET) with false by done.
    replace (BSLASH =? BSLASH) with true by done.
    rewrite Hesc. cbn [negb].
    replace (c =? EOS) with false by (symmetry; apply Z.eqb_neq; congruence).
    rewrite normal_mismatch_plain by done.
    destruct (c =? rd string s) eqn:E; cbn [negb].
    + apply Z.eqb_eq in E. rewrite IH by (done || lia).
      replace (S fuel - length (c :: cs))%nat with (fuel - length cs)%nat by (simpl; lia).
      replace (s + length (c :: cs))%nat with (S s + length cs)%nat by (simpl; lia).
      destruct (bool_decide (cs `prefix_of` drop (S s) string)) eqn:Eb.
      * apply bool_decide_eq_true in Eb. rewrite bool_decide_eq_true_2; [done|].
        by apply prefix_cons_rd.
      * apply bool_decide_eq_false in Eb. rewrite bool_decide_eq_false_2; [done|].
        intros Hp. apply prefix_cons_rd in Hp as [_ Hp]; done.
    + apply Z.eqb_neq in E. rewrite bool_decide_eq_false_2; [done|].
      intros Hp. apply prefix_cons_rd in Hp as [Hp _]; done.
Qed.

End Escapes.

Lemma escaped_length cs : length (escaped cs) = (2 * length cs)%nat.
Proof.
  induction cs as [|c cs IH]; [done|].
  change (escaped (c :: cs)) with (BSLASH :: c :: escaped cs). simpl. lia.
Qed.

(** X12. A backslash makes the next character ordinary: with
    FNM_NOESCAPE, FNM_CASEFOLD and FNM_LEADING_DIR off, a pattern in
    which every character follows a backslash matches the string of
    those characters and nothing else, special characters included. *)
Theorem fnmatch_escaped (H : fnmatch_env) (cs str T T' : list Z) (flags : Z) :
  EOS ∉ cs -> EOS ∉ str ->
  flag flags (FNM_NOESCAPE H) = false ->
  flag flags (FNM_CASEFOLD H) = false ->
  flag flags (FNM_LEADING_DIR H) = false ->
  p_fnmatch H (escaped cs ++ EOS :: T) (str ++ EOS :: T') flags
  = Some (if bool_decide (str = cs) then 0 else FNM_NOMATCH H).
Proof.
  intros Hcs Hstr Hesc Hcase Hdir.
  unfold p_fnmatch. rewrite p_fnmatchx_S.
  rewrite loop_escaped_run by (done || rewrite length_app, escaped_length; simpl; lia).
  rewrite drop_0, length_app, escaped_length. cbn [length Nat.add].
  replace (S (2 * length cs + S (length T)) - length cs)%nat
    with (S (length cs + S (length T))) by lia.
  rewrite loop_end, Hdir. cbn [andb].
  destruct (bool_decide (cs `prefix_of` str ++ EOS :: T')) eqn:Ep.
  - apply bool_decide_eq_true in Ep.
    destruct (rd (str ++ EOS :: T') (length cs) =? EOS) eqn:Er.
    + apply Z.eqb_eq in Er. rewrite bool_decide_eq_true_2; [done|].
      by apply (prefix_whole cs str T').
    + apply Z.eqb_neq in Er. rewrite bool_decide_eq_false_2; [done|].
      intros ->. by rewrite rd_str_end in Er.
  - apply bool_decide_eq_false in Ep. rewrite bool_decide_eq_false_2; [done|].
    intros ->. apply Ep. by eexists.
Qed.

(** ** A bracket that is never closed *)

Lemma str_of_cons (a : Z) (p : list Z) : a <> EOS -> str_of (a :: p) = a :: str_of p.
Proof.
  intros Ha. unfold str_of. cbn [wcslen].
  replace (a =? NUL) with false by (symmetry; by apply Z.eqb_neq). done.
Qed.

Lemma in_str_tl (x : Z) (p : list Z) :
  hd EOS p <> EOS -> x ∈ str_of (tl p) -> x ∈ str_of p.
Proof.
  destruct p as [|a p]; [done|]. cbn [hd tl]. intros Ha Hx.
  rewrite str_of_cons by done. by right.
Qed.

Lemma in_str_hd (x : Z) (p : list Z) : hd EOS p = x -> x <> EOS -> x ∈ str_of p.
Proof.
  destruct p as [|a p]; cbn [hd]; [congruence|]. intros -> Hx.
  rewrite str_of_cons by done. left.
Qed.

Section Unterminated.
Variable H : fnmatch_env.
Variable flags : Z.
Hypothesis Hpath : flag flags (FNM_PATHNAME H) = false.

(** The loop gives a verdict only at a closing bracket of the
    pattern. *)
Lemma range_loop_verdict test negate fuel : forall pattern c ok r,
  range_loop H fuel pattern c test flags ok negate = Some r ->
  r <> RANGE_ERROR -> RBRACKET ∈ str_of pattern.
Proof.
  induction fuel as [|fuel IH]; intros pattern c ok r; [done|].
  cbn [range_loop].
  assert (Hend : forall q ok',
    (if hd EOS q =? RBRACKET
     then Some (if eqb ok' negate then RANGE_NOMATCH else RANGE_MATCH (tl q))
     else range_loop H fuel (tl q) (hd EOS q) test flags ok' negate) = Some r ->
    r <> RANGE_ERROR -> RBRACKET ∈ str_of q).
  { intros q ok' Hq Hr. destruct (hd EOS q =? RBRACKET) eqn:E.
    - apply Z.eqb_eq in E. by apply in_str_hd.
    - destruct (decide (hd EOS q = EOS)) as [E0|E0].
      + rewrite E0 in Hq. destruct fuel; [done|].
        cbn in Hq. congruence.
      + apply in_str_tl; [done|]. by apply (IH _ _ _ _ Hq). }
  destruct ((c =? BSLASH) && negb (flag flags (FNM_NOESCAPE H))).
  - destruct (hd EOS pattern =? EOS) eqn:E0; [congruence|].
    apply Z.eqb_neq in E0. rewrite Hpath, andb_false_r.
    intros Hr Hne. apply in_str_tl; [done|]. revert Hr Hne.
    generalize (tl pattern) as q. intros q.
    generalize (if flag flags (FNM_CASEFOLD H) then fold_char H (hd EOS pattern)
                else hd EOS pattern) as cc. intros cc.
    destruct ((hd EOS q =? DASH) && negb (hd EOS (tl q) =? EOS)
              && negb (hd EOS (tl q) =? RBRACKET)) eqn:Er.
    + apply andb_prop in Er as [Er _]. apply andb_prop in Er as [Hd Hc2].
      apply negb_true_iff in Hc2. apply Z.eqb_neq in Hc2. apply Z.eqb_eq in Hd.
      intros Hr Hne. apply in_str_tl; [by rewrite Hd|]. apply in_str_tl; [done|].
      revert Hr.
      destruct ((hd EOS (tl q) =? BSLASH) && negb (flag flags (FNM_NOESCAPE H))).
      * destruct (hd EOS (tl (tl q)) =? EOS) eqn:E2; [congruence|].
        apply Z.eqb_neq in E2. intros Hr. apply in_str_tl; [done|]. by apply Hend in Hr.
      * replace (hd EOS (tl q) =? EOS) with false by (symmetry; by apply Z.eqb_neq).
        intros Hr. by apply Hend in Hr.
    + intros Hr Hne. by apply Hend in Hr.
  - destruct (c =? EOS); [congruence|].
    rewrite Hpath, andb_false_r.
    generalize (if flag flags (FNM_CASEFOLD H) then fold_char H c else c) as cc. intros cc.
    destruct ((hd EOS pattern =? DASH) && negb (hd EOS (tl pattern) =? EOS)
              && negb (hd EOS (tl pattern) =? RBRACKET)) eqn:Er.
    + apply andb_prop in Er as [Er _]. apply andb_prop in Er as [Hd Hc2].
      apply negb_true_iff in Hc2. apply Z.eqb_neq in Hc2. apply Z.eqb_eq in Hd.
      intros Hr Hne. apply in_str_tl; [by rewrite Hd|]. apply in_str_tl; [done|].
      revert Hr.
      destruct ((hd EOS (tl pattern) =? BSLASH) && negb (flag flags (FNM_NOESCAPE H))).
      * destruct (hd EOS (tl (tl pattern)) =? EOS) eqn:E2; [congruence|].
        apply Z.eqb_neq in E2. intros Hr. apply in_str_tl; [done|]. by apply Hend in Hr.
      * replace (hd EOS (tl pattern) =? EOS) with false by (symmetry; by apply Z.eqb_neq).
        intros Hr. by apply Hend in Hr.
    + intros Hr Hne. by apply Hend in Hr.
Qed.

(** A bracket expression that no bracket closes is reported as not
    good. *)
Lemma rangematch_unterminated pattern test :
  RBRACKET ∉ str_of pattern ->
  rangematch H pattern test flags = Some RANGE_ERROR.
Proof.
  intros Hrb.
  destruct (rangematch_total H pattern test flags) as (r & Er & _).
  rewrite Er. f_equal.
  assert (Hdec : r = RANGE_ERROR \/ r <> RANGE_ERROR) by (destruct r; by eauto).
  destruct Hdec as [|Hne]; [done|].
  exfalso. apply Hrb. revert Er. unfold rangematch.
  set (ng := (hd EOS pattern =? BANG) || (hd EOS pattern =? CARET)).
  intros Er.
  assert (Hp : RBRACKET ∈ str_of (if ng then tl pattern else pattern)).
  { destruct (decide (hd EOS (if ng then tl pattern else pattern) = EOS)) as [E0|E0].
    - rewrite E0 in Er. simpl in Er. congruence.
    - apply in_str_tl; [done|]. by apply (range_loop_verdict _ _ _ _ _ _ _ Er). }
  destruct ng eqn:Eng; [|done].
  apply in_str_tl; [|done].
  unfold ng in Eng. apply orb_prop in Eng as [E|E]; apply Z.eqb_eq in E; by rewrite E.
Qed.

End Unterminated.


(** X13. A bracket that is never closed is an ordinary character: with
    no right bracket behind it, [[] followed by ordinary text matches
    that very string and nothing else. *)
Theorem fnmatch_open_bracket (H : fnmatch_env) (lit str T T' : list Z) (flags : Z) :
  Forall literal lit -> RBRACKET ∉ lit -> EOS ∉ str ->
  flag flags (FNM_CASEFOLD H) = false ->
  flag flags (FNM_PATHNAME H) = false ->
  flag flags (FNM_LEADING_DIR H) = false ->
  p_fnmatch H (LBRACKET :: lit ++ EOS :: T) (str ++ EOS :: T') flags
  = Some (if bool_decide (str = LBRACKET :: lit) then 0 else FNM_NOMATCH H).
Proof.
  intros Hlit Hrb Hstr Hcase Hpath Hdir.
  assert (Hl0 : EOS ∉ lit).
  { intros Hin. rewrite Forall_forall in Hlit. by destruct (Hlit _ Hin). }
  unfold p_fnmatch. rewrite p_fnmatchx_S.
  remember (length (LBRACKET :: lit ++ EOS :: T)) as fuel eqn:Ef.
  cbn [fnmatch_loop hd tl].
  replace (LBRACKET =? EOS) with false by done.
  replace (LBRACKET =? QMARK) with false by done.
  replace (LBRACKET =? STAR) with false by done.
  replace (LBRACKET =? LBRACKET) with true by done.
  rewrite Hpath, andb_false_r.
  destruct str as [|t str].
  { cbn [app]. replace (rd (EOS :: T') 0 =? EOS) with true by done.
    by rewrite bool_decide_eq_false_2. }
  apply not_elem_of_cons in Hstr as [Ht Hstr].
  replace (rd ((t :: str) ++ EOS :: T') 0) with t by done.
  replace (t =? EOS) with false by (symmetry; apply Z.eqb_neq; congruence).
  destruct (leading_period H ((t :: str) ++ EOS :: T') 0 0 flags) eqn:Elp.
  { unfold leading_period in Elp. apply andb_prop in Elp as [Elp _].
    apply andb_prop in Elp as [Elp _]. apply Z.eqb_eq in Elp.
    replace (rd ((t :: str) ++ EOS :: T') 0) with t in Elp by done.
    rewrite bool_decide_eq_false_2; [done|]. intros E. injection E as E _. by subst. }
  rewrite rangematch_unterminated; [|done|].
  2:{ by rewrite str_of_app_nul. }
  rewrite normal_mismatch_plain by done.
  replace (rd ((t :: str) ++ EOS :: T') 0) with t by done.
  destruct (LBRACKET =? t) eqn:E; cbn [negb].
  - apply Z.eqb_eq in E. subst t.
    rewrite (loop_literal_whole H _ _ lit (LBRACKET :: str) T T' 1 0 flags);
      [| done | by apply not_elem_of_cons | simpl; lia
       | subst fuel; simpl; rewrite length_app; simpl; lia | done | done].
    cbn [drop]. rewrite drop_0.
    destruct (bool_decide (str = lit)) eqn:Eb.
    + apply bool_decide_eq_true in Eb. rewrite bool_decide_eq_true_2; [done|].
      by rewrite Eb.
    + apply bool_decide_eq_false in Eb. rewrite bool_decide_eq_false_2; [done|].
      intros E. injection E as E. done.
  - apply Z.eqb_neq in E. rewrite bool_decide_eq_false_2; [done|].
    intros E'. injection E' as E' _. by subst.
Qed.

(** * The matcher: leading periods, directories, case *)

(** X14. With FNM_PERIOD a wildcard never takes a leading period: a
    pattern that begins with [?], [*] or [[] does not match a string
    that begins with a period. *)
Theorem fnmatch_leading_period (H : fnmatch_env) (pattern string : list Z) (flags : Z) :
  flag flags (FNM_PERIOD H) = true ->
  Z.land (FNM_PATHNAME H) (FNM_PERIOD H) = 0 ->
  rd string 0 = DOT ->
  hd EOS pattern = QMARK \/ hd EOS pattern = STAR \/ hd EOS pattern = LBRACKET ->
  p_fnmatch H pattern string flags = Some (FNM_NOMATCH H).
Proof.
  intros Hper Hind Hdot Hhd.
  assert (Hlp : forall f, flag f (FNM_PERIOD H) = true ->
                          leading_period H string 0 0 f = true).
  { intros f Hf. unfold leading_period. rewrite Hdot, Hf. done. }
  unfold p_fnmatch. rewrite p_fnmatchx_S.
  remember (length pattern) as fuel eqn:Ef. clear Ef.
  cbn [fnmatch_loop]. rewrite Hdot.
  replace (DOT =? EOS) with false by done.
  replace (DOT =? SLASH) with false by done. cbn [andb].
  destruct Hhd as [-> | [-> | ->]].
  - replace (QMARK =? EOS) with false by done.
    replace (QMARK =? QMARK) with true by done.
    by rewrite Hlp.
  - replace (STAR =? EOS) with false by done.
    replace (STAR =? QMARK) with false by done.
    replace (STAR =? STAR) with true by done.
    destruct (hd EOS (tl pattern) =? STAR).
    + destruct (hd EOS (skip_stars (tl pattern)) =? SLASH);
        rewrite Hlp; try done; by rewrite flag_clear_other.
    + by rewrite Hlp.
  - replace (LBRACKET =? EOS) with false by done.
    replace (LBRACKET =? QMARK) with false by done.
    replace (LBRACKET =? STAR) with false by done.
    replace (LBRACKET =? LBRACKET) with true by done.
    by rewrite Hlp.
Qed.

Lemma app_prefix_slash (lit str T' : list Z) :
  EOS ∉ lit -> EOS ∉ str -> lit `prefix_of` str ->
  rd (str ++ EOS :: T') (length lit) = SLASH <-> (lit ++ [SLASH]) `prefix_of` str.
Proof.
  intros Hl Hs [k ->]. rewrite <- app_assoc, rd_app_len. split.
  - destruct k as [|x k]; cbn [app hd]; [done|]. intros ->.
    exists k. by rewrite <- app_assoc.
  - intros [k' Hk]. rewrite <- app_assoc in Hk. apply app_inv_head in Hk.
    by rewrite Hk.
Qed.

(** X16. With FNM_LEADING_DIR a pattern also matches what lies below
    it: ordinary text matches the equal string and every string that
    continues it with a slash. *)
Theorem fnmatch_leading_dir (H : fnmatch_env) (lit str T T' : list Z) (flags : Z) :
  Forall literal lit -> EOS ∉ str ->
  flag flags (FNM_CASEFOLD H) = false ->
  flag flags (FNM_LEADING_DIR H) = true ->
  p_fnmatch H (lit ++ EOS :: T) (str ++ EOS :: T') flags
  = Some (if bool_decide (str = lit \/ (lit ++ [SLASH]) `prefix_of` str)
          then 0 else FNM_NOMATCH H).
Proof.
  intros Hlit Hstr Hcase Hdir.
  assert (Hl0 : EOS ∉ lit).
  { intros Hin. rewrite Forall_forall in Hlit. by destruct (Hlit _ Hin). }
  unfold p_fnmatch. rewrite p_fnmatchx_S.
  rewrite loop_literal_run by (done || rewrite length_app; simpl; lia).
  rewrite drop_0, length_app. cbn [length Nat.add].
  replace (S (length lit + S (length T)) - length lit)%nat with (S (S (length T))) by lia.
  rewrite loop_end, Hdir. cbn [andb].
  destruct (bool_decide (lit `prefix_of` str ++ EOS :: T')) eqn:Ep.
  - apply bool_decide_eq_true in Ep. apply prefix_str in Ep; [|done].
    destruct (rd (str ++ EOS :: T') (length lit) =? SLASH) eqn:Es.
    + apply Z.eqb_eq in Es. apply app_prefix_slash in Es; [|done..].
      rewrite bool_decide_eq_true_2; [done|by right].
    + apply Z.eqb_neq in Es.
      destruct (rd (str ++ EOS :: T') (length lit) =? EOS) eqn:Er.
      * apply Z.eqb_eq in Er. rewrite bool_decide_eq_true_2; [done|]. left.
        apply (prefix_whole lit str T'); [done..|]. split; [|done].
        by apply prefix_str.
      * apply Z.eqb_neq in Er. rewrite bool_decide_eq_false_2; [done|].
        intros [-> | Hp]; [by rewrite rd_str_end in Er|].
        apply Es. by apply app_prefix_slash.
  - apply bool_decide_eq_false in Ep. rewrite bool_decide_eq_false_2; [done|].
    intros [-> | Hp]; apply Ep.
    + by eexists.
    + apply prefix_str; [done|]. etrans; [|done]. by apply prefix_app_r.
Qed.


(** Ordinary text that ends the pattern, compared without case at
    position [s] of the string. *)
Lemma loop_casefold_literal (H : fnmatch_env) rec (str T T' : list Z)
    (stringstart : nat) (flags : Z) lit : forall fuel s,
  Forall literal lit ->
  Forall (fun c => ~ same_fold H c EOS) lit ->
  EOS ∉ str -> (s <= length str)%nat -> (length lit < fuel)%nat ->
  flag flags (FNM_CASEFOLD H) = true ->
  flag flags (FNM_LEADING_DIR H) = false ->
  fnmatch_loop H rec fuel (lit ++ EOS :: T) (str ++ EOS :: T') s stringstart flags
  = Some (if fold_equal H lit (drop s str) then 0 else FNM_NOMATCH H).
Proof.
  induction lit as [|c lit IH]; intros fuel s Hlit Hfold Hstr Hs Hfuel Hcase Hdir.
  - destruct fuel as [|fuel]; [simpl in Hfuel; lia|].
    cbn [app]. rewrite loop_end, Hdir. cbn [andb].
    destruct (decide (s = length str)) as [->|Hne].
    + by rewrite rd_str_end, drop_all.
    + destruct (str !! s) as [t|] eqn:Et; [|apply lookup_ge_None in Et; lia].
      rewrite (drop_S _ _ _ Et). cbn [fold_equal].
      replace (rd (str ++ EOS :: T') s =? EOS) with false; [done|].
      symmetry. apply Z.eqb_neq. apply rd_str_in; [done|lia].
  - apply Forall_cons in Hlit as [Hc Hlit]. apply Forall_cons in Hfold as [Hcf Hfold].
    destruct Hc as (H0 & H1 & H2 & H3 & H4).
    destruct fuel as [|fuel]; [lia|]. simpl in Hfuel.
    cbn [app fnmatch_loop hd tl].
    apply Z.eqb_neq in H0, H1, H2, H3, H4.
    rewrite H0, H1, H2, H3, H4.
    unfold normal_mismatch. rewrite Hcase. cbn [andb].
    destruct (decide (s = length str)) as [->|Hne].
    + rewrite rd_str_end, drop_all. cbn [fold_equal].
      rewrite H0. cbn [negb andb].
      replace (tolower H (uchar c) =? tolower H (uchar EOS)) with false; [done|].
      symmetry. by apply Z.eqb_neq.
    + destruct (str !! s) as [t|] eqn:Et; [|apply lookup_ge_None in Et; lia].
      rewrite (drop_S _ _ _ Et). cbn [fold_equal].
      assert (Hrd : rd (str ++ EOS :: T') s = t).
      { rewrite rd_app_l by (apply lookup_lt_Some in Et; lia). unfold rd. by rewrite Et. }
      rewrite Hrd.
      destruct (tolower H (uchar c) =? tolower H (uchar t)) eqn:Ef.
      * rewrite andb_false_r. cbn [andb]. apply IH; try done; lia.
      * cbn [negb andb]. rewrite andb_true_r.
        destruct (c =? t) eqn:Ect; [|done].
        apply Z.eqb_eq in Ect. subst. by rewrite Z.eqb_refl in Ef.
Qed.

(** X15. With FNM_CASEFOLD ordinary text is compared through
    [tolower]: the pattern matches the strings of its length whose
    characters have the same [tolower] value as its own, position by
    position. *)
Theorem fnmatch_casefold (H : fnmatch_env) (lit str T T' : list Z) (flags : Z) :
  Forall literal lit ->
  Forall (fun c => ~ same_fold H c EOS) lit ->
  EOS ∉ str ->
  flag flags (FNM_CASEFOLD H) = true ->
  flag flags (FNM_LEADING_DIR H) = false ->
  p_fnmatch H (lit ++ EOS :: T) (str ++ EOS :: T') flags
  = Some (if fold_equal H lit str then 0 else FNM_NOMATCH H).
Proof.
  intros Hlit Hfold Hstr Hcase Hdir.
  unfold p_fnmatch. rewrite p_fnmatchx_S.
  rewrite (loop_casefold_literal H _ str T T' 0 flags lit _ 0 Hlit Hfold Hstr);
    [by rewrite drop_0|lia|rewrite length_app; simpl; lia|done|done].
Qed.

(** * What canonicalisation computes *)

Lemma segments_plain s : Forall plain s -> segments s = [s].
Proof.
  induction 1 as [|c s Hc Hs IH]; [done|].
  cbn [segments]. rewrite IH.
  replace (path__is_dirsep c) with false; [done|].
  symmetry. unfold path__is_dirsep.
  destruct (plain_not_sep _ Hc) as (_ & -> & ->). done.
Qed.

Lemma segments_plain_sep s c r : Forall plain s -> path__is_dirsep c = true ->
  segments (s ++ c :: r) = s :: segments r.
Proof.
  intros Hs Hc. induction Hs as [|x s Hx Hs IH].
  - cbn [app segments]. by rewrite Hc.
  - cbn [app segments]. rewrite IH.
    replace (path__is_dirsep x) with false; [done|].
    symmetry. unfold path__is_dirsep.
    destruct (plain_not_sep _ Hx) as (_ & -> & ->). done.
Qed.

Lemma resolve_nil kept : resolve kept [] = kept.
Proof. done. Qed.

Lemma resolve_end kept s : Forall plain s -> resolve kept s = resolve_step kept s.
Proof. intros Hs. unfold resolve. by rewrite segments_plain. Qed.

Lemma resolve_sep kept s c r : Forall plain s -> path__is_dirsep c = true ->
  resolve kept (s ++ c :: r) = resolve (resolve_step kept s) r.
Proof. intros Hs Hc. unfold resolve. by rewrite segments_plain_sep. Qed.

(** Backslashes in front of a path add nothing. *)
Lemma resolve_skip kept r : resolve kept (drop (skip_bslash r) r) = resolve kept r.
Proof.
  induction r as [|c r IH]; [done|].
  cbn [skip_bslash]. destruct (c =? BSLASH) eqn:E; [|done].
  apply Z.eqb_eq in E. subst c. cbn [drop]. rewrite IH.
  symmetry. by apply (resolve_sep kept [] BSLASH r).
Qed.

Lemma resolve_step_dot kept : resolve_step kept [DOT] = kept.
Proof. done. Qed.

Lemma resolve_step_nil kept : resolve_step kept [] = kept.
Proof. done. Qed.

Lemma resolve_step_dotdot kept : resolve_step kept [DOT; DOT] = removelast kept.
Proof. done. Qed.

Lemma resolve_step_good kept s : good s -> resolve_step kept s = kept ++ [s].
Proof.
  intros (H0 & _ & H1 & H2). unfold resolve_step.
  by rewrite !bool_decide_eq_false_2.
Qed.

(** What is left to read once a segment and the separators behind it
    are passed. *)
Lemma resolve_rest kept s rest : Forall plain s -> sep_headed rest ->
  resolve kept (s ++ rest)
  = resolve (resolve_step kept s) (drop (skip_bslash (norm_head rest)) (norm_head rest)).
Proof.
  intros Hs Hr. destruct rest as [|c r].
  - rewrite app_nil_r. cbn [norm_head skip_bslash drop]. rewrite resolve_nil.
    by apply resolve_end.
  - cbn [norm_head skip_bslash]. replace (BSLASH =? BSLASH) with true by done.
    cbn [drop]. rewrite resolve_skip. by apply resolve_sep.
Qed.

Lemma canon_sem_step P T st R F :
  canon_sem P T st R F -> R <> [] ->
  exists R', canon_sem P T (canon_step st) R' F /\ (length R' < length R)%nat.
Proof.
  intros [ (segs&last&G&Hbuf&Hto&Hfrom&Hsegs&Hsem) Hbase Hnul ] HR.
  destruct st as [buf base from to]. simpl in *. subst to from buf.
  destruct Hsem as [[-> HF]|[_ [? _]]]; [|done].
  rewrite app_nil_r in *.
  destruct (seg_split R Hnul) as (s&rest&->&Hs&Hrest).
  set (rest1 := norm_head rest).
  assert (Hn1 : NUL ∉ rest1).
  { apply norm_head_nul; [done|]. intros H. apply Hnul. apply elem_of_app. by right. }
  set (k := skip_bslash rest1).
  assert (Hk : (k <= length rest1)%nat) by apply skip_bslash_le.
  assert (Hk' : skip_bslash (rest1 ++ NUL :: T) = k) by (by apply skip_bslash_app_nul).
  assert (Hl1 : length rest1 = length rest) by apply norm_head_length.
  assert (HnR' : NUL ∉ drop k rest1) by (by apply not_elem_of_drop).
  rewrite (resolve_rest segs s rest Hs Hrest) in HF. fold rest1 k in HF.
  rewrite <- (app_assoc s rest).
  destruct (decide (s = [DOT])) as [Es|Es1]; [|destruct (decide (s = [DOT; DOT])) as [Es|Es2]].
  - (* . *)
    rewrite (step_dot _ _ _ _ _ _ Hs Hrest Es). fold rest1. rewrite Hk'.
    exists (drop k rest1). split; [|rewrite length_app, length_drop; subst s; cbn [length app]; lia].
    split; cbn [cs_buf cs_base cs_from cs_to]; [|done|done].
    exists segs, [], (G ++ s ++ take k rest1). rewrite !app_nil_r. repeat split.
    + rewrite <- !app_assoc. do 4 f_equal. by rewrite <- (take_drop k rest1) at 1; rewrite <- app_assoc.
    + rewrite !length_app, length_take. lia.
    + done.
    + left. split; [done|]. by rewrite Es, resolve_step_dot in HF.
  - (* .. *)
    rewrite Es, resolve_step_dotdot in HF.
    destruct (decide (segs = [])) as [->|Hne].
    + simpl in *. rewrite app_nil_r in *.
      rewrite (step_dotdot_root _ _ _ _ _ _ Hs Hrest Es Hbase). fold rest1. rewrite Hk'.
      exists (drop k rest1). split; [|rewrite length_app, length_drop; subst s; cbn [length app]; lia].
      split; cbn [cs_buf cs_base cs_from cs_to]; [|done|done].
      exists [], [], (G ++ s ++ take k rest1).
      cbn [chunks fmap list_fmap concat]. rewrite !app_nil_r. repeat split.
      * rewrite <- !app_assoc. do 3 f_equal. by rewrite <- (take_drop k rest1) at 1; rewrite <- app_assoc.
      * rewrite !length_app, length_take. lia.
      * done.
      * by left.
    + destruct (exists_last Hne) as (segs'&g&->).
      rewrite removelast_last in HF.
      apply Forall_app in Hsegs as [Hsegs' Hg]. rewrite Forall_singleton in Hg.
      destruct Hg as (Hg0&Hgp&_).
      rewrite chunks_snoc in *.
      rewrite (step_dotdot_back _ _ _ _ _ _ Hs Hrest (P ++ chunks segs') g Es);
        [|by rewrite <- !app_assoc|done|done|rewrite length_app; lia|].
      2:{ destruct (decide (segs' = [])) as [->|Hne'].
          - left. simpl. by rewrite app_nil_r.
          - right. destruct (exists_last Hne') as (segs''&g2&->).
            rewrite chunks_snoc. exists (P ++ chunks segs'' ++ g2).
            by rewrite <- !app_assoc. }
      fold rest1. rewrite Hk'.
      exists (drop k rest1). split; [|rewrite length_app, length_drop; subst s; cbn [length app]; lia].
      split; cbn [cs_buf cs_base cs_from cs_to]; [|done|done].
      exists segs', [], ((g ++ [BSLASH]) ++ G ++ s ++ take k rest1).
      rewrite !app_nil_r. repeat split.
      * rewrite <- !app_assoc. do 6 f_equal. by rewrite <- (take_drop k rest1) at 1; rewrite <- app_assoc.
      * rewrite !length_app, length_take. cbn [length app] in *; lia.
      * done.
      * by left.
  - (* kept *)
    rewrite (step_keep _ _ _ _ _ _ Hs Hrest Es1 Es2). fold rest1. rewrite Hk'.
    exists (drop k rest1).
    destruct (good_or s Hs Es1 Es2) as [->|Hgood].
    + (* an empty segment: only separators are skipped *)
      rewrite resolve_step_nil in HF.
      destruct rest as [|c r]; [done|].
      assert (k >= 1)%nat by (unfold k; simpl; change (92 =? BSLASH) with true; lia).
      split; [|rewrite length_drop; cbn [length app] in *; lia].
      assert (Ekl : keep_len [] rest1 T = 0%nat) by done.
      rewrite Ekl, take_0, drop_0, !app_nil_l.
      split; cbn [cs_buf cs_base cs_from cs_to]; [|done|done].
      exists segs, [], (G ++ take k rest1). rewrite !app_nil_r. repeat split.
      * rewrite <- !app_assoc. do 3 f_equal.
        by rewrite <- (take_drop k rest1) at 1; rewrite <- app_assoc.
      * rewrite !length_app. lia.
      * rewrite !length_app, length_take. cbn [length app] in *; lia.
      * done.
      * by left.
    + rewrite (resolve_step_good _ _ Hgood) in HF.
      assert (Hs0 : (length s > 0)%nat) by (destruct Hgood as (?&_); destruct s; simpl; [done|lia]).
      split; [|rewrite length_app, length_drop; lia].
      destruct rest as [|c r].
      * (* the last segment: no separator follows *)
        assert (Ekl : keep_len s rest1 T = length s).
        { unfold keep_len, rest1. simpl. done. }
        rewrite Ekl. simpl in *. unfold k in *. simpl in *.
        split; cbn [cs_buf cs_base cs_from cs_to]; [|done|done].
        exists segs, s, (drop (length s) (G ++ s)). repeat split.
        -- rewrite take_app_length.
           rewrite (app_assoc G s), drop_app_le by (rewrite length_app; lia).
           by rewrite <- !app_assoc.
        -- rewrite !length_app. lia.
        -- rewrite !length_app, length_drop, length_app. lia.
        -- done.
        -- right. rewrite resolve_nil in HF. done.
      * assert (Ekl : keep_len s rest1 T = S (length s)).
        { unfold keep_len, rest1. simpl. change (92 =? BSLASH) with true.
          by rewrite (good_plain_hd s _ Hgood). }
        rewrite Ekl.
        assert (k >= 1)%nat by (unfold k; simpl; change (92 =? BSLASH) with true; lia).
        split; cbn [cs_buf cs_base cs_from cs_to]; [|done|done].
        exists (segs ++ [s]), [], (drop (S (length s)) (G ++ s ++ take k rest1)).
        assert (Htk : take (S (length s)) (s ++ rest1 ++ NUL :: T) = s ++ [BSLASH]).
        { replace (S (length s)) with (length s + 1)%nat by lia.
          rewrite take_app_add. done. }
        rewrite !app_nil_r. repeat split.
        -- rewrite Htk, chunks_snoc.
           assert (Hd : drop (S (length s)) (G ++ s ++ rest1 ++ NUL :: T)
                        = drop (S (length s)) (G ++ s ++ take k rest1) ++ drop k rest1 ++ NUL :: T).
           { rewrite <- (take_drop k rest1) at 1.
             rewrite <- (app_assoc (take k rest1)), (app_assoc s), (app_assoc G).
             rewrite drop_app_le by (rewrite !length_app, length_take; lia).
             by rewrite <- ?app_assoc. }
           rewrite Hd. by rewrite <- !app_assoc.
        -- rewrite chunks_snoc, !length_app. cbn [length app] in *; lia.
        -- rewrite chunks_snoc, !length_app, length_drop, !length_app, length_take. cbn [length app] in *; lia.
        -- apply Forall_app. split; [done|]. by apply Forall_singleton.
        -- by left.
Qed.

Lemma canon_sem_loop P T F fuel : forall st R,
  canon_sem P T st R F -> (length R <= fuel)%nat ->
  exists st', canon_loop fuel st = Some st' /\ canon_sem P T st' [] F.
Proof.
  induction fuel as [|fuel IH]; intros st R Hinv Hlen.
  - assert (R = []) as -> by (apply nil_length_inv; lia).
    exists st. split; [|done]. simpl.
    destruct Hinv as [(segs&last&G&Hbuf&_&Hfrom&_) _ _].
    rewrite Hbuf, Hfrom, rd_app_len. done.
  - destruct (decide (R = [])) as [->|HR].
    + exists st. split; [|done]. simpl.
      destruct Hinv as [(segs&last&G&Hbuf&_&Hfrom&_) _ _].
      rewrite Hbuf, Hfrom, rd_app_len. done.
    + destruct (canon_sem_step _ _ _ _ _ Hinv HR) as (R'&Hinv'&Hlt).
      destruct (IH _ R' Hinv') as (st'&Hl&Hi); [lia|].
      exists st'. split; [|done]. simpl.
      pose proof Hinv as [(segs&last&G&Hbuf&_&Hfrom&_) _ Hnul].
      rewrite Hbuf, Hfrom, rd_app_len.
      destruct R as [|c R]; [done|]. simpl.
      apply not_elem_of_cons in Hnul as [Hc _].
      replace (c =? NUL) with false by (symmetry; apply Z.eqb_neq; done).
      done.
Qed.

(** The buffer and the length the call returns: the respelled prefix,
    the segments that remain, the terminator; the cells behind the
    terminator of the input are still there. *)
Lemma canon_resolved S T : NUL ∉ S ->
  let b := path__skip_prefix (S ++ NUL :: T) 0 in
  let F := resolve [] (drop b S) in
  exists G,
    Forall good F /\
    git_win32_path_canonicalize (S ++ NUL :: T)
    = Some ((unposix <$> take b S) ++ join F ++ NUL :: G ++ T,
            Z.of_nat (b + length (join F))).
Proof.
  intros HS b F. pose proof (skip_prefix_le S T) as Hb. fold b in Hb.
  unfold git_win32_path_canonicalize. fold b.
  set (P := unposix <$> take b S).
  assert (HP : length P = b) by (unfold P; rewrite length_fmap, length_take; lia).
  assert (E0 : unposix_prefix b (S ++ NUL :: T) 0 = P ++ drop b S ++ NUL :: T).
  { rewrite <- (take_drop b S) at 1. rewrite <- app_assoc.
    replace b with (length (take b S)) at 1 by (rewrite length_take; lia).
    apply (unposix_prefix_app (take b S) [] (drop b S ++ NUL :: T)). }
  rewrite E0.
  assert (Hinv : canon_sem P T (CanonState (P ++ drop b S ++ NUL :: T) b b b) (drop b S) F).
  { split; cbn [cs_buf cs_base cs_from cs_to]; [|done|by apply not_elem_of_drop].
    exists [], [], []. cbn [chunks fmap list_fmap concat]. rewrite !app_nil_r.
    repeat split; [done|done|done|]. by left. }
  destruct (canon_sem_loop P T F (length (S ++ NUL :: T)) _ _ Hinv) as (st'&->&Hinv').
  { rewrite length_drop, length_app. lia. }
  destruct Hinv' as [(segs&last&G&Hbuf&Hto&Hfrom&Hsegs&Hsem) Hbase _].
  rewrite Hbuf, Hto, Hbase. clear Hbuf Hto Hbase Hfrom.
  cbn [app] in *.
  destruct Hsem as [[-> HF]|(Hgl & _ & HF)].
  - rewrite resolve_nil in HF. subst segs. rewrite app_nil_r in *.
    destruct (decide (F = [])) as [EF|Hne].
    + rewrite EF in *.
      cbn [chunks fmap list_fmap concat join app length] in *. rewrite !app_nil_r.
      rewrite back_while_stop by (left; lia).
      rewrite <- app_assoc.
      assert (Hins : <[length P:=NUL]> (P ++ G ++ NUL :: T) = P ++ NUL :: tail (G ++ NUL :: T)).
      { replace (length P) with (length P + 0)%nat at 1 by lia.
        by rewrite insert_app_r, insert_head_app. }
      rewrite Hins.
      destruct G as [|x G].
      * exists []. split; [done|]. cbn [app tail]. by rewrite Nat.add_0_r, HP.
      * exists (G ++ [NUL]). split; [done|]. cbn [app tail].
        rewrite <- app_assoc. by rewrite Nat.add_0_r, HP.
    + destruct (exists_last Hne) as (segs'&g&EF).
      rewrite EF in *.
      apply Forall_app in Hsegs as [Hsegs' Hg]. rewrite Forall_singleton in Hg.
      exists (G ++ [NUL]).
      split; [apply Forall_app; split; [done|by apply Forall_singleton]|].
      rewrite join_snoc, chunks_snoc in *.
      destruct (good_last g Hg) as (g'&x&Eg&Hx).
      replace (((P ++ chunks segs' ++ g ++ [BSLASH]) ++ G) ++ NUL :: T)
        with ((P ++ chunks segs' ++ g) ++ [BSLASH] ++ (G ++ NUL :: T))
        by (rewrite <- !app_assoc; done).
      replace (length (P ++ chunks segs' ++ g ++ [BSLASH]))
        with (length (P ++ chunks segs' ++ g) + length [BSLASH])%nat
        by (rewrite !length_app; cbn [length]; lia).
      rewrite back_while_run; [|by repeat constructor|rewrite length_app; lia].
      rewrite back_while_stop.
      2:{ right. exists (length (P ++ chunks segs' ++ g')). split.
          - rewrite Eg, !length_app. cbn [length]. lia.
          - rewrite (rd_at _ _ x ([BSLASH] ++ G ++ NUL :: T)).
            + unfold is_bslash. by apply plain_not_sep.
            + rewrite Eg. by rewrite <- !app_assoc. }
      assert (Hins : <[length (P ++ chunks segs' ++ g):=NUL]>
                       ((P ++ chunks segs' ++ g) ++ [BSLASH] ++ G ++ NUL :: T)
                     = (P ++ chunks segs' ++ g) ++ NUL :: G ++ NUL :: T).
      { replace (length (P ++ chunks segs' ++ g))
          with (length (P ++ chunks segs' ++ g) + 0)%nat at 1 by lia.
        by rewrite insert_app_r. }
      rewrite Hins.
      rewrite <- !app_assoc.
      rewrite !length_app in *. cbn [length app] in *.
      by rewrite HP.
  - rewrite HF.
    assert (HgF : Forall good (segs ++ [last])).
    { apply Forall_app; split; [done|by apply Forall_singleton]. }
    rewrite join_snoc.
    destruct (good_last last Hgl) as (l'&x&El&Hx).
    rewrite back_while_stop.
    2:{ right. exists (length (P ++ chunks segs ++ l')). split.
        - rewrite El, !length_app. cbn [length]. lia.
        - rewrite (rd_at _ _ x (G ++ NUL :: T)).
          + unfold is_bslash. by apply plain_not_sep.
          + rewrite El. by rewrite <- !app_assoc. }
    rewrite <- app_assoc.
    assert (Hins : <[length (P ++ chunks segs ++ last):=NUL]>
                     ((P ++ chunks segs ++ last) ++ G ++ NUL :: T)
                   = (P ++ chunks segs ++ last) ++ NUL :: tail (G ++ NUL :: T)).
    { replace (length (P ++ chunks segs ++ last))
        with (length (P ++ chunks segs ++ last) + 0)%nat at 1 by lia.
      by rewrite insert_app_r, insert_head_app. }
    rewrite Hins. rewrite <- !app_assoc.
    rewrite !length_app in *.
    destruct G as [|y G].
    + exists []. split; [done|]. cbn [app tail]. by rewrite HP, <- !app_assoc.
    + exists (G ++ [NUL]). split; [done|]. cbn [app tail].
      by rewrite HP, <- !app_assoc.
Qed.

(** * The canonical form *)

Lemma canonical_form_app Q T : NUL ∉ Q ->
  canonical_form (Q ++ NUL :: T)
  = (unposix <$> take (path__skip_prefix (Q ++ NUL :: T) 0) Q)
    ++ join (resolve [] (drop (path__skip_prefix (Q ++ NUL :: T) 0) Q)).
Proof. intros HS. unfold canonical_form. by rewrite str_of_app_nul. Qed.

(** The call leaves the canonical form of its input in the buffer and
    returns its length. *)
Lemma canon_str Q T : NUL ∉ Q ->
  exists buf,
    git_win32_path_canonicalize (Q ++ NUL :: T)
    = Some (buf, Z.of_nat (length (canonical_form (Q ++ NUL :: T)))) /\
    str_of buf = canonical_form (Q ++ NUL :: T) /\
    length buf = length (Q ++ NUL :: T) /\
    drop (S (length Q)) buf = T.
Proof.
  intros HS. rewrite canonical_form_app by done.
  destruct (canon_resolved Q T HS) as (G & HF & Hc).
  destruct (canon_shape Q T HS) as (segs & tl & _ & Hc' & Hlen & _).
  set (b := path__skip_prefix (Q ++ NUL :: T) 0) in *.
  set (F := resolve [] (drop b Q)) in *.
  pose proof (skip_prefix_le Q T) as Hb. fold b in Hb.
  assert (HP : length (unposix <$> take b Q) = b) by (rewrite length_fmap, length_take; lia).
  rewrite Hc in Hc'. injection Hc' as Hbuf Hn.
  assert (Hj : length (join F) = length (join segs)) by lia.
  assert (Htot : (b + length (join F) + S (length G) = S (length Q))%nat).
  { apply (f_equal length) in Hbuf. rewrite !length_app in Hbuf.
    cbn [length] in Hbuf. rewrite !length_app in Hbuf. rewrite HP in Hbuf. lia. }
  eexists. split; [|split; [|split]].
  - rewrite Hc. do 2 f_equal. rewrite length_app, HP. done.
  - rewrite app_assoc. apply str_of_app_nul.
    apply not_elem_of_app. split.
    + apply unposix_not_nul. intros Hin. apply HS. by apply (subseteq_take b).
    + by apply join_not_nul.
  - rewrite !length_app. cbn [length]. rewrite !length_app, HP. lia.
  - replace ((unposix <$> take b Q) ++ join F ++ NUL :: G ++ T)
      with (((unposix <$> take b Q) ++ join F ++ NUL :: G) ++ T)
      by (rewrite <- !app_assoc; done).
    rewrite drop_app_length'; [done|].
    rewrite !length_app. cbn [length]. rewrite HP. lia.
Qed.

(** X17. What canonicalisation computes: the call leaves in the buffer
    the prefix with its separators spelled as backslashes, followed by
    the segments that remain when empty segments and [.] are dropped and
    each [..] takes away the segment kept before it (none at the root
    boundary), one backslash between two of them; it returns the length
    of that string. *)
Theorem canonicalize_computes (path : list wchar) :
  NUL ∈ path ->
  exists buf,
    git_win32_path_canonicalize path
    = Some (buf, Z.of_nat (length (canonical_form path))) /\
    str_of buf = canonical_form path.
Proof.
  intros Hnul. destruct (nul_split path Hnul) as (Q & T & -> & HS).
  destruct (canon_str Q T HS) as (buf & Hc & Hs & _).
  by exists buf.
Qed.

(** X18. Canonicalisation works inside the string it is given: the
    buffer keeps its size and every cell behind the terminator of the
    input is left as it was. *)
Theorem canonicalize_in_place (path : list wchar) :
  NUL ∈ path ->
  exists buf n,
    git_win32_path_canonicalize path = Some (buf, n) /\
    length buf = length path /\
    drop (S (wcslen path)) buf = drop (S (wcslen path)) path.
Proof.
  intros Hnul. destruct (nul_split path Hnul) as (Q & T & -> & HS).
  destruct (canon_str Q T HS) as (buf & Hc & _ & Hl & Hd).
  exists buf, (Z.of_nat (length (canonical_form (Q ++ NUL :: T)))).
  split; [done|]. split; [done|].
  rewrite wcslen_app_nul by done. rewrite Hd.
  replace (S (length Q)) with (length (Q ++ [NUL])) by (rewrite length_app; simpl; lia).
  replace (Q ++ NUL :: T) with ((Q ++ [NUL]) ++ T) by (by rewrite <- app_assoc).
  by rewrite drop_app_length.
Qed.

(** ** The spelling of separators *)

Lemma unposix_eq_cases x y : unposix x = unposix y ->
  x = y \/ (path__is_dirsep x = true /\ path__is_dirsep y = true).
Proof.
  unfold unposix, path__is_dirsep.
  destruct (x =? SLASH) eqn:Ex, (y =? SLASH) eqn:Ey; intros E.
  - right. done.
  - right. subst y. done.
  - right. subst x. replace (BSLASH =? BSLASH) with true by done.
    by rewrite orb_true_r.
  - by left.
Qed.

Lemma unposix_dirsep x y : unposix x = unposix y ->
  path__is_dirsep x = path__is_dirsep y.
Proof.
  intros E. destruct (unposix_eq_cases x y E) as [->|[-> ->]]; done.
Qed.

Lemma segments_unposix l1 : forall l2,
  unposix <$> l1 = unposix <$> l2 -> segments l1 = segments l2.
Proof.
  induction l1 as [|x l1 IH]; intros [|y l2] E; try done.
  injection E as Exy E. cbn [segments].
  rewrite (unposix_dirsep x y Exy), (IH l2 E).
  destruct (path__is_dirsep y) eqn:Ey; [done|].
  destruct (unposix_eq_cases x y Exy) as [->|[_ Hy]]; [done|congruence].
Qed.

Lemma absolute_unposix Q1 Q2 T1 T2 : NUL ∉ Q1 -> NUL ∉ Q2 ->
  unposix <$> Q1 = unposix <$> Q2 ->
  path__is_absolute (Q1 ++ NUL :: T1) 0 = true ->
  path__is_absolute (Q2 ++ NUL :: T2) 0 = true.
Proof.
  intros H1 H2 E Ha.
  destruct (abs_inv _ _ Ha) as (a & c & Q' & -> & Halpha & Hc).
  destruct Q2 as [|a' [|col [|c' Q2']]]; try done.
  injection E as Ea Ecol Ec _.
  assert (a' = a) as ->.
  { destruct (unposix_eq_cases _ _ Ea) as [E|[Hs _]]; [done|].
    exfalso. unfold path__is_dirsep in Hs. unfold git__isalpha in Halpha.
    apply orb_true_iff in Hs as [Hs|Hs]; apply Z.eqb_eq in Hs; subst a; done. }
  assert (col = COLON) as ->.
  { destruct (unposix_eq_cases _ _ Ecol) as [E|[Hs _]]; [done|]. done. }
  apply abs_intro_sep; [done|]. by rewrite <- (unposix_dirsep _ _ Ec).
Qed.

Lemma skip_prefix_relative Q T :
  path__is_dirsep (hd NUL Q) = false ->
  path__skip_prefix (Q ++ NUL :: T) 0
  = if path__is_absolute (Q ++ NUL :: T) 0 then 3%nat else 0%nat.
Proof.
  intros Hh. unfold path__skip_prefix.
  assert (Hrd : rd (Q ++ NUL :: T) 0 = hd NUL Q) by (by destruct Q).
  assert (Hb : (rd (Q ++ NUL :: T) 0 =? BSLASH) = false /\
               (rd (Q ++ NUL :: T) 0 =? SLASH) = false).
  { rewrite Hrd. unfold path__is_dirsep in Hh. apply orb_false_iff in Hh. tauto. }
  destruct Hb as [Hb1 Hb2].
  unfold path__is_nt_namespace, path__is_unc. rewrite Hb1, Hb2. cbn [andb orb].
  by destruct (path__is_absolute (Q ++ NUL :: T) 0).
Qed.

Lemma canonical_form_unposix Q1 Q2 T1 T2 : NUL ∉ Q1 -> NUL ∉ Q2 ->
  unposix <$> Q1 = unposix <$> Q2 ->
  path__is_dirsep (hd NUL Q1) = false ->
  canonical_form (Q1 ++ NUL :: T1) = canonical_form (Q2 ++ NUL :: T2).
Proof.
  intros H1 H2 E Hh.
  assert (Hh2 : path__is_dirsep (hd NUL Q2) = false).
  { destruct Q1 as [|x Q1], Q2 as [|y Q2]; try done.
    injection E as Exy _. cbn [hd] in *. by rewrite <- (unposix_dirsep _ _ Exy). }
  assert (Hb : path__skip_prefix (Q1 ++ NUL :: T1) 0 = path__skip_prefix (Q2 ++ NUL :: T2) 0).
  { rewrite !skip_prefix_relative by done.
    destruct (path__is_absolute (Q1 ++ NUL :: T1) 0) eqn:E1.
    - by rewrite (absolute_unposix Q1 Q2 T1 T2 H1 H2 E E1).
    - destruct (path__is_absolute (Q2 ++ NUL :: T2) 0) eqn:E2; [|done].
      by rewrite (absolute_unposix Q2 Q1 T2 T1 H2 H1 (eq_sym E) E2) in E1. }
  rewrite !canonical_form_app by done. rewrite Hb.
  set (b := path__skip_prefix (Q2 ++ NUL :: T2) 0).
  f_equal.
  - by rewrite !fmap_take, E.
  - unfold resolve. rewrite (segments_unposix (drop b Q1) (drop b Q2)); [done|].
    by rewrite !fmap_drop, E.
Qed.

(** X19. The spelling of separators does not matter: two paths that do
    not begin with a separator and differ only in which separators are
    slashes and which are backslashes are canonicalised to the same
    string, of the same length. *)
Theorem canonicalize_separator_spelling (Q1 Q2 T1 T2 : list wchar) :
  NUL ∉ Q1 -> NUL ∉ Q2 ->
  unposix <$> Q1 = unposix <$> Q2 ->
  path__is_dirsep (hd NUL Q1) = false ->
  exists buf1 buf2 n,
    git_win32_path_canonicalize (Q1 ++ NUL :: T1) = Some (buf1, n) /\
    git_win32_path_canonicalize (Q2 ++ NUL :: T2) = Some (buf2, n) /\
    str_of buf1 = str_of buf2.
Proof.
  intros H1 H2 E Hh.
  destruct (canon_str Q1 T1 H1) as (buf1 & Hc1 & Hs1 & _).
  destruct (canon_str Q2 T2 H2) as (buf2 & Hc2 & Hs2 & _).
  pose proof (canonical_form_unposix Q1 Q2 T1 T2 H1 H2 E Hh) as Hcf.
  exists buf1, buf2, (Z.of_nat (length (canonical_form (Q1 ++ NUL :: T1)))).
  split; [done|]. split; [by rewrite Hcf|]. by rewrite Hs1, Hs2.
Qed.

(** * The root boundary of a share path *)

Lemma dirsep_cases d : path__is_dirsep d = true -> d = SLASH \/ d = BSLASH.
Proof.
  unfold path__is_dirsep. intros Hd. apply orb_true_iff in Hd as [Hd|Hd];
    apply Z.eqb_eq in Hd; auto.
Qed.

Lemma skip_server_sep d X : path__is_dirsep d = true -> skip_server_off (d :: X) = 1%nat.
Proof.
  intros Hd. cbn [skip_server_off]. rewrite Hd.
  destruct (dirsep_cases d Hd) as [-> | ->]; done.
Qed.

(** The classification of a path that begins with two separators of one
    kind and is not in the namespace form. *)
Lemma skip_prefix_share d srv d1 X :
  d = BSLASH \/ d = SLASH -> path__is_dirsep d1 = true ->
  Forall plain srv -> hd NUL srv <> QMARK ->
  path__skip_prefix (d :: d :: srv ++ d1 :: X) 0 = (3 + length srv)%nat.
Proof.
  intros Hd Hd1 Hsrv Hq.
  assert (Hnt : path__is_nt_namespace (d :: d :: srv ++ d1 :: X) 0 = false).
  { unfold path__is_nt_namespace.
    assert (Hr : rd (d :: d :: srv ++ d1 :: X) (0 + 2) = hd NUL (srv ++ d1 :: X)).
    { by destruct (srv ++ d1 :: X). }
    assert (E : (rd (d :: d :: srv ++ d1 :: X) (0 + 2) =? QMARK) = false).
    { rewrite Hr. apply Z.eqb_neq. destruct srv as [|c srv]; cbn [app hd].
      - destruct (dirsep_cases d1 Hd1) as [-> | ->]; done.
      - done. }
    rewrite E. by rewrite !andb_false_r. }
  assert (Habs : path__is_absolute (d :: d :: srv ++ d1 :: X) 0 = false).
  { unfold path__is_absolute, rd. cbn. by destruct Hd as [-> | ->]. }
  assert (Hunc : path__is_unc (d :: d :: srv ++ d1 :: X) 0 = true).
  { unfold path__is_unc, rd. cbn. by destruct Hd as [-> | ->]. }
  unfold path__skip_prefix. rewrite Hnt, Habs, Hunc.
  unfold path__skip_server.
  change (drop (0 + 2) (d :: d :: srv ++ d1 :: X)) with (srv ++ d1 :: X).
  rewrite skip_server_nonsep by (by apply plain_nonsep).
  rewrite skip_server_sep by done. lia.
Qed.

(** X20. In a share path only the server name lies before the root
    boundary: the boundary is the offset behind the separator that
    closes the server name, so a [..] behind the share name takes the
    share name away and leaves the server name with its separator. *)
Theorem unc_share_is_below_root (d d1 d2 : wchar) (srv share T : list wchar) :
  d = BSLASH \/ d = SLASH ->
  path__is_dirsep d1 = true -> path__is_dirsep d2 = true ->
  Forall plain srv -> hd NUL srv <> QMARK -> good share ->
  let path := d :: d :: srv ++ d1 :: share ++ d2 :: DOT :: DOT :: NUL :: T in
  path__skip_prefix path 0 = (3 + length srv)%nat /\
  exists buf,
    git_win32_path_canonicalize path = Some (buf, Z.of_nat (3 + length srv)) /\
    str_of buf = BSLASH :: BSLASH :: srv ++ [BSLASH].
Proof.
  intros Hd Hd1 Hd2 Hsrv Hq Hshare path.
  assert (Hb : path__skip_prefix path 0 = (3 + length srv)%nat).
  { by apply skip_prefix_share. }
  split; [done|].
  set (Q := d :: d :: srv ++ d1 :: share ++ [d2; DOT; DOT]).
  assert (Hpath : path = Q ++ NUL :: T).
  { unfold path, Q. cbn [app]. do 2 f_equal. rewrite <- !app_assoc. cbn [app].
    do 2 f_equal. rewrite <- app_assoc. done. }
  assert (Hplain_share : Forall plain share) by apply Hshare.
  assert (HQ : NUL ∉ Q).
  { unfold Q. intros Hin.
    assert (Hdn : forall x, path__is_dirsep x = true -> x <> NUL).
    { intros x Hx. destruct (dirsep_cases x Hx) as [-> | ->]; done. }
    assert (Hpn : forall l, Forall plain l -> NUL ∉ l).
    { intros l Hl Hi. rewrite Forall_forall in Hl. by destruct (Hl _ Hi). }
    apply elem_of_cons in Hin as [E|Hin]; [by destruct Hd as [-> | ->]|].
    apply elem_of_cons in Hin as [E|Hin]; [by destruct Hd as [-> | ->]|].
    apply elem_of_app in Hin as [Hin|Hin]; [by apply (Hpn srv)|].
    apply elem_of_cons in Hin as [E|Hin]; [by apply (Hdn d1)|].
    apply elem_of_app in Hin as [Hin|Hin]; [by apply (Hpn share)|].
    apply elem_of_cons in Hin as [E|Hin]; [by apply (Hdn d2)|].
    apply elem_of_cons in Hin as [E|Hin]; [done|].
    apply elem_of_cons in Hin as [E|Hin]; [done|].
    by apply elem_of_nil in Hin. }
  destruct (canon_str Q T HQ) as (buf & Hc & Hs & _).
  rewrite <- Hpath in Hc, Hs.
  assert (Hcf : canonical_form path = BSLASH :: BSLASH :: srv ++ [BSLASH]).
  { rewrite Hpath, canonical_form_app by done. rewrite <- Hpath, Hb.
    assert (Htake : take (3 + length srv) Q = d :: d :: srv ++ [d1]).
    { unfold Q. cbn [take Nat.add].
      replace (S (length srv)) with (length (srv ++ [d1])) by (rewrite length_app; simpl; lia).
      replace (srv ++ d1 :: share ++ [d2; DOT; DOT])
        with ((srv ++ [d1]) ++ share ++ [d2; DOT; DOT]) by (by rewrite <- app_assoc).
      by rewrite take_app_length. }
    assert (Hdrop : drop (3 + length srv) Q = share ++ [d2; DOT; DOT]).
    { unfold Q. cbn [drop Nat.add].
      replace (S (length srv)) with (length (srv ++ [d1])) by (rewrite length_app; simpl; lia).
      replace (srv ++ d1 :: share ++ [d2; DOT; DOT])
        with ((srv ++ [d1]) ++ share ++ [d2; DOT; DOT]) by (by rewrite <- app_assoc).
      by rewrite drop_app_length. }
    rewrite Htake, Hdrop.
    assert (Hres : resolve [] (share ++ [d2; DOT; DOT]) = []).
    { rewrite (resolve_sep [] share d2 [DOT; DOT]) by done.
      rewrite resolve_step_good by done.
      rewrite resolve_end by (repeat constructor; done).
      done. }
    rewrite Hres. cbn [join]. rewrite app_nil_r.
    rewrite !fmap_cons, fmap_app. cbn [fmap list_fmap].
    rewrite (unposix_plain srv) by done.
    rewrite (unposix_sep d1) by done.
    assert (unposix d = BSLASH) as -> by (by destruct Hd as [-> | ->]).
    done. }
  exists buf. split; [|by rewrite Hs].
  rewrite Hc, Hcf. do 3 f_equal. cbn [length]. rewrite length_app. cbn [length]. lia.
Qed.

(** * The prefix is read from the string alone *)

Lemma wcsncmp_tail n : forall (Q T T' m : list wchar),
  wcsncmp (Q ++ NUL :: T) m n = wcsncmp (Q ++ NUL :: T') m n.
Proof.
  induction n as [|n IH]; intros Q T T' m; [done|].
  destruct Q as [|c Q]; cbn [wcsncmp app hd tl].
  - done.
  - destruct (c =? hd NUL m); [|done]. destruct (c =? NUL); [done|]. apply IH.
Qed.

Lemma absolute_tail (Q T T' : list wchar) :
  path__is_absolute (Q ++ NUL :: T) 0 = path__is_absolute (Q ++ NUL :: T') 0.
Proof.
  unfold path__is_absolute, rd.
  destruct Q as [|c0 [|c1 [|c2 Q]]]; cbn; try done; by rewrite ?andb_false_r.
Qed.

Lemma skip_prefix_tail (Q T T' : list wchar) :
  path__skip_prefix (Q ++ NUL :: T) 0 = path__skip_prefix (Q ++ NUL :: T') 0.
Proof.
  unfold path__skip_prefix.
  assert (Hnt : path__is_nt_namespace (Q ++ NUL :: T) 0 = path__is_nt_namespace (Q ++ NUL :: T') 0).
  { unfold path__is_nt_namespace, rd.
    destruct Q as [|c0 [|c1 [|c2 [|c3 Q]]]]; cbn; try done;
      by rewrite ?andb_false_r. }
  assert (Hunc : path__is_unc (Q ++ NUL :: T) 0 = path__is_unc (Q ++ NUL :: T') 0).
  { unfold path__is_unc, rd.
    destruct Q as [|c0 [|c1 Q]]; cbn; try done; by rewrite ?andb_false_r. }
  rewrite <- Hnt, <- Hunc, <- (absolute_tail Q T T').
  destruct (path__is_nt_namespace (Q ++ NUL :: T) 0) eqn:Ent.
  - destruct (nt_inv _ _ Ent) as (c & Q' & -> & _).
    change (drop (0 + PATH__NT_NAMESPACE_LEN) ((c :: c :: QMARK :: c :: Q') ++ NUL :: T))
      with (Q' ++ NUL :: T).
    change (drop (0 + PATH__NT_NAMESPACE_LEN) ((c :: c :: QMARK :: c :: Q') ++ NUL :: T'))
      with (Q' ++ NUL :: T').
    rewrite (wcsncmp_tail 4 Q' T T').
    destruct (wcsncmp (Q' ++ NUL :: T') UNC_MARK 4 =? 0) eqn:Eu.
    + rewrite <- (wcsncmp_tail 4 Q' T T') in Eu.
      destruct (uncmark_inv _ _ Eu) as (Q'' & ->).
      unfold path__skip_server.
      change (drop (0 + PATH__NT_NAMESPACE_LEN + 4)
                ((c :: c :: QMARK :: c :: 85 :: 78 :: 67 :: BSLASH :: Q'') ++ NUL :: T))
        with (Q'' ++ NUL :: T).
      change (drop (0 + PATH__NT_NAMESPACE_LEN + 4)
                ((c :: c :: QMARK :: c :: 85 :: 78 :: 67 :: BSLASH :: Q'') ++ NUL :: T'))
        with (Q'' ++ NUL :: T').
      by rewrite !skip_server_off_app_nul.
    + assert (Ha : path__is_absolute ((c :: c :: QMARK :: c :: Q') ++ NUL :: T)
                                     (0 + PATH__NT_NAMESPACE_LEN)
                 = path__is_absolute ((c :: c :: QMARK :: c :: Q') ++ NUL :: T')
                                     (0 + PATH__NT_NAMESPACE_LEN)).
      { pose proof (absolute_tail Q' T T') as Ha.
        unfold path__is_absolute, rd in *. exact Ha. }
      by rewrite Ha.
  - destruct (path__is_absolute (Q ++ NUL :: T) 0); [done|].
    destruct (path__is_unc (Q ++ NUL :: T) 0) eqn:Eu; [|done].
    destruct (unc_inv _ _ Eu) as (c & Q' & -> & _).
    unfold path__skip_server.
    change (drop (0 + 2) ((c :: c :: Q') ++ NUL :: T)) with (Q' ++ NUL :: T).
    change (drop (0 + 2) ((c :: c :: Q') ++ NUL :: T')) with (Q' ++ NUL :: T').
    by rewrite !skip_server_off_app_nul.
Qed.

(** The canonical form depends on the string a buffer holds, not on
    the cells behind its terminator. *)
Lemma canonical_form_string (b1 b2 : list wchar) :
  NUL ∈ b1 -> NUL ∈ b2 -> str_of b1 = str_of b2 ->
  canonical_form b1 = canonical_form b2.
Proof.
  intros H1 H2 E.
  destruct (nul_split b1 H1) as (Q1 & T1 & -> & HQ1).
  destruct (nul_split b2 H2) as (Q2 & T2 & -> & HQ2).
  rewrite !str_of_app_nul in E by done. subst Q2.
  rewrite !canonical_form_app by done.
  by rewrite (skip_prefix_tail Q1 T1 T2).
Qed.

(** The same as [canon_str], for any buffer that holds a string. *)
Lemma canon_buf (path : list wchar) : NUL ∈ path ->
  exists buf,
    git_win32_path_canonicalize path
    = Some (buf, Z.of_nat (length (canonical_form path))) /\
    str_of buf = canonical_form path.
Proof.
  intros Hnul. destruct (nul_split path Hnul) as (Q & T & -> & HQ).
  destruct (canon_str Q T HQ) as (buf & Hc & Hs & _). by exists buf.
Qed.

Lemma wcslen_tail (X T T' : list wchar) :
  wcslen (X ++ NUL :: T) = wcslen (X ++ NUL :: T').
Proof.
  induction X as [|c X IH]; [done|]. cbn [app wcslen]. by rewrite IH.
Qed.

Lemma wcslen_app_le (X Y : list wchar) : (wcslen (X ++ NUL :: Y) <= length X)%nat.
Proof.
  induction X as [|c X IH]; [done|]. cbn [app wcslen length].
  destruct (c =? NUL); lia.
Qed.

Lemma str_of_tail (X T T' : list wchar) :
  str_of (X ++ NUL :: T) = str_of (X ++ NUL :: T').
Proof.
  unfold str_of. rewrite (wcslen_tail X T T').
  pose proof (wcslen_app_le X T') as Hle.
  by rewrite !take_app_le by done.
Qed.

(** * Text to native: the namespace marker *)

Lemma canon_keeps_namespace (path : list wchar) :
  take 4 path = PATH__NT_NAMESPACE -> NUL ∈ path ->
  exists buf n,
    git_win32_path_canonicalize path = Some (buf, n) /\
    take 4 buf = PATH__NT_NAMESPACE /\ 4 <= n.
Proof.
  intros Hnt Hnul. destruct (nul_split path Hnul) as (Q & T & -> & HQ).
  assert (HQ4 : exists Q', Q = BSLASH :: BSLASH :: QMARK :: BSLASH :: Q').
  { destruct Q as [|c0 [|c1 [|c2 [|c3 Q']]]]; cbn in Hnt; try done.
    injection Hnt as -> -> -> ->. by exists Q'. }
  destruct HQ4 as (Q' & ->).
  destruct (canon_shape _ T HQ) as (segs & tl & _ & Hc & _ & Hle).
  set (b := path__skip_prefix ((BSLASH :: BSLASH :: QMARK :: BSLASH :: Q') ++ NUL :: T) 0) in *.
  assert (Hb : (4 <= b)%nat).
  { unfold b. cbn [app]. rewrite skip_prefix_nt.
    destruct (wcsncmp _ UNC_MARK 4 =? 0); [lia|]. destruct (path__is_absolute _ 0); lia. }
  eexists _, _. split; [exact Hc|]. split; [|lia].
  destruct b as [|[|[|[|b']]]]; try lia. done.
Qed.

Lemma namespace_length (o : list wchar) :
  take 4 o = PATH__NT_NAMESPACE -> (4 <= length o)%nat.
Proof.
  destruct o as [|c0 [|c1 [|c2 [|c3 o]]]]; cbn; try done. intros _. lia.
Qed.

Lemma take4_app (o X : list wchar) k :
  take 4 o = PATH__NT_NAMESPACE -> (4 <= k)%nat ->
  take 4 (take k o ++ X) = PATH__NT_NAMESPACE.
Proof.
  intros Ho Hk. pose proof (namespace_length o Ho).
  rewrite take_app_le by (rewrite length_take; lia).
  rewrite take_take. by replace (4 `min` k)%nat with 4%nat by lia.
Qed.

Lemma utf8_at_namespace E (o o' : list wchar) dest size src :
  utf8_to_16_at E o dest size src = Ok o' ->
  (4 <= dest)%nat -> take 4 o = PATH__NT_NAMESPACE ->
  take 4 o' = PATH__NT_NAMESPACE /\ NUL ∈ o'.
Proof.
  unfold utf8_to_16_at. destruct (git__utf8_to_16 E size (str_of src)) as [w|]; [|done].
  intros [= <-] Hd Ho. unfold store. split.
  - by apply take4_app.
  - apply elem_of_app. right. apply elem_of_app. left.
    apply elem_of_app. right. left.
Qed.

(** X21. Every native path built from text is in the namespace form:
    whatever the text and the current directory, a successful
    conversion leaves a buffer that begins with the four-unit marker,
    and returns a length of at least four. *)
Theorem from_utf8_namespace (E : win32_env) (out : list wchar) (src : list Z)
    (buf : list wchar) (n : Z) :
  git_win32_path_from_utf8 E out src = Ok (buf, n) ->
  take 4 buf = PATH__NT_NAMESPACE /\ 4 <= n.
Proof.
  unfold git_win32_path_from_utf8.
  set (out1 := store out 0 PATH__NT_NAMESPACE).
  assert (H1 : take 4 out1 = PATH__NT_NAMESPACE).
  { unfold out1. by rewrite store_nt. }
  set (converted := if path__is_absolute src 0 then _ else _).
  assert (Hconv : forall o', converted = Ok o' ->
            take 4 o' = PATH__NT_NAMESPACE /\ NUL ∈ o').
  { intros o'. unfold converted.
    destruct (path__is_absolute src 0).
    { intros Hc. by apply (utf8_at_namespace _ _ _ _ _ _ Hc). }
    destruct (path__is_nt_namespace src 0).
    { intros Hc. by apply (utf8_at_namespace _ _ _ _ _ _ Hc). }
    destruct (path__is_unc src 0).
    { intros Hc. apply (utf8_at_namespace _ _ _ _ _ _ Hc); [unfold PATH__NT_NAMESPACE_LEN; lia|].
      unfold store. by apply take4_app. }
    destruct ((rd src 0 =? BSLASH) || (rd src 0 =? SLASH)).
    - destruct (path__cwd E _ MAX_PATH) as [[cells len]|e]; [|done].
      destruct (negb _); [done|].
      intros Hc. apply (utf8_at_namespace _ _ _ _ _ _ Hc); [unfold PATH__NT_NAMESPACE_LEN; lia|].
      by apply take4_app.
    - destruct (git_win32_path__cwd E _ MAX_PATH) as [[cells len]|e]; [|done].
      intros Hc. apply (utf8_at_namespace _ _ _ _ _ _ Hc); [unfold PATH__NT_NAMESPACE_LEN; lia|].
      rewrite take_insert by (unfold PATH__NT_NAMESPACE_LEN; lia).
      by apply take4_app. }
  destruct converted as [o'|e]; [|done].
  destruct (Hconv o' eq_refl) as [Hnt Hnul].
  destruct (canon_keeps_namespace o' Hnt Hnul) as (buf' & n' & -> & Hb & Hn).
  by intros [= <- <-].
Qed.

(** * Text to native: the current directory *)

Section Cwd.
Variable E : win32_env.
Variables (dir : list wchar).
Hypothesis Hcwd : GetCurrentDirectoryW E MAX_PATH = (Z.of_nat (length dir), dir).
Hypothesis Hne : dir <> [].
Hypothesis Hhd : hd NUL dir <> BSLASH.

(** A directory that is not in the namespace form is stored as it
    is. *)
Lemma path__cwd_plain (path : list wchar) :
  Z.of_nat (length dir) <= MAX_PATH ->
  path__cwd E path MAX_PATH
  = Ok (dir ++ NUL :: drop (S (length dir)) path, Z.of_nat (length dir)).
Proof.
  intros Hlen. unfold path__cwd. rewrite Hcwd.
  assert (Hl0 : (Z.of_nat (length dir) =? 0) = false).
  { apply Z.eqb_neq. destruct dir; [done|]. simpl. lia. }
  rewrite Hl0.
  replace (Z.of_nat (length dir) >? MAX_PATH) with false by (symmetry; rewrite Z.gtb_ltb; apply Z.ltb_ge; lia).
  assert (Hst : store path 0 (dir ++ [NUL]) = dir ++ NUL :: drop (S (length dir)) path).
  { unfold store. rewrite take_0, length_app. cbn [app length Nat.add].
    rewrite <- app_assoc. cbn [app]. do 3 f_equal. lia. }
  rewrite Hst.
  assert (Hcmp : (wcsncmp (dir ++ NUL :: drop (S (length dir)) path)
                          PATH__NT_NAMESPACE PATH__NT_NAMESPACE_LEN =? 0) = false).
  { destruct dir as [|c d]; [done|]. cbn [hd] in Hhd.
    cbn [app wcsncmp PATH__NT_NAMESPACE PATH__NT_NAMESPACE_LEN hd].
    replace (c =? BSLASH) with false by (symmetry; by apply Z.eqb_neq).
    apply Z.eqb_neq. unfold BSLASH in *. lia. }
  by rewrite Hcmp.
Qed.

Lemma git_win32_path__cwd_plain (path : list wchar) :
  Z.of_nat (length dir) <= MAX_PATH - 2 ->
  git_win32_path__cwd E path MAX_PATH
  = Ok (dir ++ NUL :: drop (S (length dir)) path, Z.of_nat (length dir)).
Proof.
  intros Hlen. unfold git_win32_path__cwd.
  rewrite path__cwd_plain by (unfold MAX_PATH in *; lia).
  assert (Hcmp : (wcsncmp [BSLASH; BSLASH] (dir ++ NUL :: drop (S (length dir)) path) 2 =? 0)
                 = false).
  { destruct dir as [|c d]; [done|]. cbn [hd] in Hhd.
    cbn [app wcsncmp hd].
    replace (BSLASH =? c) with false by (symmetry; apply Z.eqb_neq; congruence).
    apply Z.eqb_neq. unfold BSLASH in *. lia. }
  rewrite Hcmp.
  by replace (Z.of_nat (length dir) >? MAX_PATH - 2) with false
    by (symmetry; rewrite Z.gtb_ltb; apply Z.ltb_ge; lia).
Qed.

End Cwd.

Lemma store_at (A X data : list wchar) k : k = length A ->
  store (A ++ X) k data = A ++ data ++ drop (length data) X.
Proof. intros ->. apply store_after. Qed.

(** X22. A relative path is placed below the current directory: when
    the directory is not in the namespace or share form and fits, the
    result is the canonical form of the marker, the directory, a
    backslash and the converted text. *)
Theorem from_utf8_relative (E : win32_env) (out : list wchar) (src : list Z)
    (dir w : list wchar) :
  path__is_absolute src 0 = false ->
  path__is_nt_namespace src 0 = false ->
  path__is_unc src 0 = false ->
  path__is_dirsep (rd src 0) = false ->
  GetCurrentDirectoryW E MAX_PATH = (Z.of_nat (length dir), dir) ->
  dir <> [] -> hd NUL dir <> BSLASH ->
  Z.of_nat (length dir) <= MAX_PATH - 2 ->
  git__utf8_to_16 E (MAX_PATH - (Z.of_nat (length dir) + 1)) (str_of src) = Some w ->
  let text := PATH__NT_NAMESPACE ++ dir ++ BSLASH :: w ++ [NUL] in
  exists buf,
    git_win32_path_from_utf8 E out src
    = Ok (buf, Z.of_nat (length (canonical_form text))) /\
    str_of buf = canonical_form text.
Proof.
  intros Ha Hn Hu Hs Hcwd Hne Hhd Hlen Hconv text.
  unfold git_win32_path_from_utf8. rewrite Ha, Hn, Hu.
  replace ((rd src 0 =? BSLASH) || (rd src 0 =? SLASH)) with false.
  2:{ unfold path__is_dirsep in Hs. by rewrite orb_comm. }
  rewrite (git_win32_path__cwd_plain E dir Hcwd Hne Hhd) by done.
  rewrite store_nt.
  change PATH__NT_NAMESPACE_LEN with (length PATH__NT_NAMESPACE).
  rewrite take_app_length, Nat2Z.id.
  set (rest := drop (S (length dir)) (drop (length PATH__NT_NAMESPACE) (PATH__NT_NAMESPACE ++ drop 4 out))).
  assert (Hins : <[(length PATH__NT_NAMESPACE + length dir)%nat := BSLASH]>
                   (PATH__NT_NAMESPACE ++ dir ++ NUL :: rest)
                 = (PATH__NT_NAMESPACE ++ dir) ++ BSLASH :: rest).
  { rewrite app_assoc. rewrite <- length_app.
    replace (length (PATH__NT_NAMESPACE ++ dir)) with (length (PATH__NT_NAMESPACE ++ dir) + 0)%nat at 1 by lia.
    by rewrite insert_app_r. }
  rewrite Hins.
  unfold utf8_to_16_at. rewrite Hconv.
  replace (length PATH__NT_NAMESPACE + Z.to_nat (Z.of_nat (length dir) + 1))%nat
    with (length ((PATH__NT_NAMESPACE ++ dir) ++ [BSLASH])) by (rewrite !length_app; simpl; lia).
  replace ((PATH__NT_NAMESPACE ++ dir) ++ BSLASH :: rest)
    with (((PATH__NT_NAMESPACE ++ dir) ++ [BSLASH]) ++ rest) by (by rewrite <- !app_assoc).
  rewrite store_after.
  set (tail := drop (length (w ++ [NUL])) rest).
  assert (Hbuf : ((PATH__NT_NAMESPACE ++ dir) ++ [BSLASH]) ++ (w ++ [NUL]) ++ tail
                 = (PATH__NT_NAMESPACE ++ dir ++ BSLASH :: w) ++ NUL :: tail).
  { by rewrite <- !app_assoc. }
  rewrite Hbuf.
  destruct (canon_buf ((PATH__NT_NAMESPACE ++ dir ++ BSLASH :: w) ++ NUL :: tail))
    as (buf & Hc & Hstr).
  { apply elem_of_app. right. left. }
  assert (Hcf : canonical_form ((PATH__NT_NAMESPACE ++ dir ++ BSLASH :: w) ++ NUL :: tail)
                = canonical_form text).
  { apply canonical_form_string.
    - apply elem_of_app. right. left.
    - unfold text. apply elem_of_app. right. apply elem_of_app. right. right.
      apply elem_of_app. right. left.
    - unfold text.
      replace (PATH__NT_NAMESPACE ++ dir ++ BSLASH :: w ++ [NUL])
        with ((PATH__NT_NAMESPACE ++ dir ++ BSLASH :: w) ++ NUL :: [])
        by (by rewrite <- !app_assoc).
      apply str_of_tail. }
  exists buf. rewrite Hc, <- Hcf. done.
Qed.

(** X23. A path that begins with one separator takes the drive of the
    current directory and nothing else of it: the result is the
    canonical form of the marker, the drive letter, the colon and the
    converted text. *)
Theorem from_utf8_rooted (E : win32_env) (out : list wchar) (src : list Z)
    (a c : wchar) (dir' w : list wchar) :
  path__is_absolute src 0 = false ->
  path__is_nt_namespace src 0 = false ->
  path__is_unc src 0 = false ->
  path__is_dirsep (rd src 0) = true ->
  let dir := a :: COLON :: c :: dir' in
  GetCurrentDirectoryW E MAX_PATH = (Z.of_nat (length dir), dir) ->
  git__isalpha a = true -> path__is_dirsep c = true ->
  Z.of_nat (length dir) <= MAX_PATH ->
  git__utf8_to_16 E (MAX_PATH - 2) (str_of src) = Some w ->
  let text := PATH__NT_NAMESPACE ++ a :: COLON :: w ++ [NUL] in
  exists buf,
    git_win32_path_from_utf8 E out src
    = Ok (buf, Z.of_nat (length (canonical_form text))) /\
    str_of buf = canonical_form text.
Proof.
  intros Ha Hn Hu Hs dir Hcwd Halpha Hc Hlen Hconv text.
  assert (Hhd : hd NUL dir <> BSLASH).
  { unfold dir. cbn [hd]. intros ->. done. }
  unfold git_win32_path_from_utf8. rewrite Ha, Hn, Hu.
  replace ((rd src 0 =? BSLASH) || (rd src 0 =? SLASH)) with true.
  2:{ unfold path__is_dirsep in Hs. by rewrite orb_comm. }
  rewrite (path__cwd_plain E dir Hcwd) by done.
  rewrite store_nt.
  change PATH__NT_NAMESPACE_LEN with (length PATH__NT_NAMESPACE).
  rewrite take_app_length.
  set (rest := drop (S (length dir)) (drop (length PATH__NT_NAMESPACE) (PATH__NT_NAMESPACE ++ drop 4 out))).
  assert (Habs : path__is_absolute (PATH__NT_NAMESPACE ++ dir ++ NUL :: rest)
                                   (length PATH__NT_NAMESPACE) = true).
  { pose proof (abs_intro_sep a c (dir' ++ NUL :: rest) Halpha Hc) as Hx.
    unfold path__is_absolute, rd in *. exact Hx. }
  rewrite Habs. cbn [negb].
  unfold utf8_to_16_at. rewrite Hconv.
  assert (Hsplit : PATH__NT_NAMESPACE ++ dir ++ NUL :: rest
                   = (PATH__NT_NAMESPACE ++ [a; COLON]) ++ (c :: dir' ++ NUL :: rest)).
  { unfold dir. by rewrite <- !app_assoc. }
  rewrite Hsplit.
  rewrite (store_at (PATH__NT_NAMESPACE ++ [a; COLON])) by done.
  set (tail := drop (length (w ++ [NUL])) (c :: dir' ++ NUL :: rest)).
  assert (Hbuf : (PATH__NT_NAMESPACE ++ [a; COLON]) ++ (w ++ [NUL]) ++ tail
                 = (PATH__NT_NAMESPACE ++ a :: COLON :: w) ++ NUL :: tail).
  { by rewrite <- !app_assoc. }
  rewrite Hbuf.
  destruct (canon_buf ((PATH__NT_NAMESPACE ++ a :: COLON :: w) ++ NUL :: tail))
    as (buf & Hcan & Hstr).
  { apply elem_of_app. right. left. }
  assert (Hcf : canonical_form ((PATH__NT_NAMESPACE ++ a :: COLON :: w) ++ NUL :: tail)
                = canonical_form text).
  { apply canonical_form_string.
    - apply elem_of_app. right. left.
    - unfold text. apply elem_of_app. right. right. right.
      apply elem_of_app. right. left.
    - unfold text.
      replace (PATH__NT_NAMESPACE ++ a :: COLON :: w ++ [NUL])
        with ((PATH__NT_NAMESPACE ++ a :: COLON :: w) ++ NUL :: [])
        by (by rewrite <- !app_assoc).
      apply str_of_tail. }
  exists buf. rewrite Hcan, <- Hcf. done.
Qed.

(** X24. Without a current directory there is no relative path: for a
    text that is neither drive-absolute, nor in the namespace form, nor
    a share path, the conversion fails with EACCES when the directory
    cannot be read for lack of access, with ENOENT when it cannot be
    read for another reason, and with ENAMETOOLONG when it does not
    fit. *)
Theorem from_utf8_cwd_failure (E : win32_env) (out : list wchar) (src : list Z)
    (len : Z) (dir : list wchar) :
  path__is_absolute src 0 = false ->
  path__is_nt_namespace src 0 = false ->
  path__is_unc src 0 = false ->
  GetCurrentDirectoryW E MAX_PATH = (len, dir) ->
  len = 0 \/ len > MAX_PATH ->
  git_win32_path_from_utf8 E out src
  = Fail (if len =? 0
          then if GetLastError E =? ERROR_ACCESS_DENIED then EACCES else ENOENT
          else ENAMETOOLONG).
Proof.
  intros Ha Hn Hu Hcwd Hlen.
  assert (Hp : forall path, path__cwd E path MAX_PATH
            = Fail (if len =? 0
                    then if GetLastError E =? ERROR_ACCESS_DENIED then EACCES else ENOENT
                    else ENAMETOOLONG)).
  { intros path. unfold path__cwd. rewrite Hcwd.
    destruct (len =? 0) eqn:E0; [done|].
    apply Z.eqb_neq in E0.
    replace (len >? MAX_PATH) with true; [done|].
    symmetry. rewrite Z.gtb_ltb. apply Z.ltb_lt. lia. }
  unfold git_win32_path_from_utf8. rewrite Ha, Hn, Hu.
  destruct ((rd src 0 =? BSLASH) || (rd src 0 =? SLASH)).
  - by rewrite Hp.
  - unfold git_win32_path__cwd. by rewrite Hp.
Qed.

(** X30. A current directory on a share is turned into the share form
    of the namespace. The size passed is narrowed to an [int], as the
    source does; when the directory read at that size begins with two
    backslashes not followed by [?], fits the size and is at most
    [MAX_PATH - 4] long, the two leading backslashes become [UNC] and
    one backslash, the length grows by two, and no terminator is
    written behind the result. *)
Theorem cwd_share_form (E : win32_env) (out rest : list wchar) (size : Z) :
  let dir := BSLASH :: BSLASH :: rest in
  GetCurrentDirectoryW E (int_of size) = (Z.of_nat (length dir), dir) ->
  hd NUL rest <> QMARK ->
  Z.of_nat (length dir) <= int_of size ->
  Z.of_nat (length dir) <= MAX_PATH - 4 ->
  git_win32_path__cwd E out size
  = Ok (UNC_MARK ++ rest ++ drop (length dir + 2) out, Z.of_nat (length dir) + 2).
Proof.
  intros dir Hcwd Hq Hsize Hmax.
  unfold git_win32_path__cwd, path__cwd. rewrite Hcwd.
  replace (Z.of_nat (length dir) =? 0) with false by (symmetry; apply Z.eqb_neq; simpl; lia).
  replace (Z.of_nat (length dir) >? int_of size) with false
    by (symmetry; rewrite Z.gtb_ltb; apply Z.ltb_ge; lia).
  assert (Hst : store out 0 (dir ++ [NUL]) = dir ++ NUL :: drop (S (length dir)) out).
  { unfold store. rewrite take_0, length_app. cbn [app length Nat.add].
    rewrite <- app_assoc. cbn [app]. do 3 f_equal. f_equal. lia. }
  rewrite Hst.
  assert (Hcmp : (wcsncmp (dir ++ NUL :: drop (S (length dir)) out)
                          PATH__NT_NAMESPACE PATH__NT_NAMESPACE_LEN =? 0) = false).
  { unfold dir. cbn [app wcsncmp PATH__NT_NAMESPACE PATH__NT_NAMESPACE_LEN hd tl].
    replace (BSLASH =? BSLASH) with true by done.
    replace (BSLASH =? NUL) with false by done.
    destruct rest as [|c rest']; cbn [app hd tl].
    - done.
    - cbn [hd] in Hq. replace (c =? QMARK) with false by (symmetry; by apply Z.eqb_neq).
      apply Z.eqb_neq. unfold QMARK in *. lia. }
  rewrite Hcmp. cbn [negb].
  assert (Hunc : (wcsncmp [BSLASH; BSLASH] (dir ++ NUL :: drop (S (length dir)) out) 2 =? 0)
                 = true) by (unfold dir; reflexivity).
  rewrite Hunc.
  replace (Z.of_nat (length dir) >? MAX_PATH - 4) with false
    by (symmetry; rewrite Z.gtb_ltb; apply Z.ltb_ge; lia).
  f_equal. f_equal. rewrite Nat2Z.id.
  unfold memmove. rewrite drop_0.
  rewrite take_app_length.
  replace (2 + length dir)%nat with (length dir + 2)%nat by lia.
  rewrite drop_app_add.
  assert (Hd : drop 2 (NUL :: drop (S (length dir)) out) = drop (length dir + 2) out).
  { cbn [drop]. rewrite drop_drop. f_equal. lia. }
  rewrite Hd.
  unfold dir. cbn [app take insert list_insert]. done.
Qed.

(** * Reparse points: what a call leaves behind *)

(** X25. A link lookup writes its destination only when it succeeds:
    a failed call returns -1 and leaves the destination buffer as it
    was; a successful one returns a length below the capacity, sets no
    error code, comes from a symbolic link or a mount point whose target
    is neither empty nor a volume, and leaves the canonical target
    string in the destination. *)
Theorem readlink_outcomes (E : win32_env) (dest path : list wchar) :
  (forall t n, 0 <= (git_win32__canonicalize_path E t n).2) ->
  let r := git_win32_path_readlink_w E dest path in
  (rl_ret r < 0 -> rl_ret r = -1 /\ rl_dest r = dest) /\
  (0 <= rl_ret r ->
   rl_ret r < GIT_WIN_PATH_UTF16 E /\ rl_errno r = None /\
   exists reparse_buf nb,
     reparse_at E path = IoctlGives reparse_buf /\
     reparse_names_of reparse_buf = Some nb /\
     target_len_of nb <> 0 /\
     path_is_volume (target_of nb) (target_len_of nb) = false /\
     rl_ret r = (git_win32__canonicalize_path E (target_of nb) (target_len_of nb)).2 /\
     str_of (rl_dest r)
     = str_of (git_win32__canonicalize_path E (target_of nb) (target_len_of nb)).1).
Proof.
  intros Hpos r. unfold r, git_win32_path_readlink_w.
  destruct (reparse_at E path) as [| |reparse_buf] eqn:Eq; cbn [rl_ret rl_dest rl_errno].
  1,2: split; [done|lia].
  destruct (reparse_names_of reparse_buf) as [nb|] eqn:En; cbn [rl_ret rl_dest rl_errno].
  2: split; [done|lia].
  destruct (path_is_volume (target_of nb) (target_len_of nb)) eqn:Ev;
    cbn [rl_ret rl_dest rl_errno].
  1: split; [done|lia].
  destruct (target_len_of nb =? 0) eqn:E0; cbn [negb rl_ret rl_dest rl_errno].
  1: split; [done|lia].
  apply Z.eqb_neq in E0.
  specialize (Hpos (target_of nb) (target_len_of nb)).
  destruct (git_win32__canonicalize_path E (target_of nb) (target_len_of nb))
    as [target' len'] eqn:Ec. cbn [fst snd] in *.
  destruct (GIT_WIN_PATH_UTF16 E >? len') eqn:Ecap; cbn [rl_ret rl_dest rl_errno].
  2: split; [done|lia].
  split; [lia|]. intros _.
  split; [rewrite Z.gtb_ltb in Ecap; by apply Z.ltb_lt|]. split; [done|].
  exists reparse_buf, nb. rewrite Ec. cbn [fst snd]. repeat split; try done.
  unfold store. cbn [take app]. rewrite <- app_assoc. cbn [app].
  apply str_of_app_nul. apply str_of_not_nul.
Qed.

(** * Directory loading: failures and links *)

Section PlainEnd.
Variable E : win32_env.
Variables (flags : Z) (start_stat end_stat : option (list Z)) (repo : list Z).

(** The loop over plain entries, whatever code the enumeration ends
    with. *)
Lemma dirload_loop_plain_end last_error fns : forall f n s,
  Forall (fun fn => plain_ok E repo fn.1 fn.2) ((f, n) :: fns) ->
  work_ok repo (ds_work_path s) ->
  exists s',
    dirload_loop E flags start_stat end_stat repo f
      (stream_of (fst <$> fns) last_error) s
    = (s', if last_error =? ERROR_NO_MORE_FILES then None
           else Some Could_not_get_attributes) /\
    ds_contents s' = ds_contents s ++ kept E flags start_stat end_stat repo ((f, n) :: fns).
Proof.
  induction fns as [|[f' n'] fns IH]; intros f n s Hall Hw;
    apply Forall_cons in Hall as [Hf Hall]; cbn [fst snd] in Hf;
    cbn [dirload_loop fmap list_fmap stream_of fst];
    rewrite (dirload_entry_plain E flags start_stat end_stat repo f s n Hf Hw).
  - destruct (last_error =? ERROR_NO_MORE_FILES); eauto.
  - destruct (IH f' n' (DirloadState ((str_of repo ++ n) ++ 0 :: drop (length (str_of repo ++ n) + 1) (ds_work_path s))
                          (ds_target s)
                          (ds_contents s ++ kept E flags start_stat end_stat repo [(f, n)])) Hall)
      as (s'&Hl&Hc).
    { apply (work_ok_step repo _ n); [done|done|]. destruct Hf as (_&_&Hfit&_).
      by rewrite length_app. }
    exists s'. split; [exact Hl|]. rewrite Hc. cbn [ds_contents].
    rewrite <- app_assoc. f_equal. unfold kept. cbn [mbind list_bind].
    by rewrite app_nil_r.
Qed.

End PlainEnd.

(** X26. An enumeration that breaks off leaves what it has gathered:
    when the directory stream ends with an error other than "no more
    files", the call returns -1 and the collection holds the entries
    found in range up to then, in the order they were found, not
    sorted. *)
Theorem dirload_failure_keeps_partial (E : win32_env) (path : list Z) (prefix_len : nat)
    (flags : Z) (start_stat end_stat : option (list Z))
    (contents : list git_path_with_stat) (work_path : list Z) (target : list wchar)
    pathw f n fns last_error :
  Z.of_nat (length work_path) = PATH__MAX_UNC_LEN ->
  git_win32__findfirstfile_filter E path = Some pathw ->
  FindFirstFileExW E pathw = Some (f, stream_of (fst <$> fns) last_error) ->
  last_error <> ERROR_NO_MORE_FILES ->
  Forall (fun fn => plain_ok E (drop prefix_len path) fn.1 fn.2) ((f, n) :: fns) ->
  git_win32_path_dirload_with_stat E path prefix_len flags start_stat end_stat
    contents work_path target
  = DirloadOut (-1) (Some Could_not_get_attributes)
      (contents ++ kept E flags start_stat end_stat (drop prefix_len path) ((f, n) :: fns)).
Proof.
  intros Hsz Hf Hd Herr Hall. unfold git_win32_path_dirload_with_stat. rewrite Hf, Hd.
  assert (Hlen : (repo_path_len (drop prefix_len path) >? PATH__MAX_UNC_LEN) = false).
  { apply Forall_cons in Hall as [(_&_&Hfit&_) _]. cbn [fst snd] in Hfit.
    rewrite repo_path_len_eq, Z.gtb_ltb. apply Z.ltb_ge. rewrite Nat2Z.inj_add in Hfit. lia. }
  rewrite Hlen.
  assert (Hw : work_ok (drop prefix_len path)
                 (store work_path 0 (str_of (drop prefix_len path)))).
  { rewrite repo_path_len_eq, Z.gtb_ltb in Hlen. apply Z.ltb_ge in Hlen.
    unfold store, work_ok. rewrite take_0. cbn [app Nat.add].
    split; [|by rewrite take_app_length].
    rewrite length_app, length_drop. lia. }
  destruct (dirload_loop_plain_end E flags start_stat end_stat _ last_error fns f n
              (DirloadState _ target contents) Hall Hw) as (s'&->&->).
  replace (last_error =? ERROR_NO_MORE_FILES) with false by (symmetry; by apply Z.eqb_neq).
  done.
Qed.

(** X27. A reparse point that resolves is listed as a link, whatever
    else it is. In a listing that succeeds, of a directory whose
    entries have names, every entry in range that has the reparse
    attribute, whose lookup succeeds and whose target can be measured
    has a record in the collection returned: under its path without a
    trailing separator, with the link type and not the directory type
    (also when the entry has the directory attribute), and with the
    UTF-8 length of the target as its size. *)
Theorem dirload_link_entry (E : win32_env) (root : list Z) (prefix_len : nat)
    (flags : Z) (start_stat end_stat : option (list Z))
    (contents : list git_path_with_stat) (work_path : list Z) (target : list wchar)
    pathw f0 n0 fns last_error f (n : list Z) (dest : list wchar) (bytes : list Z) :
  let out := git_win32_path_dirload_with_stat E root prefix_len flags start_stat
               end_stat contents work_path target in
  Z.of_nat (length work_path) = PATH__MAX_UNC_LEN ->
  git_win32__findfirstfile_filter E root = Some pathw ->
  FindFirstFileExW E pathw = Some (f0, stream_of (fst <$> fns) last_error) ->
  Forall (fun fn => named E (drop prefix_len root) fn.1 fn.2) ((f0, n0) :: fns) ->
  (f, n) ∈ (f0, n0) :: fns ->
  in_range flags start_stat end_stat (str_of (drop prefix_len root) ++ n) = true ->
  Z.land (dwFileAttributes f) FILE_ATTRIBUTE_REPARSE_POINT <> 0 ->
  0 <= rl_ret (git_win32_path_readlink_w E dest (cFileName f)) ->
  git__utf16_to_8 E 0 (str_of (rl_dest (git_win32_path_readlink_w E dest (cFileName f))))
  = Some bytes ->
  dl_error out = 0 ->
  exists ps,
    ps ∈ dl_contents out /\
    ps_name ps = str_of (drop prefix_len root) ++ n /\
    S_ISLNK (st_mode (st ps)) = true /\
    S_ISDIR (st_mode (st ps)) = false /\
    st_size (st ps) = Z.of_nat (length bytes).
Proof.
  intros out Hsz Hf Hd Hall Hin Hrange Hattr Hret Hbytes Herr. subst out.
  set (repo := drop prefix_len root) in *.
  assert (Hfit : Z.of_nat (length (str_of repo)) <= PATH__MAX_UNC_LEN).
  { apply Forall_cons in Hall as [(_&_&Hfit) _]. cbn [fst snd] in Hfit. lia. }
  destruct (dirload_open E root prefix_len flags start_stat end_stat contents
              work_path target pathw f0 _ Hsz Hf Hd Hfit) as [Hw Hout].
  fold repo in Hw, Hout. rewrite Hout in Herr |- *. clear Hout.
  rewrite stream_of_app in Herr |- *.
  change (FindEntry f0 (stream_app (fst <$> fns) (FindEnd last_error)))
    with (stream_app (fst <$> (f0, n0) :: fns) (FindEnd last_error)) in Herr |- *.
  destruct (dirload_rest_named E flags start_stat end_stat repo
              ((f0, n0) :: fns) _ (FindEnd last_error) Hall Hw) as (s' & _ & Hc & He).
  rewrite He in Herr |- *. clear He.
  destruct (collect E flags start_stat end_stat repo ((f0, n0) :: fns)) as [l [e|]] eqn:Hcol;
    cbn [fst snd dirload_rest] in *; [done|].
  destruct (last_error =? ERROR_NO_MORE_FILES); [|done].
  destruct (collect_elem E flags start_stat end_stat repo _ l Hcol f n Hin Hrange)
    as (ps & Hps & Hl).
  unfold entry_record in Hps.
  rewrite (link_target_resolved E f dest Hattr Hret), Hbytes in Hps.
  injection Hps as <-.
  exists (link_entry E f (str_of repo ++ n) bytes). split.
  { cbn [dl_contents]. apply elem_of_vector_sort. rewrite Hc.
    apply elem_of_app. by right. }
  destruct (link_mode f) as (Hlnk & Hdir & _).
  unfold ps_name, link_entry, entry_cells.
  cbn [path_len path st st_mode st_size set_size set_mode].
  rewrite Nat2Z.id, take_app_length. done.
Qed.

Section Unconvertible.
Variable E : win32_env.
Variables (flags : Z) (start_stat end_stat : option (list Z)) (repo : list Z).

(** One loop turn for an entry whose name does not convert: the [-1]
    taken for a length shortens the candidate path to the repo path
    less its last character. *)
Lemma dirload_entry_unconvertible f s :
  git_path_is_dot_or_dotdotW (cFileName f) = false ->
  git__utf16_to_8 E (PATH__MAX_UNC_LEN - repo_path_len repo) (str_of (cFileName f)) = None ->
  unresolved E f ->
  work_ok repo (ds_work_path s) ->
  str_of repo <> [] -> Z.of_nat (length (str_of repo)) < PATH__MAX_UNC_LEN ->
  let p := take (length (str_of repo) - 1) (str_of repo) in
  exists s',
    dirload_entry E flags start_stat end_stat repo f s = (s', None) /\
    ds_contents s'
    = ds_contents s ++
      (if in_range flags start_stat end_stat p then [plain_entry E f p] else []).
Proof.
  intros Hdot Hconv Hu [Hsz Hw] Hne Hfit p.
  set (r := str_of repo) in *. set (w := ds_work_path s) in *.
  assert (HL : repo_path_len repo = Z.of_nat (length r)) by apply repo_path_len_eq.
  assert (Hr1 : (1 <= length r)%nat) by (destruct r; simpl; [done|lia]).
  assert (Hp : length p = (length r - 1)%nat) by (unfold p; rewrite length_take; lia).
  unfold dirload_entry. rewrite Hdot. cbn [negb]. fold w.
  assert (Hewp : entry_work_path E repo f w
                 = (p ++ 0 :: drop (length r) w, Z.of_nat (length p))).
  { unfold entry_work_path. rewrite Hconv, HL.
    assert (Hidx : size_t_of (size_t_of (-1) + Z.of_nat (length r)) = Z.of_nat (length p)).
    { unfold size_t_of. unfold PATH__MAX_UNC_LEN in Hfit.
      replace ((-1) mod 2 ^ 64) with (2 ^ 64 - 1) by done.
      replace (2 ^ 64 - 1 + Z.of_nat (length r))
        with (Z.of_nat (length p) + 1 * 2 ^ 64) by lia.
      rewrite Z.mod_add by lia. apply Z.mod_small. lia. }
    rewrite Hidx, Nat2Z.id. f_equal.
    rewrite <- (take_drop (length r) w) at 1. rewrite Hw.
    rewrite <- (take_drop (length r - 1) r) at 1. fold p.
    rewrite <- app_assoc.
    replace (length p) with (length p + 0)%nat at 1 by lia.
    rewrite insert_app_r.
    destruct (drop (length r - 1) r) as [|x rest] eqn:Edrop.
    { apply (f_equal length) in Edrop. rewrite length_drop in Edrop. simpl in Edrop. lia. }
    assert (rest = []) as ->.
    { apply (f_equal length) in Edrop. rewrite length_drop in Edrop. simpl in Edrop.
      apply nil_length_inv. lia. }
    done. }
  rewrite Hewp. rewrite after_start_take_l, before_end_take_l.
  unfold in_range.
  destruct (after_start flags start_stat p (Z.of_nat (length p))); cbn [andb];
    [|eexists; split; [reflexivity|]; cbn [ds_contents]; by rewrite app_nil_r].
  destruct (before_end flags end_stat p (Z.of_nat (length p)));
    [|eexists; split; [reflexivity|]; cbn [ds_contents]; by rewrite app_nil_r].
  cbn [ds_target ds_contents].
  assert (Er : exists tg, entry_reparse E f (ds_target s) (entry_stat E f)
                          = inl (entry_stat E f, tg)).
  { unfold entry_reparse. destruct Hu as [Hp'|Hfail].
    - unfold plain_attr in Hp'. rewrite Hp'. cbn [Z.eqb negb]. eauto.
    - destruct (negb _); [|eauto].
      replace (rl_ret _ >=? 0) with false; [eauto|].
      symmetry. rewrite Z.geb_leb. apply Z.leb_gt. apply Hfail. }
  destruct Er as [tg ->].
  replace (Z.to_nat (Z.of_nat (length p) + 1)) with (length p + 1)%nat by lia.
  assert (Htake : take (length p + 1) (p ++ 0 :: drop (length r) w) ++ [0]
                  = p ++ [0; 0]).
  { rewrite take_app_add. cbn [take]. rewrite take_0. by rewrite <- app_assoc. }
  rewrite Htake, entry_finish_plain_entry.
  eexists. split; [reflexivity|done].
Qed.

End Unconvertible.

(** X28. A name that cannot be converted is neither reported nor, by
    itself, skipped: the value -1 the converter returns is used as a
    length, which shortens the candidate path to the repo path less its
    last character. When the entries in front of it have names and do
    not resolve as links, the entry itself is not [.] or [..] and does
    not resolve as a link, the repo path is not empty, and the
    shortened path passes the range tests, the entry is in the
    collection the call leaves, under the shortened path, whatever
    follows it in the directory. *)
Theorem dirload_unconvertible_name (E : win32_env) (root : list Z) (prefix_len : nat)
    (flags : Z) (start_stat end_stat : option (list Z))
    (contents : list git_path_with_stat) (work_path : list Z) (target : list wchar)
    pathw g stream (pre : list (WIN32_FIND_DATAW * list Z)) f rest :
  let out := git_win32_path_dirload_with_stat E root prefix_len flags start_stat
               end_stat contents work_path target in
  let r := str_of (drop prefix_len root) in
  Z.of_nat (length work_path) = PATH__MAX_UNC_LEN ->
  git_win32__findfirstfile_filter E root = Some pathw ->
  FindFirstFileExW E pathw = Some (g, stream) ->
  FindEntry g stream = stream_app (fst <$> pre) (FindEntry f rest) ->
  Forall (fun fn => named E (drop prefix_len root) fn.1 fn.2 /\ unresolved E fn.1) pre ->
  git_path_is_dot_or_dotdotW (cFileName f) = false ->
  git__utf16_to_8 E (PATH__MAX_UNC_LEN - repo_path_len (drop prefix_len root))
                  (str_of (cFileName f)) = None ->
  unresolved E f ->
  r <> [] -> Z.of_nat (length r) < PATH__MAX_UNC_LEN ->
  in_range flags start_stat end_stat (take (length r - 1) r) = true ->
  plain_entry E f (take (length r - 1) r) ∈ dl_contents out.
Proof.
  intros out r Hsz Hf Hd Hstream Hall Hdot Hconv Hu Hne Hfit Hrange. subst out.
  set (repo := drop prefix_len root) in *.
  destruct (dirload_open E root prefix_len flags start_stat end_stat contents
              work_path target pathw g stream Hsz Hf Hd) as [Hw ->]; [fold repo r; lia|].
  fold repo in Hw |- *. rewrite Hstream.
  destruct (dirload_rest_named E flags start_stat end_stat repo pre _ (FindEntry f rest)
              (Forall_impl _ _ _ Hall (fun _ H => proj1 H)) Hw) as (s1 & Hw1 & _ & ->).
  rewrite (collect_unresolved E flags start_stat end_stat repo pre
             (Forall_impl _ _ _ Hall (fun _ H => proj2 H))).
  cbn [fst snd dirload_rest]. rewrite dirload_loop_rest.
  destruct (dirload_entry_unconvertible E flags start_stat end_stat repo f s1
              Hdot Hconv Hu Hw1 Hne Hfit) as (s2 & -> & Hc2).
  fold r in Hc2. rewrite Hrange in Hc2.
  pose proof (rest_grows E flags start_stat end_stat repo rest s2) as [k Hk].
  assert (Hin : plain_entry E f (take (length r - 1) r)
                ∈ ds_contents (dirload_rest E flags start_stat end_stat repo rest s2).1).
  { rewrite Hk, Hc2. apply elem_of_app. left. apply elem_of_app. right.
    apply list_elem_of_singleton. done. }
  destruct (dirload_rest E flags start_stat end_stat repo rest s2) as [s3 [e|]];
    cbn [fst dl_contents] in *; [done|].
  by apply elem_of_vector_sort.
Qed.

(** * Short names *)

Lemma rd_insert_other (buf : list wchar) i j x : i <> j -> rd (<[j := x]> buf) i = rd buf i.
Proof. intros Hij. unfold rd. by rewrite list_lookup_insert_ne. Qed.

Lemma rd_insert_nul (buf : list wchar) i : rd (<[i := NUL]> buf) i = NUL.
Proof.
  unfold rd. destruct (decide (i < length buf)%nat) as [Hlt|Hge].
  - by rewrite list_lookup_insert_eq.
  - rewrite lookup_ge_None_2; [done|]. rewrite length_insert. lia.
Qed.

(** The loop writes below [len] only. *)
Lemma strip_bslash_keep n : forall b b' n',
  strip_bslash b n = (b', n') ->
  forall j, (n <= j)%nat -> rd b' j = rd b j.
Proof.
  induction n as [|n IHn]; intros b b' n'; cbn [strip_bslash].
  - by intros [= <- <-].
  - destruct (rd b n =? BSLASH).
    + intros Hx j Hj. rewrite (IHn _ _ _ Hx) by lia.
      apply rd_insert_other. lia.
    + by intros [= <- <-].
Qed.

(** What the loop over trailing backslashes leaves. *)
Lemma strip_bslash_spec len : forall buf buf' len',
  strip_bslash buf len = (buf', len') ->
  (len' <= len)%nat /\
  (len' = O \/ rd buf' (len' - 1) <> BSLASH) /\
  (forall i, (i < len')%nat -> rd buf' i = rd buf i) /\
  (forall i, (len' <= i)%nat -> (i < len)%nat -> rd buf' i = NUL).
Proof.
  induction len as [|l IH]; intros buf buf' len'; cbn [strip_bslash].
  - intros [= <- <-]. repeat split; try done; [by left|]. intros i _ Hi. lia.
  - destruct (rd buf l =? BSLASH) eqn:Eb.
    + intros Hs. destruct (IH _ _ _ Hs) as (Hle & Hlast & Hsame & Hnul).
      split; [lia|]. split; [done|]. split.
      * intros i Hi. rewrite Hsame by done. apply rd_insert_other. lia.
      * intros i Hi1 Hi2. destruct (decide (i = l)) as [->|Hne].
        -- rewrite (strip_bslash_keep _ _ _ _ Hs) by lia. apply rd_insert_nul.
        -- apply Hnul; lia.
    + intros [= <- <-]. split; [lia|]. split.
      * right. replace (S l - 1)%nat with l by lia. by apply Z.eqb_neq.
      * split; [done|]. intros i Hi1 Hi2. lia.
Qed.

(** What the walk back to the last separator finds. *)
Lemma name_start_spec buf s : forall k start namelen,
  name_start buf s k = (start, namelen) ->
  (start <= s)%nat /\ namelen = (k + (s - start))%nat /\
  (forall i, (start <= i)%nat -> (i < s)%nat -> path__is_dirsep (rd buf i) = false) /\
  (start = O \/ path__is_dirsep (rd buf (start - 1)) = true).
Proof.
  induction s as [|s IH]; intros k start namelen; cbn [name_start].
  - intros [= <- <-]. split; [lia|]. split; [lia|]. split; [intros; lia|by left].
  - destruct (negb (rd buf s =? SLASH) && negb (rd buf s =? BSLASH)) eqn:Ec.
    + intros Hn. destruct (IH _ _ _ Hn) as (Hle & Hk & Hno & Hsep).
      split; [lia|]. split; [lia|]. split; [|done].
      intros i Hi1 Hi2. destruct (decide (i = s)) as [->|Hne]; [|apply Hno; lia].
      unfold path__is_dirsep. apply andb_prop in Ec as [E1 E2].
      apply negb_true_iff in E1, E2. by rewrite E1, E2.
    + intros [= <- <-]. split; [lia|]. split; [lia|]. split; [intros; lia|].
      right. replace (S s - 1)%nat with s by lia.
      unfold path__is_dirsep.
      destruct (rd buf s =? SLASH); [done|]. destruct (rd buf s =? BSLASH); done.
Qed.

(** X29. The short name returned is the last name of the short path:
    trailing backslashes are cut off, the name runs from behind the
    last separator in front of the last character to the end, it is
    at most twelve units long, and what is returned is its conversion. *)
Theorem short_name_is_last_name (E : win32_env)
    (GetShortPathNameW : list wchar -> list wchar -> Z -> nat * list wchar)
    (git__malloc : Z -> bool)
    (longpath shortpath : list wchar) (path name : list Z) :
  git_win32_path_8dot3_name E GetShortPathNameW git__malloc longpath shortpath path
  = Some name ->
  exists longpath' n len sp sp' len' start,
    git_win32_path_from_utf8 E longpath path = Ok (longpath', n) /\
    GetShortPathNameW longpath' shortpath (GIT_WIN_PATH_UTF16 E) = (len, sp) /\
    strip_bslash sp len = (sp', len') /\
    (len' <= len)%nat /\ Z.of_nat len' < GIT_WIN_PATH_UTF16 E /\
    rd sp' (len' - 1) <> BSLASH /\
    (forall i, (len' <= i)%nat -> (i < len)%nat -> rd sp' i = NUL) /\
    last_name sp' len' start /\ (len' - start <= 12)%nat /\
    git__utf16_to_8 E (Z.of_nat (len' - start) + 1) (str_of (drop start sp')) = Some name.
Proof.
  unfold git_win32_path_8dot3_name.
  destruct (git_win32_path_from_utf8 E longpath path) as [[longpath' n]|e]; [|done].
  destruct (GetShortPathNameW longpath' shortpath (GIT_WIN_PATH_UTF16 E)) as [len sp] eqn:Eg.
  destruct (strip_bslash sp len) as [sp' len'] eqn:Es.
  destruct (strip_bslash_spec _ _ _ _ Es) as (Hle & Hlast & _ & Hnul).
  destruct ((len' =? 0)%nat || (Z.of_nat len' >=? GIT_WIN_PATH_UTF16 E)) eqn:Eb; [done|].
  apply orb_false_iff in Eb as [E0 Ecap]. apply Nat.eqb_neq in E0.
  destruct (name_start sp' (len' - 1) 1) as [start namelen] eqn:En.
  destruct (name_start_spec _ _ _ _ _ En) as (Hst & Hnl & Hno & Hsep).
  destruct ((12 <? namelen)%nat || negb (git__malloc (Z.of_nat namelen + 1))) eqn:Em; [done|].
  apply orb_false_iff in Em as [E12 _]. apply Nat.ltb_ge in E12.
  assert (Hnamelen : namelen = (len' - start)%nat) by lia.
  intros Hconv.
  exists longpath', n, len, sp, sp', len', start.
  repeat split; try done.
  - rewrite Z.geb_leb in Ecap. apply Z.leb_gt in Ecap. lia.
  - by destruct Hlast.
  - lia.
  - intros i Hi1 Hi2. apply Hno; lia.
  - lia.
  - by rewrite <- Hnamelen.
Qed.

(** * The statements about the matcher, on examples *)

Ltac by_computation := apply (bool_decide_unpack _); vm_compute; exact I.

Ltac all_literal :=
  match goal with
  | |- Forall _ ?l => let l' := eval vm_compute in l in change l with l'
  end;
  repeat (constructor; [repeat split; discriminate |]); constructor.

Lemma fnmatch_depth_bound_witness :
  exists r, p_fnmatch example_fnm (cstr "*a*b") (cstr "xaxb") 0 = Some r /\
            (r = 0 \/ r = FNM_NOMATCH example_fnm).
Proof. apply fnmatch_depth_bound. vm_compute. lia. Defined.

Lemma fnmatch_literal_witness :
  p_fnmatch example_fnm (wstr "abc" ++ EOS :: []) (wstr "abd" ++ EOS :: []) 0
  = Some (if bool_decide (wstr "abd" = wstr "abc") then 0 else FNM_NOMATCH example_fnm).
Proof.
  apply fnmatch_literal; [all_literal | by_computation | reflexivity | reflexivity].
Defined.

Lemma fnmatch_question_marks_witness :
  p_fnmatch example_fnm (replicate 3 QMARK ++ EOS :: []) (wstr "a/c" ++ EOS :: []) 0
  = Some (if bool_decide (length (wstr "a/c") = 3%nat) then 0 else FNM_NOMATCH example_fnm).
Proof.
  apply fnmatch_question_marks; [by_computation | reflexivity ..].
Defined.

Lemma fnmatch_trailing_star_witness :
  p_fnmatch example_fnm (wstr "ab" ++ STAR :: EOS :: []) (wstr "ab/c" ++ EOS :: []) 0
  = Some (if bool_decide (wstr "ab" `prefix_of` wstr "ab/c") then 0
          else FNM_NOMATCH example_fnm).
Proof.
  apply fnmatch_trailing_star; [all_literal | by_computation | reflexivity ..].
Defined.

Lemma fnmatch_star_stops_at_slash_witness :
  p_fnmatch example_fnm (wstr "a" ++ STAR :: EOS :: []) (wstr "ab/c" ++ EOS :: [])
            (FNM_PATHNAME example_fnm)
  = Some (if bool_decide (wstr "a" `prefix_of` wstr "ab/c" /\
                          SLASH ∉ drop (length (wstr "a")) (wstr "ab/c"))
          then 0 else FNM_NOMATCH example_fnm).
Proof.
  apply fnmatch_star_stops_at_slash; [all_literal | by_computation | reflexivity ..].
Defined.

Lemma fnmatch_double_star_witness :
  p_fnmatch example_fnm (wstr "a" ++ STAR :: STAR :: EOS :: []) (wstr "ab/c" ++ EOS :: [])
            (FNM_PATHNAME example_fnm)
  = Some (if bool_decide (wstr "a" `prefix_of` wstr "ab/c") then 0
          else FNM_NOMATCH example_fnm).
Proof.
  apply fnmatch_double_star; [all_literal | by_computation | reflexivity ..].
Defined.

Lemma fnmatch_leading_star_witness :
  p_fnmatch example_fnm (STAR :: wstr ".c" ++ EOS :: []) (wstr "a.c.c" ++ EOS :: []) 0
  = Some (if bool_decide (wstr ".c" `suffix_of` wstr "a.c.c") then 0
          else FNM_NOMATCH example_fnm).
Proof.
  apply fnmatch_leading_star;
    [all_literal | discriminate | by_computation | discriminate | reflexivity ..].
Defined.

Lemma fnmatch_bracket_set_witness :
  p_fnmatch example_fnm (LBRACKET :: RBRACKET :: wstr "ab" ++ RBRACKET :: EOS :: [])
            (wstr "]" ++ EOS :: []) 0
  = Some (match wstr "]" with
          | [t] => if bool_decide (t ∈ RBRACKET :: wstr "ab") then 0
                   else FNM_NOMATCH example_fnm
          | _ => FNM_NOMATCH example_fnm
          end).
Proof.
  apply fnmatch_bracket_set;
    [discriminate | discriminate | discriminate | discriminate
    | all_literal | by_computation | reflexivity ..].
Defined.

Lemma fnmatch_bracket_negated_witness :
  p_fnmatch example_fnm (LBRACKET :: CARET :: 97 :: wstr "b" ++ RBRACKET :: EOS :: [])
            (wstr "c" ++ EOS :: []) 0
  = Some (match wstr "c" with
          | [t] => if bool_decide (t ∈ 97 :: wstr "b") then FNM_NOMATCH example_fnm
                   else 0
          | _ => FNM_NOMATCH example_fnm
          end).
Proof.
  apply fnmatch_bracket_negated;
    [right; reflexivity | discriminate | discriminate
    | all_literal | by_computation | reflexivity ..].
Defined.

Lemma fnmatch_bracket_range_witness :
  p_fnmatch example_fnm (LBRACKET :: 97 :: DASH :: 122 :: RBRACKET :: EOS :: [])
            (wstr "m" ++ EOS :: []) 0
  = Some (match wstr "m" with
          | [t] => if (97 <=? t) && (t <=? 122) then 0 else FNM_NOMATCH example_fnm
          | _ => FNM_NOMATCH example_fnm
          end).
Proof.
  apply fnmatch_bracket_range;
    [by_computation | by_computation | by_computation
    | discriminate | discriminate | discriminate | discriminate
    | discriminate | discriminate | discriminate
    | by_computation | reflexivity ..].
Defined.

Lemma fnmatch_escaped_witness :
  p_fnmatch example_fnm (escaped (wstr "*?[") ++ EOS :: []) (wstr "*?[" ++ EOS :: []) 0
  = Some (if bool_decide (wstr "*?[" = wstr "*?[") then 0 else FNM_NOMATCH example_fnm).
Proof.
  apply fnmatch_escaped; [by_computation | by_computation | reflexivity ..].
Defined.

Lemma fnmatch_open_bracket_witness :
  p_fnmatch example_fnm (LBRACKET :: wstr "ab" ++ EOS :: []) (wstr "[ab" ++ EOS :: []) 0
  = Some (if bool_decide (wstr "[ab" = LBRACKET :: wstr "ab") then 0
          else FNM_NOMATCH example_fnm).
Proof.
  apply fnmatch_open_bracket;
    [all_literal | by_computation | by_computation | reflexivity ..].
Defined.

Lemma fnmatch_leading_period_witness :
  p_fnmatch example_fnm (cstr "*") (cstr ".git") (FNM_PERIOD example_fnm)
  = Some (FNM_NOMATCH example_fnm).
Proof.
  apply fnmatch_leading_period;
    [reflexivity | reflexivity | reflexivity | right; left; reflexivity].
Defined.

Lemma fnmatch_casefold_witness :
  p_fnmatch example_fnm (wstr "Abc" ++ EOS :: []) (wstr "aBC" ++ EOS :: [])
            (FNM_CASEFOLD example_fnm)
  = Some (if fold_equal example_fnm (wstr "Abc") (wstr "aBC") then 0
          else FNM_NOMATCH example_fnm).
Proof.
  apply fnmatch_casefold;
    [all_literal
    | all_literal
    | by_computation | reflexivity ..].
Defined.

Lemma fnmatch_leading_dir_witness :
  p_fnmatch example_fnm (wstr "a" ++ EOS :: []) (wstr "a/b" ++ EOS :: [])
            (FNM_LEADING_DIR example_fnm)
  = Some (if bool_decide (wstr "a/b" = wstr "a" \/ (wstr "a" ++ [SLASH]) `prefix_of` wstr "a/b")
          then 0 else FNM_NOMATCH example_fnm).
Proof.
  apply fnmatch_leading_dir; [all_literal | by_computation | reflexivity ..].
Defined.

(** * The statements about native paths, on examples *)

Lemma canonicalize_computes_witness :
  exists buf,
    git_win32_path_canonicalize (cstr "C:/a/./b/../c")
    = Some (buf, Z.of_nat (length (canonical_form (cstr "C:/a/./b/../c")))) /\
    str_of buf = canonical_form (cstr "C:/a/./b/../c").
Proof. apply canonicalize_computes. by_computation. Defined.

Lemma canonicalize_in_place_witness :
  exists buf n,
    git_win32_path_canonicalize (cstr "C:/a/../b" ++ wstr "rest") = Some (buf, n) /\
    length buf = length (cstr "C:/a/../b" ++ wstr "rest") /\
    drop (S (wcslen (cstr "C:/a/../b" ++ wstr "rest"))) buf
    = drop (S (wcslen (cstr "C:/a/../b" ++ wstr "rest"))) (cstr "C:/a/../b" ++ wstr "rest").
Proof. apply canonicalize_in_place. by_computation. Defined.

Lemma canonicalize_separator_spelling_witness :
  exists buf1 buf2 n,
    git_win32_path_canonicalize (wstr "C:/a\b" ++ NUL :: []) = Some (buf1, n) /\
    git_win32_path_canonicalize (wstr "C:\a/b" ++ NUL :: []) = Some (buf2, n) /\
    str_of buf1 = str_of buf2.
Proof.
  apply canonicalize_separator_spelling;
    [by_computation | by_computation | reflexivity | reflexivity].
Defined.

Lemma unc_share_is_below_root_witness :
  path__skip_prefix
    (BSLASH :: BSLASH :: wstr "srv" ++ BSLASH :: wstr "share" ++
     SLASH :: DOT :: DOT :: NUL :: []) 0
  = (3 + length (wstr "srv"))%nat /\
  exists buf,
    git_win32_path_canonicalize
      (BSLASH :: BSLASH :: wstr "srv" ++ BSLASH :: wstr "share" ++
       SLASH :: DOT :: DOT :: NUL :: [])
    = Some (buf, Z.of_nat (3 + length (wstr "srv"))) /\
    str_of buf = BSLASH :: BSLASH :: wstr "srv" ++ [BSLASH].
Proof.
  apply (unc_share_is_below_root BSLASH BSLASH SLASH (wstr "srv") (wstr "share") []);
    [left; reflexivity | reflexivity | reflexivity | all_literal
    | by_computation | solve_good].
Defined.

Lemma from_utf8_namespace_witness :
  exists buf n,
    git_win32_path_from_utf8 plain_host [] (cstr "foo") = Ok (buf, n) /\
    take 4 buf = PATH__NT_NAMESPACE /\ 4 <= n.
Proof.
  eexists _, _. split; [vm_compute; reflexivity |].
  apply (from_utf8_namespace plain_host [] (cstr "foo")). vm_compute. reflexivity.
Defined.

Lemma from_utf8_relative_witness :
  exists buf,
    git_win32_path_from_utf8 plain_host [] (cstr "a/../b")
    = Ok (buf, Z.of_nat (length (canonical_form
              (PATH__NT_NAMESPACE ++ wstr "C:\" ++ BSLASH :: wstr "a/../b" ++ [NUL])))) /\
    str_of buf
    = canonical_form (PATH__NT_NAMESPACE ++ wstr "C:\" ++ BSLASH :: wstr "a/../b" ++ [NUL]).
Proof.
  apply (from_utf8_relative plain_host [] (cstr "a/../b") (wstr "C:\") (wstr "a/../b"));
    [reflexivity | reflexivity | reflexivity | reflexivity | reflexivity
    | discriminate | by_computation | by_computation | reflexivity].
Defined.

Lemma from_utf8_rooted_witness :
  exists buf,
    git_win32_path_from_utf8 plain_host [] (cstr "/x/y")
    = Ok (buf, Z.of_nat (length (canonical_form
              (PATH__NT_NAMESPACE ++ 67 :: COLON :: wstr "/x/y" ++ [NUL])))) /\
    str_of buf
    = canonical_form (PATH__NT_NAMESPACE ++ 67 :: COLON :: wstr "/x/y" ++ [NUL]).
Proof.
  apply (from_utf8_rooted plain_host [] (cstr "/x/y") 67 BSLASH [] (wstr "/x/y"));
    [reflexivity | reflexivity | reflexivity | reflexivity | reflexivity
    | reflexivity | reflexivity | by_computation | reflexivity].
Defined.

Lemma from_utf8_cwd_failure_witness :
  git_win32_path_from_utf8 no_cwd_host [] (cstr "foo")
  = Fail (if 0 =? 0
          then if GetLastError no_cwd_host =? ERROR_ACCESS_DENIED then EACCES else ENOENT
          else ENAMETOOLONG).
Proof.
  apply (from_utf8_cwd_failure no_cwd_host [] (cstr "foo") 0 []);
    [reflexivity | reflexivity | reflexivity | reflexivity | left; reflexivity].
Defined.

Lemma cwd_share_form_witness :
  git_win32_path__cwd share_cwd_host [] MAX_PATH
  = Ok (UNC_MARK ++ wstr "srv\share" ++
        drop (length (BSLASH :: BSLASH :: wstr "srv\share") + 2) [],
        Z.of_nat (length (BSLASH :: BSLASH :: wstr "srv\share")) + 2).
Proof.
  apply (cwd_share_form share_cwd_host [] (wstr "srv\share") MAX_PATH);
    [reflexivity | by_computation | by_computation | by_computation].
Defined.

Example cwd_size_is_narrowed :
  git_win32_path__cwd share_cwd_host [] (2 ^ 32) = Fail ENAMETOOLONG.
Proof. reflexivity. Qed.

Lemma readlink_outcomes_witness :
  let r := git_win32_path_readlink_w link_host [] (cstr "lnk") in
  (rl_ret r < 0 -> rl_ret r = -1 /\ rl_dest r = []) /\
  (0 <= rl_ret r ->
   rl_ret r < GIT_WIN_PATH_UTF16 link_host /\ rl_errno r = None /\
   exists reparse_buf nb,
     reparse_at link_host (cstr "lnk") = IoctlGives reparse_buf /\
     reparse_names_of reparse_buf = Some nb /\
     target_len_of nb <> 0 /\
     path_is_volume (target_of nb) (target_len_of nb) = false /\
     rl_ret r
     = (git_win32__canonicalize_path link_host (target_of nb) (target_len_of nb)).2 /\
     str_of (rl_dest r)
     = str_of (git_win32__canonicalize_path link_host (target_of nb) (target_len_of nb)).1).
Proof.
  apply (readlink_outcomes link_host [] (cstr "lnk")).
  intros t n. cbn. lia.
Defined.

Lemma dirload_failure_keeps_partial_witness :
  git_win32_path_dirload_with_stat broken_stream_host [NUL] 0 0 None None []
    example_work_path []
  = DirloadOut (-1) (Some Could_not_get_attributes)
      ([] ++ kept broken_stream_host 0 None None (drop 0 [NUL])
                  ((example_entry "b" 0x20, wstr "b") :: tail broken_stream_entries)).
Proof.
  apply (dirload_failure_keeps_partial broken_stream_host [NUL] 0 0 None None []
           example_work_path [] [NUL] (example_entry "b" 0x20) (wstr "b")
           (tail broken_stream_entries) ERROR_ACCESS_DENIED);
    [vm_compute; reflexivity | reflexivity | reflexivity | discriminate |].
  repeat (constructor;
          [split; [reflexivity |];
           split; [reflexivity |];
           split; [vm_compute; reflexivity | reflexivity] |]).
  constructor.
Defined.

Lemma dirload_link_entry_witness :
  exists ps,
    ps ∈ dl_contents (git_win32_path_dirload_with_stat mixed_host [NUL] 0 0
                        (Some (wstr "b")) None [] example_work_path []) /\
    ps_name ps = str_of (drop 0 [NUL]) ++ wstr "lnk" /\
    S_ISLNK (st_mode (st ps)) = true /\
    S_ISDIR (st_mode (st ps)) = false /\
    st_size (st ps) = Z.of_nat (length (wstr "C:\t")).
Proof.
  apply (dirload_link_entry mixed_host [NUL] 0 0 (Some (wstr "b")) None []
           example_work_path [] [NUL] (example_entry "a" 0x20) (wstr "a")
           (tail mixed_entries) ERROR_NO_MORE_FILES
           (example_entry "lnk" 0x410) (wstr "lnk") [] (wstr "C:\t"));
    [vm_compute; reflexivity | reflexivity | reflexivity
    | repeat (constructor;
              [split; [reflexivity | split; [reflexivity | vm_compute; reflexivity]] |]);
      constructor
    | apply list_elem_of_further, list_elem_of_here
    | vm_compute; reflexivity | vm_compute; discriminate
    | vm_compute; discriminate | reflexivity | vm_compute; reflexivity].
Defined.

Example mixed_listing :
  let out := git_win32_path_dirload_with_stat mixed_host [NUL] 0 0
               (Some (wstr "b")) None [] example_work_path [] in
  dl_error out = 0 /\
  ps_name <$> dl_contents out = [wstr "lnk"; wstr "z"] /\
  (fun ps => S_ISLNK (st_mode (st ps))) <$> dl_contents out = [true; false].
Proof. vm_compute. repeat split; reflexivity. Qed.

Lemma dirload_unconvertible_name_witness :
  plain_entry odd_second_host odd_name_entry
    (take (length (str_of (drop 0 (cstr "d/"))) - 1) (str_of (drop 0 (cstr "d/"))))
  ∈ dl_contents (git_win32_path_dirload_with_stat odd_second_host (cstr "d/") 0 0
                   None (Some (wstr "e")) [] example_work_path []).
Proof.
  apply (dirload_unconvertible_name odd_second_host (cstr "d/") 0 0 None (Some (wstr "e")) []
           example_work_path [] [NUL] (example_entry "a" 0x20)
           (FindEntry odd_name_entry (FindEnd ERROR_NO_MORE_FILES))
           [(example_entry "a" 0x20, wstr "a")] odd_name_entry
           (FindEnd ERROR_NO_MORE_FILES));
    [vm_compute; reflexivity | reflexivity | reflexivity | reflexivity
    | repeat (constructor;
              [split; [split; [reflexivity | split; [reflexivity | vm_compute; reflexivity]]
                      | left; reflexivity] |]);
      constructor
    | reflexivity | reflexivity | left; reflexivity
    | vm_compute; discriminate | vm_compute; reflexivity | vm_compute; reflexivity].
Defined.

Example unconvertible_listing :
  let out := git_win32_path_dirload_with_stat odd_second_host (cstr "d/") 0 0
               None None [] example_work_path [] in
  dl_error out = 0 /\
  str_of <$> (path <$> dl_contents out) = [wstr "d"; wstr "d/a"].
Proof. vm_compute. repeat split; reflexivity. Qed.

Lemma short_name_is_last_name_witness :
  exists longpath' n len sp sp' len' start,
    git_win32_path_from_utf8 plain_host [] (cstr "C:\Program Files") = Ok (longpath', n) /\
    example_short_path longpath' [] (GIT_WIN_PATH_UTF16 plain_host) = (len, sp) /\
    strip_bslash sp len = (sp', len') /\
    (len' <= len)%nat /\ Z.of_nat len' < GIT_WIN_PATH_UTF16 plain_host /\
    rd sp' (len' - 1) <> BSLASH /\
    (forall i, (len' <= i)%nat -> (i < len)%nat -> rd sp' i = NUL) /\
    last_name sp' len' start /\ (len' - start <= 12)%nat /\
    git__utf16_to_8 plain_host (Z.of_nat (len' - start) + 1) (str_of (drop start sp'))
    = Some (wstr "PROGRA~1").
Proof.
  apply (short_name_is_last_name plain_host example_short_path example_malloc
           [] [] (cstr "C:\Program Files") (wstr "PROGRA~1")).
  vm_compute. reflexivity.
Defined.
